(* ===== verification/_CoqProject ===== *)
-Q . S2P
Prelude.v
Ast.v
Namespace.v
Walker.v
Datums.v
Scanner.v
Heuristic.v
Escape.v
Expr.v
Cache.v
Float.v
IR.v
RtSig.v
CoreEmit.v
StmtEmit.v
ExprEmit.v
Wellformed.v
Exec.v
Assign.v
Errcodes.v
Raise.v
SqlStmts.v
Memory.v
NativeArray.v
NativeStore.v
Call.v
Params.v
SimpleExpr.v
Closure.v
Demo.v
ExprDemo.v
SqlProps.v
Interp.v
Scoping.v
CompileTotal.v
Fuel.v
Respect.v
Machine.v
FlatMachine.v
Growth.v
ExprWf.v
ExprTotal.v
DeclTypes.v
SqlEval.v
SimRel.v
Runs.v
NativeRun.v
NativeAssign.v
NativeDemo.v
ExprSim.v
ValueSim.v
ExprProps.v
Inlining.v
Simulation.v
Correct.v
Handler.v
InlinedCorrect.v
ParamProps.v
SimpleSteps.v
SimpleDemo.v
