(* ===== verification/Prelude.v ===== *)
(** * uplpgsql: a verification development

    uplpgsql is a PL/pgSQL call handler for PostgreSQL with a JIT compiler.  A
    function is parsed once per session into a tree of statements and an array of
    variables ("datums").  When it is called for the first time, a heuristic decides
    whether it is worth compiling; if so, the statement compiler turns the tree into
    LLVM code that calls runtime helpers for what it does not do inline, and the code
    goes into a cache.  Otherwise, and whenever compilation fails, the function is run
    by the interpreter, which is also the reference for what compiled code must do.

    ** How the parts interact

    The scanner asks the core lexer of PostgreSQL for tokens, puts words together and
    looks them up in the namespace and the datum array, which the grammar's actions
    build.  The parser's result is a [UPLpgSQL_function].  The call handler looks in the
    cache; on a miss it asks the heuristic, runs the statement compiler, which drives
    the core's emission primitives, and stores the result.  The interpreter and the
    runtime helpers share the functions that assign variables, evaluate expressions and
    run SQL.  The theorem [Correct.compiled_function_agrees] ties the two ways of
    running a function together, and [Handler.call_handler_transparent] says that the
    handler's choice between them does not show.

    ** Files, in dependency order

    - Prelude: this header; compile-time results, lemmas on lists and on machine
      integers, tactics.
    - Ast: the structs of [common/upl_plpgsql.h]: types, expressions, datums, the
      twenty-seven statements, functions.
    - Namespace: the chain of visible names, [common/upl_funcs.c].
    - Walker: the statement tree walker and its clients, [common/upl_funcs.c].
    - Datums: building datums and resolving names to them, [common/upl_comp.c], and
      [copy_uplpgsql_datums] of [common/upl_exec.c].
    - Scanner: [drivers/plpgsql/upl_scanner.c].
    - Heuristic, Escape: [uplpgsql_should_jit] and [uplpgsql_analyze_native_arrays] of
      [common/upl_compile_stmts.c].
    - Cache: [core/upl_cache.c] and the dispatch of [uplpgsql_call_handler] in
      [drivers/plpgsql/uplpgsql_handler.c].
    - IR: the code under construction and its builder (what the program asks of LLVM).
    - RtSig: the declared types of the runtime helpers.
    - CoreEmit: [core/upl_compile.c].  StmtEmit: [common/upl_compile_stmts.c].
    - Wellformed: every block the compiler builds is complete, every branch target exists
      and every call has the arguments its callee declares, register types aside.
    - Exec: the execution state, errors, and the class of what PostgreSQL provides.
    - Assign, Raise (with the table Errcodes), SqlStmts, Interp: [common/upl_exec.c],
      bottom up: variables, rows and expressions; RAISE and conditions; statements that
      go through SPI; control flow.
    - Call: entering and leaving a function or trigger, shared by both ways of running it.
    - Params: the parameters of expressions, [uplpgsql_param_fetch],
      [uplpgsql_param_compile] and its callbacks; SimpleExpr: preparing, recognising,
      caching and evaluating simple expressions ([exec_prepare_plan] to
      [exec_eval_simple_expr]), both in [common/upl_exec.c], with the freeing of plans by
      the compiler.  ParamProps, SimpleSteps: what holds of them; SimpleDemo: a concrete
      session.
    - Closure: induction over all of the functions of Assign, Raise and SqlStmts at
      once.  Fuel, Respect and DeclTypes instantiate it.
    - Demo: a concrete environment, on which witnesses are evaluated.
    - SqlProps: what INTO does.
    - Scoping: EXIT and CONTINUE, from the grammar's check to the interpreter, and the
      dummy RETURN.  CompileTotal: the same check and the compiler.
    - Machine: running compiled code, with the helpers of [common/upl_runtime.c].
    - Growth, SimRel, Simulation, Correct: compiled code and the interpreter agree.
      Handler: [uplpgsql_exec_function], [uplpgsql_exec_trigger], their [_jit] variants and
      [uplpgsql_call_handler] put together.
    - Memory: blocks of bytes, with accesses that fail where C's are undefined;
      NativeArray, NativeStore: the helpers of [common/upl_runtime.c] on flat arrays, and
      assignments to elements with them.  FlatMachine: the machine with this memory;
      NativeRun: rules for its runs; NativeAssign: the code of a[i] := v.  NativeDemo: an
      allocator and arrays that satisfy the interfaces.
    - Expr: expression trees, their classification and the decision for calls; Float:
      doubles; ExprEmit: the expression compiler ([common/upl_compile_expr.c]); ExprWf:
      it emits complete blocks; ExprTotal: it compiles what has been classified.
      ExprDemo: a concrete compile-time environment.
    - SqlEval: what expressions mean, as a specification.  Runs: rules for running
      code as it is emitted; ExprSim: operations; ValueSim: trees, NULL tests,
      assignments and conditions; ExprProps: theorems on them.
    - Inlining: the expression compiler meets the interface of the statement compiler's
      proof (class [ExprCompilerSim] of SimRel); InlinedCorrect: whole functions.

    ** What the theorems show

    - Compiler correctness.  A compiled function ends with the return code, variables,
      return value and effects on the world that the interpreter ends with, or with an
      error of the same SQLSTATE ([same_error]: the messages differ for a NULL bound of an
      integer FOR loop and an overflow of bigint).  So says
      [Correct.compiled_function_agrees], for the statements [supported] accepts, without
      native arrays, and any expression compiler that meets [ExprCompilerSim].  Compiled
      FOR loops do not test the BY value, so it must be known to be positive
      ([covers_step], law [step_positive]).  The expression compiler of the program meets
      the interface ([InlinedCorrect.inlined_function_agrees]) on the expressions of
      [native_cover]: native arithmetic stores what PostgreSQL computes, and raises the
      errors it raises.  Its code is well formed for every input
      ([Wellformed.compile_function_wellformed]), and compilation raises no error for a
      function the parser accepted whose expressions are in the domain of the expression
      compiler ([CompileTotal.parsed_function_compiles]; for the program's own that is
      proved in ExprTotal, but for three constructs it fails on).
    - Whole calls.  A covered function or trigger called through the handler, after any
      sequence of calls, gives the result the interpreter gives
      ([Handler.call_handler_transparent]).
    - Caching.  Code the handler runs was compiled from the version of the function that
      is called, in every sequence of calls and replacements
      ([Cache.handler_runs_own_code]), and compilation happens once.
    - The interpreter.  Termination without unbounded loops, independence of the fuel,
      rows returned are never lost, datums keep their shape, an EXIT finds its
      target and a function with a dummy RETURN returns (unless an EXIT names the
      function), INTO assigns column by column.
    - Errors.  RAISE formats its message as documented and is caught by the handlers
      for its condition; class conditions catch their class; SQLSTATEs round-trip.
    - The front end.  Name lookup refines block-structured scoping; parsing leaves the
      meaning of names outside a block alone; a name resolves alike in the scanner and
      in expressions; the scanner loses no token, its stack never overflows, line
      numbers are right; a block initialises exactly what
      its DECLARE section created.
    - Expressions.  Classification agrees with evaluation
      ([SqlEval.classification_sound]); what is classified compiles
      ([ExprTotal.classified_expression_compiles]); division is never undefined, float
      comparisons know NaN, assignments store NULL, a value or nothing (ExprProps).
    - Parameters and simple expressions.  The callback chosen for a parameter delivers what
      [exec_eval_datum] does; of all the parameters of a tree, over its whole life, at most
      one delivers a read/write pointer; a tree is never entered while it runs or after an
      error left it, as long as the compiler frees no plan that is in use (ParamProps,
      SimpleSteps; SimpleDemo shows what happens if it does).
    - Native arrays.  The code of a[i] := v makes of the flat array what PostgreSQL makes
      of the array, without touching memory that is not the array's
      ([NativeAssign.emit_native_set_correct]); writing an array back and reading it again
      loses nothing ([NativeStore.native_array_roundtrip]), except that an empty array is
      not written back at all.
    - Analyses.  The escape analysis is compared with what its comment promises: it finds
      every escaping use but those in positions of a given list
      ([Escape.analyze_native_arrays_spec]).  The marking of local assignment targets and
      the release of plans equal declarative descriptions.

    ** Conventions, fuel and bounds

    Integers are [Z], with the range tests and wrap-around of the code written out;
    Datums are 64-bit words in [Z]; indexes into the datum array and block numbers are
    [nat].  [ereport(ERROR)] is a value ([Failure] while compiling, [Err] while
    executing).  A wild pointer is an outcome of its own ([Stuck], [CUndefined], the
    outer [None] of a lookup), never a default value.  Loops over finite chains take
    their length as fuel, and the theorems exclude the outcome in which it runs out.
    The interpreter's fuel counts nesting and iterations: [Fuel.exec_stmts_mono] says
    that more changes nothing, [Fuel.exec_stmts_terminates] that enough exists for
    statements without unbounded loops.

    What PostgreSQL does is a parameter: class [PgEnv] (file Exec) for the executor,
    SPI, casts and the catalogue; [ParamEnv] and [SimpleEnv] for what parameters and simple
    expressions ask of the plan cache and the executor; [PgMemory] and [PgArrays] (files
    Memory, NativeArray) with their laws for the allocator and for PostgreSQL's arrays;
    section variables for the core lexer and for catalogue lookups elsewhere.  Files Demo,
    SimpleDemo and NativeDemo instantiate them.

    What the theorem on inlined expressions covers is decided by [Inlining.native_cover]:
    native trees over watched variables (a map from variables to their declared types,
    which every statement keeps) that are not booleans, whose strict operators cannot
    hide an error behind a NULL ([null_safe]), assigned to a variable of the same type.
    Reading elements of arrays, mathematical functions and calls (tier 2) are compiled by
    the model and proved well formed, but not run.

    An element of a native array is a 32-bit or 64-bit word; a byte of memory is [None]
    until it is written.  [NativeArray.max_elements] is the limit of the code, and all
    sizes are computed at 32 bits as the code computes them.

    ** Not modelled

    - PostgreSQL itself: SPI, the executor, plan caches, expanded objects, memory
      contexts.
    - LLVM itself, and its set-up in [core/upl_llvm.c] and [core/upl_datum.c]: IR types,
      optimisation passes, the ORC session.
    - The machine does not run the direct access to record fields and mathematical
      functions.
    - At run time of compiled code: exception frames ([sigsetjmp]) and cursor loops.  They
      are emitted and proved well formed, but the machine does not execute them, and
      [Correct.supported] excludes them.  Of native arrays, the machine runs the code of
      assignments to elements; the correctness of whole functions excludes them.
    - The subtransaction in which the handler compiles, and what a failed compilation
      leaves behind: compiling is a function of the parsed function here.  The plans made
      while compiling are a parameter ([prepared], [query_result_desc]).
    - [uplpgsql_compile_callback]: argument types, polymorphism, trigger variables;
      building types from the catalogue; validator and inline handler.
    - [drivers/plpgsql/upl_gram.c] is generated from [upl_gram.y]; of the grammar, the
      actions that check EXIT, CONTINUE, RAISE and conditions are modelled.
    - [uplpgsql_dumptree], which prints a function for debugging; error positions. *)

From Stdlib Require Import ZArith Lia.
From stdpp Require Export base list strings gmap option.

Create HintDb upl discriminated.

(** ** Compile-time results

    [elog(ERROR, ...)] raised while the compiler runs is a value: the message
    of the error; everything else is a normal result. *)
Inductive result (A : Type) : Type :=
  | Success (a : A)
  | Failure (msg : string).
Arguments Success {A} _.
Arguments Failure {A} _.

Declare Scope result_scope.
Delimit Scope result_scope with result.

Definition rbind {A B} (m : result A) (k : A -> result B) : result B :=
  match m with
  | Success a => k a
  | Failure e => Failure e
  end.

Notation "x <-! m ; k" := (rbind m (fun x => k))
  (at level 80, m at next level, right associativity) : result_scope.

Lemma rbind_Success {A B} (m : result A) (k : A -> result B) b :
  rbind m k = Success b -> exists a, m = Success a /\ k a = Success b.
Proof. destruct m; simpl; [eauto | discriminate]. Qed.

(** Take every [rbind _ _ = Success _] hypothesis apart. *)
Ltac inv_rbind :=
  repeat match goal with
  | H : rbind _ _ = Success _ |- _ =>
      let a := fresh "a" in let E := fresh "E" in
      apply rbind_Success in H as (a & E & H)
  | H : Success _ = Success _ |- _ => injection H as H; subst
  | H : Failure _ = Success _ |- _ => discriminate H
  end.

(** ** 32-bit integers

    The C code keeps loop counters and subscripts in [int32]; the model keeps
    them in [Z] with the wrap-around written out. *)
Definition PG_INT32_MIN : Z := -2147483648.
Definition PG_INT32_MAX : Z := 2147483647.

Definition in_int32 (z : Z) : Prop := (PG_INT32_MIN <= z <= PG_INT32_MAX)%Z.

Definition wrap32 (z : Z) : Z := ((z + 2147483648) mod 4294967296 - 2147483648)%Z.

Ltac unfold_int32 := unfold in_int32, PG_INT32_MIN, PG_INT32_MAX, wrap32 in *.

Lemma wrap32_range z : in_int32 (wrap32 z).
Proof.
  unfold_int32. pose proof (Z.mod_pos_bound (z + 2147483648) 4294967296). lia.
Qed.

Lemma wrap32_id z : in_int32 z -> wrap32 z = z.
Proof. unfold_int32. intros H. rewrite Z.mod_small by lia. lia. Qed.

(** The same for 64 bits. *)
Definition PG_INT64_MIN : Z := -9223372036854775808.
Definition PG_INT64_MAX : Z := 9223372036854775807.

Definition in_int64 (z : Z) : Prop := (PG_INT64_MIN <= z <= PG_INT64_MAX)%Z.

Definition wrap64 (z : Z) : Z :=
  ((z + 9223372036854775808) mod 18446744073709551616 - 9223372036854775808)%Z.

Ltac unfold_int64 := unfold in_int64, PG_INT64_MIN, PG_INT64_MAX, wrap64 in *.

Lemma wrap64_range z : in_int64 (wrap64 z).
Proof.
  unfold_int64. pose proof (Z.mod_pos_bound (z + 9223372036854775808) 18446744073709551616). lia.
Qed.

Lemma wrap64_id z : in_int64 z -> wrap64 z = z.
Proof. unfold_int64. intros H. rewrite Z.mod_small by lia. lia. Qed.

(** The low half of a word. *)
Lemma wrap32_wrap64 z : wrap32 (wrap64 z) = wrap32 z.
Proof.
  unfold wrap32, wrap64. f_equal. rewrite (Z.mod_eq (z + 9223372036854775808)) by done.
  set (q := ((z + 9223372036854775808) / 18446744073709551616)%Z).
  rewrite <- (Z_mod_plus_full (z + 2147483648) (- (q * 4294967296))). f_equal. lia.
Qed.

Lemma wrap32_above z :
  (PG_INT32_MAX < z < PG_INT32_MAX + 4294967296)%Z -> wrap32 z = (z - 4294967296)%Z.
Proof.
  unfold_int32. intros H.
  rewrite <- (Z.mod_unique (z + 2147483648) 4294967296 1 (z + 2147483648 - 4294967296)); lia.
Qed.

Lemma wrap32_below z :
  (PG_INT32_MIN - 4294967296 <= z < PG_INT32_MIN)%Z -> wrap32 z = (z + 4294967296)%Z.
Proof.
  unfold_int32. intros H.
  rewrite <- (Z.mod_unique (z + 2147483648) 4294967296 (-1) (z + 2147483648 + 4294967296)); lia.
Qed.

(** Adding a non-negative step wraps exactly when the result compares below
    the operand: the test the generated code uses instead of the interpreter's
    comparison against [PG_INT32_MAX - step]. *)
Lemma wrap32_add_lt a s :
  in_int32 a -> (0 <= s <= PG_INT32_MAX)%Z ->
  (wrap32 (a + s) < a)%Z <-> (a > PG_INT32_MAX - s)%Z.
Proof.
  intros Ha Hs. destruct (Z_le_gt_dec (a + s) PG_INT32_MAX) as [H|H].
  - rewrite wrap32_id; unfold_int32; lia.
  - rewrite wrap32_above; unfold_int32; lia.
Qed.

Lemma wrap32_sub_gt a s :
  in_int32 a -> (0 <= s <= PG_INT32_MAX)%Z ->
  (wrap32 (a - s) > a)%Z <-> (a < PG_INT32_MIN + s)%Z.
Proof.
  intros Ha Hs. destruct (Z_lt_ge_dec (a - s) PG_INT32_MIN) as [H|H].
  - rewrite wrap32_below; unfold_int32; lia.
  - rewrite wrap32_id; unfold_int32; lia.
Qed.

#[export] Hint Resolve wrap32_range : upl.

(** ** Lists *)

Lemma prefix_snoc_lookup {A} (l l' : list A) x :
  (l ++ [x]) `prefix_of` l' -> l' !! length l = Some x.
Proof.
  intros [k ->]. rewrite <- (assoc_L (++)). now apply list_lookup_middle.
Qed.

Lemma prefix_snoc_l {A} (l l' : list A) x :
  (l ++ [x]) `prefix_of` l' -> l `prefix_of` l'.
Proof. intros [k ->]. rewrite <- (assoc_L (++)). now exists ([x] ++ k). Qed.

Lemma elem_of_map {A B} (f : A -> B) (l : list A) y :
  y ∈ map f l <-> exists x, x ∈ l /\ f x = y.
Proof.
  rewrite list_elem_of_In, in_map_iff. setoid_rewrite list_elem_of_In. firstorder.
Qed.

Lemma elem_of_concat {A} (ls : list (list A)) y : y ∈ concat ls <-> exists l, l ∈ ls /\ y ∈ l.
Proof. rewrite list_elem_of_In, in_concat. setoid_rewrite list_elem_of_In. reflexivity. Qed.

Lemma existsb_elem {A} (f : A -> bool) l : existsb f l = true <-> exists x, x ∈ l /\ f x = true.
Proof.
  rewrite existsb_exists. setoid_rewrite list_elem_of_In. reflexivity.
Qed.

Lemma forallb_elem {A} (p : A -> bool) l x : forallb p l = true -> x ∈ l -> p x = true.
Proof. rewrite forallb_forall. intros Hp Hx. apply Hp. by apply list_elem_of_In. Qed.

(** A pointer that may be NULL, as a list of at most one element. *)
Definition opt_list {A} (o : option A) : list A :=
  match o with Some x => [x] | None => [] end.
