(* ===== verification/Ast.v ===== *)
(** * The PL/pgSQL parse tree and datum array

    The structs of [common/upl_plpgsql.h]: expressions, data types, the four
    kinds of datum, the twenty-seven statement nodes, and the function that
    holds them.  Every struct is a record with the source's fields; fields that
    only PostgreSQL's planner or error reporting look at (cached plans'
    internals, collations, [stmtid] counters of a profiler) are left out.

    A statement struct refers to sub-statements, so its record is
    parameterised by the type of statements and [UPLpgSQL_stmt] ties the knot;
    [stmt_ind'] is the induction principle that reaches through the lists. *)

From Stdlib Require Import ZArith Ascii.
From S2P Require Import Prelude.

(** ** Machine-level types *)
Definition Oid := Z.
(** A [Datum] is a 64-bit word: a by-value datum or a pointer. *)
Definition Datum := Z.
Bind Scope Z_scope with Oid Datum.
Definition InvalidOid : Oid := 0%Z.
Definition BOOLOID : Oid := 16%Z.
Definition INT8OID : Oid := 20%Z.
Definition INT4OID : Oid := 23%Z.
Definition FLOAT8OID : Oid := 701%Z.
Definition TEXTOID : Oid := 25%Z.
Definition OIDOID : Oid := 26%Z.
Definition UNKNOWNOID : Oid := 705%Z.
Definition RECORDOID : Oid := 2249%Z.
Definition VOIDOID : Oid := 2278%Z.

(** ** Types and expressions *)
Inductive UPLpgSQL_type_type := TTYPE_SCALAR | TTYPE_REC | TTYPE_PSEUDO.

Record UPLpgSQL_type := mk_type {
  typname : string;
  typoid : Oid;
  ttype : UPLpgSQL_type_type;
  typlen : Z;
  typbyval : bool;
  typtype : ascii;
  typisarray : bool;
  atttypmod : Z
}.

(** [plan] is "the plan pointer is not NULL" when the function is compiled; at
    run time plans belong to the state ([has_plan] of file Exec).  [paramnos] is the bitmapset of
    datum numbers the query references. *)
Record UPLpgSQL_expr := mk_expr {
  query : string;
  target_param : Z;
  target_is_local : bool;
  plan : bool;
  paramnos : list nat
}.

(** ** Row types

    PostgreSQL's [TupleDesc], and a row as the values of its columns. *)
Record pg_attribute := mk_attr {
  att_typid : Oid;
  att_typmod : Z;
  attisdropped : bool;
  attlen : Z;
  attalign : ascii
}.
Record TupleDesc := mk_tupdesc { tdtypeid : Oid; tdtypmod : Z; attrs : list pg_attribute }.
Definition natts (d : TupleDesc) : nat := length (attrs d).
Abbreviation tuple := (list (Datum * bool)).

(** ** Datums *)
Inductive UPLpgSQL_promise_type :=
  | PROMISE_NONE | PROMISE_TG_NAME | PROMISE_TG_WHEN | PROMISE_TG_LEVEL
  | PROMISE_TG_OP | PROMISE_TG_RELID | PROMISE_TG_TABLE_NAME
  | PROMISE_TG_TABLE_SCHEMA | PROMISE_TG_NARGS | PROMISE_TG_ARGV
  | PROMISE_TG_EVENT | PROMISE_TG_TAG.

(** The fields [UPLpgSQL_var], [UPLpgSQL_row] and [UPLpgSQL_rec] share. *)
Record UPLpgSQL_variable := mk_variable {
  dno : nat;
  refname : string;
  isconst : bool;
  notnull : bool;
  default_val : option UPLpgSQL_expr
}.

Record UPLpgSQL_var := mk_var {
  var_head : UPLpgSQL_variable;
  var_datatype : UPLpgSQL_type;
  cursor_explicit_expr : option UPLpgSQL_expr;
  cursor_explicit_argrow : Z;
  cursor_options : Z;
  value : Datum;
  isnull : bool;
  freeval : bool;
  promise : UPLpgSQL_promise_type
}.

Record UPLpgSQL_row := mk_row {
  row_head : UPLpgSQL_variable;
  rowtupdesc : option TupleDesc;
  fieldnames : list string;
  varnos : list nat
}.

(** [erh] is the expanded record the variable points to, [None] for NULL. *)
Record UPLpgSQL_rec := mk_rec {
  rec_head : UPLpgSQL_variable;
  rec_datatype : option UPLpgSQL_type;
  rectypeid : Oid;
  firstfield : Z;
  erh : option Datum
}.

Record UPLpgSQL_recfield := mk_recfield {
  rf_dno : nat;
  fieldname : string;
  recparentno : nat;
  nextfield : Z
}.

(** [UPLpgSQL_datum] with its [dtype] discriminator. *)
Inductive UPLpgSQL_datum :=
  | DTYPE_VAR (v : UPLpgSQL_var)
  | DTYPE_ROW (r : UPLpgSQL_row)
  | DTYPE_REC (r : UPLpgSQL_rec)
  | DTYPE_RECFIELD (f : UPLpgSQL_recfield)
  | DTYPE_PROMISE (v : UPLpgSQL_var).

(** ** Statements *)

(** The header every statement struct starts with. *)
Record stmt_head := mk_head { lineno : Z; stmtid : nat }.

(** [sqlerrstate] is a packed SQLSTATE or [UPLPGSQL_OTHERS]; the [next] chain
    of conditions is a list. *)
Record UPLpgSQL_condition := mk_condition { sqlerrstate : Z; condname : string }.
Definition UPLPGSQL_OTHERS : Z := (-1)%Z.

Inductive UPLpgSQL_getdiag_kind :=
  | GETDIAG_ROW_COUNT | GETDIAG_ROUTINE_OID | GETDIAG_CONTEXT
  | GETDIAG_ERROR_CONTEXT | GETDIAG_ERROR_DETAIL | GETDIAG_ERROR_HINT
  | GETDIAG_RETURNED_SQLSTATE | GETDIAG_COLUMN_NAME | GETDIAG_CONSTRAINT_NAME
  | GETDIAG_DATATYPE_NAME | GETDIAG_MESSAGE_TEXT | GETDIAG_TABLE_NAME
  | GETDIAG_SCHEMA_NAME.

Inductive UPLpgSQL_raise_option_type :=
  | RAISEOPTION_ERRCODE | RAISEOPTION_MESSAGE | RAISEOPTION_DETAIL
  | RAISEOPTION_HINT | RAISEOPTION_COLUMN | RAISEOPTION_CONSTRAINT
  | RAISEOPTION_DATATYPE | RAISEOPTION_TABLE | RAISEOPTION_SCHEMA.

Section statements.
Context (S : Type).

Record UPLpgSQL_exception := mk_exception {
  exc_lineno : Z;
  conditions : list UPLpgSQL_condition;
  action : list S
}.

Record UPLpgSQL_exception_block := mk_exception_block {
  exc_sqlstate_varno : nat;
  exc_sqlerrm_varno : nat;
  exc_list : list UPLpgSQL_exception
}.

(** [blk_sqlstate_varno] is [None] for -1. *)
Record UPLpgSQL_stmt_block := mk_block {
  blk_label : option string;
  blk_body : list S;
  initvarnos : list nat;
  exceptions : option UPLpgSQL_exception_block;
  blk_sqlstate_varno : option nat
}.

Record UPLpgSQL_if_elsif := mk_elsif {
  elsif_lineno : Z;
  elsif_cond : UPLpgSQL_expr;
  elsif_stmts : list S
}.

Record UPLpgSQL_stmt_if := mk_if {
  if_cond : UPLpgSQL_expr;
  then_body : list S;
  elsif_list : list UPLpgSQL_if_elsif;
  else_body : list S
}.

Record UPLpgSQL_case_when := mk_case_when {
  when_lineno : Z;
  when_expr : UPLpgSQL_expr;
  when_stmts : list S
}.

Record UPLpgSQL_stmt_case := mk_case {
  t_expr : option UPLpgSQL_expr;
  t_varno : nat;
  case_when_list : list UPLpgSQL_case_when;
  have_else : bool;
  else_stmts : list S
}.

Record UPLpgSQL_stmt_loop := mk_loop {
  loop_label : option string;
  loop_body : list S
}.

Record UPLpgSQL_stmt_while := mk_while {
  while_label : option string;
  while_cond : UPLpgSQL_expr;
  while_body : list S;
  test_at_top : bool
}.

(** [fori_var] is [var->dno]. *)
Record UPLpgSQL_stmt_fori := mk_fori {
  fori_label : option string;
  fori_var : nat;
  fori_lower : UPLpgSQL_expr;
  fori_upper : UPLpgSQL_expr;
  fori_step : option UPLpgSQL_expr;
  fori_reverse : bool;
  fori_body : list S
}.

(** The supertype of the three row loops; [forq_var] is [var->dno]. *)
Record UPLpgSQL_stmt_forq := mk_forq {
  forq_label : option string;
  forq_var : nat;
  forq_body : list S
}.

Record UPLpgSQL_stmt_fors := mk_fors {
  fors_q : UPLpgSQL_stmt_forq;
  fors_query : UPLpgSQL_expr
}.

Record UPLpgSQL_stmt_forc := mk_forc {
  forc_q : UPLpgSQL_stmt_forq;
  forc_curvar : nat;
  forc_argquery : option UPLpgSQL_expr
}.

Record UPLpgSQL_stmt_dynfors := mk_dynfors {
  dynfors_q : UPLpgSQL_stmt_forq;
  dynfors_query : UPLpgSQL_expr;
  dynfors_params : list UPLpgSQL_expr
}.

Record UPLpgSQL_stmt_foreach_a := mk_foreach_a {
  foreach_label : option string;
  foreach_varno : nat;
  foreach_slice : Z;
  foreach_expr : UPLpgSQL_expr;
  foreach_body : list S
}.
End statements.

Arguments mk_exception {S}. Arguments exc_lineno {S}. Arguments conditions {S}.
Arguments action {S}.
Arguments mk_exception_block {S}. Arguments exc_sqlstate_varno {S}.
Arguments exc_sqlerrm_varno {S}. Arguments exc_list {S}.
Arguments mk_block {S}. Arguments blk_label {S}. Arguments blk_body {S}.
Arguments initvarnos {S}. Arguments exceptions {S}. Arguments blk_sqlstate_varno {S}.
Arguments mk_elsif {S}. Arguments elsif_lineno {S}. Arguments elsif_cond {S}.
Arguments elsif_stmts {S}.
Arguments mk_if {S}. Arguments if_cond {S}. Arguments then_body {S}.
Arguments elsif_list {S}. Arguments else_body {S}.
Arguments mk_case_when {S}. Arguments when_lineno {S}. Arguments when_expr {S}.
Arguments when_stmts {S}.
Arguments mk_case {S}. Arguments t_expr {S}. Arguments t_varno {S}.
Arguments case_when_list {S}. Arguments have_else {S}. Arguments else_stmts {S}.
Arguments mk_loop {S}. Arguments loop_label {S}. Arguments loop_body {S}.
Arguments mk_while {S}. Arguments while_label {S}. Arguments while_cond {S}.
Arguments while_body {S}. Arguments test_at_top {S}.
Arguments mk_fori {S}. Arguments fori_label {S}. Arguments fori_var {S}.
Arguments fori_lower {S}. Arguments fori_upper {S}. Arguments fori_step {S}.
Arguments fori_reverse {S}. Arguments fori_body {S}.
Arguments mk_forq {S}. Arguments forq_label {S}. Arguments forq_var {S}.
Arguments forq_body {S}.
Arguments mk_fors {S}. Arguments fors_q {S}. Arguments fors_query {S}.
Arguments mk_forc {S}. Arguments forc_q {S}. Arguments forc_curvar {S}.
Arguments forc_argquery {S}.
Arguments mk_dynfors {S}. Arguments dynfors_q {S}. Arguments dynfors_query {S}.
Arguments dynfors_params {S}.
Arguments mk_foreach_a {S}. Arguments foreach_label {S}. Arguments foreach_varno {S}.
Arguments foreach_slice {S}. Arguments foreach_expr {S}. Arguments foreach_body {S}.

Record UPLpgSQL_stmt_assign := mk_assign { assign_varno : nat; assign_expr : UPLpgSQL_expr }.
Record UPLpgSQL_stmt_perform := mk_perform { perform_expr : UPLpgSQL_expr }.
Record UPLpgSQL_stmt_call := mk_call { call_expr : UPLpgSQL_expr; is_call : bool }.
Record UPLpgSQL_stmt_commit := mk_commit { commit_chain : bool }.
Record UPLpgSQL_stmt_rollback := mk_rollback { rollback_chain : bool }.
Record UPLpgSQL_diag_item := mk_diag_item { kind : UPLpgSQL_getdiag_kind; diag_target : nat }.
Record UPLpgSQL_stmt_getdiag := mk_getdiag {
  is_stacked : bool; diag_items : list UPLpgSQL_diag_item }.
Record UPLpgSQL_stmt_open := mk_open {
  open_curvar : nat;
  open_cursor_options : Z;
  open_argquery : option UPLpgSQL_expr;
  open_query : option UPLpgSQL_expr;
  open_dynquery : option UPLpgSQL_expr;
  open_params : list UPLpgSQL_expr
}.
(** [fetch_target] is [target->dno]; [None] for a MOVE. *)
Record UPLpgSQL_stmt_fetch := mk_fetch {
  fetch_target : option nat;
  fetch_curvar : nat;
  direction : Z;
  how_many : Z;
  fetch_expr : option UPLpgSQL_expr;
  is_move : bool
}.
Record UPLpgSQL_stmt_close := mk_close { close_curvar : nat }.
Record UPLpgSQL_stmt_exit := mk_exit {
  is_exit : bool;
  exit_label : option string;
  exit_cond : option UPLpgSQL_expr
}.
(** [retvarno] is [None] for -1. *)
Record UPLpgSQL_stmt_return := mk_return {
  ret_expr : option UPLpgSQL_expr;
  retvarno : option nat
}.
Record UPLpgSQL_stmt_return_next := mk_return_next {
  retnext_expr : option UPLpgSQL_expr;
  retnext_varno : option nat
}.
Record UPLpgSQL_stmt_return_query := mk_return_query {
  retq_query : option UPLpgSQL_expr;
  retq_dynquery : option UPLpgSQL_expr;
  retq_params : list UPLpgSQL_expr
}.
Record UPLpgSQL_raise_option := mk_raise_option {
  opt_type : UPLpgSQL_raise_option_type; opt_expr : UPLpgSQL_expr }.
Record UPLpgSQL_stmt_raise := mk_raise {
  elog_level : Z;
  raise_condname : option string;
  message : option string;
  raise_params : list UPLpgSQL_expr;
  raise_options : list UPLpgSQL_raise_option
}.
Record UPLpgSQL_stmt_assert := mk_assert {
  assert_cond : UPLpgSQL_expr; assert_message : option UPLpgSQL_expr }.
(** [sql_target] is [target->dno]. *)
Record UPLpgSQL_stmt_execsql := mk_execsql {
  sqlstmt : UPLpgSQL_expr;
  sql_into : bool;
  sql_strict : bool;
  sql_target : option nat
}.
Record UPLpgSQL_stmt_dynexecute := mk_dynexecute {
  dyn_query : UPLpgSQL_expr;
  dyn_into : bool;
  dyn_strict : bool;
  dyn_target : option nat;
  dyn_params : list UPLpgSQL_expr
}.

#[local] Set Warnings "-register-all".

(** [UPLpgSQL_stmt] with its [cmd_type] discriminator. *)
Inductive UPLpgSQL_stmt :=
  | STMT_BLOCK (h : stmt_head) (s : UPLpgSQL_stmt_block UPLpgSQL_stmt)
  | STMT_ASSIGN (h : stmt_head) (s : UPLpgSQL_stmt_assign)
  | STMT_IF (h : stmt_head) (s : UPLpgSQL_stmt_if UPLpgSQL_stmt)
  | STMT_CASE (h : stmt_head) (s : UPLpgSQL_stmt_case UPLpgSQL_stmt)
  | STMT_LOOP (h : stmt_head) (s : UPLpgSQL_stmt_loop UPLpgSQL_stmt)
  | STMT_WHILE (h : stmt_head) (s : UPLpgSQL_stmt_while UPLpgSQL_stmt)
  | STMT_FORI (h : stmt_head) (s : UPLpgSQL_stmt_fori UPLpgSQL_stmt)
  | STMT_FORS (h : stmt_head) (s : UPLpgSQL_stmt_fors UPLpgSQL_stmt)
  | STMT_FORC (h : stmt_head) (s : UPLpgSQL_stmt_forc UPLpgSQL_stmt)
  | STMT_FOREACH_A (h : stmt_head) (s : UPLpgSQL_stmt_foreach_a UPLpgSQL_stmt)
  | STMT_EXIT (h : stmt_head) (s : UPLpgSQL_stmt_exit)
  | STMT_RETURN (h : stmt_head) (s : UPLpgSQL_stmt_return)
  | STMT_RETURN_NEXT (h : stmt_head) (s : UPLpgSQL_stmt_return_next)
  | STMT_RETURN_QUERY (h : stmt_head) (s : UPLpgSQL_stmt_return_query)
  | STMT_RAISE (h : stmt_head) (s : UPLpgSQL_stmt_raise)
  | STMT_ASSERT (h : stmt_head) (s : UPLpgSQL_stmt_assert)
  | STMT_EXECSQL (h : stmt_head) (s : UPLpgSQL_stmt_execsql)
  | STMT_DYNEXECUTE (h : stmt_head) (s : UPLpgSQL_stmt_dynexecute)
  | STMT_DYNFORS (h : stmt_head) (s : UPLpgSQL_stmt_dynfors UPLpgSQL_stmt)
  | STMT_GETDIAG (h : stmt_head) (s : UPLpgSQL_stmt_getdiag)
  | STMT_OPEN (h : stmt_head) (s : UPLpgSQL_stmt_open)
  | STMT_FETCH (h : stmt_head) (s : UPLpgSQL_stmt_fetch)
  | STMT_CLOSE (h : stmt_head) (s : UPLpgSQL_stmt_close)
  | STMT_PERFORM (h : stmt_head) (s : UPLpgSQL_stmt_perform)
  | STMT_CALL (h : stmt_head) (s : UPLpgSQL_stmt_call)
  | STMT_COMMIT (h : stmt_head) (s : UPLpgSQL_stmt_commit)
  | STMT_ROLLBACK (h : stmt_head) (s : UPLpgSQL_stmt_rollback).

(** ** Functions *)
Record UPLpgSQL_function := mk_function {
  fn_oid : Oid;
  fn_signature : string;
  fn_rettype : Oid;
  fn_rettyplen : Z;
  fn_retbyval : bool;
  fn_retistuple : bool;
  fn_retisdomain : bool;
  fn_retset : bool;
  fn_is_procedure : bool;
  fn_argvarnos : list nat;
  fn_found_varno : nat;
  new_varno : nat;
  old_varno : nat;
  fn_print_strict_params : bool;
  fn_readonly : bool;
  datums : list UPLpgSQL_datum;
  fn_action : UPLpgSQL_stmt_block UPLpgSQL_stmt
}.

(** A function that returns one value of a four-byte type. *)
Definition scalar_function (oid : Oid) (signature : string) (rettype : Oid) (is_procedure : bool)
    (argvarnos : list nat) (found : nat) (ds : list UPLpgSQL_datum)
    (body : UPLpgSQL_stmt_block UPLpgSQL_stmt) : UPLpgSQL_function :=
  mk_function oid signature rettype 4 true false false false is_procedure argvarnos found 0 0 false false ds body.

(** ** Recursion through statement lists *)

(** The statement lists directly inside a statement, in source order. *)
Definition sub_bodies (s : UPLpgSQL_stmt) : list (list UPLpgSQL_stmt) :=
  match s with
  | STMT_BLOCK _ b =>
      blk_body b ::
      match exceptions b with
      | Some e => map action (exc_list e)
      | None => []
      end
  | STMT_IF _ i => then_body i :: map elsif_stmts (elsif_list i) ++ [else_body i]
  | STMT_CASE _ c => map when_stmts (case_when_list c) ++ [else_stmts c]
  | STMT_LOOP _ l => [loop_body l]
  | STMT_WHILE _ w => [while_body w]
  | STMT_FORI _ f => [fori_body f]
  | STMT_FORS _ f => [forq_body (fors_q f)]
  | STMT_FORC _ f => [forq_body (forc_q f)]
  | STMT_DYNFORS _ f => [forq_body (dynfors_q f)]
  | STMT_FOREACH_A _ f => [foreach_body f]
  | _ => []
  end.

Section stmt_induction.
Context (P : UPLpgSQL_stmt -> Prop).
Context (H : forall s, Forall (Forall P) (sub_bodies s) -> P s).

Definition forall_list (IH : forall s, P s) : forall l, Forall P l :=
  fix go l := match l with
              | [] => Forall_nil_2 P
              | x :: l' => Forall_cons_2 P x l' (IH x) (go l')
              end.

Definition forall_map {A} (f : A -> list UPLpgSQL_stmt) (IHf : forall a, Forall P (f a))
    : forall l, Forall (Forall P) (map f l) :=
  fix go l := match l with
              | [] => Forall_nil_2 _
              | x :: l' => Forall_cons_2 _ (f x) (map f l') (IHf x) (go l')
              end.

Lemma stmt_ind' : forall s, P s.
Proof.
  fix IH 1. intros s. apply H. destruct s as
    [h [lbl body vars exc sv] | | h [c th el els] | h [te tv ws he els] | h [lbl body]
    | h [lbl c body t] | h [lbl v lo up st r body] | h [[lbl v body] q] | h [[lbl v body] cv aq]
    | h [lbl v sl e body] | | | | | | | | | h [[lbl v body] q ps] | | | | | | | |]; simpl;
    repeat (apply Forall_cons_2; [apply (forall_list IH)|]); try apply Forall_nil_2.
  - destruct exc as [[sn en l]|]; simpl; [|apply Forall_nil_2].
    apply (forall_map action). intros [ln cs act]. apply (forall_list IH).
  - apply Forall_app_2; [|apply Forall_cons_2; [apply (forall_list IH) | apply Forall_nil_2]].
    apply (forall_map elsif_stmts). intros [ln c' act]. apply (forall_list IH).
  - apply Forall_app_2; [|apply Forall_cons_2; [apply (forall_list IH) | apply Forall_nil_2]].
    apply (forall_map when_stmts). intros [ln c' act]. apply (forall_list IH).
Qed.
End stmt_induction.

(** [c] lists the sub-statements of [s] in order. *)
Definition sub_stmts (s : UPLpgSQL_stmt) : list UPLpgSQL_stmt := concat (sub_bodies s).

(** ** Folding over a statement tree

    [f] gets the statement and the results of its sub-statements, grouped by
    body as in [sub_bodies]. *)
Section fold.
Context {R : Type} (f : UPLpgSQL_stmt -> list (list R) -> R).

Fixpoint fold_stmt (s : UPLpgSQL_stmt) : R :=
  f s
    match s with
    | STMT_BLOCK _ b =>
        map fold_stmt (blk_body b) ::
        match exceptions b with
        | Some e => map (fun x => map fold_stmt (action x)) (exc_list e)
        | None => []
        end
    | STMT_IF _ i =>
        map fold_stmt (then_body i) ::
        map (fun x => map fold_stmt (elsif_stmts x)) (elsif_list i) ++
        [map fold_stmt (else_body i)]
    | STMT_CASE _ c =>
        map (fun x => map fold_stmt (when_stmts x)) (case_when_list c) ++
        [map fold_stmt (else_stmts c)]
    | STMT_LOOP _ l => [map fold_stmt (loop_body l)]
    | STMT_WHILE _ w => [map fold_stmt (while_body w)]
    | STMT_FORI _ i => [map fold_stmt (fori_body i)]
    | STMT_FORS _ i => [map fold_stmt (forq_body (fors_q i))]
    | STMT_FORC _ i => [map fold_stmt (forq_body (forc_q i))]
    | STMT_DYNFORS _ i => [map fold_stmt (forq_body (dynfors_q i))]
    | STMT_FOREACH_A _ i => [map fold_stmt (foreach_body i)]
    | _ => []
    end.

Lemma fold_stmt_eq s : fold_stmt s = f s (map (map fold_stmt) (sub_bodies s)).
Proof.
  destruct s as [? b| | | | | | | | | | | | | | | | | | | | | | | | | |]; simpl;
    rewrite ?map_app, ?map_map; try reflexivity.
  destruct (exceptions b); rewrite ?map_map; reflexivity.
Qed.
End fold.

(** [s] occurs somewhere in the statement list [l]. *)
Inductive occurs_in (s : UPLpgSQL_stmt) : list UPLpgSQL_stmt -> Prop :=
  | occurs_here l : s ∈ l -> occurs_in s l
  | occurs_below l t b : t ∈ l -> b ∈ sub_bodies t -> occurs_in s b -> occurs_in s l.

(** A boolean search of the whole tree, and what it finds. *)
Definition exists_stmt (p : UPLpgSQL_stmt -> bool) : UPLpgSQL_stmt -> bool :=
  fold_stmt (fun s rs => p s || existsb (existsb id) rs).

Lemma exists_stmt_eq p s :
  exists_stmt p s = p s || existsb (existsb (exists_stmt p)) (sub_bodies s).
Proof.
  unfold exists_stmt at 1. rewrite fold_stmt_eq. f_equal.
  induction (sub_bodies s) as [|b bs IH]; [done|]. cbn [map existsb]. f_equal; [|done].
  clear. induction b as [|t b IH]; [done|]. cbn [map existsb]. by f_equal.
Qed.

Lemma elem_ind (P : UPLpgSQL_stmt -> Prop) :
  (forall s, (forall b, b ∈ sub_bodies s -> forall t, t ∈ b -> P t) -> P s) -> forall s, P s.
Proof.
  intros H. apply stmt_ind'. intros s IH. apply H. intros b Hb t Ht.
  rewrite list.Forall_forall in IH. specialize (IH b Hb).
  rewrite list.Forall_forall in IH. auto.
Qed.

Lemma exists_stmt_spec p l :
  existsb (exists_stmt p) l = true <-> exists s, occurs_in s l /\ p s = true.
Proof.
  split.
  - intros (s & Hs & H)%existsb_elem. revert l Hs H.
    induction s as [s IH] using elem_ind. intros l Hl H.
    rewrite exists_stmt_eq in H. apply orb_true_iff in H as [H|H].
    + exists s. split; [by apply occurs_here | done].
    + apply existsb_elem in H as (b & Hb & H). apply existsb_elem in H as (t & Ht & H).
      destruct (IH b Hb t Ht b Ht H) as (u & Hu & Hp).
      exists u. split; [|done]. by apply (occurs_below _ l s b).
  - intros (s & Hin & Hp). induction Hin as [l Hl|l t b Ht Hb _ IH].
    + apply existsb_elem. exists s. split; [done|]. rewrite exists_stmt_eq, Hp. done.
    + apply existsb_elem. exists t. split; [done|]. rewrite exists_stmt_eq.
      apply orb_true_iff. right. apply existsb_elem. eauto.
Qed.
