(* ===== verification/Namespace.v ===== *)
(** * The compiler's namespace

    [common/upl_funcs.c] keeps the names visible to the statement being parsed as a
    linked chain of items, youngest first: the variables of the innermost block,
    then the label item that opened it, then the variables of the block around it,
    and so on.  A chain is a list here; two chains that share their older part, as
    the C program's tree of items does, share a suffix.

    Looking a name up is two loops over the chain, with early exits.  It is shown
    to refine the block-structured reading of the language manual: a list of scopes,
    each with a label and its variables, searched from the inside out. *)

From Stdlib Require Import ZArith Lia.
From S2P Require Import Prelude Ast.

Inductive UPLpgSQL_nsitem_type := NSTYPE_LABEL | NSTYPE_VAR | NSTYPE_REC.
#[export] Instance nsitem_type_eq : EqDecision UPLpgSQL_nsitem_type.
Proof. solve_decision. Defined.

Inductive UPLpgSQL_label_type := LABEL_BLOCK | LABEL_LOOP | LABEL_OTHER.
#[export] Instance label_type_eq : EqDecision UPLpgSQL_label_type.
Proof. solve_decision. Defined.

(** The [int] of an enumerator. *)
Definition label_type_code (t : UPLpgSQL_label_type) : Z :=
  match t with LABEL_BLOCK => 0 | LABEL_LOOP => 1 | LABEL_OTHER => 2 end.

(** [prev] is the rest of the list. *)
Record UPLpgSQL_nsitem := mk_nsitem {
  itemtype : UPLpgSQL_nsitem_type;
  itemno : Z;
  ns_name : string
}.
Abbreviation chain := (list UPLpgSQL_nsitem).

Definition is_label (i : UPLpgSQL_nsitem) : bool := bool_decide (itemtype i = NSTYPE_LABEL).

(** ** Operations *)

Definition ns_init : chain := [].

Definition ns_additem (ns_top : chain) (t : UPLpgSQL_nsitem_type) (no : Z) (name : string) : chain :=
  mk_nsitem t no name :: ns_top.

Definition ns_push (ns_top : chain) (label : option string) (label_type : UPLpgSQL_label_type) : chain :=
  ns_additem ns_top NSTYPE_LABEL (label_type_code label_type) (default "" label).

(** [None]: the loop runs off the end of the chain. *)
Fixpoint ns_pop (ns_top : chain) : option chain :=
  match ns_top with
  | [] => None
  | i :: prev => if is_label i then Some prev else ns_pop prev
  end.

(** What a loop over the items of the innermost level ends with: an item that
    [p] accepts, or the level's label and the chain behind it, or the end of the
    chain. *)
Inductive level_scan :=
  | Matched (i : UPLpgSQL_nsitem)
  | AtLabel (l : UPLpgSQL_nsitem) (prev : chain)
  | OffEnd.

Fixpoint scan_level (p : UPLpgSQL_nsitem -> bool) (ns : chain) : level_scan :=
  match ns with
  | [] => OffEnd
  | i :: prev =>
      if is_label i then AtLabel i prev
      else if p i then Matched i
      else scan_level p prev
  end.

(** The item is the one named [name], and if [more] name components follow, it is
    not a scalar. *)
Definition item_matches (name : string) (more : bool) (i : UPLpgSQL_nsitem) : bool :=
  String.eqb (ns_name i) name && (negb more || negb (bool_decide (itemtype i = NSTYPE_VAR))).

(** A name component was passed. *)
Definition given (name : option string) : bool := match name with Some _ => true | None => false end.

(** The item and [names_used]; the outer [None] is a NULL dereference.  [fuel]
    bounds the number of levels. *)
Fixpoint ns_lookup_from (fuel : nat) (ns_cur : chain) (localmode : bool)
    (name1 : string) (name2 name3 : option string) : option (option (UPLpgSQL_nsitem * nat)) :=
  match fuel, ns_cur with
  | _, [] => Some None
  | O, _ => None
  | S fuel', _ =>
      match scan_level (item_matches name1 (given name2)) ns_cur with
      | Matched i => Some (Some (i, 1))
      | OffEnd => None
      | AtLabel label prev =>
          let qualified :=
            match name2 with
            | Some name2 =>
                if String.eqb (ns_name label) name1
                then scan_level (item_matches name2 (given name3)) ns_cur
                else AtLabel label prev
            | None => AtLabel label prev
            end in
          match qualified with
          | Matched i => Some (Some (i, 2))
          | OffEnd => None
          | AtLabel _ prev =>
              if localmode then Some None
              else ns_lookup_from fuel' prev localmode name1 name2 name3
          end
      end
  end.

Definition ns_lookup (ns_cur : chain) := ns_lookup_from (length ns_cur) ns_cur.

Fixpoint ns_lookup_label (ns_cur : chain) (name : string) : option UPLpgSQL_nsitem :=
  match ns_cur with
  | [] => None
  | i :: prev => if is_label i && String.eqb (ns_name i) name then Some i else ns_lookup_label prev name
  end.

Fixpoint ns_find_nearest_loop (ns_cur : chain) : option UPLpgSQL_nsitem :=
  match ns_cur with
  | [] => None
  | i :: prev =>
      if is_label i && Z.eqb (itemno i) (label_type_code LABEL_LOOP) then Some i
      else ns_find_nearest_loop prev
  end.

(** ** Scopes: the abstract view *)

(** A scope holds its variables, youngest first. *)
Record scope := mk_scope {
  sc_label : string;
  sc_type : UPLpgSQL_label_type;
  sc_vars : list UPLpgSQL_nsitem
}.

Definition scope_ok (s : scope) : Prop := Forall (fun i => is_label i = false) (sc_vars s).

Definition label_item (s : scope) : UPLpgSQL_nsitem :=
  mk_nsitem NSTYPE_LABEL (label_type_code (sc_type s)) (sc_label s).

(** The chain that represents a list of scopes, innermost first. *)
Fixpoint flatten (ss : list scope) : chain :=
  match ss with
  | [] => []
  | s :: ss' => sc_vars s ++ label_item s :: flatten ss'
  end.

(** What a name means: in one scope, an unqualified match, else a match qualified
    by the scope's label; and the innermost scope in which it means anything. *)
Definition resolve_in (s : scope) (name1 : string) (name2 name3 : option string)
    : option (UPLpgSQL_nsitem * nat) :=
  match List.find (item_matches name1 (given name2)) (sc_vars s) with
  | Some i => Some (i, 1)
  | None =>
      match name2 with
      | Some name2 =>
          if String.eqb (sc_label s) name1
          then (fun i => (i, 2)) <$> List.find (item_matches name2 (given name3)) (sc_vars s)
          else None
      | None => None
      end
  end.

Fixpoint resolve (ss : list scope) (name1 : string) (name2 name3 : option string)
    : option (UPLpgSQL_nsitem * nat) :=
  match ss with
  | [] => None
  | s :: ss' =>
      match resolve_in s name1 name2 name3 with
      | Some r => Some r
      | None => resolve ss' name1 name2 name3
      end
  end.

Lemma scan_level_vars p vars l prev :
  Forall (fun i => is_label i = false) vars -> is_label l = true ->
  scan_level p (vars ++ l :: prev)
  = match List.find p vars with Some i => Matched i | None => AtLabel l prev end.
Proof.
  intros Hv Hl. induction Hv as [|i vars Hi Hv IH]; simpl; [by rewrite Hl|].
  rewrite Hi. by destruct (p i).
Qed.

(** One level of the search. *)
Lemma ns_lookup_level fuel s rest localmode name1 name2 name3 :
  scope_ok s ->
  ns_lookup_from (S fuel) (sc_vars s ++ label_item s :: rest) localmode name1 name2 name3
  = match resolve_in s name1 name2 name3 with
    | Some r => Some (Some r)
    | None => if localmode then Some None
              else ns_lookup_from fuel rest localmode name1 name2 name3
    end.
Proof.
  intros Hs. assert (Hl : is_label (label_item s) = true) by done.
  cbn [ns_lookup_from]. destruct (sc_vars s ++ label_item s :: rest) as [|i l] eqn:E;
    [by destruct (sc_vars s)|]. rewrite <- E. rewrite scan_level_vars by done.
  unfold resolve_in. destruct (List.find _ (sc_vars s)); [done|].
  destruct name2 as [n2|]; [|done]. simpl. destruct (String.eqb (sc_label s) name1); [|done].
  rewrite scan_level_vars by done. by destruct (List.find _ (sc_vars s)).
Qed.

Lemma ns_lookup_from_flatten fuel ss name1 name2 name3 :
  Forall scope_ok ss -> length ss <= fuel ->
  ns_lookup_from fuel (flatten ss) false name1 name2 name3 = Some (resolve ss name1 name2 name3).
Proof.
  intros Hs. revert fuel. induction Hs as [|s ss Hok Hs IH]; intros fuel Hf; [by destruct fuel|].
  destruct fuel as [|fuel]; [simpl in Hf; lia|]. simpl flatten.
  rewrite ns_lookup_level by done. simpl. destruct (resolve_in s name1 name2 name3); [done|].
  apply IH. simpl in Hf. lia.
Qed.

Lemma length_flatten ss : length ss <= length (flatten ss).
Proof. induction ss as [|s ss IH]; simpl; [lia|]. rewrite length_app. simpl. lia. Qed.

(** C12. Looking a name up in the namespace chain, which is two pointer loops with
    early exits per level, finds exactly what the block structure says: scopes are
    searched from the inside out; within a scope an unqualified match wins over one
    qualified by the scope's label; a scalar never matches a prefix of a longer
    name.  With [localmode] only the innermost scope counts.  In particular the loops
    never run off the end of the chain. *)
Theorem ns_lookup_spec s ss localmode name1 name2 name3 :
  Forall scope_ok (s :: ss) ->
  ns_lookup (flatten (s :: ss)) localmode name1 name2 name3
  = Some (if localmode then resolve_in s name1 name2 name3
          else resolve (s :: ss) name1 name2 name3).
Proof.
  intros Hs. unfold ns_lookup. destruct localmode.
  - inversion Hs. subst. assert (Hlen : exists n, length (flatten (s :: ss)) = S n).
    { simpl. rewrite length_app. simpl. rewrite Nat.add_succ_r. by eexists. }
    destruct Hlen as [n ->]. simpl flatten. rewrite ns_lookup_level by done.
    by destruct (resolve_in s name1 name2 name3).
  - apply ns_lookup_from_flatten; [done|]. apply length_flatten.
Qed.

(** ** The namespace while a function is parsed *)

(** Every chain the operations build is one of scopes; "first item added must be
    a label". *)
Definition chain_ok (ns : chain) : Prop := exists ss, Forall scope_ok ss /\ flatten ss = ns.

Lemma chain_ok_push ns label t : chain_ok ns -> chain_ok (ns_push ns label t).
Proof.
  intros (ss & Hs & <-). exists (mk_scope (default "" label) t [] :: ss).
  split; [|done]. constructor; [constructor|done].
Qed.

Lemma chain_ok_additem ns t no name :
  chain_ok ns -> ns <> [] -> t <> NSTYPE_LABEL -> chain_ok (ns_additem ns t no name).
Proof.
  intros (ss & Hs & <-) Hne Ht. destruct Hs as [|s ss Hok Hs]; [done|].
  exists (mk_scope (sc_label s) (sc_type s) (mk_nsitem t no name :: sc_vars s) :: ss).
  split; [|done]. constructor; [|done]. constructor; [|done]. by unfold is_label; rewrite bool_decide_false.
Qed.

Lemma ns_pop_vars vars l prev :
  Forall (fun i => is_label i = false) vars -> is_label l = true ->
  ns_pop (vars ++ l :: prev) = Some prev.
Proof.
  intros Hv Hl. induction Hv as [|i vars Hi Hv IH]; simpl; [by rewrite Hl|]. by rewrite Hi.
Qed.

(** What the parser does to the namespace while it reads a construct: it declares
    variables, opens scopes for blocks, loops and cursor arguments, and closes each
    after its contents. *)
Inductive ns_op :=
  | DeclareVar (t : UPLpgSQL_nsitem_type) (no : Z) (name : string)
  | Enclose (label : option string) (t : UPLpgSQL_label_type) (inside : list ns_op).

Fixpoint run_op (ns : chain) (op : ns_op) : option chain :=
  match op with
  | DeclareVar t no name => Some (ns_additem ns t no name)
  | Enclose label t inside =>
      match (fix go (ns : chain) (l : list ns_op) : option chain :=
               match l with
               | [] => Some ns
               | op :: l' => match run_op ns op with Some ns' => go ns' l' | None => None end
               end) (ns_push ns label t) inside with
      | Some ns' => ns_pop ns'
      | None => None
      end
  end.

Fixpoint run_ops (ns : chain) (l : list ns_op) : option chain :=
  match l with
  | [] => Some ns
  | op :: l' => match run_op ns op with Some ns' => run_ops ns' l' | None => None end
  end.

Lemma run_op_enclose ns label t inside :
  run_op ns (Enclose label t inside)
  = match run_ops (ns_push ns label t) inside with Some ns' => ns_pop ns' | None => None end.
Proof.
  simpl. match goal with |- match ?f _ _ with _ => _ end = _ =>
    assert (Hf : forall ns l, f ns l = run_ops ns l) end.
  { clear. intros ns l. revert ns. induction l as [|op l IH]; intros ns; [done|]. simpl.
    destruct (run_op ns op); [apply IH|done]. }
  by rewrite Hf.
Qed.

(** The variables a sequence declares at its own level, youngest first. *)
Definition declared (l : list ns_op) : list UPLpgSQL_nsitem :=
  foldl (fun acc op => match op with
                       | DeclareVar t no name => mk_nsitem t no name :: acc
                       | Enclose _ _ _ => acc
                       end) [] l.

(** Only variables are declared. *)
Fixpoint declares_vars (op : ns_op) : Prop :=
  match op with
  | DeclareVar t _ _ => t <> NSTYPE_LABEL
  | Enclose _ _ inside => foldr (fun op acc => declares_vars op /\ acc) True inside
  end.

Lemma declares_vars_all l : foldr (fun op acc => declares_vars op /\ acc) True l <-> Forall declares_vars l.
Proof.
  induction l as [|op l IH]; [by split|]. pose proof (Forall_cons_iff declares_vars op l). simpl. tauto.
Qed.

Section ns_op_induction.
Context (P : ns_op -> Prop).
Context (HD : forall t no name, P (DeclareVar t no name)).
Context (HE : forall label t inside, Forall P inside -> P (Enclose label t inside)).
Fixpoint ns_op_ind' (op : ns_op) : P op :=
  match op with
  | DeclareVar t no name => HD t no name
  | Enclose label t inside =>
      HE label t inside ((fix go l : Forall P l :=
                            match l with
                            | [] => Forall_nil_2 P
                            | x :: l' => Forall_cons_2 P x l' (ns_op_ind' x) (go l')
                            end) inside)
  end.
End ns_op_induction.

Definition op_declares (op : ns_op) : list UPLpgSQL_nsitem :=
  match op with DeclareVar t no name => [mk_nsitem t no name] | Enclose _ _ _ => [] end.

Lemma declared_cons op l : declared (op :: l) = declared l ++ op_declares op.
Proof.
  unfold declared. simpl.
  assert (Hacc : forall l acc,
    foldl (fun acc op => match op with
                         | DeclareVar t no name => mk_nsitem t no name :: acc
                         | Enclose _ _ _ => acc end) acc l
    = foldl (fun acc op => match op with
                           | DeclareVar t no name => mk_nsitem t no name :: acc
                           | Enclose _ _ _ => acc end) [] l ++ acc).
  { clear. induction l as [|op l IH]; intros acc; [done|]. simpl. destruct op; [|apply IH].
    rewrite IH, (IH [_]). by rewrite <- app_assoc. }
  destruct op; simpl; [|by rewrite app_nil_r]. by rewrite Hacc.
Qed.

Lemma declared_vars l : Forall declares_vars l -> Forall (fun i => is_label i = false) (declared l).
Proof.
  induction 1 as [|op l Hop Hl IH]; [constructor|]. rewrite declared_cons.
  apply Forall_app. split; [done|]. destruct op; simpl; [|constructor].
  constructor; [|constructor]. unfold is_label. by apply bool_decide_false.
Qed.

Lemma run_ops_declared l : forall ns,
  Forall (fun op => forall ns, declares_vars op -> run_op ns op = Some (op_declares op ++ ns)) l ->
  Forall declares_vars l -> run_ops ns l = Some (declared l ++ ns).
Proof.
  induction l as [|op l IH]; intros ns Hl Hv; [done|].
  apply Forall_cons_iff in Hl as [Hop Hl]. apply Forall_cons_iff in Hv as [Hvop Hv].
  simpl. rewrite Hop by done. rewrite IH by done. by rewrite declared_cons, <- app_assoc.
Qed.

Lemma run_op_declares op : forall ns, declares_vars op -> run_op ns op = Some (op_declares op ++ ns).
Proof.
  induction op as [t no name|label t inside IH] using ns_op_ind'; intros ns Hv; [done|].
  simpl in Hv. apply declares_vars_all in Hv.
  rewrite run_op_enclose, run_ops_declared by done. apply ns_pop_vars; [by apply declared_vars|done].
Qed.

Lemma run_ops_all l ns : Forall declares_vars l -> run_ops ns l = Some (declared l ++ ns).
Proof. intros Hv. apply run_ops_declared; [|done]. apply Forall_true. intros op. apply run_op_declares. Qed.

(** Adding variables to the innermost scope. *)
Lemma flatten_vars vars s ss :
  vars ++ flatten (s :: ss) = flatten (mk_scope (sc_label s) (sc_type s) (vars ++ sc_vars s) :: ss).
Proof. simpl. by rewrite app_assoc. Qed.

Lemma find_app {A} (p : A -> bool) l l' :
  List.find p (l ++ l') = match List.find p l with Some x => Some x | None => List.find p l' end.
Proof. induction l as [|x l IH]; simpl; [done|]. by destruct (p x). Qed.

(** C15. Block scoping.  Parsing any sequence of declarations, blocks and loops never
    takes the namespace apart: afterwards a name means the youngest variable of that
    name that the sequence declared at its own level, and otherwise what it meant
    before.  What nested blocks declared is forgotten, and shadowing ends with the
    block that shadows. *)
Theorem ns_block_scoping s ss l name :
  Forall scope_ok (s :: ss) -> Forall declares_vars l ->
  exists ns', run_ops (flatten (s :: ss)) l = Some ns' /\
    ns_lookup ns' false name None None
    = match List.find (item_matches name false) (declared l) with
      | Some i => Some (Some (i, 1))
      | None => ns_lookup (flatten (s :: ss)) false name None None
      end.
Proof.
  intros Hs Hl. exists (declared l ++ flatten (s :: ss)). split; [by apply run_ops_all|].
  rewrite flatten_vars, !ns_lookup_spec; [|done|].
  - simpl. unfold resolve_in. simpl. rewrite find_app.
    by destruct (List.find _ (declared l)).
  - apply Forall_cons_iff in Hs as [Hok Hs]. constructor; [|done]. apply Forall_app.
    split; [by apply declared_vars|done].
Qed.

Module NamespaceExamples.

Definition outer : scope := mk_scope "f" LABEL_BLOCK [mk_nsitem NSTYPE_VAR 1 "x"; mk_nsitem NSTYPE_REC 2 "r"].
Definition inner : scope := mk_scope "blk" LABEL_BLOCK [mk_nsitem NSTYPE_VAR 3 "x"].

Lemma examples_ok : Forall scope_ok [inner; outer].
Proof. repeat constructor. Qed.

(** The inner [x] hides the outer one, which its label still reaches; [r.x] is the
    record of the outer scope. *)
Lemma ns_lookup_spec_witness :
  ns_lookup (flatten [inner; outer]) false "x" None None = Some (Some (mk_nsitem NSTYPE_VAR 3 "x", 1)) /\
  ns_lookup (flatten [inner; outer]) false "f" (Some "x") None = Some (Some (mk_nsitem NSTYPE_VAR 1 "x", 2)) /\
  ns_lookup (flatten [inner; outer]) false "r" (Some "x") None = Some (Some (mk_nsitem NSTYPE_REC 2 "r", 1)) /\
  ns_lookup (flatten [inner; outer]) true "r" None None = Some None.
Proof.
  refine (conj _ (conj _ (conj _ _)));
    (etransitivity; [apply (ns_lookup_spec inner [outer] _ _ _ _ examples_ok)|reflexivity]).
Defined.

(** A loop body that redeclares [x] and closes again. *)
Lemma ns_block_scoping_witness :
  exists ns', run_ops (flatten [inner; outer])
                [Enclose None LABEL_LOOP [DeclareVar NSTYPE_VAR 4 "x"]; DeclareVar NSTYPE_VAR 5 "y"] = Some ns' /\
              ns_lookup ns' false "x" None None = Some (Some (mk_nsitem NSTYPE_VAR 3 "x", 1)).
Proof.
  apply (ns_block_scoping inner [outer]
           [Enclose None LABEL_LOOP [DeclareVar NSTYPE_VAR 4 "x"]; DeclareVar NSTYPE_VAR 5 "y"] "x");
    [exact examples_ok|]. repeat constructor; discriminate.
Defined.

End NamespaceExamples.
