(* ===== verification/Walker.v ===== *)
(** * Walking a statement tree

    [uplpgsql_statement_tree_walker] of [common/upl_funcs.c] and its two clients:
    marking the assignments whose target is local to the nearest exception block,
    and releasing the plans of a function.

    The C walker calls one callback per sub-statement and one per expression, which
    change nodes in place; here a callback returns the changed node, and may change
    a state of its own besides (the plans handed to [SPI_freeplan]).  The walker goes
    one level down, and the callback on statements calls it again.  NULL
    expressions are passed over: both callbacks begin with that test. *)

From Stdlib Require Import ZArith Lia Permutation.
From S2P Require Import Prelude Ast.

Definition walk (St A : Type) : Type := St -> A * St.
Definition wret {St A} (a : A) : walk St A := fun s => (a, s).
Definition wbind {St A B} (m : walk St A) (k : A -> walk St B) : walk St B :=
  fun s => let (a, s') := m s in k a s'.

Declare Scope walk_scope.
Delimit Scope walk_scope with walk.
#[local] Open Scope walk_scope.
Notation "x <- m ; k" := (wbind m (fun x => k))
  (at level 80, m at next level, right associativity) : walk_scope.

(** [foreach_ptr]. *)
Section each.
Context {St A : Type} (f : A -> walk St A).
Fixpoint each (l : list A) : walk St (list A) :=
  match l with
  | [] => wret []
  | x :: l' => x' <- f x; l'' <- each l'; wret (x' :: l'')
  end.
End each.

Section walker.
Context {St : Type}.
Context (stmt_callback : UPLpgSQL_stmt -> walk St UPLpgSQL_stmt).
Context (expr_callback : UPLpgSQL_expr -> walk St UPLpgSQL_expr).

Definition E_WALK_OPT (e : option UPLpgSQL_expr) : walk St (option UPLpgSQL_expr) :=
  match e with
  | Some e => e' <- expr_callback e; wret (Some e')
  | None => wret None
  end.

Definition walk_exception (x : UPLpgSQL_exception UPLpgSQL_stmt) :=
  a <- each stmt_callback (action x); wret (mk_exception (exc_lineno x) (conditions x) a).
Definition walk_elsif (x : UPLpgSQL_if_elsif UPLpgSQL_stmt) :=
  c <- expr_callback (elsif_cond x); b <- each stmt_callback (elsif_stmts x);
  wret (mk_elsif (elsif_lineno x) c b).
Definition walk_when (x : UPLpgSQL_case_when UPLpgSQL_stmt) :=
  c <- expr_callback (when_expr x); b <- each stmt_callback (when_stmts x);
  wret (mk_case_when (when_lineno x) c b).
Definition walk_raise_option (o : UPLpgSQL_raise_option) :=
  e <- expr_callback (opt_expr o); wret (mk_raise_option (opt_type o) e).
(** The row loops walk their body before their query. *)
Definition walk_forq (q : UPLpgSQL_stmt_forq UPLpgSQL_stmt) :=
  b <- each stmt_callback (forq_body q); wret (mk_forq (forq_label q) (forq_var q) b).

Definition statement_tree_walker (stmt : UPLpgSQL_stmt) : walk St UPLpgSQL_stmt :=
  match stmt with
  | STMT_BLOCK h s =>
      b <- each stmt_callback (blk_body s);
      x <- match exceptions s with
           | Some ex =>
               l <- each walk_exception (exc_list ex);
               wret (Some (mk_exception_block (exc_sqlstate_varno ex) (exc_sqlerrm_varno ex) l))
           | None => wret None
           end;
      wret (STMT_BLOCK h (mk_block (blk_label s) b (initvarnos s) x (blk_sqlstate_varno s)))
  | STMT_ASSIGN h s => e <- expr_callback (assign_expr s); wret (STMT_ASSIGN h (mk_assign (assign_varno s) e))
  | STMT_IF h s =>
      c <- expr_callback (if_cond s); t <- each stmt_callback (then_body s);
      l <- each walk_elsif (elsif_list s); e <- each stmt_callback (else_body s);
      wret (STMT_IF h (mk_if c t l e))
  | STMT_CASE h s =>
      t <- E_WALK_OPT (t_expr s); l <- each walk_when (case_when_list s);
      e <- each stmt_callback (else_stmts s);
      wret (STMT_CASE h (mk_case t (t_varno s) l (have_else s) e))
  | STMT_LOOP h s => b <- each stmt_callback (loop_body s); wret (STMT_LOOP h (mk_loop (loop_label s) b))
  | STMT_WHILE h s =>
      c <- expr_callback (while_cond s); b <- each stmt_callback (while_body s);
      wret (STMT_WHILE h (mk_while (while_label s) c b (test_at_top s)))
  | STMT_FORI h s =>
      lo <- expr_callback (fori_lower s); up <- expr_callback (fori_upper s);
      st <- E_WALK_OPT (fori_step s); b <- each stmt_callback (fori_body s);
      wret (STMT_FORI h (mk_fori (fori_label s) (fori_var s) lo up st (fori_reverse s) b))
  | STMT_FORS h s =>
      q <- walk_forq (fors_q s); e <- expr_callback (fors_query s); wret (STMT_FORS h (mk_fors q e))
  | STMT_FORC h s =>
      q <- walk_forq (forc_q s); e <- E_WALK_OPT (forc_argquery s);
      wret (STMT_FORC h (mk_forc q (forc_curvar s) e))
  | STMT_FOREACH_A h s =>
      e <- expr_callback (foreach_expr s); b <- each stmt_callback (foreach_body s);
      wret (STMT_FOREACH_A h (mk_foreach_a (foreach_label s) (foreach_varno s) (foreach_slice s) e b))
  | STMT_EXIT h s => c <- E_WALK_OPT (exit_cond s); wret (STMT_EXIT h (mk_exit (is_exit s) (exit_label s) c))
  | STMT_RETURN h s => e <- E_WALK_OPT (ret_expr s); wret (STMT_RETURN h (mk_return e (retvarno s)))
  | STMT_RETURN_NEXT h s =>
      e <- E_WALK_OPT (retnext_expr s); wret (STMT_RETURN_NEXT h (mk_return_next e (retnext_varno s)))
  | STMT_RETURN_QUERY h s =>
      q <- E_WALK_OPT (retq_query s); d <- E_WALK_OPT (retq_dynquery s);
      p <- each expr_callback (retq_params s); wret (STMT_RETURN_QUERY h (mk_return_query q d p))
  | STMT_RAISE h s =>
      p <- each expr_callback (raise_params s); o <- each walk_raise_option (raise_options s);
      wret (STMT_RAISE h (mk_raise (elog_level s) (raise_condname s) (message s) p o))
  | STMT_ASSERT h s =>
      c <- expr_callback (assert_cond s); m <- E_WALK_OPT (assert_message s); wret (STMT_ASSERT h (mk_assert c m))
  | STMT_EXECSQL h s =>
      e <- expr_callback (sqlstmt s);
      wret (STMT_EXECSQL h (mk_execsql e (sql_into s) (sql_strict s) (sql_target s)))
  | STMT_DYNEXECUTE h s =>
      q <- expr_callback (dyn_query s); p <- each expr_callback (dyn_params s);
      wret (STMT_DYNEXECUTE h (mk_dynexecute q (dyn_into s) (dyn_strict s) (dyn_target s) p))
  | STMT_DYNFORS h s =>
      q <- walk_forq (dynfors_q s); e <- expr_callback (dynfors_query s);
      p <- each expr_callback (dynfors_params s); wret (STMT_DYNFORS h (mk_dynfors q e p))
  | STMT_OPEN h s =>
      a <- E_WALK_OPT (open_argquery s); q <- E_WALK_OPT (open_query s);
      d <- E_WALK_OPT (open_dynquery s); p <- each expr_callback (open_params s);
      wret (STMT_OPEN h (mk_open (open_curvar s) (open_cursor_options s) a q d p))
  | STMT_FETCH h s =>
      e <- E_WALK_OPT (fetch_expr s);
      wret (STMT_FETCH h (mk_fetch (fetch_target s) (fetch_curvar s) (direction s) (how_many s) e (is_move s)))
  | STMT_PERFORM h s => e <- expr_callback (perform_expr s); wret (STMT_PERFORM h (mk_perform e))
  | STMT_CALL h s => e <- expr_callback (call_expr s); wret (STMT_CALL h (mk_call e (is_call s)))
  | STMT_GETDIAG _ _ | STMT_CLOSE _ _ | STMT_COMMIT _ _ | STMT_ROLLBACK _ _ => wret stmt
  end.
End walker.

(** ** Marking local assignment targets *)

(** [local_dnos] is a bitmapset. *)
Definition mark_expr (local_dnos : gset nat) (e : UPLpgSQL_expr) : UPLpgSQL_expr :=
  if (0 <=? target_param e)%Z
  then mk_expr (query e) (target_param e) (bool_decide (Z.to_nat (target_param e) ∈ local_dnos)) (plan e) (paramnos e)
  else e.

(** The variables that are local inside a statement. *)
Definition locals_in (local_dnos : gset nat) (stmt : UPLpgSQL_stmt) : gset nat :=
  match stmt with
  | STMT_BLOCK _ b =>
      match exceptions b with
      | Some _ => ∅
      | None => local_dnos ∪ list_to_set (initvarnos b)
      end
  | _ => local_dnos
  end.

Fixpoint mark_stmt (local_dnos : gset nat) (stmt : UPLpgSQL_stmt) : UPLpgSQL_stmt :=
  let locals := locals_in local_dnos stmt in
  (statement_tree_walker (fun s => wret (mark_stmt locals s)) (fun e => wret (mark_expr locals e)) stmt tt).1.

Definition mark_local_assignment_targets (func : UPLpgSQL_function) (h : stmt_head) : UPLpgSQL_stmt :=
  mark_stmt (list_to_set (fn_argvarnos func)) (STMT_BLOCK h (fn_action func)).

(** ** Where expressions occur *)

(** Every expression field of a statement, and those of the clauses it is made of. *)
Definition stmt_exprs (s : UPLpgSQL_stmt) : list UPLpgSQL_expr :=
  match s with
  | STMT_ASSIGN _ s => [assign_expr s]
  | STMT_IF _ s => if_cond s :: map elsif_cond (elsif_list s)
  | STMT_CASE _ s => opt_list (t_expr s) ++ map when_expr (case_when_list s)
  | STMT_WHILE _ s => [while_cond s]
  | STMT_FORI _ s => [fori_lower s; fori_upper s] ++ opt_list (fori_step s)
  | STMT_FORS _ s => [fors_query s]
  | STMT_FORC _ s => opt_list (forc_argquery s)
  | STMT_FOREACH_A _ s => [foreach_expr s]
  | STMT_EXIT _ s => opt_list (exit_cond s)
  | STMT_RETURN _ s => opt_list (ret_expr s)
  | STMT_RETURN_NEXT _ s => opt_list (retnext_expr s)
  | STMT_RETURN_QUERY _ s => opt_list (retq_query s) ++ opt_list (retq_dynquery s) ++ retq_params s
  | STMT_RAISE _ s => raise_params s ++ map opt_expr (raise_options s)
  | STMT_ASSERT _ s => assert_cond s :: opt_list (assert_message s)
  | STMT_EXECSQL _ s => [sqlstmt s]
  | STMT_DYNEXECUTE _ s => dyn_query s :: dyn_params s
  | STMT_DYNFORS _ s => dynfors_query s :: dynfors_params s
  | STMT_OPEN _ s =>
      opt_list (open_argquery s) ++ opt_list (open_query s) ++ opt_list (open_dynquery s) ++ open_params s
  | STMT_FETCH _ s => opt_list (fetch_expr s)
  | STMT_PERFORM _ s => [perform_expr s]
  | STMT_CALL _ s => [call_expr s]
  | _ => []
  end.

(** [e] occurs under [s], inside the statements [path] (outermost first, [s] the
    first of them). *)
Inductive expr_at (s : UPLpgSQL_stmt) : list UPLpgSQL_stmt -> UPLpgSQL_expr -> Prop :=
  | at_here e : e ∈ stmt_exprs s -> expr_at s [s] e
  | at_below b t path e : b ∈ sub_bodies s -> t ∈ b -> expr_at t path e -> expr_at s (s :: path) e.

(** *** A walk without effects *)
Section pure.
Context (f : UPLpgSQL_stmt -> UPLpgSQL_stmt) (g : UPLpgSQL_expr -> UPLpgSQL_expr).
Abbreviation walked s := (statement_tree_walker (fun s => wret (f s)) (fun e => wret (g e)) s tt).1.

Lemma each_pure {A} (h : A -> A) (k : A -> walk unit A) l u :
  (forall x u, k x u = (h x, u)) -> each k l u = (map h l, u).
Proof. intros Hk. induction l as [|x l IH]; [done|]. simpl. unfold wbind. by rewrite Hk, IH. Qed.

Lemma opt_pure e (u : unit) : E_WALK_OPT (fun e => wret (g e)) e u = (g <$> e, u).
Proof. by destruct e. Qed.

Definition map_exception (x : UPLpgSQL_exception UPLpgSQL_stmt) :=
  mk_exception (exc_lineno x) (conditions x) (map f (action x)).
Definition map_elsif (x : UPLpgSQL_if_elsif UPLpgSQL_stmt) :=
  mk_elsif (elsif_lineno x) (g (elsif_cond x)) (map f (elsif_stmts x)).
Definition map_when (x : UPLpgSQL_case_when UPLpgSQL_stmt) :=
  mk_case_when (when_lineno x) (g (when_expr x)) (map f (when_stmts x)).
Definition map_raise_option (o : UPLpgSQL_raise_option) := mk_raise_option (opt_type o) (g (opt_expr o)).

#[local] Ltac clause_pure := intros x v; unfold wbind, wret; by rewrite (each_pure f).

Lemma exceptions_pure l (u : unit) : each (walk_exception (fun s => wret (f s))) l u = (map map_exception l, u).
Proof. apply each_pure. unfold walk_exception. clause_pure. Qed.
Lemma elsifs_pure l (u : unit) : each (walk_elsif (fun s => wret (f s)) (fun e => wret (g e))) l u = (map map_elsif l, u).
Proof. apply each_pure. unfold walk_elsif. clause_pure. Qed.
Lemma whens_pure l (u : unit) : each (walk_when (fun s => wret (f s)) (fun e => wret (g e))) l u = (map map_when l, u).
Proof. apply each_pure. unfold walk_when. clause_pure. Qed.
Lemma options_pure l (u : unit) : each (walk_raise_option (fun e => wret (g e))) l u = (map map_raise_option l, u).
Proof. by apply each_pure. Qed.

Lemma opt_list_map (o : option UPLpgSQL_expr) : opt_list (g <$> o) = map g (opt_list o).
Proof. by destruct o. Qed.

(** Reduce a walk without effects to the statement it builds. *)
#[local] Ltac run_walk :=
  intros; unfold statement_tree_walker, walk_forq, wbind; simpl;
  rewrite ?exceptions_pure, ?elsifs_pure, ?whens_pure, ?options_pure, ?opt_pure, ?(each_pure f), ?(each_pure g) by done; simpl;
  rewrite ?exceptions_pure, ?elsifs_pure, ?whens_pure, ?options_pure, ?opt_pure, ?(each_pure f), ?(each_pure g) by done; simpl.

Lemma walked_bodies s : sub_bodies (walked s) = map (map f) (sub_bodies s).
Proof.
  destruct s as [h b| | | | | | | | | | | | | | | | | | | | | | | | | |];
    [destruct (exceptions b) as [ex|] eqn:Ex|..]; run_walk; rewrite ?Ex; simpl; run_walk;
    rewrite ?map_app, ?map_map; done.
Qed.

Lemma walked_exprs s : stmt_exprs (walked s) = map g (stmt_exprs s).
Proof.
  destruct s as [h b| | | | | | | | | | | | | | | | | | | | | | | | | |];
    [destruct (exceptions b) as [ex|] eqn:Ex|..]; run_walk; rewrite ?Ex; simpl; run_walk;
    rewrite ?map_app, ?map_map, ?opt_list_map; done.
Qed.

Lemma walked_locals L s : locals_in L (walked s) = locals_in L s.
Proof.
  destruct s as [h b| | | | | | | | | | | | | | | | | | | | | | | | | |];
    [destruct (exceptions b) as [ex|] eqn:Ex|..]; run_walk; rewrite ?Ex; simpl; run_walk; done.
Qed.
End pure.

(** ** Local targets *)

Lemma mark_stmt_eq L s :
  mark_stmt L s
  = (statement_tree_walker (fun t => wret (mark_stmt (locals_in L s) t))
       (fun e => wret (mark_expr (locals_in L s) e)) s tt).1.
Proof. by destruct s. Qed.

Lemma marked_at L s path e' :
  expr_at (mark_stmt L s) path e' -> exists e, e' = mark_expr (foldl locals_in L path) e.
Proof.
  revert L path. induction s as [s IH] using elem_ind. intros L path Hat.
  inversion Hat as [? Hin|b t path' ? Hb Ht Hat']; subst.
  - rewrite mark_stmt_eq, walked_exprs in Hin. apply elem_of_map in Hin as (e & _ & <-).
    exists e. simpl. by rewrite mark_stmt_eq, walked_locals.
  - rewrite mark_stmt_eq, walked_bodies in Hb. apply elem_of_map in Hb as (b0 & Hb0 & <-).
    apply elem_of_map in Ht as (t0 & Ht0 & <-). destruct (IH b0 Hb0 t0 Ht0 _ _ Hat') as [e ->].
    exists e. simpl. by rewrite mark_stmt_eq, walked_locals.
Qed.

(** No exception clause on the way. *)
Definition no_handler (s : UPLpgSQL_stmt) : Prop :=
  match s with STMT_BLOCK _ b => exceptions b = None | _ => True end.
(** The statement is a block, without exception clause, that declares [v]. *)
Definition declares (s : UPLpgSQL_stmt) (v : nat) : Prop :=
  match s with STMT_BLOCK _ b => exceptions b = None /\ v ∈ initvarnos b | _ => False end.

(** [v] is declared in one of the blocks [path], or is one of [args], and no block
    from there on inwards has an exception clause. *)
Definition declared_local (args : list nat) (path : list UPLpgSQL_stmt) (v : nat) : Prop :=
  (exists before blk after, path = before ++ blk :: after /\ declares blk v /\ Forall no_handler after)
  \/ (v ∈ args /\ Forall no_handler path).

Lemma elem_of_locals_in v L s :
  v ∈ locals_in L s <-> declares s v \/ (v ∈ L /\ no_handler s).
Proof.
  destruct s as [h b| | | | | | | | | | | | | | | | | | | | | | | | | |]; simpl; try tauto.
  destruct (exceptions b); [set_solver|]. rewrite elem_of_union, elem_of_list_to_set. naive_solver.
Qed.

Lemma elem_of_locals v args path :
  v ∈ foldl locals_in (list_to_set args) path <-> declared_local args path v.
Proof.
  unfold declared_local. induction path as [|s path IH] using rev_ind.
  - simpl. rewrite elem_of_list_to_set. split; [by right|].
    intros [(before & blk & after & Hp & _)|[Hv _]]; [by destruct before|done].
  - rewrite foldl_snoc, elem_of_locals_in, IH, Forall_app. split.
    + intros [Hd|[[(be & blk & af & -> & Hd & Hn)|[Hv Hn]] Hs]].
      * left. exists path, s, []. split_and!; [done|done|constructor].
      * left. exists be, blk, (af ++ [s]). rewrite <- app_assoc. split_and!; [done..|].
        apply Forall_app. split; [done|]. by constructor.
      * right. split_and!; [done..|]. by constructor.
    + intros [(be & blk & af & Hp & Hd & Hn)|(Hv & Hn & Hs)].
      * destruct af as [|x af _] using rev_ind.
        { apply app_inj_tail in Hp as [_ ->]. by left. }
        right. rewrite app_comm_cons, app_assoc in Hp. apply app_inj_tail in Hp as [-> ->].
        apply Forall_app in Hn as [Hn Hx]. split; [left; by exists be, blk, af|]. by inversion Hx.
      * right. inversion Hs. subst. split; [by right|done].
Qed.

(** C13. An assignment is marked as having a local target exactly if its target
    variable is declared in a block around it, or is a parameter, such that no block
    in between (that block included) has an exception clause: then no handler that
    catches an error of the assignment can see the variable.  This holds for every
    expression of the function, at any depth. *)
Theorem mark_local_targets_spec func h path e :
  expr_at (mark_local_assignment_targets func h) path e -> (0 <= target_param e)%Z ->
  target_is_local e = true <-> declared_local (fn_argvarnos func) path (Z.to_nat (target_param e)).
Proof.
  intros Hat Ht. apply marked_at in Hat as [e0 ->]. rewrite <- elem_of_locals.
  revert Ht. unfold mark_expr at 1 2 3. destruct (Z.leb_spec 0 (target_param e0)); [|simpl; lia].
  simpl. intros _. by rewrite bool_decide_eq_true.
Qed.

(** ** Releasing plans *)

(** The state is what [SPI_freeplan] was called on, in order. *)
Abbreviation freeing := (walk (list UPLpgSQL_expr)).

Definition free_expr (e : UPLpgSQL_expr) : freeing UPLpgSQL_expr :=
  if plan e
  then fun freed => (mk_expr (query e) (target_param e) (target_is_local e) false (paramnos e), freed ++ [e])
  else wret e.

Fixpoint free_stmt (stmt : UPLpgSQL_stmt) : freeing UPLpgSQL_stmt :=
  statement_tree_walker free_stmt free_expr stmt.

(** The plans of a variable's declaration. *)
Definition free_datum (d : UPLpgSQL_datum) : freeing unit :=
  match d with
  | DTYPE_VAR v | DTYPE_PROMISE v =>
      _ <- E_WALK_OPT free_expr (default_val (var_head v));
      _ <- E_WALK_OPT free_expr (cursor_explicit_expr v); wret tt
  | DTYPE_REC r => _ <- E_WALK_OPT free_expr (default_val (rec_head r)); wret tt
  | DTYPE_ROW _ | DTYPE_RECFIELD _ => wret tt
  end.

Fixpoint free_datums (l : list UPLpgSQL_datum) : freeing unit :=
  match l with
  | [] => wret tt
  | d :: l' => _ <- free_datum d; free_datums l'
  end.

(** What is left of the function is its struct; the result is the plans that were
    released. *)
Definition free_function_memory (func : UPLpgSQL_function) (h : stmt_head) : list UPLpgSQL_expr :=
  ((_ <- free_datums (datums func); free_stmt (STMT_BLOCK h (fn_action func))) []).2.

(** The expressions of a declaration, of a statement and everything under it, and of
    a function. *)
Definition datum_exprs (d : UPLpgSQL_datum) : list UPLpgSQL_expr :=
  match d with
  | DTYPE_VAR v | DTYPE_PROMISE v =>
      opt_list (default_val (var_head v)) ++ opt_list (cursor_explicit_expr v)
  | DTYPE_REC r => opt_list (default_val (rec_head r))
  | DTYPE_ROW _ | DTYPE_RECFIELD _ => []
  end.
Definition tree_exprs : UPLpgSQL_stmt -> list UPLpgSQL_expr :=
  fold_stmt (fun s subs => stmt_exprs s ++ concat (concat subs)).
Definition function_exprs (func : UPLpgSQL_function) (h : stmt_head) : list UPLpgSQL_expr :=
  concat (map datum_exprs (datums func)) ++ tree_exprs (STMT_BLOCK h (fn_action func)).

#[export] Instance expr_eq_dec : EqDecision UPLpgSQL_expr.
Proof. solve_decision. Defined.

(** How many of a list are the expression [x] with a plan. *)
Definition planned (x : UPLpgSQL_expr) (l : list UPLpgSQL_expr) : nat :=
  count_occ expr_eq_dec (List.filter plan l) x.

Lemma planned_app x l l' : planned x (l ++ l') = planned x l + planned x l'.
Proof. unfold planned. by rewrite List.filter_app, count_occ_app. Qed.
Lemma planned_cons x e l : planned x (e :: l) = planned x [e] + planned x l.
Proof. apply (planned_app x [e]). Qed.
Lemma planned_nil x : planned x [] = 0.
Proof. done. Qed.

(** A walk that releases [x] [n] times. *)
Definition frees {A} (x : UPLpgSQL_expr) (m : freeing A) (n : nat) : Prop :=
  forall freed, exists a out, m freed = (a, freed ++ out) /\ count_occ expr_eq_dec out x = n.

Lemma frees_eq {A} x (m : freeing A) n n' : frees x m n -> n = n' -> frees x m n'.
Proof. by intros ? <-. Qed.
Lemma frees_ret {A} x (a : A) : frees x (wret a) 0.
Proof. intros freed. exists a, []. by rewrite app_nil_r. Qed.
Lemma frees_bind {A B} x (m : freeing A) (k : A -> freeing B) n n' :
  frees x m n -> (forall a, frees x (k a) n') -> frees x (wbind m k) (n + n').
Proof.
  intros Hm Hk freed. destruct (Hm freed) as (a & out & E & Hn).
  destruct (Hk a (freed ++ out)) as (b & out' & E' & Hn'). exists b, (out ++ out').
  unfold wbind. rewrite E, E', app_assoc. split; [done|]. rewrite count_occ_app. lia.
Qed.
Lemma frees_each {A} x (f : A -> freeing A) (n : A -> nat) l :
  (forall y, y ∈ l -> frees x (f y) (n y)) -> frees x (each f l) (list_sum (map n l)).
Proof.
  induction l as [|y l IH]; intros Hf; [apply frees_ret|]. cbn [each map].
  apply frees_bind; [apply Hf; left|]. intros y'. rewrite <- (Nat.add_0_r (list_sum _)).
  apply frees_bind; [|intros; apply frees_ret]. apply IH. intros z Hz. apply Hf. by right.
Qed.

Lemma frees_expr x e : frees x (free_expr e) (planned x [e]).
Proof.
  unfold free_expr, planned. simpl. destruct (plan e) eqn:Hp; [|apply frees_ret].
  intros freed. by eexists _, [e].
Qed.
Lemma frees_opt x o : frees x (E_WALK_OPT free_expr o) (planned x (opt_list o)).
Proof.
  destruct o as [e|]; [|apply frees_ret]. simpl. rewrite <- Nat.add_0_r.
  apply frees_bind; [apply frees_expr|]. intros; apply frees_ret.
Qed.

Lemma planned_concat {A} x (f : A -> list UPLpgSQL_expr) l :
  list_sum (map (fun y => planned x (f y)) l) = planned x (concat (map f l)).
Proof. induction l as [|y l IH]; [done|]. simpl. by rewrite planned_app, IH. Qed.

Lemma frees_exprs x l : frees x (each free_expr l) (planned x l).
Proof.
  eapply frees_eq; [apply (frees_each _ _ (fun e => planned x [e])); intros; apply frees_expr|].
  rewrite planned_concat. f_equal. induction l as [|e l IH]; [done|]. simpl. by rewrite IH.
Qed.

Lemma tree_exprs_eq s :
  tree_exprs s = stmt_exprs s ++ concat (concat (map (map tree_exprs) (sub_bodies s))).
Proof. unfold tree_exprs. by rewrite fold_stmt_eq. Qed.

(** The plans in a statement list, and in several. *)
Definition body_plans (x : UPLpgSQL_expr) (b : list UPLpgSQL_stmt) : nat := planned x (concat (map tree_exprs b)).
Definition bodies_plans (x : UPLpgSQL_expr) (bs : list (list UPLpgSQL_stmt)) : nat :=
  list_sum (map (body_plans x) bs).

Lemma planned_tree x s : planned x (tree_exprs s) = planned x (stmt_exprs s) + bodies_plans x (sub_bodies s).
Proof.
  rewrite tree_exprs_eq, planned_app. f_equal. unfold bodies_plans, body_plans.
  rewrite planned_concat. f_equal. induction (sub_bodies s) as [|b bs IH]; [done|].
  simpl. by rewrite concat_app, IH.
Qed.

Lemma bodies_plans_cons x b bs : bodies_plans x (b :: bs) = body_plans x b + bodies_plans x bs.
Proof. done. Qed.
Lemma bodies_plans_app x bs bs' : bodies_plans x (bs ++ bs') = bodies_plans x bs + bodies_plans x bs'.
Proof. unfold bodies_plans. by rewrite map_app, list_sum_app. Qed.

Lemma list_sum_cons n l : list_sum (n :: l) = n + list_sum l.
Proof. done. Qed.

(** Clauses with a condition and a body. *)
Lemma sum_clauses {A} x (c : A -> UPLpgSQL_expr) (b : A -> list UPLpgSQL_stmt) l :
  list_sum (map (fun y => planned x [c y] + body_plans x (b y)) l)
  = planned x (map c l) + bodies_plans x (map b l).
Proof.
  induction l as [|y l IH]; [done|]. cbn [map].
  rewrite list_sum_cons, IH, (planned_cons x (c y) (map c l)), bodies_plans_cons. lia.
Qed.

Section free_stmt.
Context (x : UPLpgSQL_expr) (s : UPLpgSQL_stmt).
Context (IH : forall b, b ∈ sub_bodies s -> forall t, t ∈ b -> frees x (free_stmt t) (planned x (tree_exprs t))).

Lemma frees_body b : b ∈ sub_bodies s -> frees x (each free_stmt b) (body_plans x b).
Proof.
  intros Hb. unfold body_plans. rewrite <- planned_concat. apply frees_each. intros t Ht. by eapply IH.
Qed.

(** A list of clauses whose bodies belong to [s]. *)
Lemma frees_clauses {A} (w : A -> freeing A) (c : A -> UPLpgSQL_expr) (b : A -> list UPLpgSQL_stmt) l :
  (forall y, y ∈ l -> frees x (w y) (planned x [c y] + body_plans x (b y))) ->
  frees x (each w l) (planned x (map c l) + bodies_plans x (map b l)).
Proof. intros Hw. rewrite <- sum_clauses. by apply frees_each. Qed.
End free_stmt.

Lemma frees_options x l : frees x (each (walk_raise_option free_expr) l) (planned x (map opt_expr l)).
Proof.
  eapply frees_eq.
  - apply (frees_each _ _ (fun o => planned x [opt_expr o])). intros o _. rewrite <- Nat.add_0_r.
    apply frees_bind; [apply frees_expr|intros; apply frees_ret].
  - rewrite planned_concat. f_equal. induction l as [|o l IH]; [done|]. simpl. by rewrite IH.
Qed.

(** Go through a walk and collect what it releases. *)
Ltac run_free :=
  repeat match goal with
  | |- frees _ (wbind _ _) _ => eapply frees_bind; [|intros ?]
  | |- frees _ (wret _) _ => apply frees_ret
  | |- frees _ (free_expr _) _ => apply frees_expr
  | |- frees _ (E_WALK_OPT _ _) _ => apply frees_opt
  | |- frees _ (each free_expr _) _ => apply frees_exprs
  | |- frees _ (each (walk_raise_option _) _) _ => apply frees_options
  end.

(** Compare the two counts. *)
Ltac count_plans :=
  rewrite ?bodies_plans_cons, ?bodies_plans_app, ?bodies_plans_cons, ?planned_app;
  repeat match goal with
  | |- context [planned ?x (?e :: ?l)] =>
      lazymatch l with [] => fail | _ => rewrite (planned_cons x e l) end
  end;
  rewrite ?planned_nil; unfold bodies_plans; cbn [map list_sum foldr]; lia.

Lemma frees_stmt x s : frees x (free_stmt s) (planned x (tree_exprs s)).
Proof.
  induction s as [s IH] using elem_ind. pose proof (frees_body x s IH) as Hb. clear IH.
  rewrite planned_tree.
  destruct s as [h b|h s|h s|h s|h s|h s|h s|h s|h s|h s|h s|h s|h s|h s|h s|h s|h s|h s|h s
    |h s|h s|h s|h s|h s|h s|h s|h s]; cbn [free_stmt statement_tree_walker stmt_exprs sub_bodies] in *;
    unfold walk_forq; try (eapply frees_eq; [run_free; try (apply Hb; by left)|]; count_plans).
  - eapply frees_eq; [run_free; [apply Hb; by left|]|].
    + instantiate (1 := match exceptions b with Some ex => bodies_plans x (map action (exc_list ex)) | None => 0 end).
      destruct (exceptions b) as [ex|]; [|apply frees_ret]. rewrite <- Nat.add_0_r.
      apply frees_bind; [|intros; apply frees_ret]. unfold bodies_plans. rewrite map_map.
      apply frees_each. intros y Hy. rewrite <- Nat.add_0_r. apply frees_bind; [|intros; apply frees_ret].
      apply Hb. right. apply elem_of_map. eauto.
    + rewrite bodies_plans_cons, planned_nil. destruct (exceptions b); unfold bodies_plans; simpl; lia.
  - eapply frees_eq; [run_free; [apply Hb; by left| |]|].
    + apply (frees_clauses x _ elsif_cond elsif_stmts). intros y Hy. unfold walk_elsif.
      eapply frees_eq; [run_free; apply Hb|lia]. right. apply elem_of_app. left. apply elem_of_map. eauto.
    + apply Hb. right. apply elem_of_app. right. by left.
    + count_plans.
  - eapply frees_eq; [run_free|].
    + apply (frees_clauses x _ when_expr when_stmts). intros y Hy. unfold walk_when.
      eapply frees_eq; [run_free; apply Hb|lia]. apply elem_of_app. left. apply elem_of_map. eauto.
    + apply Hb. apply elem_of_app. right. by left.
    + count_plans.
Qed.

Lemma frees_datums x l : frees x (free_datums l) (planned x (concat (map datum_exprs l))).
Proof.
  induction l as [|d l IH]; [apply frees_ret|]. cbn [free_datums map concat]. rewrite planned_app.
  apply frees_bind; [|done]. destruct d; simpl; try apply frees_ret;
    (eapply frees_eq; [run_free|]); rewrite ?planned_app; lia.
Qed.

(** C14. Releasing a function hands every saved plan of it to [SPI_freeplan] exactly
    once: no plan of a statement, at whatever depth, of a clause or of a declaration
    is forgotten, and none is released twice. *)
Theorem free_function_memory_exact func h :
  free_function_memory func h ≡ₚ List.filter plan (function_exprs func h).
Proof.
  apply (Permutation_count_occ expr_eq_dec). intros x.
  assert (Hf : frees x (wbind (free_datums (datums func)) (fun _ => free_stmt (STMT_BLOCK h (fn_action func))))
                 (planned x (function_exprs func h))).
  { unfold function_exprs. rewrite planned_app.
    apply frees_bind; [apply frees_datums|]. intros _. apply frees_stmt. }
  destruct (Hf []) as (a & out & E & Hn). unfold free_function_memory. by rewrite E.
Qed.

Module WalkerExamples.

Definition assign_to (v : Z) : UPLpgSQL_expr := mk_expr "1" v true true [].
Definition h : stmt_head := mk_head 1 1.

(** DECLARE x; BEGIN  x := 1;  BEGIN x := 1; EXCEPTION ... END;  END *)
Definition body : UPLpgSQL_stmt_block UPLpgSQL_stmt :=
  mk_block None
    [STMT_ASSIGN h (mk_assign 1 (assign_to 1));
     STMT_BLOCK h (mk_block None [STMT_ASSIGN h (mk_assign 1 (assign_to 1))] []
       (Some (mk_exception_block 2 3 [])) None)] [1] None None.
Definition func : UPLpgSQL_function := scalar_function 1 "f()" VOIDOID false [] 0 [] body.

Definition marked : UPLpgSQL_stmt := mark_local_assignment_targets func h.
Definition inner_marked : UPLpgSQL_stmt := default marked (default [] (sub_bodies marked !! 0) !! 1).

(** The assignment inside the exception block is not local. *)
Lemma mark_local_targets_spec_witness :
  let e := mk_expr "1" 1 false true [] in
  target_is_local e = true <->
  declared_local [] [marked; inner_marked; STMT_ASSIGN h (mk_assign 1 e)] 1.
Proof.
  apply (mark_local_targets_spec func h); [|simpl; lia].
  eapply at_below; [left|right; left|]. eapply at_below; [left|left|]. apply at_here. left.
Defined.
End WalkerExamples.
