(* ===== verification/Datums.v ===== *)
(** * The datum array while a function is parsed

    The part of [common/upl_comp.c] that builds a function's variables and
    resolves names to them: [uplpgsql_adddatum] and the functions that build
    variables, records, record fields and rows; [uplpgsql_add_initdatums]; the
    lookups of one, two and three words that the scanner makes
    ([uplpgsql_parse_word] and its siblings); and the hook through which the SQL
    parser resolves a column reference to a variable when an expression is
    prepared ([resolve_column_ref]).

    The file-level variables of [upl_comp.c], with [ns_top] of [upl_funcs.c], are
    the record [pstate].  Datums are reached by number, as the array of pointers is;
    memory contexts and the growth of the array ([datums_alloc]) are left out.
    Types are looked up in the catalogue, which is not part of the program: a
    [UPLpgSQL_type] is given. *)

From Stdlib Require Import ZArith Lia Sorted.
From stdpp Require Import pretty.
From S2P Require Import Prelude Ast Namespace.

(** ** Outcomes *)

(** [ereport(ERROR)], or a read outside of the array or through a pointer to the
    wrong kind of datum. *)
Inductive comp (A : Type) : Type :=
  | COk (a : A)
  | CError (msg : string)
  | CUndefined.
Arguments COk {A} _. Arguments CError {A} _. Arguments CUndefined {A}.

Definition cbind {A B} (m : comp A) (k : A -> comp B) : comp B :=
  match m with COk a => k a | CError msg => CError msg | CUndefined => CUndefined end.

Declare Scope comp_scope.
Delimit Scope comp_scope with comp.
#[local] Open Scope comp_scope.
Notation "x <-? m ; k" := (cbind m (fun x => k))
  (at level 80, m at next level, right associativity) : comp_scope.

(** ** State *)

Inductive IdentifierLookup := LOOKUP_NORMAL | LOOKUP_DECLARE | LOOKUP_EXPR.
#[export] Instance identifier_lookup_eq : EqDecision IdentifierLookup.
Proof. solve_decision. Defined.

Record pstate := mk_pstate {
  Datums : list UPLpgSQL_datum;
  datums_last : nat;
  ns_top : chain;
  lookup_mode : IdentifierLookup
}.
Definition nDatums (st : pstate) : nat := length (Datums st).
Definition with_datums (ds : list UPLpgSQL_datum) (st : pstate) : pstate :=
  mk_pstate ds (datums_last st) (ns_top st) (lookup_mode st).
Definition with_ns (ns : chain) (st : pstate) : pstate :=
  mk_pstate (Datums st) (datums_last st) ns (lookup_mode st).

(** [uplpgsql_start_datums] and [uplpgsql_ns_init]. *)
Definition start_datums : pstate := mk_pstate [] 0 ns_init LOOKUP_NORMAL.

(** ** Building datums *)

Definition datum_dno (d : UPLpgSQL_datum) : nat :=
  match d with
  | DTYPE_VAR v | DTYPE_PROMISE v => dno (var_head v)
  | DTYPE_ROW r => dno (row_head r)
  | DTYPE_REC r => dno (rec_head r)
  | DTYPE_RECFIELD f => rf_dno f
  end.

Definition set_head_dno (n : nat) (h : UPLpgSQL_variable) : UPLpgSQL_variable :=
  mk_variable n (refname h) (isconst h) (notnull h) (default_val h).
Definition set_var_dno (n : nat) (v : UPLpgSQL_var) : UPLpgSQL_var :=
  mk_var (set_head_dno n (var_head v)) (var_datatype v) (cursor_explicit_expr v)
    (cursor_explicit_argrow v) (cursor_options v) (value v) (isnull v) (freeval v) (promise v).
Definition set_dno (n : nat) (d : UPLpgSQL_datum) : UPLpgSQL_datum :=
  match d with
  | DTYPE_VAR v => DTYPE_VAR (set_var_dno n v)
  | DTYPE_PROMISE v => DTYPE_PROMISE (set_var_dno n v)
  | DTYPE_ROW r => DTYPE_ROW (mk_row (set_head_dno n (row_head r)) (rowtupdesc r) (fieldnames r) (varnos r))
  | DTYPE_REC r =>
      DTYPE_REC (mk_rec (set_head_dno n (rec_head r)) (rec_datatype r) (rectypeid r) (firstfield r) (erh r))
  | DTYPE_RECFIELD f => DTYPE_RECFIELD (mk_recfield n (fieldname f) (recparentno f) (nextfield f))
  end.

(** The number it got, and the state. *)
Definition adddatum (newdatum : UPLpgSQL_datum) (st : pstate) : nat * pstate :=
  (nDatums st, with_datums (Datums st ++ [set_dno (nDatums st) newdatum]) st).

Definition new_head (name : string) : UPLpgSQL_variable := mk_variable 0 name false false None.

Definition add_name (add2namespace : bool) (t : UPLpgSQL_nsitem_type) (n : nat) (name : string)
    (st : pstate) : pstate :=
  if add2namespace then with_ns (ns_additem (ns_top st) t (Z.of_nat n) name) st else st.

Definition build_record (refname : string) (dtype : option UPLpgSQL_type) (rectypeid : Oid)
    (add2namespace : bool) (st : pstate) : nat * pstate :=
  let rec := DTYPE_REC (mk_rec (new_head refname) dtype rectypeid (-1) None) in
  let (n, st') := adddatum rec st in
  (n, add_name add2namespace NSTYPE_REC n refname st').

Definition build_variable (refname : string) (dtype : UPLpgSQL_type) (add2namespace : bool)
    (st : pstate) : comp (nat * pstate) :=
  match ttype dtype with
  | TTYPE_SCALAR =>
      let var := DTYPE_VAR (mk_var (new_head refname) dtype None 0 0 0 true false PROMISE_NONE) in
      let (n, st') := adddatum var st in
      COk (n, add_name add2namespace NSTYPE_VAR n refname st')
  | TTYPE_REC => COk (build_record refname (Some dtype) (typoid dtype) add2namespace st)
  | TTYPE_PSEUDO => CError "variable has pseudo-type"
  end.

(** The search "for an existing datum referencing this field": the loop over the
    chain that starts at [firstfield].  Every step reads the array, so its length
    bounds a search that ends. *)
Fixpoint find_field (fuel : nat) (ds : list UPLpgSQL_datum) (i : Z) (fldname : string)
    : comp (option nat) :=
  if (i <? 0)%Z then COk None
  else
    match fuel with
    | O => CUndefined
    | S fuel' =>
        match ds !! Z.to_nat i with
        | Some (DTYPE_RECFIELD fld) =>
            if String.eqb (fieldname fld) fldname then COk (Some (Z.to_nat i))
            else find_field fuel' ds (nextfield fld) fldname
        | _ => CUndefined
        end
    end.

Definition get_rec (ds : list UPLpgSQL_datum) (n : nat) : comp UPLpgSQL_rec :=
  match ds !! n with Some (DTYPE_REC rec) => COk rec | _ => CUndefined end.

Definition set_firstfield (i : Z) (r : UPLpgSQL_rec) : UPLpgSQL_rec :=
  mk_rec (rec_head r) (rec_datatype r) (rectypeid r) i (erh r).

(** [recno] is the number of the record. *)
Definition build_recfield (recno : nat) (fldname : string) (st : pstate) : comp (nat * pstate) :=
  rec <-? get_rec (Datums st) recno;
  found <-? find_field (nDatums st) (Datums st) (firstfield rec) fldname;
  match found with
  | Some i => COk (i, st)
  | None =>
      let recfield := DTYPE_RECFIELD (mk_recfield 0 fldname recno (firstfield rec)) in
      let (n, st') := adddatum recfield st in
      COk (n, with_datums (<[recno := DTYPE_REC (set_firstfield (Z.of_nat n) rec)]> (Datums st')) st')
  end.

(** The columns [build_row_from_vars] gives a row. *)
Definition row_column (ds : list UPLpgSQL_datum) (n : nat) : comp (string * nat * (Oid * Z)) :=
  match ds !! n with
  | Some (DTYPE_VAR v) | Some (DTYPE_PROMISE v) =>
      COk (refname (var_head v), n, (typoid (var_datatype v), atttypmod (var_datatype v)))
  | Some (DTYPE_REC r) => COk (refname (rec_head r), n, (rectypeid r, -1)%Z)
  | Some _ => CError "unrecognized dtype"
  | None => CUndefined
  end.

Fixpoint row_columns (ds : list UPLpgSQL_datum) (vars : list nat) : comp (list (string * nat * (Oid * Z))) :=
  match vars with
  | [] => COk []
  | n :: vars' => c <-? row_column ds n; cs <-? row_columns ds vars'; COk (c :: cs)
  end.

(** [TupleDescInitEntry] fills in a column's length and alignment from the
    catalogue: [attr_of] stands for it. *)
Definition build_row_from_vars (attr_of : Oid -> Z -> pg_attribute) (vars : list nat) (st : pstate)
    : comp UPLpgSQL_row :=
  cols <-? row_columns (Datums st) vars;
  COk (mk_row (new_head "(unnamed row)")
         (Some (mk_tupdesc RECORDOID (-1) (map (fun c => attr_of c.2.1 c.2.2) cols)))
         (map (fun c => c.1.1) cols) (map (fun c => c.1.2) cols)).

(** "All the initializable datums created since the last call". *)
Definition initializable (d : UPLpgSQL_datum) : bool :=
  match d with DTYPE_VAR _ | DTYPE_REC _ => true | _ => false end.

Definition add_initdatums (st : pstate) : list nat * pstate :=
  (map datum_dno (List.filter initializable (drop (datums_last st) (Datums st))),
   mk_pstate (Datums st) (nDatums st) (ns_top st) (lookup_mode st)).

(** ** Words *)

(** A variable reference as the scanner reports it: [wd_datum] is its number. *)
Record PLwdatum := mk_wdatum {
  wd_datum : nat;
  wd_ident : option string;
  wd_quoted : bool;
  wd_idents : list string
}.
Record PLword := mk_word { ident : string; quoted_word : bool }.
Record PLcword := mk_cword { idents : list string }.

(** [uplpgsql_ns_lookup] with its NULL dereference. *)
Definition lookup_name (ns : chain) (name1 : string) (name2 name3 : option string)
    : comp (option (UPLpgSQL_nsitem * nat)) :=
  match ns_lookup ns false name1 name2 name3 with Some r => COk r | None => CUndefined end.

Definition item_dno (i : UPLpgSQL_nsitem) : nat := Z.to_nat (itemno i).

(** [quoted] is [yytxt[0] == 'a double quote']. *)
Definition parse_word (word1 : string) (quoted lookup : bool) (st : pstate) : comp (PLwdatum + PLword) :=
  if lookup && bool_decide (lookup_mode st = LOOKUP_NORMAL)
  then
    ns <-? lookup_name (ns_top st) word1 None None;
    match ns with
    | Some (i, _) =>
        match itemtype i with
        | NSTYPE_VAR | NSTYPE_REC => COk (inl (mk_wdatum (item_dno i) (Some word1) quoted []))
        | NSTYPE_LABEL => CError "unrecognized plpgsql itemtype: 0"
        end
    | None => COk (inr (mk_word word1 quoted))
    end
  else COk (inr (mk_word word1 quoted)).

Definition parse_dblword (word1 word2 : string) (st : pstate) : comp ((PLwdatum + PLcword) * pstate) :=
  let idents := [word1; word2] in
  if bool_decide (lookup_mode st <> LOOKUP_DECLARE)
  then
    ns <-? lookup_name (ns_top st) word1 (Some word2) None;
    match ns with
    | Some (i, nnames) =>
        match itemtype i with
        | NSTYPE_VAR => COk (inl (mk_wdatum (item_dno i) None false idents), st)
        | NSTYPE_REC =>
            if Nat.eqb nnames 1
            then
              r <-? build_recfield (item_dno i) word2 st;
              COk (inl (mk_wdatum r.1 None false idents), r.2)
            else COk (inl (mk_wdatum (item_dno i) None false idents), st)
        | NSTYPE_LABEL => COk (inr (mk_cword idents), st)
        end
    | None => COk (inr (mk_cword idents), st)
    end
  else COk (inr (mk_cword idents), st).

Definition parse_tripword (word1 word2 word3 : string) (st : pstate) : comp ((PLwdatum + PLcword) * pstate) :=
  let nothing := COk (inr (mk_cword [word1; word2; word3]), st) in
  if bool_decide (lookup_mode st <> LOOKUP_DECLARE)
  then
    ns <-? lookup_name (ns_top st) word1 (Some word2) (Some word3);
    match ns with
    | Some (i, nnames) =>
        match itemtype i with
        | NSTYPE_REC =>
            if Nat.eqb nnames 1
            then
              r <-? build_recfield (item_dno i) word2 st;
              COk (inl (mk_wdatum r.1 None false [word1; word2]), r.2)
            else
              r <-? build_recfield (item_dno i) word3 st;
              COk (inl (mk_wdatum r.1 None false [word1; word2; word3]), r.2)
        | NSTYPE_VAR | NSTYPE_LABEL => nothing
        end
    | None => nothing
    end
  else nothing.

(** [word%TYPE]. *)
Definition parse_wordtype (word : string) (st : pstate) : comp (option UPLpgSQL_type) :=
  ns <-? lookup_name (ns_top st) word None None;
  match ns with
  | Some (i, _) =>
      match itemtype i, Datums st !! item_dno i with
      | NSTYPE_VAR, Some (DTYPE_VAR v) | NSTYPE_VAR, Some (DTYPE_PROMISE v) => COk (Some (var_datatype v))
      | NSTYPE_REC, Some (DTYPE_REC r) => COk (rec_datatype r)
      | NSTYPE_LABEL, _ => CError ("variable " +:+ word +:+ " does not exist")
      | _, _ => CUndefined
      end
  | None => CError ("variable " +:+ word +:+ " does not exist")
  end.

(** A parameter's name: duplicates are rejected in the innermost scope. *)
Definition add_parameter_name (t : UPLpgSQL_nsitem_type) (itemno : nat) (name : string) (st : pstate)
    : comp pstate :=
  match ns_lookup (ns_top st) true name None None with
  | None => CUndefined
  | Some (Some _) => CError ("parameter name " +:+ name +:+ " used more than once")
  | Some None => COk (with_ns (ns_additem (ns_top st) t (Z.of_nat itemno) name) st)
  end.

(** ** Column references *)

(** "The allowed syntaxes are" A, A.B, A.star, A.B.C, A.B.star; with more names a
    reference is not ours. *)
Inductive ColumnRef :=
  | CrefA (a : string)
  | CrefAB (a b : string)
  | CrefAStar (a : string)
  | CrefABC (a b c : string)
  | CrefABStar (a b : string)
  | CrefMore.

(** [name1], [name2], [name3] and [colname], and how many names make a scalar, a
    whole row or a field of a row. *)
Record cref_names := mk_cref_names {
  cr_name1 : string; cr_name2 : option string; cr_name3 : option string; cr_colname : string;
  nnames_scalar : nat; nnames_wholerow : nat; nnames_field : nat
}.
Definition names_of (cref : ColumnRef) : option cref_names :=
  match cref with
  | CrefA a => Some (mk_cref_names a None None "" 1 1 0)
  | CrefAB a b => Some (mk_cref_names a (Some b) None b 2 2 1)
  | CrefAStar a => Some (mk_cref_names a (Some "*") None "" 0 1 0)
  | CrefABC a b c => Some (mk_cref_names a (Some b) (Some c) c 0 0 2)
  | CrefABStar a b => Some (mk_cref_names a (Some b) (Some "*") "" 0 2 0)
  | CrefMore => None
  end.

(** The number of the datum, [None] for "name not known".  [ns] is the expression's
    namespace, [ds] the datums of the running function. *)
Definition resolve_column_ref (ns : chain) (ds : list UPLpgSQL_datum) (cref : ColumnRef)
    (error_if_no_field : bool) : comp (option nat) :=
  match names_of cref with
  | None => COk None
  | Some c =>
      r <-? lookup_name ns (cr_name1 c) (cr_name2 c) (cr_name3 c);
      match r with
      | None => COk None
      | Some (i, nnames) =>
          match itemtype i with
          | NSTYPE_VAR => COk (if Nat.eqb nnames (nnames_scalar c) then Some (item_dno i) else None)
          | NSTYPE_REC =>
              if Nat.eqb nnames (nnames_wholerow c) then COk (Some (item_dno i))
              else if Nat.eqb nnames (nnames_field c)
              then
                rec <-? get_rec ds (item_dno i);
                f <-? find_field (length ds) ds (firstfield rec) (cr_colname c);
                match f with
                | Some n => COk (Some n)
                | None =>
                    if error_if_no_field
                    then CError ("field name " +:+ cr_colname c +:+ " is a reserved key word")
                    else COk None
                end
              else COk None
          | NSTYPE_LABEL => CError "unrecognized plpgsql itemtype: 0"
          end
      end
  end.

(** The reference is recorded in the expression's [paramnos]; the [Param] node has
    [paramid = dno + 1]. *)
Definition make_datum_param (expr : UPLpgSQL_expr) (dno : nat) : Z * UPLpgSQL_expr :=
  (Z.of_nat dno + 1,
   mk_expr (query expr) (target_param expr) (target_is_local expr) (plan expr)
     (if bool_decide (dno ∈ paramnos expr) then paramnos expr else dno :: paramnos expr))%Z.

(** [uplpgsql.variable_conflict]. *)
Inductive UPLpgSQL_resolve_option := RESOLVE_ERROR | RESOLVE_VARIABLE | RESOLVE_COLUMN.

Definition pre_column_ref (opt : UPLpgSQL_resolve_option) (ns : chain) (ds : list UPLpgSQL_datum)
    (cref : ColumnRef) : comp (option nat) :=
  match opt with
  | RESOLVE_VARIABLE => resolve_column_ref ns ds cref false
  | RESOLVE_ERROR | RESOLVE_COLUMN => COk None
  end.

(** [var]: the SQL parser found a column of that name. *)
Definition post_column_ref (opt : UPLpgSQL_resolve_option) (ns : chain) (ds : list UPLpgSQL_datum)
    (cref : ColumnRef) (var : bool) : comp (option nat) :=
  match opt, var with
  | RESOLVE_VARIABLE, _ => COk None
  | RESOLVE_COLUMN, true => COk None
  | _, _ =>
      myvar <-? resolve_column_ref ns ds cref (negb var);
      match myvar, var with
      | Some _, true => CError "column reference is ambiguous"
      | _, _ => COk myvar
      end
  end.

(** [uplpgsql_param_ref]: [$n] is looked up under that name. *)
Definition param_ref (ns : chain) (number : nat) : comp (option nat) :=
  r <-? lookup_name ns ("$" +:+ pretty number) None None;
  match r with
  | Some (i, _) => COk (Some (item_dno i))
  | None => COk None
  end.

(** ** The invariant *)

(** The chain of field datums of record [p] that starts at [i]: the fields' names
    and numbers.  Numbers go down along it and no name occurs twice. *)
Inductive field_chain (ds : list UPLpgSQL_datum) (p : nat) : Z -> list (string * nat) -> Prop :=
  | chain_end i : (i < 0)%Z -> field_chain ds p i []
  | chain_field n name next l :
      ds !! n = Some (DTYPE_RECFIELD (mk_recfield n name p next)) ->
      (next < Z.of_nat n)%Z -> name ∉ map fst l ->
      field_chain ds p next l -> field_chain ds p (Z.of_nat n) ((name, n) :: l).

Definition datums_ok (ds : list UPLpgSQL_datum) : Prop :=
  (forall i d, ds !! i = Some d -> datum_dno d = i) /\
  (forall i r, ds !! i = Some (DTYPE_REC r) -> exists l, field_chain ds i (firstfield r) l).

(** A name refers to a datum of its kind. *)
Definition item_ok (ds : list UPLpgSQL_datum) (i : UPLpgSQL_nsitem) : Prop :=
  match itemtype i with
  | NSTYPE_LABEL => True
  | NSTYPE_VAR => exists v, ds !! item_dno i = Some (DTYPE_VAR v) \/ ds !! item_dno i = Some (DTYPE_PROMISE v)
  | NSTYPE_REC => exists r, ds !! item_dno i = Some (DTYPE_REC r)
  end.

Record state_ok (st : pstate) : Prop := {
  ok_datums : datums_ok (Datums st);
  ok_names : Forall (item_ok (Datums st)) (ns_top st);
  ok_chain : chain_ok (ns_top st)
}.

(** What declarations set in a datum after it was built: types' collations, NOT NULL,
    CONSTANT, default, cursor query and the like; a trigger's variables become promises. *)
Inductive adjusted : UPLpgSQL_datum -> UPLpgSQL_datum -> Prop :=
  | adjusted_var v v' : dno (var_head v') = dno (var_head v) -> adjusted (DTYPE_VAR v) (DTYPE_VAR v')
  | adjusted_promise v v' : dno (var_head v') = dno (var_head v) -> adjusted (DTYPE_VAR v) (DTYPE_PROMISE v')
  | adjusted_rec r h t :
      dno h = dno (rec_head r) ->
      adjusted (DTYPE_REC r) (DTYPE_REC (mk_rec h t (rectypeid r) (firstfield r) (erh r))).

(** What the parser does, step by step. *)
Inductive parse_step (st : pstate) : pstate -> Prop :=
  | step_variable name t add n st' :
      ns_top st <> [] -> build_variable name t add st = COk (n, st') -> parse_step st st'
  | step_record name t oid add n st' :
      ns_top st <> [] -> build_record name t oid add st = (n, st') -> parse_step st st'
  | step_row r n st' : adddatum (DTYPE_ROW r) st = (n, st') -> parse_step st st'
  | step_dblword w1 w2 r st' : parse_dblword w1 w2 st = COk (r, st') -> parse_step st st'
  | step_tripword w1 w2 w3 r st' : parse_tripword w1 w2 w3 st = COk (r, st') -> parse_step st st'
  | step_parameter t n name st' :
      ns_top st <> [] -> item_ok (Datums st) (mk_nsitem t (Z.of_nat n) name) -> t <> NSTYPE_LABEL ->
      add_parameter_name t n name st = COk st' -> parse_step st st'
  | step_adjust n d d' :
      Datums st !! n = Some d -> adjusted d d' ->
      parse_step st (with_datums (<[n := d']> (Datums st)) st)
  | step_alias i name :
      i ∈ ns_top st -> is_label i = false ->
      parse_step st (with_ns (ns_additem (ns_top st) (itemtype i) (itemno i) name) st)
  | step_push label t : parse_step st (with_ns (ns_push (ns_top st) label t) st)
  | step_pop ns' : ns_pop (ns_top st) = Some ns' -> parse_step st (with_ns ns' st)
  | step_initdatums : parse_step st (add_initdatums st).2
  | step_mode m : parse_step st (mk_pstate (Datums st) (datums_last st) (ns_top st) m).

(** *** Searching a chain *)

Definition assoc (name : string) (l : list (string * nat)) : option nat :=
  snd <$> List.find (fun x => String.eqb x.1 name) l.

Lemma find_field_chain ds p i l name fuel :
  field_chain ds p i l -> (i < Z.of_nat fuel)%Z -> find_field fuel ds i name = COk (assoc name l).
Proof.
  intros Hc. revert fuel. induction Hc as [i Hi|n fn next l Hn Hlt Hfresh Hc IH]; intros fuel Hf.
  - destruct fuel; simpl; by rewrite (proj2 (Z.ltb_lt i 0) Hi).
  - destruct fuel as [|fuel]; [lia|]. cbn [find_field]. rewrite (proj2 (Z.ltb_ge _ _)) by lia.
    rewrite Nat2Z.id, Hn. simpl. unfold assoc. simpl.
    destruct (String.eqb fn name); [done|]. apply IH. lia.
Qed.

Lemma field_chain_lt ds p i l : field_chain ds p i l -> (i < Z.of_nat (length ds))%Z.
Proof. destruct 1 as [|n fn next l Hn]; [lia|]. apply lookup_lt_Some in Hn. lia. Qed.

Lemma field_chain_find ds p i l name : field_chain ds p i l -> find_field (length ds) ds i name = COk (assoc name l).
Proof. intros Hc. eapply find_field_chain; [done|]. by eapply field_chain_lt. Qed.

(** A chain survives changes to datums that are not fields. *)
Lemma field_chain_mono ds ds' p i l :
  (forall n f, ds !! n = Some (DTYPE_RECFIELD f) -> ds' !! n = Some (DTYPE_RECFIELD f)) ->
  field_chain ds p i l -> field_chain ds' p i l.
Proof. intros Hf. induction 1; econstructor; eauto. Qed.

Lemma assoc_fresh name l : assoc name l = None -> name ∉ map fst l.
Proof.
  unfold assoc. induction l as [|[x n] l IH]; simpl; [by intros _ ?%elem_of_nil|].
  destruct (String.eqb_spec x name); [done|]. rewrite elem_of_cons. intros Hn [->|Hin]; [done|by apply IH].
Qed.

Lemma assoc_app_old name new l n :
  NoDup (map fst (new ++ l)) -> assoc name l = Some n -> assoc name (new ++ l) = Some n.
Proof.
  unfold assoc. induction new as [|[x k] new IH]; [done|]. simpl. intros Hd Hl. inversion Hd as [|? ? Hx Hnd]; subst.
  destruct (String.eqb_spec x name) as [->|]; [|by apply IH]. exfalso. apply Hx.
  rewrite map_app, elem_of_app. right. apply elem_of_map. destruct (List.find _ l) as [y|] eqn:E; [|done].
  apply find_some in E as [Hin He]. apply String.eqb_eq in He. exists y. split; [by apply list_elem_of_In|done].
Qed.

Lemma field_chain_nodup ds p i l : field_chain ds p i l -> NoDup (map fst l).
Proof. induction 1; simpl; by constructor. Qed.

(** *** Adding a datum *)

Lemma datum_dno_set n d : datum_dno (set_dno n d) = n.
Proof. by destruct d. Qed.

Lemma lookup_snoc_inv {A} (l : list A) x i y :
  (l ++ [x]) !! i = Some y -> l !! i = Some y \/ i = length l /\ y = x.
Proof.
  intros Hi. apply lookup_app_Some in Hi as [Hi|[Hge Hi]]; [by left|right].
  apply list_lookup_singleton_Some in Hi as [Hi ->]. split; [lia|done].
Qed.

Lemma field_chain_snoc ds d p i l : field_chain ds p i l -> field_chain (ds ++ [d]) p i l.
Proof. apply field_chain_mono. intros n f Hn. by apply lookup_app_l_Some. Qed.

(** A new datum that is no record with fields yet. *)
Lemma datums_ok_snoc ds d :
  (forall r, d = DTYPE_REC r -> (firstfield r < 0)%Z) -> datums_ok ds ->
  datums_ok (ds ++ [set_dno (length ds) d]).
Proof.
  intros Hd [Hno Hch]. split.
  - intros i d' [Hi|[-> ->]]%lookup_snoc_inv; [by apply Hno|apply datum_dno_set].
  - intros i r [Hi|[-> Hr]]%lookup_snoc_inv.
    + destruct (Hch i r Hi) as [l Hl]. exists l. by apply field_chain_snoc.
    + destruct d; try discriminate. injection Hr as ->. exists []. apply chain_end. simpl. by apply Hd.
Qed.

Lemma item_ok_snoc ds d i : item_ok ds i -> item_ok (ds ++ [d]) i.
Proof.
  unfold item_ok. destruct (itemtype i); [done| |]; [intros [v [Hv|Hv]]|intros [r Hr]]; eexists;
    try (left; by apply lookup_app_l_Some); try (right; by apply lookup_app_l_Some); by apply lookup_app_l_Some.
Qed.

(** What stays of the datums from one state to a later one: records keep their
    fields and may get more. *)
Definition fields_extend (ds ds' : list UPLpgSQL_datum) : Prop :=
  forall p r l, ds !! p = Some (DTYPE_REC r) -> field_chain ds p (firstfield r) l ->
    exists r' new, ds' !! p = Some (DTYPE_REC r') /\ field_chain ds' p (firstfield r') (new ++ l).

Lemma fields_extend_refl ds : fields_extend ds ds.
Proof. intros p r l Hp Hl. by exists r, []. Qed.

Lemma fields_extend_trans ds1 ds2 ds3 : fields_extend ds1 ds2 -> fields_extend ds2 ds3 -> fields_extend ds1 ds3.
Proof.
  intros He1 He2 p r l Hp Hl. destruct (He1 p r l Hp Hl) as (r' & new & Hp' & Hl').
  destruct (He2 p r' _ Hp' Hl') as (r'' & new' & Hp'' & Hl''). exists r'', (new' ++ new).
  by rewrite <- app_assoc.
Qed.

Lemma fields_extend_snoc ds d : fields_extend ds (ds ++ [d]).
Proof.
  intros p r l Hp Hl. exists r, []. split; [by apply lookup_app_l_Some|]. by apply field_chain_snoc.
Qed.

(** *** Building a field *)

(** Linking the field [name], number [length ds], into record [p]. *)
Definition link_field (ds : list UPLpgSQL_datum) (p : nat) (r : UPLpgSQL_rec) (name : string) : list UPLpgSQL_datum :=
  <[p := DTYPE_REC (set_firstfield (Z.of_nat (length ds)) r)]>
    (ds ++ [DTYPE_RECFIELD (mk_recfield (length ds) name p (firstfield r))]).

Section link.
Context (ds : list UPLpgSQL_datum) (p : nat) (r : UPLpgSQL_rec) (name : string) (l : list (string * nat)).
Context (Hp : ds !! p = Some (DTYPE_REC r)) (Hl : field_chain ds p (firstfield r) l).
Context (Hfresh : name ∉ map fst l).
Abbreviation ds' := (link_field ds p r name).

Lemma link_lookup i d : ds' !! i = Some d ->
  i = p /\ d = DTYPE_REC (set_firstfield (Z.of_nat (length ds)) r) \/
  i = length ds /\ d = DTYPE_RECFIELD (mk_recfield (length ds) name p (firstfield r)) \/
  i <> p /\ ds !! i = Some d.
Proof.
  unfold link_field. destruct (decide (i = p)) as [->|Hne].
  - pose proof (lookup_lt_Some _ _ _ Hp). rewrite list_lookup_insert_eq by (rewrite length_app; simpl; lia).
    intros [= <-]. by left.
  - rewrite list_lookup_insert_ne by done. intros [Hi|[-> ->]]%lookup_snoc_inv; auto.
Qed.

Lemma link_fields n f : ds !! n = Some (DTYPE_RECFIELD f) -> ds' !! n = Some (DTYPE_RECFIELD f).
Proof.
  intros Hn. unfold link_field. rewrite list_lookup_insert_ne by congruence. by apply lookup_app_l_Some.
Qed.

Lemma link_rec : ds' !! p = Some (DTYPE_REC (set_firstfield (Z.of_nat (length ds)) r)).
Proof.
  unfold link_field. apply list_lookup_insert_eq. apply lookup_lt_Some in Hp. rewrite length_app. simpl. lia.
Qed.

Lemma link_chain : field_chain ds' p (Z.of_nat (length ds)) ((name, length ds) :: l).
Proof.
  pose proof (lookup_lt_Some _ _ _ Hp). apply chain_field with (next := firstfield r).
  - unfold link_field. rewrite list_lookup_insert_ne by lia. by apply list_lookup_middle.
  - by eapply field_chain_lt.
  - done.
  - eapply field_chain_mono; [apply link_fields|done].
Qed.

Lemma link_ok : datums_ok ds -> datums_ok ds'.
Proof.
  intros [Hno Hch]. split.
  - intros i d [[-> ->]|[[-> ->]|[_ Hi]]]%link_lookup; [by apply (Hno _ _ Hp)|done|by apply Hno].
  - intros i r' [[-> Hr]|[[-> Hr]|[_ Hi]]]%link_lookup; [|done|].
    + injection Hr as ->. eexists. apply link_chain.
    + destruct (Hch i r' Hi) as [l' Hl']. exists l'. eapply field_chain_mono; [apply link_fields|done].
Qed.

Lemma link_items i : item_ok ds i -> item_ok ds' i.
Proof.
  assert (Hkeep : forall n d, ds !! n = Some d -> n <> p -> ds' !! n = Some d).
  { intros n d Hn Hne. unfold link_field. rewrite list_lookup_insert_ne by done. by apply lookup_app_l_Some. }
  unfold item_ok. destruct (itemtype i); [done| |].
  - intros [v Hv]. exists v. destruct Hv; [left|right]; apply Hkeep; congruence.
  - intros [r' Hr']. destruct (decide (item_dno i = p)) as [->|Hne]; [by eexists; apply link_rec|].
    exists r'. by apply Hkeep.
Qed.

Lemma link_extends : fields_extend ds ds'.
Proof.
  intros q r' l' Hq Hl'. destruct (decide (q = p)) as [->|Hne].
  - assert (r' = r) as -> by congruence. eexists _, [(name, length ds)]. split; [apply link_rec|].
    assert (Hsame : l' = l); [|subst; apply link_chain].
    clear -Hl Hl'. revert l' Hl'. induction Hl as [i Hi|n fn next l Hn Hlt Hf Hc IH]; intros l' Hl'.
    + inversion Hl'; [done|lia].
    + inversion Hl' as [|n' fn' next' l2 Hn' Hlt' Hf' Hc' Heq]; [lia|]. subst.
      assert (n' = n) by lia. subst. rewrite Hn in Hn'. injection Hn' as <- <-. f_equal. by apply IH.
  - exists r', []. unfold link_field. rewrite list_lookup_insert_ne by done.
    split; [by apply lookup_app_l_Some|]. eapply field_chain_mono; [apply link_fields|done].
Qed.
End link.

Lemma build_recfield_eq st p r l name :
  Datums st !! p = Some (DTYPE_REC r) -> field_chain (Datums st) p (firstfield r) l ->
  build_recfield p name st
  = COk (match assoc name l with
         | Some n => (n, st)
         | None => (nDatums st, with_datums (link_field (Datums st) p r name) st)
         end).
Proof.
  intros Hp Hl. unfold build_recfield, get_rec, nDatums. rewrite Hp. simpl.
  rewrite (field_chain_find _ _ _ _ _ Hl). simpl. by destruct (assoc name l).
Qed.

(** *** Looking names up *)

Lemma resolve_in_elem s name1 name2 name3 i n :
  scope_ok s -> resolve_in s name1 name2 name3 = Some (i, n) -> i ∈ sc_vars s /\ is_label i = false.
Proof.
  intros Hok Hr. assert (Hi : i ∈ sc_vars s).
  { unfold resolve_in in Hr. destruct (List.find _ (sc_vars s)) as [j|] eqn:Ef.
    - injection Hr as <- <-. apply find_some in Ef as [Hin _]. by apply list_elem_of_In.
    - destruct name2; [|done]. destruct (String.eqb _ _); [|done].
      apply fmap_Some in Hr as (j & Ef2 & Hj). injection Hj as -> _.
      apply find_some in Ef2 as [Hin _]. by apply list_elem_of_In. }
  split; [done|]. unfold scope_ok in Hok. rewrite list.Forall_forall in Hok. by apply Hok.
Qed.

Lemma resolve_elem ss name1 name2 name3 i n :
  Forall scope_ok ss -> resolve ss name1 name2 name3 = Some (i, n) -> i ∈ flatten ss /\ is_label i = false.
Proof.
  induction 1 as [|s ss Hs Hss IH]; [done|]. simpl. rewrite elem_of_app, elem_of_cons.
  destruct (resolve_in s name1 name2 name3) as [[j m]|] eqn:E.
  - intros [= <- <-]. destruct (resolve_in_elem _ _ _ _ _ _ Hs E). auto.
  - intros Hr. destruct (IH Hr). auto.
Qed.

Lemma lookup_name_ok ns name1 name2 name3 :
  chain_ok ns -> exists r, lookup_name ns name1 name2 name3 = COk r /\
    forall i n, r = Some (i, n) -> i ∈ ns /\ is_label i = false.
Proof.
  intros (ss & Hs & <-). unfold lookup_name. destruct ss as [|s ss];
    [exists None; split; [done|intros; discriminate]|].
  rewrite ns_lookup_spec by done. eexists. split; [done|]. intros i n. by apply resolve_elem.
Qed.

(** The record a name stands for, with its fields. *)
Lemma found_rec st i :
  state_ok st -> i ∈ ns_top st -> itemtype i = NSTYPE_REC ->
  exists r l, Datums st !! item_dno i = Some (DTYPE_REC r) /\ field_chain (Datums st) (item_dno i) (firstfield r) l.
Proof.
  intros [[_ Hch] Hn _] Hi Ht. rewrite list.Forall_forall in Hn. specialize (Hn i Hi).
  unfold item_ok in Hn. rewrite Ht in Hn. destruct Hn as [r Hr]. destruct (Hch _ r Hr) as [l Hl]. eauto.
Qed.

(** What a lookup that builds a field does to the state. *)
Definition field_built (st : pstate) (p : nat) (name : string) (n : nat) (st' : pstate) : Prop :=
  exists r l, Datums st' !! p = Some (DTYPE_REC r) /\ field_chain (Datums st') p (firstfield r) l /\
    assoc name l = Some n /\ state_ok st' /\ fields_extend (Datums st) (Datums st') /\
    ns_top st' = ns_top st.

Lemma build_recfield_ok st i name :
  state_ok st -> i ∈ ns_top st -> itemtype i = NSTYPE_REC ->
  exists n st', build_recfield (item_dno i) name st = COk (n, st') /\ field_built st (item_dno i) name n st'.
Proof.
  intros Hok Hi Ht. destruct (found_rec st i Hok Hi Ht) as (r & l & Hr & Hl).
  rewrite (build_recfield_eq _ _ _ _ _ Hr Hl). destruct (assoc name l) as [n|] eqn:E.
  - exists n, st. split; [done|]. exists r, l. split_and!; auto using fields_extend_refl.
  - pose proof (assoc_fresh _ _ E) as Hf. eexists _, _. split; [done|].
    exists (set_firstfield (Z.of_nat (nDatums st)) r), ((name, nDatums st) :: l). unfold nDatums. simpl.
    split_and!; [by apply link_rec|by apply link_chain| | |by eapply link_extends|done].
    + unfold assoc. simpl. by rewrite String.eqb_refl.
    + destruct Hok as [Hd Hn Hc]. split; simpl; [by eapply link_ok| |done].
      eapply Forall_impl; [|exact Hn]. intros j. by eapply link_items.
Qed.

(** *** Every step keeps the invariant *)

Lemma state_ok_snoc st d :
  (forall r, d = DTYPE_REC r -> (firstfield r < 0)%Z) -> state_ok st -> state_ok (adddatum d st).2.
Proof.
  intros Hd [Hds Hn Hc]. split; simpl; [by apply datums_ok_snoc| |done].
  eapply Forall_impl; [|exact Hn]. intros i. apply item_ok_snoc.
Qed.

Lemma state_ok_additem st t no name :
  state_ok st -> ns_top st <> [] -> t <> NSTYPE_LABEL ->
  item_ok (Datums st) (mk_nsitem t no name) -> state_ok (with_ns (ns_additem (ns_top st) t no name) st).
Proof.
  intros [Hds Hn Hc] Hne Ht Hi. split; simpl; [done| |by apply chain_ok_additem].
  by constructor.
Qed.

Lemma step_dbl_ok st w1 w2 r st' :
  state_ok st -> parse_dblword w1 w2 st = COk (r, st') ->
  state_ok st' /\ fields_extend (Datums st) (Datums st').
Proof.
  intros Hok. unfold parse_dblword. case_bool_decide; [|intros [= <- <-]; auto using fields_extend_refl].
  destruct (lookup_name_ok (ns_top st) w1 (Some w2) None (ok_chain _ Hok)) as (res & -> & Hres). simpl.
  destruct res as [[i k]|]; [|intros [= <- <-]; auto using fields_extend_refl].
  destruct (Hres i k eq_refl) as [Hin _].
  destruct (itemtype i) eqn:Ht; try (intros [= <- <-]; auto using fields_extend_refl).
  destruct (Nat.eqb k 1); [|intros [= <- <-]; auto using fields_extend_refl].
  destruct (build_recfield_ok st i w2 Hok Hin Ht) as (n & st1 & -> & _ & _ & _ & _ & _ & Hok1 & He & _).
  simpl. by intros [= <- <-].
Qed.

Lemma step_trip_ok st w1 w2 w3 r st' :
  state_ok st -> parse_tripword w1 w2 w3 st = COk (r, st') ->
  state_ok st' /\ fields_extend (Datums st) (Datums st').
Proof.
  intros Hok. unfold parse_tripword. case_bool_decide; [|intros [= <- <-]; auto using fields_extend_refl].
  destruct (lookup_name_ok (ns_top st) w1 (Some w2) (Some w3) (ok_chain _ Hok)) as (res & -> & Hres). simpl.
  destruct res as [[i k]|]; [|intros [= <- <-]; auto using fields_extend_refl].
  destruct (Hres i k eq_refl) as [Hin _].
  destruct (itemtype i) eqn:Ht; try (intros [= <- <-]; auto using fields_extend_refl).
  destruct (Nat.eqb k 1);
    [destruct (build_recfield_ok st i w2 Hok Hin Ht) as (n & st1 & -> & _ & _ & _ & _ & _ & Hok1 & He & _)
    |destruct (build_recfield_ok st i w3 Hok Hin Ht) as (n & st1 & -> & _ & _ & _ & _ & _ & Hok1 & He & _)];
    simpl; by intros [= <- <-].
Qed.

Lemma new_item_ok ds t n name d :
  ds !! n = Some d ->
  match t with
  | NSTYPE_LABEL => False
  | NSTYPE_VAR => exists v, d = DTYPE_VAR v
  | NSTYPE_REC => exists r, d = DTYPE_REC r
  end -> item_ok ds (mk_nsitem t (Z.of_nat n) name).
Proof.
  intros Hn Hd. unfold item_ok, item_dno. simpl. rewrite Nat2Z.id, Hn.
  destruct t; [done| |]; destruct Hd as [x ->]; eauto.
Qed.

Lemma add_name_ok add t n name st d :
  state_ok st -> ns_top st <> [] -> Datums st !! n = Some d ->
  match t with
  | NSTYPE_LABEL => False
  | NSTYPE_VAR => exists v, d = DTYPE_VAR v
  | NSTYPE_REC => exists r, d = DTYPE_REC r
  end -> state_ok (add_name add t n name st).
Proof.
  intros Hok Hne Hn Hd. unfold add_name. destruct add; [|done].
  apply state_ok_additem; [done..| |by eapply new_item_ok]. by destruct t.
Qed.

Lemma step_record_ok st name t oid add n st' :
  state_ok st -> ns_top st <> [] -> build_record name t oid add st = (n, st') ->
  state_ok st' /\ fields_extend (Datums st) (Datums st').
Proof.
  intros Hok Hne. unfold build_record. cbn [adddatum]. intros [= <- <-]. split.
  - eapply add_name_ok; [apply (state_ok_snoc st (DTYPE_REC (mk_rec (new_head name) t oid (-1) None))); [|done]|done| |by eexists].
    + intros r [= <-]. simpl. lia.
    + simpl. by apply list_lookup_middle.
  - unfold add_name. destruct add; apply fields_extend_snoc.
Qed.

Lemma step_variable_ok st name t add n st' :
  state_ok st -> ns_top st <> [] -> build_variable name t add st = COk (n, st') ->
  state_ok st' /\ fields_extend (Datums st) (Datums st').
Proof.
  intros Hok Hne. unfold build_variable. destruct (ttype t); [| |done].
  - cbn [adddatum]. intros [= <- <-]. split.
    + eapply add_name_ok; [apply (state_ok_snoc st (DTYPE_VAR (mk_var (new_head name) t None 0 0 0 true false PROMISE_NONE))); [|done]|done| |by eexists].
      * by intros r ?.
      * simpl. by apply list_lookup_middle.
    + unfold add_name. destruct add; apply fields_extend_snoc.
  - destruct (build_record name (Some t) (typoid t) add st) as [n0 st0] eqn:E. intros [= <- <-].
    by eapply step_record_ok.
Qed.

Lemma step_adjust_ok st n d d' :
  state_ok st -> Datums st !! n = Some d -> adjusted d d' ->
  state_ok (with_datums (<[n := d']> (Datums st)) st) /\
  fields_extend (Datums st) (<[n := d']> (Datums st)).
Proof.
  intros [[Hno Hch] Hn Hc] Hv Had. pose proof (lookup_lt_Some _ _ _ Hv) as Hlt.
  assert (Hkeep : forall i d, Datums st !! i = Some d -> i <> n -> <[n := d']> (Datums st) !! i = Some d).
  { intros i e Hi Hne. by rewrite list_lookup_insert_ne. }
  assert (Hnew : <[n := d']> (Datums st) !! n = Some d') by by apply list_lookup_insert_eq.
  assert (Hf : forall p i l, field_chain (Datums st) p i l -> field_chain (<[n := d']> (Datums st)) p i l).
  { intros p i l. apply field_chain_mono. intros m f Hm. apply Hkeep; [done|]. intros ->.
    rewrite Hv in Hm. injection Hm as ->. inversion Had. }
  assert (Hinv : forall i d, <[n := d']> (Datums st) !! i = Some d -> i = n /\ d = d' \/ Datums st !! i = Some d).
  { intros i e Hi. destruct (decide (i = n)) as [->|Hne]; [|rewrite list_lookup_insert_ne in Hi; auto].
    rewrite list_lookup_insert_eq in Hi by done. injection Hi as <-. auto. }
  split; [split; simpl; [split| |done]|].
  - intros i e [[-> ->]|Hi]%Hinv; [|by apply Hno]. rewrite <- (Hno _ _ Hv). by destruct Had.
  - intros i r [[-> Hx]|Hi]%Hinv.
    + destruct Had as [| |r0 h t Hh]; try discriminate. injection Hx as ->.
      destruct (Hch n r0 Hv) as [l Hl]. exists l. by apply Hf.
    + destruct (Hch i r Hi) as [l Hl]. eauto.
  - eapply Forall_impl; [|exact Hn]. intros i. unfold item_ok. destruct (itemtype i); [done| |].
    + intros [u Hu]. destruct (decide (item_dno i = n)) as [E|Hne].
      * rewrite E, Hv in Hu. rewrite E, Hnew. destruct Had as [? v'|? v'|]; [exists v'; by left|exists v'; by right|].
        by destruct Hu.
      * exists u. destruct Hu; [left|right]; by apply Hkeep.
    + intros [r Hr]. destruct (decide (item_dno i = n)) as [E|Hne]; [|exists r; by apply Hkeep].
      rewrite E, Hv in Hr. rewrite E, Hnew. injection Hr as ->. inversion Had. by eexists.
  - intros p r l Hp Hl. destruct (decide (p = n)) as [->|Hne].
    + rewrite Hv in Hp. injection Hp as ->. inversion Had as [| |? h t Hh]; subst.
      eexists _, []. split; [exact Hnew|]. by apply Hf.
    + exists r, []. split; [by apply Hkeep|by apply Hf].
Qed.

Lemma ns_pop_ok ns ns' : chain_ok ns -> ns_pop ns = Some ns' -> chain_ok ns' /\ forall i, i ∈ ns' -> i ∈ ns.
Proof.
  intros (ss & Hs & <-) Hp. destruct Hs as [|s ss Hok Hs]; [done|]. simpl in Hp.
  rewrite ns_pop_vars in Hp by done. injection Hp as <-. split; [by exists ss|].
  intros i Hi. simpl. rewrite elem_of_app, elem_of_cons. auto.
Qed.

Lemma step_ok st st' :
  parse_step st st' -> state_ok st -> state_ok st' /\ fields_extend (Datums st) (Datums st').
Proof.
  intros Hstep Hok. destruct Hstep as [? ? ? ? ? Hne E|? ? ? ? ? ? Hne E|r n st' E|? ? ? ? E|? ? ? ? ? E
    |t n name st' Hne Hi Ht E|n d d' Hv Hd|i name Hi Hl|label t|ns' Hp| |m].
  - by eapply step_variable_ok.
  - by eapply step_record_ok.
  - injection E as <- <-. split; [by apply (state_ok_snoc st (DTYPE_ROW r))|apply fields_extend_snoc].
  - by eapply step_dbl_ok.
  - by eapply step_trip_ok.
  - unfold add_parameter_name in E. destruct (ns_lookup _ _ _ _ _) as [[]|]; try discriminate.
    injection E as <-. split; [by apply state_ok_additem|apply fields_extend_refl].
  - by eapply step_adjust_ok.
  - split; [|apply fields_extend_refl]. pose proof (ok_names _ Hok) as Hn. rewrite list.Forall_forall in Hn.
    apply state_ok_additem; [done| | |exact (Hn i Hi)].
    + intros E. rewrite E in Hi. by apply elem_of_nil in Hi.
    + unfold is_label in Hl. by apply bool_decide_eq_false in Hl.
  - split; [|apply fields_extend_refl]. destruct Hok as [Hd Hn Hc].
    split; simpl; [done|by constructor|by apply chain_ok_push].
  - split; [|apply fields_extend_refl]. destruct Hok as [Hd Hn Hc].
    destruct (ns_pop_ok _ _ Hc Hp) as [Hc' Hsub]. split; simpl; [done| |done].
    rewrite list.Forall_forall in *. auto.
  - split; [by destruct Hok; split|apply fields_extend_refl].
  - split; [by destruct Hok; split|apply fields_extend_refl].
Qed.

Abbreviation parse_steps := (rtc parse_step).

Lemma steps_ok st st' :
  parse_steps st st' -> state_ok st -> state_ok st' /\ fields_extend (Datums st) (Datums st').
Proof.
  induction 1 as [st|st1 st2 st3 Hs _ IH]; intros Hok; [auto using fields_extend_refl|].
  destruct (step_ok _ _ Hs Hok) as [Hok2 He]. destruct (IH Hok2) as [Hok3 He']. eauto using fields_extend_trans.
Qed.

Lemma start_ok : state_ok start_datums.
Proof. split; simpl; [split; intros ? ? Hx; by rewrite lookup_nil in Hx|constructor|by exists []]. Qed.

(** ** Theorems *)

Lemma resolve_safe st cref b : state_ok st -> resolve_column_ref (ns_top st) (Datums st) cref b <> CUndefined.
Proof.
  intros Hok. unfold resolve_column_ref. destruct (names_of cref) as [c|]; [|done].
  destruct (lookup_name_ok (ns_top st) (cr_name1 c) (cr_name2 c) (cr_name3 c) (ok_chain _ Hok)) as (res & -> & Hres).
  simpl. destruct res as [[i k]|]; [|done]. destruct (Hres i k eq_refl) as [Hin _].
  destruct (itemtype i) eqn:Ht; [done|done|]. destruct (Nat.eqb k (nnames_wholerow c)); [done|].
  destruct (Nat.eqb k (nnames_field c)); [|done].
  destruct (found_rec st i Hok Hin Ht) as (r & l & Hr & Hl). unfold get_rec. rewrite Hr. simpl.
  rewrite (field_chain_find _ _ _ _ _ Hl). simpl. destruct (assoc (cr_colname c) l); [done|]. by destruct b.
Qed.

Lemma wordtype_safe st w : state_ok st -> parse_wordtype w st <> CUndefined.
Proof.
  intros Hok. unfold parse_wordtype.
  destruct (lookup_name_ok (ns_top st) w None None (ok_chain _ Hok)) as (res & -> & Hres). simpl.
  destruct res as [[i k]|]; [|done]. destruct (Hres i k eq_refl) as [Hin _].
  pose proof (ok_names _ Hok) as Hn. rewrite list.Forall_forall in Hn. specialize (Hn i Hin).
  unfold item_ok in Hn. destruct (itemtype i); [done| |].
  - by destruct Hn as [v [-> | ->]].
  - by destruct Hn as [r ->].
Qed.

Lemma recfield_safe st i name :
  state_ok st -> i ∈ ns_top st -> itemtype i = NSTYPE_REC -> build_recfield (item_dno i) name st <> CUndefined.
Proof. intros Hok Hi Ht. by destruct (build_recfield_ok st i name Hok Hi Ht) as (n & st' & -> & _). Qed.

(** C16. However far the parser has come, resolving a name is safe: no lookup, of one
    word or of several, for a %TYPE or for a column of an expression, follows a wild
    pointer, reads past the datum array or takes one kind of datum for another, and
    the search along a record's chain of fields ends. *)
Theorem name_lookup_safe st w1 w2 w3 q lookup cref b :
  parse_steps start_datums st ->
  parse_word w1 q lookup st <> CUndefined /\ parse_dblword w1 w2 st <> CUndefined /\
  parse_tripword w1 w2 w3 st <> CUndefined /\ parse_wordtype w1 st <> CUndefined /\
  resolve_column_ref (ns_top st) (Datums st) cref b <> CUndefined.
Proof.
  intros Hs. destruct (steps_ok _ _ Hs start_ok) as [Hok _]. pose proof (ok_chain _ Hok) as Hc.
  split_and!; [| | |by apply wordtype_safe|by apply resolve_safe].
  - unfold parse_word. destruct (_ && _); [|done].
    destruct (lookup_name_ok (ns_top st) w1 None None Hc) as (res & -> & _). simpl.
    destruct res as [[i k]|]; [|done]. by destruct (itemtype i).
  - unfold parse_dblword. case_bool_decide; [|done].
    destruct (lookup_name_ok (ns_top st) w1 (Some w2) None Hc) as (res & -> & Hres). simpl.
    destruct res as [[i k]|]; [|done]. destruct (itemtype i) eqn:Ht; [done|done|].
    destruct (Nat.eqb k 1); [|done]. destruct (Hres i k eq_refl) as [Hin _].
    by destruct (build_recfield_ok st i w2 Hok Hin Ht) as (n & st' & -> & _).
  - unfold parse_tripword. case_bool_decide; [|done].
    destruct (lookup_name_ok (ns_top st) w1 (Some w2) (Some w3) Hc) as (res & -> & Hres). simpl.
    destruct res as [[i k]|]; [|done]. destruct (itemtype i) eqn:Ht; [done|done|]. destruct (Hres i k eq_refl) as [Hin _].
    destruct (Nat.eqb k 1);
      [by destruct (build_recfield_ok st i w2 Hok Hin Ht) as (n & st' & -> & _)
      |by destruct (build_recfield_ok st i w3 Hok Hin Ht) as (n & st' & -> & _)].
Qed.

(** The field that was built is found in every later state. *)
Lemma field_found_later st p name n st1 st2 :
  field_built st p name n st1 -> parse_steps st1 st2 ->
  exists r, get_rec (Datums st2) p = COk r /\
    find_field (length (Datums st2)) (Datums st2) (firstfield r) name = COk (Some n).
Proof.
  intros (r & l & Hr & Hl & Ha & Hok & _) Hs. destruct (steps_ok _ _ Hs Hok) as [_ He].
  destruct (He p r l Hr Hl) as (r' & new & Hr' & Hl'). exists r'. unfold get_rec. rewrite Hr'.
  split; [done|]. rewrite (field_chain_find _ _ _ _ _ Hl'). f_equal.
  apply assoc_app_old; [by eapply field_chain_nodup|done].
Qed.

(** A qualified lookup that matched one name did not match a scalar. *)
Lemma resolve_names_used ss a b c i k :
  resolve ss a (Some b) c = Some (i, k) -> k = 1 /\ itemtype i <> NSTYPE_VAR \/ k = 2.
Proof.
  induction ss as [|s ss IH]; [done|]. cbn [resolve]. unfold resolve_in.
  destruct (List.find (item_matches a _) (sc_vars s)) as [j|] eqn:Ef.
  - intros [= <- <-]. left. split; [done|]. apply find_some in Ef as [_ Hm].
    unfold item_matches in Hm. simpl in Hm. apply andb_prop in Hm as [_ Hm].
    by apply negb_true_iff, bool_decide_eq_false in Hm.
  - destruct (String.eqb (sc_label s) a); [|done].
    destruct (List.find (item_matches b _) (sc_vars s)); [intros [= <- <-]; auto|done].
Qed.

Lemma qualified_names_used ns a b c i k :
  chain_ok ns -> lookup_name ns a (Some b) c = COk (Some (i, k)) ->
  k = 1 /\ itemtype i <> NSTYPE_VAR \/ k = 2.
Proof.
  intros (ss & Hs & <-). unfold lookup_name. destruct ss as [|s ss]; [done|].
  rewrite ns_lookup_spec by done. intros Hr. apply (resolve_names_used (s :: ss) a b c). congruence.
Qed.

(** C18. What the scanner resolved is what the expression finds.  A name a.b that
    the scanner recognised as a variable, a record or a record's field while parsing
    is resolved to the same datum when the expression it occurs in is prepared, in
    any later state of the datum array: fields built since do not hide it. *)
Theorem scanned_name_resolves st a b w st1 st2 :
  parse_steps start_datums st -> parse_dblword a b st = COk (inl w, st1) -> parse_steps st1 st2 ->
  resolve_column_ref (ns_top st) (Datums st2) (CrefAB a b) true = COk (Some (wd_datum w)).
Proof.
  intros Hs Hw Hs2. destruct (steps_ok _ _ Hs start_ok) as [Hok _]. revert Hw.
  unfold parse_dblword, resolve_column_ref. case_bool_decide; [|done]. simpl.
  destruct (lookup_name_ok (ns_top st) a (Some b) None (ok_chain _ Hok)) as (res & E & Hres). rewrite E. simpl.
  destruct res as [[i k]|]; [|done]. destruct (Hres i k eq_refl) as [Hin _].
  destruct (qualified_names_used _ _ _ _ _ _ (ok_chain _ Hok) E) as [[-> Hv]| ->];
    (destruct (itemtype i) eqn:Ht; [done| |]); try done.
  - destruct (build_recfield_ok st i b Hok Hin Ht) as (n & st' & Eb & Hb). simpl. rewrite Eb. simpl.
    intros [= <- <-]. destruct (field_found_later _ _ _ _ _ _ Hb Hs2) as (r & -> & Hf). simpl. by rewrite Hf.
  - by intros [= <- <-].
  - by intros [= <- <-].
Qed.

(** The numbers are ascending. *)
Lemma initdatums_sorted l : forall k,
  (forall i d, l !! i = Some d -> datum_dno d = (k + i)%nat) ->
  StronglySorted lt (map datum_dno (List.filter initializable l)).
Proof.
  induction l as [|d l IH]; intros k Hd; [constructor|]. simpl.
  assert (Hl : forall i d', l !! i = Some d' -> datum_dno d' = (S k + i)%nat)
    by (intros i d' Hi; rewrite (Hd (S i) d' Hi); lia).
  destruct (initializable d); [|by apply (IH (S k))]. simpl. constructor; [by apply (IH (S k))|].
  apply list.Forall_forall. intros m (d' & Hin & <-)%elem_of_map.
  apply list_elem_of_In, filter_In in Hin as [Hin _].
  apply list_elem_of_In, list_elem_of_lookup in Hin as [i Hi].
  rewrite (Hl i d' Hi). pose proof (Hd 0 d eq_refl). lia.
Qed.

(** Declarations: steps between which [uplpgsql_add_initdatums] is not called. *)
Abbreviation decl_steps := (rtc (fun st st' => parse_step st st' /\ datums_last st' = datums_last st)).

(** A DECLARE section from the state [st]: [decl_start] forgets what was created before,
    the declarations follow, and [decl_sect] takes what they created. *)
Definition declare_section (st st1 st2 : pstate) (initvarnos : list nat) : Prop :=
  decl_steps (add_initdatums st).2 st1 /\ add_initdatums st1 = (initvarnos, st2).

Lemma decl_steps_parse st st' : decl_steps st st' -> parse_steps st st' /\ datums_last st' = datums_last st.
Proof.
  induction 1 as [st|st1 st2 st3 [Hs Hl] _ [IHs IHl]]; [by split; [apply rtc_refl|]|].
  split; [by eapply rtc_l|congruence].
Qed.

(** C24. A block initialises exactly what its DECLARE section declared: the numbers in
    [initvarnos] are those of the variables (DTYPE_VAR, the parameters of bound cursors
    among them) and records (DTYPE_REC) that were created after the section's DECLARE,
    each once and in the order of declaration; what was created before, and rows and
    record fields, are not among them. *)
Theorem initdatums_exact st st1 st2 initvarnos :
  parse_steps start_datums st -> declare_section st st1 st2 initvarnos ->
  (forall n, n ∈ initvarnos <->
     (length (Datums st) <= n)%nat
     /\ ((exists v, Datums st1 !! n = Some (DTYPE_VAR v)) \/ exists r, Datums st1 !! n = Some (DTYPE_REC r)))
  /\ StronglySorted lt initvarnos.
Proof.
  intros Hs0 [Hdecl [= <- _]]. apply decl_steps_parse in Hdecl as [Hs1 Hlast]. simpl in Hlast.
  assert (Hs : parse_steps start_datums st1).
  { etrans; [exact Hs0|]. eapply rtc_l; [apply step_initdatums|exact Hs1]. }
  replace (length (Datums st)) with (datums_last st1) by exact Hlast. clear Hs0 Hs1 Hlast st. rename st1 into st.
  destruct (steps_ok _ _ Hs start_ok) as [[[Hno _] _ _] _]. 
  set (k := datums_last st).
  assert (Hdrop : forall i d, drop k (Datums st) !! i = Some d -> datum_dno d = (k + i)%nat).
  { intros i d Hi. rewrite lookup_drop in Hi. by apply Hno. }
  split.
  - intros n. rewrite elem_of_map. setoid_rewrite list_elem_of_In. setoid_rewrite filter_In.
    setoid_rewrite <- list_elem_of_In. split.
    + intros (d & [Hin Hi] & <-). apply list_elem_of_lookup in Hin as [i Hl].
      rewrite (Hdrop i d Hl). rewrite lookup_drop in Hl. split; [lia|]. destruct d; eauto; discriminate.
    + intros (Hle & Hx). assert (exists d, Datums st !! n = Some d /\ initializable d = true) as (d & Hd & Hi)
        by (destruct Hx as [[v Hv]|[r Hr]]; eexists; by split).
      exists d. split; [split; [|done]|by apply Hno].
      apply list_elem_of_lookup. exists (n - k)%nat. rewrite lookup_drop. by replace (k + (n - k))%nat with n by lia.
  - by apply (initdatums_sorted _ k).
Qed.

(** ** Copying the datums for a call *)

Section copy.
(** [sizeof(UPLpgSQL_var)] and [sizeof(UPLpgSQL_rec)]. *)
Context (sizeof_var sizeof_rec : Z).
Open Scope Z_scope.

Definition MAXALIGN (n : Z) : Z := Z.land (n + 7) (Z.lnot 7).

(** [uplpgsql_finish_datums]: the space a call needs. *)
Definition copiable_size (ds : list UPLpgSQL_datum) : Z :=
  foldl (fun size d => match d with
                       | DTYPE_VAR _ | DTYPE_PROMISE _ => size + MAXALIGN sizeof_var
                       | DTYPE_REC _ => size + MAXALIGN sizeof_rec
                       | DTYPE_ROW _ | DTYPE_RECFIELD _ => size
                       end) 0 ds.

(** Where a call's datum lives: copied to an offset of the workspace, or shared with
    the function. *)
Inductive placement := InWorkspace (off len : Z) | Shared.

(** The loop of [copy_uplpgsql_datums], with [ws_next] as an offset. *)
Fixpoint copy_datums (ds : list UPLpgSQL_datum) (ws_next : Z) : list placement * Z :=
  match ds with
  | [] => ([], ws_next)
  | d :: ds' =>
      match d with
      | DTYPE_VAR _ | DTYPE_PROMISE _ =>
          let (l, e) := copy_datums ds' (ws_next + MAXALIGN sizeof_var) in
          (InWorkspace ws_next sizeof_var :: l, e)
      | DTYPE_REC _ =>
          let (l, e) := copy_datums ds' (ws_next + MAXALIGN sizeof_rec) in
          (InWorkspace ws_next sizeof_rec :: l, e)
      | DTYPE_ROW _ | DTYPE_RECFIELD _ =>
          let (l, e) := copy_datums ds' ws_next in (Shared :: l, e)
      end
  end.

Lemma MAXALIGN_le n : n <= MAXALIGN n.
Proof.
  unfold MAXALIGN. assert (Hm : Z.land (n + 7) (Z.lnot 7) = (n + 7) - (n + 7) mod 8).
  { replace (Z.lnot 7) with (Z.lnot (Z.ones 3)) by done. rewrite <- Z.ldiff_land, Z.ldiff_ones_r by lia.
    rewrite Z.shiftl_mul_pow2, Z.shiftr_div_pow2 by lia. change (2 ^ 3) with 8.
    pose proof (Z.div_mod (n + 7) 8). lia. }
  rewrite Hm. pose proof (Z.mod_pos_bound (n + 7) 8). lia.
Qed.

(** Two pieces of the workspace do not overlap. *)
Definition apart (a b : placement) : Prop :=
  match a, b with
  | InWorkspace o1 n1, InWorkspace o2 n2 => o1 + n1 <= o2 \/ o2 + n2 <= o1
  | _, _ => True
  end.
Definition inside (lo hi : Z) (p : placement) : Prop :=
  match p with InWorkspace o n => lo <= o /\ o + n <= hi | Shared => True end.

(** What one datum takes of the workspace. *)
Definition advance (d : UPLpgSQL_datum) : Z :=
  match d with
  | DTYPE_VAR _ | DTYPE_PROMISE _ => MAXALIGN sizeof_var
  | DTYPE_REC _ => MAXALIGN sizeof_rec
  | DTYPE_ROW _ | DTYPE_RECFIELD _ => 0
  end.
Definition place (d : UPLpgSQL_datum) (ws_next : Z) : placement :=
  match d with
  | DTYPE_VAR _ | DTYPE_PROMISE _ => InWorkspace ws_next sizeof_var
  | DTYPE_REC _ => InWorkspace ws_next sizeof_rec
  | DTYPE_ROW _ | DTYPE_RECFIELD _ => Shared
  end.

Lemma copy_datums_cons d ds a :
  copy_datums (d :: ds) a
  = (place d a :: (copy_datums ds (a + advance d)).1, (copy_datums ds (a + advance d)).2).
Proof. destruct d; simpl; rewrite ?Z.add_0_r; by destruct (copy_datums ds _). Qed.

Lemma copiable_size_cons d ds : copiable_size (d :: ds) = advance d + copiable_size ds.
Proof.
  assert (Hg : forall ds a, foldl (fun size d => match d with
                       | DTYPE_VAR _ | DTYPE_PROMISE _ => size + MAXALIGN sizeof_var
                       | DTYPE_REC _ => size + MAXALIGN sizeof_rec
                       | DTYPE_ROW _ | DTYPE_RECFIELD _ => size
                       end) a ds = a + copiable_size ds).
  { unfold copiable_size. clear. induction ds as [|d ds IH]; intros a; simpl; [lia|].
    rewrite IH, (IH (match d with DTYPE_VAR _ => _ | _ => _ end)). destruct d; lia. }
  unfold copiable_size at 1. simpl. rewrite Hg. by destruct d.
Qed.

Lemma copy_datums_inside ds : 0 <= sizeof_var -> 0 <= sizeof_rec -> forall a,
  let (ps, e) := copy_datums ds a in
  e = a + copiable_size ds /\ a <= e /\ Forall (inside a e) ps /\
  forall i j p q, (i < j)%nat -> ps !! i = Some p -> ps !! j = Some q -> apart p q.
Proof.
  intros Hv Hr. pose proof (MAXALIGN_le sizeof_var). pose proof (MAXALIGN_le sizeof_rec).
  assert (Hadv : forall d a, 0 <= advance d /\ inside a (a + advance d) (place d a)).
  { intros d a. destruct d; simpl; lia. }
  induction ds as [|d ds IH]; intros a.
  - simpl. split_and!; [unfold copiable_size; simpl; lia|lia|constructor|]. intros i j p q _ Hx. by rewrite lookup_nil in Hx.
  - rewrite copy_datums_cons, copiable_size_cons. specialize (IH (a + advance d)).
    destruct (copy_datums ds (a + advance d)) as [l e]. destruct IH as (-> & Hle & Hin & Hap).
    destruct (Hadv d a) as [Hpos Hpl]. cbn [fst snd]. split_and!; [lia|lia| |].
    + constructor; [destruct (place d a); simpl in *; lia|]. eapply Forall_impl; [|exact Hin].
      intros [o n|]; simpl; lia.
    + intros [|i] [|j] p q Hij Hp Hq; [lia| |lia|].
      * injection Hp as <-. simpl in Hq. apply list_elem_of_lookup_2 in Hq.
        rewrite list.Forall_forall in Hin. specialize (Hin q Hq).
        destruct (place d a), q; simpl in *; lia.
      * eapply (Hap i j); [lia|done|done].
Qed.

(** C23. The copies of a call's variables fill the workspace that was allocated for
    them exactly: the size computed when the function was compiled is where the copying
    loop ends, every copy lies inside the workspace and no two of them overlap. *)
Theorem copy_fills_workspace ds ps ws_end :
  0 <= sizeof_var -> 0 <= sizeof_rec -> copy_datums ds 0 = (ps, ws_end) ->
  ws_end = copiable_size ds /\ Forall (inside 0 (copiable_size ds)) ps /\
  forall i j p q, (i < j)%nat -> ps !! i = Some p -> ps !! j = Some q -> apart p q.
Proof.
  intros Hv Hr Hc. pose proof (copy_datums_inside ds Hv Hr 0) as Hg. rewrite Hc in Hg.
  destruct Hg as (-> & _ & Hin & Hap). rewrite Z.add_0_l in *. by split_and!.
Qed.
End copy.

Module DatumsExamples.

Definition in_function : pstate := with_ns (ns_push ns_init (Some "f") LABEL_BLOCK) start_datums.
Definition with_record : pstate := (build_record "r" None RECORDOID true in_function).2.
(** The fields [r.x] and [r.y], in this order. *)
Definition scanned (st : pstate) (w : string) : pstate :=
  match parse_dblword "r" w st with COk (_, st') => st' | _ => st end.
Definition with_x : pstate := scanned with_record "x".
Definition with_y : pstate := scanned with_x "y".

Lemma record_reached : parse_steps start_datums with_record.
Proof.
  eapply rtc_l; [apply (step_push _ (Some "f") LABEL_BLOCK)|].
  eapply rtc_l; [eapply (step_record _ "r" None RECORDOID true); [discriminate|reflexivity]|]. apply rtc_refl.
Qed.

Lemma name_lookup_safe_witness :
  parse_dblword "r" "x" with_record <> CUndefined /\
  resolve_column_ref (ns_top with_record) (Datums with_record) (CrefAB "r" "x") true <> CUndefined.
Proof.
  destruct (name_lookup_safe with_record "r" "x" "z" false true (CrefAB "r" "x") true record_reached)
    as (_ & Hd & _ & _ & Hr). split; assumption.
Defined.

(** [r.x] is datum 1, also after [r.y] was built in front of it. *)
Lemma scanned_name_resolves_witness :
  resolve_column_ref (ns_top with_record) (Datums with_y) (CrefAB "r" "x") true = COk (Some 1).
Proof.
  apply (scanned_name_resolves with_record "r" "x" (mk_wdatum 1 None false ["r"; "x"]) with_x with_y);
    [exact record_reached|reflexivity|].
  eapply rtc_l; [eapply (step_dblword _ "r" "y"); reflexivity|]. apply rtc_refl.
Defined.

(** DECLARE r2 record; after r, with r2.f in the section. *)
Definition declared : pstate :=
  let st := (build_record "r2" None RECORDOID true (add_initdatums with_record).2).2 in
  match parse_dblword "r2" "f" st with COk (_, st') => st' | _ => st end.

Lemma initdatums_exact_witness :
  (forall n, n ∈ [1] <->
     (1 <= n)%nat
     /\ ((exists v, Datums declared !! n = Some (DTYPE_VAR v)) \/ exists r, Datums declared !! n = Some (DTYPE_REC r)))
  /\ StronglySorted lt [1].
Proof.
  apply (initdatums_exact with_record declared (add_initdatums declared).2 [1] record_reached).
  split; [|reflexivity].
  eapply rtc_l; [split; [eapply (step_record _ "r2" None RECORDOID true); [discriminate|reflexivity]|reflexivity]|].
  eapply rtc_l; [split; [eapply (step_dblword _ "r2" "f"); reflexivity|reflexivity]|]. apply rtc_refl.
Defined.

Lemma copy_fills_workspace_witness :
  copy_datums 88 96 (Datums with_y) 0 = ([InWorkspace 0 96; Shared; Shared], 96%Z) /\
  copiable_size 88 96 (Datums with_y) = 96%Z.
Proof.
  split; [reflexivity|]. symmetry.
  apply (copy_fills_workspace 88 96 (Datums with_y) [InWorkspace 0 96; Shared; Shared] 96); [lia|lia|reflexivity].
Defined.
End DatumsExamples.
