(* ===== verification/Scanner.v ===== *)
(** * The scanner

    [drivers/plpgsql/upl_scanner.c]: the wrapper around PostgreSQL's core lexer from
    which the grammar gets its tokens.  It reads up to five tokens ahead to put words
    like a.b.c together, looks them up as variables (file Datums), and keeps what it read
    too much on a stack of four tokens.  It also turns offsets into line numbers,
    remembering the line it was asked for last.

    The core lexer is a parameter: a state and the next token of it.  Its tokens
    carry their text's length, which the C code gets by [strlen] of the buffer flex
    has cut at the token's end. *)

From Stdlib Require Import ZArith Lia Ascii.
From S2P Require Import Prelude Ast Namespace Datums.

#[local] Open Scope comp_scope.

(** ** Tokens *)

(** Of the token codes those that the scanner itself looks at; [KW] are PL/pgSQL's
    unreserved keywords, [OtherToken] everything else. *)
Inductive token :=
  | IDENT | PARAM | Op | DOT | EQUALS | COLON_EQUALS | LBRACKET | SEMICOLON | HASH
  | LESS_LESS | GREATER_GREATER | K_BEGIN | K_THEN | K_ELSE | K_LOOP
  | T_WORD | T_CWORD | T_DATUM
  | KW (name : string)
  | OtherToken (code : Z).
#[export] Instance token_eq : EqDecision token.
Proof. solve_decision. Defined.

(** [upl_unreserved_kwlist.h]. *)
Definition UnreservedPLKeywords : list string :=
  ["absolute"; "alias"; "and"; "array"; "assert"; "backward"; "call"; "chain"; "close";
   "collate"; "column"; "column_name"; "commit"; "constant"; "constraint"; "constraint_name";
   "continue"; "current"; "cursor"; "datatype"; "debug"; "default"; "detail"; "diagnostics";
   "do"; "dump"; "elseif"; "elsif"; "errcode"; "error"; "exception"; "execute"; "exit";
   "fetch"; "first"; "forward"; "get"; "hint"; "import"; "info"; "insert"; "is"; "last"; "log";
   "merge"; "message"; "message_text"; "move"; "next"; "no"; "notice"; "open"; "option";
   "perform"; "pg_context"; "pg_datatype_name"; "pg_exception_context"; "pg_exception_detail";
   "pg_exception_hint"; "pg_routine_oid"; "print_strict_params"; "prior"; "query"; "raise";
   "relative"; "return"; "returned_sqlstate"; "reverse"; "rollback"; "row_count"; "rowtype";
   "schema"; "schema_name"; "scroll"; "slice"; "sqlstate"; "stacked"; "strict"; "table";
   "table_name"; "type"; "use_column"; "use_variable"; "variable_conflict"; "warning"].

(** [UnreservedPLKeywordTokens]: two spellings share a code. *)
Definition keyword_token (name : string) : token :=
  KW (if String.eqb name "elseif" then "elsif" else name).

(** The members of [YYSTYPE] the scanner uses. *)
Inductive YYSTYPE :=
  | LvalStr (str : string)
  | LvalWord (w : PLword)
  | LvalCword (w : PLcword)
  | LvalDatum (w : PLwdatum)
  | LvalKeyword (kw : string)
  | LvalOther.
Definition lval_str (l : YYSTYPE) : string := match l with LvalStr s => s | _ => "" end.

Record TokenAuxData := mk_aux { lval : YYSTYPE; lloc : nat; leng : nat }.

Definition MAX_PUSHBACKS : nat := 4.

Definition AT_STMT_START (prev_token : token) : bool :=
  bool_decide (prev_token ∈ [SEMICOLON; K_BEGIN; K_THEN; K_ELSE; K_LOOP]).

(** The state of one lookup of line numbers. *)
Record line_state := mk_line_state {
  cur_line_start : nat;
  cur_line_end : option nat;
  cur_line_num : nat
}.

Section scanner.
(** The core lexer: its state, and the next token with its text. *)
Context {core : Type} (core_yylex : core -> token * YYSTYPE * nat * string * core).
(** The function's source text. *)
Context (scanorig : list ascii).

(** [struct uplpgsql_yy_extra_type]; the top of the stack comes first.  [parser] is the
    state the lookup of variables works on. *)
Record scanner := mk_scanner {
  core_state : core;
  yyleng : nat;
  yytoken : token;
  pushbacks : list (token * TokenAuxData);
  parser : pstate
}.
Definition with_pushbacks (l : list (token * TokenAuxData)) (st : scanner) : scanner :=
  mk_scanner (core_state st) (yyleng st) (yytoken st) l (parser st).

(** The single-token translations of [internal_yylex]. *)
Definition translate (tok : token) (l : YYSTYPE) (yytext : string) : token * YYSTYPE :=
  match tok with
  | Op =>
      if String.eqb (lval_str l) "<<" then (LESS_LESS, l)
      else if String.eqb (lval_str l) ">>" then (GREATER_GREATER, l)
      else if String.eqb (lval_str l) "#" then (HASH, l)
      else (Op, l)
  | PARAM => (PARAM, LvalStr yytext)
  | _ => (tok, l)
  end.

Definition core_token (c : core) : token * TokenAuxData * core :=
  match core_yylex c with
  | (tok, l, loc, yytext, c') =>
      let (tok', l') := translate tok l yytext in (tok', mk_aux l' loc (String.length yytext), c')
  end.

Definition internal_yylex (st : scanner) : (token * TokenAuxData) * scanner :=
  match pushbacks st with
  | t :: rest => (t, with_pushbacks rest st)
  | [] =>
      let '(tok, aux, c') := core_token (core_state st) in
      ((tok, aux), mk_scanner c' (yyleng st) (yytoken st) [] (parser st))
  end.

Definition push_back_token (tok : token) (aux : TokenAuxData) (st : scanner) : comp scanner :=
  if MAX_PUSHBACKS <=? length (pushbacks st)
  then CError "too many tokens pushed back"
  else COk (with_pushbacks ((tok, aux) :: pushbacks st) st).

(** [yytxt[0]] of a token. *)
Definition is_quoted (loc : nat) : bool :=
  match scanorig !! loc with Some c => Ascii.eqb c (ascii_of_nat 34) | None => false end.

(** Look a single word up: a variable, else an unreserved keyword unless quoted,
    else a word. *)
Definition lex_word (aux1 : TokenAuxData) (lookup : bool) (ps : pstate) : comp (token * TokenAuxData * pstate) :=
  r <-? parse_word (lval_str (lval aux1)) (is_quoted (lloc aux1)) lookup ps;
  COk (match r with
       | inl wd => (T_DATUM, mk_aux (LvalDatum wd) (lloc aux1) (leng aux1), ps)
       | inr w =>
           if negb (quoted_word w) && existsb (String.eqb (ident w)) UnreservedPLKeywords
           then (keyword_token (ident w), mk_aux (LvalKeyword (ident w)) (lloc aux1) (leng aux1), ps)
           else (T_WORD, mk_aux (LvalWord w) (lloc aux1) (leng aux1), ps)
       end).

(** A compound word from [aux1] to [last]. *)
Definition compound (aux1 last : TokenAuxData) (r : (PLwdatum + PLcword) * pstate) : token * TokenAuxData * pstate :=
  let len := lloc last - lloc aux1 + leng last in
  match r.1 with
  | inl wd => (T_DATUM, mk_aux (LvalDatum wd) (lloc aux1) len, r.2)
  | inr cw => (T_CWORD, mk_aux (LvalCword cw) (lloc aux1) len, r.2)
  end.

Definition lex_dblword (aux1 aux3 : TokenAuxData) (ps : pstate) : comp (token * TokenAuxData * pstate) :=
  r <-? parse_dblword (lval_str (lval aux1)) (lval_str (lval aux3)) ps; COk (compound aux1 aux3 r).
Definition lex_tripword (aux1 aux3 aux5 : TokenAuxData) (ps : pstate) : comp (token * TokenAuxData * pstate) :=
  r <-? parse_tripword (lval_str (lval aux1)) (lval_str (lval aux3)) (lval_str (lval aux5)) ps;
  COk (compound aux1 aux5 r).

Definition is_ident (t : token * TokenAuxData) : bool := bool_decide (t.1 = IDENT).
Definition is_dot (t : token * TokenAuxData) : bool := bool_decide (t.1 = DOT).
Definition is_name (t : token * TokenAuxData) : bool := bool_decide (t.1 = IDENT \/ t.1 = PARAM).

(** Whether a word at this place may be a variable. *)
Definition may_be_variable (prev tok2 : token) : bool :=
  negb (AT_STMT_START prev) || bool_decide (tok2 ∈ [EQUALS; COLON_EQUALS; LBRACKET]).

(** Set the fields that describe the current token. *)
Definition finish (r : token * TokenAuxData * pstate) (st : scanner) : token * TokenAuxData * scanner :=
  (r.1, mk_scanner (core_state st) (leng r.1.2) r.1.1 (pushbacks st) r.2).

Definition yylex (st : scanner) : comp (token * TokenAuxData * scanner) :=
  let (t1, st) := internal_yylex st in
  if is_name t1 then
    let (t2, st) := internal_yylex st in
    if is_dot t2 then
      let (t3, st) := internal_yylex st in
      if is_ident t3 then
        let (t4, st) := internal_yylex st in
        if is_dot t4 then
          let (t5, st) := internal_yylex st in
          if is_ident t5 then
            r <-? lex_tripword t1.2 t3.2 t5.2 (parser st); COk (finish r st)
          else
            st <-? push_back_token t5.1 t5.2 st;
            st <-? push_back_token t4.1 t4.2 st;
            r <-? lex_dblword t1.2 t3.2 (parser st); COk (finish r st)
        else
          st <-? push_back_token t4.1 t4.2 st;
          r <-? lex_dblword t1.2 t3.2 (parser st); COk (finish r st)
      else
        st <-? push_back_token t3.1 t3.2 st;
        st <-? push_back_token t2.1 t2.2 st;
        r <-? lex_word t1.2 true (parser st); COk (finish r st)
    else
      st <-? push_back_token t2.1 t2.2 st;
      r <-? lex_word t1.2 (may_be_variable (yytoken st) t2.1) (parser st); COk (finish r st)
  else COk (finish (t1, parser st) st).

(** For the grammar: push a token back, with the length of the last one read. *)
Definition uplpgsql_push_back_token (tok : token) (l : YYSTYPE) (loc : nat) (st : scanner) : comp scanner :=
  push_back_token tok (mk_aux l loc (yyleng st)) st.

Definition peek (st : scanner) : comp (token * scanner) :=
  let (t1, st) := internal_yylex st in
  st <-? push_back_token t1.1 t1.2 st; COk (t1.1, st).

Definition peek2 (st : scanner) : comp (token * token * nat * nat * scanner) :=
  let (t1, st) := internal_yylex st in
  let (t2, st) := internal_yylex st in
  st <-? push_back_token t2.1 t2.2 st;
  st <-? push_back_token t1.1 t1.2 st;
  COk (t1.1, t2.1, lloc t1.2, lloc t2.2, st).

(** [uplpgsql_append_source_text]. *)
Definition append_source_text (buf : list ascii) (startlocation endlocation : nat) : list ascii :=
  buf ++ take (endlocation - startlocation) (drop startlocation scanorig).

(** ** The input the scanner still has to deliver *)

Fixpoint core_stream (c : core) (k : nat) : token * TokenAuxData :=
  match k with
  | O => (core_token c).1
  | S k' => core_stream (core_token c).2 k'
  end.

Definition stream (st : scanner) (k : nat) : token * TokenAuxData :=
  match pushbacks st !! k with
  | Some t => t
  | None => core_stream (core_state st) (k - length (pushbacks st))
  end.

Definition next (st : scanner) : scanner := (internal_yylex st).2.
Definition push (t : token * TokenAuxData) (st : scanner) : scanner :=
  with_pushbacks (t :: pushbacks st) st.

Lemma internal_yylex_eq st : internal_yylex st = (stream st 0, next st).
Proof.
  unfold next, stream, internal_yylex. destruct (pushbacks st); [|done]. simpl.
  by destruct (core_token (core_state st)) as [[tok aux] c'].
Qed.

Lemma stream_next st k : stream (next st) k = stream st (S k).
Proof.
  unfold next, stream, internal_yylex. destruct (pushbacks st) as [|t l]; [|done]. simpl.
  destruct (core_token (core_state st)) as [[tok aux] c']. simpl. by rewrite Nat.sub_0_r.
Qed.

Lemma stream_push t st k : stream (push t st) k = match k with O => t | S k' => stream st k' end.
Proof. by destruct k. Qed.

Lemma length_next st : length (pushbacks (next st)) = pred (length (pushbacks st)).
Proof.
  unfold next, internal_yylex. destruct (pushbacks st); [|done]. simpl.
  by destruct (core_token (core_state st)) as [[tok aux] c'].
Qed.

Lemma next_keeps st : yytoken (next st) = yytoken st /\ parser (next st) = parser st.
Proof.
  unfold next, internal_yylex. destruct (pushbacks st); [|done].
  by destruct (core_token (core_state st)) as [[tok aux] c'].
Qed.

Lemma push_back_ok t st : length (pushbacks st) < MAX_PUSHBACKS -> push_back_token t.1 t.2 st = COk (push t st).
Proof.
  intros Hl. unfold push_back_token. rewrite (proj2 (Nat.leb_gt _ _) Hl). by destruct t.
Qed.

(** ** What a call returns, on the stream of tokens *)

(** How many tokens make up the first word: A, A.B or A.B.C, as long as possible. *)
Definition span (s : nat -> token * TokenAuxData) : nat :=
  if is_name (s 0) && is_dot (s 1) && is_ident (s 2)
  then if is_dot (s 3) && is_ident (s 4) then 5 else 3
  else 1.

Definition meaning (prev : token) (s : nat -> token * TokenAuxData) (ps : pstate)
    : comp (token * TokenAuxData * pstate) :=
  if is_name (s 0) then
    match span s with
    | 5 => lex_tripword (s 0).2 (s 2).2 (s 4).2 ps
    | 3 => lex_dblword (s 0).2 (s 2).2 ps
    | _ => lex_word (s 0).2 (is_dot (s 1) || may_be_variable prev (s 1).1) ps
    end
  else COk (s 0, ps).

(** Where a call leaves the scanner: the tokens behind the word that were read too
    far are pushed back. *)
Definition after (st : scanner) : scanner :=
  let s := stream st in
  if is_name (s 0) then
    if is_dot (s 1) then
      if is_ident (s 2) then
        if is_dot (s 3) then
          if is_ident (s 4) then next (next (next (next (next st))))
          else push (s 3) (push (s 4) (next (next (next (next (next st))))))
        else push (s 3) (next (next (next (next st))))
      else push (s 1) (push (s 2) (next (next (next st))))
    else push (s 1) (next (next st))
  else next st.

Lemma stream_after st k : stream (after st) k = stream st (span (stream st) + k).
Proof.
  unfold after, span.
  destruct (is_name (stream st 0)); [|by rewrite stream_next].
  destruct (is_dot (stream st 1)); [destruct (is_ident (stream st 2))|];
    [destruct (is_dot (stream st 3)); [destruct (is_ident (stream st 4))|]|..];
    cbn [andb]; destruct k as [|[|k]]; by rewrite ?stream_push, ?stream_next.
Qed.

Lemma length_after st :
  length (pushbacks st) <= MAX_PUSHBACKS -> length (pushbacks (after st)) < MAX_PUSHBACKS.
Proof.
  unfold MAX_PUSHBACKS, after. intros Hp.
  repeat match goal with |- context [if ?b then _ else _] => destruct b end;
    simpl; rewrite ?length_next; lia.
Qed.

(** C19. The scanner delivers words as long as possible, and no token is lost,
    duplicated or reordered by its lookahead: a call returns what the first one, three
    or five tokens of the input mean, and leaves the input behind them.  The stack of
    four pushed-back tokens never overflows, and afterwards has room for one more. *)
Theorem yylex_spec st :
  length (pushbacks st) <= MAX_PUSHBACKS ->
  exists st', yylex st = (r <-? meaning (yytoken st) (stream st) (parser st); COk (finish r st')) /\
    (forall k, stream st' k = stream st (span (stream st) + k)) /\
    length (pushbacks st') < MAX_PUSHBACKS.
Proof.
  intros Hp. exists (after st). split_and!; [|apply stream_after|by apply length_after].
  pose proof Hp as Hlen. unfold MAX_PUSHBACKS in Hlen.
  destruct (next_keeps st) as [T1 P1]. destruct (next_keeps (next st)) as [T2 P2].
  destruct (next_keeps (next (next st))) as [T3 P3].
  destruct (next_keeps (next (next (next st)))) as [T4 P4].
  destruct (next_keeps (next (next (next (next st))))) as [T5 P5].
  assert (Hpush : forall t x, length (pushbacks x) < 4 -> push_back_token t.1 t.2 x = COk (push t x))
    by (intros t x; apply push_back_ok).
  unfold yylex, meaning, span, after. rewrite internal_yylex_eq. cbv beta iota.
  destruct (is_name (stream st 0)); [|by rewrite P1].
  rewrite internal_yylex_eq, stream_next. cbv beta iota.
  destruct (is_dot (stream st 1)).
  2:{ rewrite Hpush by (rewrite !length_next; lia). cbn [cbind andb orb]. cbn [push with_pushbacks yytoken parser].
      by rewrite T2, T1, P2, P1. }
  rewrite internal_yylex_eq, !stream_next. cbv beta iota.
  destruct (is_ident (stream st 2)).
  2:{ rewrite Hpush by (rewrite !length_next; lia). cbn [cbind].
      rewrite Hpush by (simpl; rewrite !length_next; lia). cbn [cbind andb orb].
      cbn [push with_pushbacks parser]. by rewrite P3, P2, P1. }
  rewrite internal_yylex_eq, !stream_next. cbv beta iota.
  destruct (is_dot (stream st 3)).
  2:{ rewrite Hpush by (rewrite !length_next; lia). cbn [cbind andb].
      cbn [push with_pushbacks parser]. by rewrite P4, P3, P2, P1. }
  rewrite internal_yylex_eq, !stream_next. cbv beta iota.
  destruct (is_ident (stream st 4)); [by rewrite P5, P4, P3, P2, P1|].
  rewrite Hpush by (rewrite !length_next; lia). cbn [cbind].
  rewrite Hpush by (simpl; rewrite !length_next; lia). cbn [cbind andb].
  cbn [push with_pushbacks parser]. by rewrite P5, P4, P3, P2, P1.
Qed.

(** ** Pushing back *)

Lemma meaning_not_name prev s ps t ps' : meaning prev s ps = COk (t, ps') -> is_name t = false.
Proof.
  assert (Hc : forall a l r, is_name (compound a l r).1 = false).
  { intros a l r. unfold compound. by destruct r.1. }
  assert (Hd : forall a b t ps', lex_dblword a b ps = COk (t, ps') -> is_name t = false).
  { intros a b t0 ps0. unfold lex_dblword. destruct (parse_dblword _ _ _) as [r| |]; try discriminate.
    simpl. intros [= Hr]. pose proof (Hc a b r) as Hn. by rewrite Hr in Hn. }
  assert (Ht : forall a b c t ps', lex_tripword a b c ps = COk (t, ps') -> is_name t = false).
  { intros a b c t0 ps0. unfold lex_tripword. destruct (parse_tripword _ _ _ _) as [r| |]; try discriminate.
    simpl. intros [= Hr]. pose proof (Hc a c r) as Hn. by rewrite Hr in Hn. }
  assert (Hw : forall a b t ps', lex_word a b ps = COk (t, ps') -> is_name t = false).
  { intros a b t0 ps0. unfold lex_word. destruct (parse_word _ _ _ _) as [[wd|w]| |]; try discriminate; simpl.
    - intros [= <- <-]. done.
    - destruct (_ && _); by intros [= <- <-]. }
  unfold meaning. destruct (is_name (s 0)) eqn:Hn; [|by intros [= <- <-]].
  destruct (span s) as [|[|[|[|[|[|n]]]]]]; eauto.
Qed.

(** C22. Pushing back the token just read undoes the read: the next call returns the
    same token with the same value, place and length, does not look the word up
    again, and leaves the same input. *)
Theorem push_back_undoes_yylex st tok aux st1 :
  length (pushbacks st) <= MAX_PUSHBACKS -> yylex st = COk (tok, aux, st1) ->
  exists st2 st3, uplpgsql_push_back_token tok (lval aux) (lloc aux) st1 = COk st2 /\
    yylex st2 = COk (tok, aux, st3) /\ parser st3 = parser st1 /\
    forall k, stream st3 k = stream st1 k.
Proof.
  intros Hp Hy. destruct (yylex_spec st Hp) as (st' & E & Hs & Hl). rewrite E in Hy.
  destruct (meaning (yytoken st) (stream st) (parser st)) as [[t ps]| |] eqn:Em; try discriminate.
  apply meaning_not_name in Em as Hn. unfold finish in Hy. simpl in Hy. injection Hy as -> <-.
  set (st1 := mk_scanner _ _ _ _ _) in *.
  exists (push (tok, aux) st1). unfold uplpgsql_push_back_token.
  assert (Haux : mk_aux (lval aux) (lloc aux) (yyleng st1) = aux) by (by destruct aux).
  pose proof (push_back_ok (tok, aux) st1 Hl) as Hpb. cbn [fst snd] in Hpb.
  rewrite Haux, Hpb. unfold yylex. rewrite internal_yylex_eq.
  rewrite stream_push, Hn. eexists. split_and!; [done| |done|].
  - unfold finish. simpl. done.
  - intros k. unfold stream. simpl. done.
Qed.

(** Peeking does not change the input. *)
Lemma peek_eq st : length (pushbacks st) <= MAX_PUSHBACKS -> peek st = COk ((stream st 0).1, push (stream st 0) (next st)).
Proof.
  intros Hp. unfold peek. rewrite internal_yylex_eq. rewrite push_back_ok; [done|].
  rewrite length_next. unfold MAX_PUSHBACKS in *. lia.
Qed.

Lemma stream_peeked st k : stream (push (stream st 0) (next st)) k = stream st k.
Proof. rewrite stream_push. destruct k; [done|]. apply stream_next. Qed.

(** Peeking at the next token or the next two tells their codes and places, never
    overflows the pushback stack and leaves the input as it was. *)
Theorem peek_keeps_input st :
  length (pushbacks st) <= MAX_PUSHBACKS ->
  (exists st', peek st = COk ((stream st 0).1, st') /\ length (pushbacks st') <= MAX_PUSHBACKS /\
     forall k, stream st' k = stream st k) /\
  (exists st', peek2 st = COk ((stream st 0).1, (stream st 1).1, lloc (stream st 0).2, lloc (stream st 1).2, st') /\
     length (pushbacks st') <= MAX_PUSHBACKS /\ forall k, stream st' k = stream st k).
Proof.
  intros Hp. pose proof Hp as Hl. unfold MAX_PUSHBACKS in Hl. split.
  - rewrite peek_eq by done. eexists. split_and!; [done| |apply stream_peeked].
    simpl. rewrite length_next. unfold MAX_PUSHBACKS. lia.
  - exists (push (stream st 0) (push (stream st 1) (next (next st)))). split_and!.
    + unfold peek2. rewrite internal_yylex_eq, internal_yylex_eq, stream_next.
      rewrite push_back_ok by (rewrite !length_next; unfold MAX_PUSHBACKS; lia). cbn [cbind].
      rewrite push_back_ok by (simpl; rewrite !length_next; unfold MAX_PUSHBACKS; lia). done.
    + simpl. rewrite !length_next. unfold MAX_PUSHBACKS. lia.
    + intros [|[|k]]; rewrite ?stream_push, ?stream_next; done.
Qed.

(** ** Line numbers *)

Definition newline : ascii := ascii_of_nat 10.

(** [strchr(scanorig + i, newline)], as an offset. *)
Fixpoint find_newline (l : list ascii) (i : nat) : option nat :=
  match l with
  | [] => None
  | c :: l' => if Ascii.eqb c newline then Some i else find_newline l' (S i)
  end.
Definition strchr_newline (i : nat) : option nat := find_newline (drop i scanorig) i.

Definition location_lineno_init : line_state := mk_line_state 0 (strchr_newline 0) 1.

(** The loop that advances to the line of [loc]; every round passes a newline. *)
Fixpoint advance_line (fuel loc : nat) (ls : line_state) : option line_state :=
  match cur_line_end ls with
  | Some e =>
      if e <? loc then
        match fuel with
        | O => None
        | S fuel' => advance_line fuel' loc (mk_line_state (S e) (strchr_newline (S e)) (S (cur_line_num ls)))
        end
      else Some ls
  | None => Some ls
  end.

(** [None]: the loop did not end. *)
Definition location_to_lineno (location : Z) (ls : line_state) : option (nat * line_state) :=
  if (location <? 0)%Z then Some (0, ls)
  else
    let loc := Z.to_nat location in
    let ls := if loc <? cur_line_start ls then location_lineno_init else ls in
    match advance_line (length scanorig) loc ls with
    | Some ls => Some (cur_line_num ls, ls)
    | None => None
    end.

(** The reference: one more than the newlines before the place. *)
Definition newlines (l : list ascii) : nat := length (List.filter (Ascii.eqb newline) l).
Definition lineno (loc : nat) : nat := S (newlines (take loc scanorig)).

(** What the remembered line always is: a line of the text, with its number. *)
Definition line_ok (ls : line_state) : Prop :=
  cur_line_num ls = lineno (cur_line_start ls) /\ cur_line_end ls = strchr_newline (cur_line_start ls).

Lemma newlines_app l l' : newlines (l ++ l') = newlines l + newlines l'.
Proof. unfold newlines. by rewrite List.filter_app, length_app. Qed.

Lemma newlines_other c l : c <> newline -> newlines (c :: l) = newlines l.
Proof.
  intros Hc. unfold newlines. cbn [List.filter]. destruct (Ascii.eqb_spec newline c); [by subst|done].
Qed.

Lemma lineno_from i m : lineno (i + m) = lineno i + newlines (take m (drop i scanorig)).
Proof. unfold lineno. by rewrite <- take_take_drop, newlines_app. Qed.

Lemma find_newline_Some l i e :
  find_newline l i = Some e -> exists m, e = i + m /\ newlines (take m l) = 0 /\ l !! m = Some newline.
Proof.
  revert i. induction l as [|c l IH]; intros i; [done|]. simpl.
  destruct (Ascii.eqb_spec c newline) as [->|Hne].
  - intros [= <-]. exists 0. by rewrite Nat.add_0_r.
  - intros (m & -> & Hm & Hl)%IH. exists (S m). split_and!; [lia| |done].
    cbn [take]. by rewrite newlines_other.
Qed.

Lemma find_newline_None l i m : find_newline l i = None -> newlines (take m l) = 0.
Proof.
  revert i m. induction l as [|c l IH]; intros i m; [by rewrite take_nil|]. simpl.
  destruct (Ascii.eqb_spec c newline) as [->|Hne]; [done|]. intros Hf. destruct m as [|m]; [done|].
  cbn [take]. rewrite newlines_other by done. by eapply IH.
Qed.

(** The line after the one that ends at [e]. *)
Lemma next_line_ok ls e :
  line_ok ls -> cur_line_end ls = Some e ->
  line_ok (mk_line_state (S e) (strchr_newline (S e)) (S (cur_line_num ls))) /\
  cur_line_start ls <= e < length scanorig.
Proof.
  intros [Hn He] Hend. rewrite He in Hend. apply find_newline_Some in Hend as (m & -> & Hm & Hl).
  rewrite lookup_drop in Hl. pose proof (lookup_lt_Some _ _ _ Hl) as Hlt. split; [|lia].
  split; [|done]. cbn [cur_line_num cur_line_start].
  replace (S (cur_line_start ls + m)) with (cur_line_start ls + S m) by lia.
  rewrite lineno_from, Hn. erewrite take_S_r by (by rewrite lookup_drop). rewrite newlines_app, Hm.
  change (newlines [newline]) with 1. lia.
Qed.

Lemma advance_line_ok fuel loc ls :
  line_ok ls -> cur_line_start ls <= loc -> length scanorig <= fuel + cur_line_start ls ->
  exists ls', advance_line fuel loc ls = Some ls' /\ line_ok ls' /\ cur_line_num ls' = lineno loc.
Proof.
  assert (Hdone : forall ls, line_ok ls -> cur_line_start ls <= loc ->
    match cur_line_end ls with Some e => loc <= e | None => True end -> cur_line_num ls = lineno loc).
  { clear. intros ls [Hn He] Hs Hend. rewrite Hn.
    replace loc with (cur_line_start ls + (loc - cur_line_start ls)) at 1 by lia. rewrite lineno_from.
    rewrite He in Hend. destruct (strchr_newline (cur_line_start ls)) as [e|] eqn:Ef.
    - apply find_newline_Some in Ef as (m & -> & Hm & _).
      assert (Hle : newlines (take (loc - cur_line_start ls) (drop (cur_line_start ls) scanorig)) = 0); [|lia].
      set (l := drop _ _) in *. set (k := loc - _) in *. assert (Hk : k <= m) by lia.
      replace m with (k + (m - k)) in Hm by lia. rewrite <- take_take_drop, newlines_app in Hm. lia.
    - unfold strchr_newline in Ef. rewrite (find_newline_None _ _ _ Ef). lia. }
  revert ls. induction fuel as [|fuel IH]; intros ls Hok Hs Hf; cbn [advance_line].
  - destruct (cur_line_end ls) as [e|] eqn:He; [|exists ls; split_and!; auto; apply Hdone; by rewrite ?He].
    destruct (next_line_ok ls e Hok He) as [_ Hlt]. lia.
  - destruct (cur_line_end ls) as [e|] eqn:He; [|exists ls; split_and!; auto; apply Hdone; by rewrite ?He].
    destruct (Nat.ltb_spec e loc).
    + destruct (next_line_ok ls e Hok He) as [Hok' Hlt]. apply IH; [done|simpl; lia|simpl; lia].
    + exists ls. split_and!; auto. apply Hdone; rewrite ?He; auto.
Qed.

(** C21. Line numbers are right whatever was asked before: after any sequence of calls, for
    places going forwards or backwards, [uplpgsql_location_to_lineno] returns one more
    than the number of newlines before the place, and its loop ends. *)
Theorem location_to_lineno_correct (locations : list Z) (loc : nat) :
  let ask ls location := match ls with
                         | Some ls => snd <$> location_to_lineno location ls
                         | None => None
                         end in
  exists ls ls', foldl ask (Some location_lineno_init) locations = Some ls /\
    location_to_lineno (Z.of_nat loc) ls = Some (lineno loc, ls').
Proof.
  intros ask.
  assert (Hinit : line_ok location_lineno_init) by done.
  assert (Hask : forall location ls, line_ok ls -> exists n ls', location_to_lineno location ls = Some (n, ls') /\
    line_ok ls' /\ ((0 <= location)%Z -> n = lineno (Z.to_nat location))).
  { intros location ls Hok. unfold location_to_lineno. destruct (Z.ltb_spec location 0).
    - exists 0, ls. split_and!; [done..|lia].
    - set (l := Z.to_nat location). set (ls1 := if l <? cur_line_start ls then _ else _).
      assert (H1 : line_ok ls1 /\ cur_line_start ls1 <= l).
      { subst ls1. destruct (Nat.ltb_spec l (cur_line_start ls)); [|done]. split; [done|simpl; lia]. }
      destruct H1 as [Hok1 Hle]. destruct (advance_line_ok (length scanorig) l ls1 Hok1 Hle) as (ls2 & -> & Hok2 & Hn); [lia|].
      exists (cur_line_num ls2), ls2. auto. }
  assert (Hfold : exists ls, foldl ask (Some location_lineno_init) locations = Some ls /\ line_ok ls).
  { revert Hinit. generalize location_lineno_init. induction locations as [|l locs IH]; intros ls Hok; [by exists ls|].
    simpl. destruct (Hask l ls Hok) as (n & ls' & -> & Hok' & _). simpl. by apply IH. }
  destruct Hfold as (ls & Hf & Hok). destruct (Hask (Z.of_nat loc) ls Hok) as (n & ls' & E & _ & Hn).
  exists ls, ls'. split; [done|]. rewrite E, Hn by lia. by rewrite Nat2Z.id.
Qed.
End scanner.

Module ScannerExamples.

(** A lexer that has its tokens in a list. *)
Definition eof : token := OtherToken 0.
Definition lex_list (l : list (token * string * nat)) : token * YYSTYPE * nat * string * list (token * string * nat) :=
  match l with
  | [] => (eof, LvalOther, 0, "", [])
  | (t, s, loc) :: l' => (t, LvalStr s, loc, s, l')
  end.

(** [r.x := y] in a function with a record [r]. *)
Definition source : list ascii := String.list_ascii_of_string "r.x := y".
Definition input : list (token * string * nat) :=
  [(IDENT, "r", 0); (DOT, ".", 1); (IDENT, "x", 2); (COLON_EQUALS, ":=", 4); (IDENT, "y", 7)].
Definition start : scanner := mk_scanner input 0 SEMICOLON [] DatumsExamples.with_record.

Lemma yylex_spec_witness :
  exists st', yylex lex_list source start
              = COk (T_DATUM, mk_aux (LvalDatum (mk_wdatum 1 None false ["r"; "x"])) 0 3, st') /\
    (forall k, stream lex_list st' k = stream lex_list start (3 + k)) /\
    length (pushbacks st') < MAX_PUSHBACKS.
Proof.
  destruct (yylex_spec lex_list source start) as (st' & E & Hs & Hl); [simpl; unfold MAX_PUSHBACKS; lia|].
  eexists (finish _ st').2. split_and!; [exact E|exact Hs|exact Hl].
Defined.

Lemma push_back_undoes_yylex_witness :
  match yylex lex_list source start with
  | COk (tok, aux, st1) =>
      exists st2 st3, uplpgsql_push_back_token tok (lval aux) (lloc aux) st1 = COk st2 /\
        yylex lex_list source st2 = COk (tok, aux, st3) /\ parser st3 = parser st1 /\
        forall k, stream lex_list st3 k = stream lex_list st1 k
  | _ => False
  end.
Proof.
  destruct (yylex lex_list source start) as [[[tok aux] st1]| |] eqn:E; [|vm_compute in E; discriminate..].
  apply (push_back_undoes_yylex lex_list source start tok aux st1); [simpl; unfold MAX_PUSHBACKS; lia|exact E].
Defined.

Lemma peek_keeps_input_witness :
  exists st', peek2 lex_list start = COk (IDENT, DOT, 0, 1, st') /\ length (pushbacks st') <= MAX_PUSHBACKS /\
    forall k, stream lex_list st' k = stream lex_list start k.
Proof.
  destruct (peek_keeps_input lex_list start) as [_ Hp]; [simpl; unfold MAX_PUSHBACKS; lia|]. exact Hp.
Defined.
End ScannerExamples.
