(* ===== verification/Heuristic.v ===== *)
(** * The JIT heuristic

    [uplpgsql_jit_score_stmt], [uplpgsql_jit_score_stmts] and
    [uplpgsql_should_jit] of [common/upl_compile_stmts.c].  The score decides
    whether the handler compiles a function or caches it as "skip".

    Scores are C [int]s; the model adds them in [Z] and [score_stmts_bound]
    states how large the sum can get, so that the machine arithmetic is exact
    for every tree with fewer than about 350 million nodes-times-depth. *)

From Stdlib Require Import ZArith Lia.
From S2P Require Import Prelude Ast.

(** The accumulation loop of [uplpgsql_jit_score_stmts]. *)
Section sum.
Context {A : Type} (f : A -> Z).

Fixpoint sum_from (total : Z) (l : list A) : Z :=
  match l with
  | [] => total
  | x :: l' => sum_from (total + f x)%Z l'
  end.

Definition sum_over (l : list A) : Z := sum_from 0 l.

Lemma sum_from_shift t l : sum_from t l = (t + sum_from 0 l)%Z.
Proof.
  revert t. induction l as [|x l IH]; intros t; simpl; [lia|].
  rewrite IH, (IH (0 + f x)%Z). lia.
Qed.

Lemma sum_over_cons x l : sum_over (x :: l) = (f x + sum_over l)%Z.
Proof. unfold sum_over. simpl. rewrite sum_from_shift. lia. Qed.
End sum.

Open Scope Z_scope.

Section score.
Context (loop_depth : Z).

(** Multiplier for a statement at the current depth. *)
Definition mult : Z := if 0 <? loop_depth then 3 * loop_depth else 0.

(** SPI penalty of weight [w]: scaled by the depth inside loops, flat outside. *)
Definition spi_penalty (w : Z) : Z :=
  if 0 <? loop_depth then - w * 3 * loop_depth else - w.
End score.

Fixpoint jit_score_stmt (stmt : UPLpgSQL_stmt) (loop_depth : Z) : Z :=
  let jit_score_stmts l d := sum_over (fun s => jit_score_stmt s d) l in
  match stmt with
  | STMT_ASSIGN _ _ => 1 * mult loop_depth
  | STMT_IF _ i =>
      1 * mult loop_depth
      + jit_score_stmts (then_body i) loop_depth
      + sum_over (fun ei => 1 * mult loop_depth + jit_score_stmts (elsif_stmts ei) loop_depth)
          (elsif_list i)
      + jit_score_stmts (else_body i) loop_depth
  | STMT_CASE _ c =>
      1 * mult loop_depth
      + sum_over (fun cw => 1 * mult loop_depth + jit_score_stmts (when_stmts cw) loop_depth)
          (case_when_list c)
      + jit_score_stmts (else_stmts c) loop_depth
  | STMT_WHILE _ w => 3 + jit_score_stmts (while_body w) (loop_depth + 1)
  | STMT_LOOP _ l => 3 + jit_score_stmts (loop_body l) (loop_depth + 1)
  | STMT_FORI _ f => 3 + jit_score_stmts (fori_body f) (loop_depth + 1)
  | STMT_EXIT _ _ => 1 * mult loop_depth
  | STMT_FORS _ f => -3 + jit_score_stmts (forq_body (fors_q f)) (loop_depth + 1)
  | STMT_FORC _ f => -3 + jit_score_stmts (forq_body (forc_q f)) (loop_depth + 1)
  | STMT_DYNFORS _ f => -3 + jit_score_stmts (forq_body (dynfors_q f)) (loop_depth + 1)
  | STMT_PERFORM _ _ | STMT_EXECSQL _ _ | STMT_DYNEXECUTE _ _ | STMT_CALL _ _ =>
      spi_penalty loop_depth 2
  | STMT_FOREACH_A _ _ | STMT_RETURN_NEXT _ _ | STMT_RETURN_QUERY _ _ =>
      spi_penalty loop_depth 1
  | STMT_RETURN _ _ | STMT_RAISE _ _ | STMT_ASSERT _ _ | STMT_GETDIAG _ _
  | STMT_OPEN _ _ | STMT_FETCH _ _ | STMT_CLOSE _ _ | STMT_COMMIT _ _
  | STMT_ROLLBACK _ _ => 0
  | STMT_BLOCK _ b =>
      (match exceptions b with Some _ => -2 | None => 0 end) + jit_score_stmts (blk_body b) loop_depth
  end.

Definition jit_score_stmts (stmts : list UPLpgSQL_stmt) (loop_depth : Z) : Z :=
  sum_over (fun s => jit_score_stmt s loop_depth) stmts.

Definition should_jit (func : UPLpgSQL_function) : bool :=
  0 <? jit_score_stmts (blk_body (fn_action func)) 0.

(** ** What the score reads of the tree *)

(** The statements the walk counts at all, and how deep loops nest. FOREACH
    bodies and exception handlers are not walked. *)
Definition scored_bodies (s : UPLpgSQL_stmt) : list (list UPLpgSQL_stmt) :=
  match s with
  | STMT_BLOCK _ b => [blk_body b]
  | STMT_FOREACH_A _ _ => []
  | _ => sub_bodies s
  end.

Definition is_compiled_loop (s : UPLpgSQL_stmt) : bool :=
  match s with STMT_WHILE _ _ | STMT_LOOP _ _ | STMT_FORI _ _ => true | _ => false end.

Definition is_cursor_loop (s : UPLpgSQL_stmt) : bool :=
  match s with STMT_FORS _ _ | STMT_FORC _ _ | STMT_DYNFORS _ _ => true | _ => false end.

Definition opens_loop (s : UPLpgSQL_stmt) : bool := is_compiled_loop s || is_cursor_loop s.

(** What a statement contributes by itself, its sub-statements apart. *)
Definition own_score (s : UPLpgSQL_stmt) (d : Z) : Z :=
  match s with
  | STMT_ASSIGN _ _ | STMT_EXIT _ _ => mult d
  | STMT_IF _ i => mult d * (1 + Z.of_nat (length (elsif_list i)))
  | STMT_CASE _ c => mult d * (1 + Z.of_nat (length (case_when_list c)))
  | STMT_WHILE _ _ | STMT_LOOP _ _ | STMT_FORI _ _ => 3
  | STMT_FORS _ _ | STMT_FORC _ _ | STMT_DYNFORS _ _ => -3
  | STMT_PERFORM _ _ | STMT_EXECSQL _ _ | STMT_DYNEXECUTE _ _ | STMT_CALL _ _ => spi_penalty d 2
  | STMT_FOREACH_A _ _ | STMT_RETURN_NEXT _ _ | STMT_RETURN_QUERY _ _ => spi_penalty d 1
  | STMT_BLOCK _ b => match exceptions b with Some _ => -2 | None => 0 end
  | _ => 0
  end.

Definition inner_depth (s : UPLpgSQL_stmt) (d : Z) : Z := if opens_loop s then d + 1 else d.

Lemma sum_over_app {A} (f : A -> Z) l1 l2 :
  sum_over f (l1 ++ l2) = sum_over f l1 + sum_over f l2.
Proof.
  induction l1 as [|x l1 IH]; [reflexivity|]. cbn [app]. rewrite !sum_over_cons, IH. lia.
Qed.

Lemma sum_over_map {A B} (f : B -> Z) (g : A -> B) l :
  sum_over f (map g l) = sum_over (fun a => f (g a)) l.
Proof.
  induction l as [|x l IH]; [reflexivity|]. cbn [map]. rewrite !sum_over_cons, IH. lia.
Qed.

Lemma sum_over_offset {A} (f : A -> Z) k l :
  sum_over (fun a => k + f a) l = k * Z.of_nat (length l) + sum_over f l.
Proof.
  induction l as [|x l IH]; [unfold sum_over; simpl; lia|].
  rewrite !sum_over_cons, IH. cbn [length]. lia.
Qed.

(** The score of any statement: its own contribution plus its bodies'. *)
Lemma jit_score_stmt_eq s d :
  jit_score_stmt s d =
  own_score s d + sum_over (fun b => jit_score_stmts b (inner_depth s d)) (scored_bodies s).
Proof.
  destruct s; unfold inner_depth, opens_loop; cbn -[sum_over Z.mul Z.add Z.of_nat];
    unfold jit_score_stmts;
    rewrite ?sum_over_cons, ?sum_over_app, ?sum_over_map, ?sum_over_cons, ?sum_over_offset;
    change (sum_over ?f []) with 0; try lia.
Qed.

Lemma scored_bodies_sub s : scored_bodies s ⊆ sub_bodies s.
Proof. destruct s; simpl; solve [apply list_subseteq_nil | intros b; set_solver]. Qed.

(** Induction over the scored part of the tree. *)
Lemma scored_ind (P : UPLpgSQL_stmt -> Prop) :
  (forall s, (forall b, b ∈ scored_bodies s -> forall t, t ∈ b -> P t) -> P s) ->
  forall s, P s.
Proof.
  intros H. apply stmt_ind'. intros s IH. apply H. intros b Hb t Ht.
  rewrite list.Forall_forall in IH. specialize (IH b (scored_bodies_sub s b Hb)).
  rewrite list.Forall_forall in IH. auto.
Qed.

Lemma sum_over_le {A} (f g : A -> Z) l :
  (forall x, x ∈ l -> f x <= g x) -> sum_over f l <= sum_over g l.
Proof.
  induction l as [|x l IH]; intros H; [unfold sum_over; simpl; lia|].
  rewrite !sum_over_cons. pose proof (H x ltac:(set_solver)).
  specialize (IH ltac:(set_solver)). lia.
Qed.

Lemma sum_over_nonneg {A} (f : A -> Z) l :
  (forall x, x ∈ l -> 0 <= f x) -> 0 <= sum_over f l.
Proof.
  intros H. apply (sum_over_le (fun _ => 0)) in H.
  replace (sum_over (fun _ : A => 0) l) with 0 in H; [lia|].
  clear. induction l; [reflexivity|]. rewrite sum_over_cons. lia.
Qed.

(** ** Only loops earn compilation *)

(** [s] occurs in [l] where the walk visits it. *)
Inductive scored_in (s : UPLpgSQL_stmt) : list UPLpgSQL_stmt -> Prop :=
  | scored_here l : s ∈ l -> scored_in s l
  | scored_below l t b : t ∈ l -> b ∈ scored_bodies t -> scored_in s b -> scored_in s l.

(** The fold's results for the bodies that are scored. *)
Definition scored_results {R} (s : UPLpgSQL_stmt) (rs : list (list R)) : list (list R) :=
  match s with
  | STMT_BLOCK _ _ => take 1 rs
  | STMT_FOREACH_A _ _ => []
  | _ => rs
  end.

Lemma scored_results_map {R} (g : UPLpgSQL_stmt -> R) s :
  scored_results s (map (map g) (sub_bodies s)) = map (map g) (scored_bodies s).
Proof. destruct s; reflexivity. Qed.

Definition loop_in : UPLpgSQL_stmt -> bool :=
  fold_stmt (fun s rs => opens_loop s || existsb (existsb id) (scored_results s rs)).

Lemma loop_in_true s :
  loop_in s = true <->
  opens_loop s = true \/ exists b t, b ∈ scored_bodies s /\ t ∈ b /\ loop_in t = true.
Proof.
  unfold loop_in at 1. rewrite fold_stmt_eq, scored_results_map, orb_true_iff, existsb_elem.
  setoid_rewrite elem_of_map. setoid_rewrite existsb_elem.
  split; (intros [H|H]; [by left|right]).
  - destruct H as (? & (b & Hb & <-) & ? & (t & Ht & <-)%elem_of_map & H). eauto.
  - destruct H as (b & t & Hb & Ht & H). eexists; split; [eauto|].
    exists true. split; [|done]. apply elem_of_map. eauto.
Qed.

Lemma loop_in_spec s l :
  s ∈ l -> loop_in s = true -> exists t, opens_loop t = true /\ scored_in t l.
Proof.
  revert l. induction s as [s IH] using scored_ind. intros l Hl [H|H]%loop_in_true.
  - exists s. split; [done|]. by apply scored_here.
  - destruct H as (b & t & Hb & Ht & H). destruct (IH b Hb t Ht b Ht H) as (u & Hu & Hin).
    exists u. split; [done|]. by apply (scored_below _ l s b).
Qed.

Lemma own_score_nonloop s : opens_loop s = false -> own_score s 0 <= 0.
Proof. destruct s as [? b| | | | | | | | | | | | | | | | | | | | | | | | | |]; cbn; try done.
  destruct (exceptions b); lia.
Qed.

Lemma sum_over_nonpos {A} (f : A -> Z) l :
  (forall x, x ∈ l -> f x <= 0) -> sum_over f l <= 0.
Proof.
  induction l as [|x l IH]; intros H; [unfold sum_over; simpl; lia|].
  rewrite sum_over_cons. pose proof (H x ltac:(set_solver)).
  specialize (IH ltac:(set_solver)). lia.
Qed.

Lemma loop_free_score s : loop_in s = false -> jit_score_stmt s 0 <= 0.
Proof.
  induction s as [s IH] using scored_ind. intros H.
  assert (Hn : opens_loop s = false).
  { apply not_true_iff_false. intros Ho.
    apply not_true_iff_false in H. apply H, loop_in_true. by left. }
  rewrite jit_score_stmt_eq. unfold inner_depth. rewrite Hn.
  pose proof (own_score_nonloop s Hn).
  enough (sum_over (fun b => jit_score_stmts b 0) (scored_bodies s) <= 0) by lia.
  apply sum_over_nonpos. intros b Hb. apply sum_over_nonpos. intros t Ht.
  apply (IH b Hb t Ht). apply not_true_iff_false. intros Ht'.
  apply not_true_iff_false in H. apply H, loop_in_true. eauto 6.
Qed.

(** ** How large a score can get *)

(** Score-bearing nodes of a statement: the statement, one per ELSIF or WHEN
    arm, and those of its scored bodies. *)
Definition arms (s : UPLpgSQL_stmt) : Z :=
  match s with
  | STMT_IF _ i => Z.of_nat (length (elsif_list i))
  | STMT_CASE _ c => Z.of_nat (length (case_when_list c))
  | _ => 0
  end.

Definition nodes : UPLpgSQL_stmt -> Z :=
  fold_stmt (fun s rs => 1 + arms s + sum_over (sum_over id) (scored_results s rs)).

(** How deep loops nest inside a statement. *)
Definition nest : UPLpgSQL_stmt -> Z :=
  fold_stmt (fun s rs =>
    (if opens_loop s then 1 else 0) + foldr Z.max 0 (concat (scored_results s rs))).

Definition nodes_of (l : list UPLpgSQL_stmt) : Z := sum_over nodes l.
Definition nest_of (l : list UPLpgSQL_stmt) : Z := foldr Z.max 0 (map nest l).

Lemma sum_over_ext {A} (f g : A -> Z) l : (forall x, f x = g x) -> sum_over f l = sum_over g l.
Proof.
  intros H. induction l as [|x l IH]; [reflexivity|]. by rewrite !sum_over_cons, IH, H.
Qed.

Lemma nodes_eq s : nodes s = 1 + arms s + sum_over nodes_of (scored_bodies s).
Proof.
  unfold nodes at 1. rewrite fold_stmt_eq, scored_results_map, sum_over_map.
  f_equal. apply sum_over_ext. intros b. by rewrite sum_over_map.
Qed.

Lemma foldr_max_le (l : list Z) z : z ∈ l -> z <= foldr Z.max 0 l.
Proof. induction 1; simpl; lia. Qed.

Lemma foldr_max_nonneg (l : list Z) : 0 <= foldr Z.max 0 l.
Proof. induction l; simpl; lia. Qed.

Lemma nest_below s b t :
  b ∈ scored_bodies s -> t ∈ b -> (if opens_loop s then 1 else 0) + nest t <= nest s.
Proof.
  intros Hb Ht. unfold nest at 2. rewrite fold_stmt_eq, scored_results_map.
  apply Zplus_le_compat_l, foldr_max_le.
  rewrite list_elem_of_In, in_concat. setoid_rewrite <- list_elem_of_In.
  exists (map nest b). split; apply elem_of_map; eauto.
Qed.

Lemma nest_nonneg s : 0 <= nest s.
Proof.
  unfold nest. rewrite fold_stmt_eq.
  pose proof (foldr_max_nonneg). destruct (opens_loop s); apply Z.add_nonneg_nonneg; auto; lia.
Qed.

Lemma sum_over_abs_le {A} (f g : A -> Z) k l :
  (forall x, x ∈ l -> Z.abs (f x) <= k * g x) -> Z.abs (sum_over f l) <= k * sum_over g l.
Proof.
  induction l as [|x l IH]; intros H; [unfold sum_over; simpl; lia|].
  rewrite !sum_over_cons. pose proof (H x ltac:(set_solver)).
  specialize (IH ltac:(set_solver)). lia.
Qed.

Lemma own_score_bound s d :
  0 <= d -> Z.abs (own_score s d) <= 6 * (d + 1) * (1 + arms s).
Proof.
  intros Hd. destruct s as [? b| | | | | | | | | | | | | | | | | | | | | | | | | |];
    cbn -[Z.mul Z.add Z.abs Z.of_nat]; unfold mult, spi_penalty;
    try destruct (exceptions b); try destruct (0 <? d); nia.
Qed.

Lemma nodes_nonneg s : 0 <= nodes s.
Proof.
  induction s as [s IH] using scored_ind. rewrite nodes_eq.
  assert (0 <= arms s) by (destruct s; simpl; lia).
  enough (0 <= sum_over nodes_of (scored_bodies s)) by lia.
  apply sum_over_nonneg. intros b Hb. apply sum_over_nonneg. eauto.
Qed.

Lemma score_stmt_bound s d :
  0 <= d -> Z.abs (jit_score_stmt s d) <= 6 * (d + nest s + 1) * nodes s.
Proof.
  revert d. induction s as [s IH] using scored_ind. intros d Hd.
  rewrite jit_score_stmt_eq, nodes_eq.
  pose proof (own_score_bound s d Hd). pose proof (nest_nonneg s).
  assert (0 <= arms s) by (destruct s; simpl; lia).
  enough (Z.abs (sum_over (fun b => jit_score_stmts b (inner_depth s d)) (scored_bodies s))
          <= 6 * (d + nest s + 1) * sum_over nodes_of (scored_bodies s)) by nia.
  apply sum_over_abs_le. intros b Hb. apply sum_over_abs_le. intros t Ht.
  pose proof (nest_below s b t Hb Ht) as Hn. unfold inner_depth.
  pose proof (IH b Hb t Ht (if opens_loop s then d + 1 else d)) as H'.
  pose proof (nodes_nonneg t). pose proof (nest_nonneg t).
  destruct (opens_loop s); specialize (H' ltac:(lia)); nia.
Qed.

(** ** Properties *)

(** The heuristic only compiles functions in which the walk finds a loop:
    when [should_jit] answers yes, some WHILE, LOOP, FOR-integer, FOR-query,
    FOR-cursor or FOR-EXECUTE statement occurs in a part of the body that runs
    as compiled code.  (Straight-line functions, and functions whose only loops
    sit in FOREACH bodies or exception handlers, stay interpreted.) *)
Theorem should_jit_needs_loop func :
  should_jit func = true ->
  exists s, opens_loop s = true /\ scored_in s (blk_body (fn_action func)).
Proof.
  unfold should_jit. intros H%Z.ltb_lt.
  destruct (existsb loop_in (blk_body (fn_action func))) eqn:E.
  - apply existsb_elem in E as (s & Hs & Hl). by apply (loop_in_spec s).
  - exfalso. enough (jit_score_stmts (blk_body (fn_action func)) 0 <= 0) by lia.
    apply sum_over_nonpos. intros t Ht. apply loop_free_score.
    apply not_true_iff_false. intros Hl. apply not_true_iff_false in E.
    apply E, existsb_elem. eauto.
Qed.

(** The score of a statement list is bounded by six times its nodes times
    one more than its loop nesting, so the C [int] holds it whenever that
    product fits an [int32]. *)
Theorem score_stmts_bound l :
  Z.abs (jit_score_stmts l 0) <= 6 * (nest_of l + 1) * nodes_of l.
Proof.
  apply sum_over_abs_le. intros s Hs. pose proof (score_stmt_bound s 0 ltac:(lia)).
  assert (nest s <= nest_of l) by (apply foldr_max_le, elem_of_map; eauto).
  pose proof (nodes_nonneg s). nia.
Qed.

Module HeuristicExamples.

Definition one : UPLpgSQL_expr := mk_expr "1" (-1) false true [].
Definition assign : UPLpgSQL_stmt := STMT_ASSIGN (mk_head 2 2) (mk_assign 0 one).
Definition loop : UPLpgSQL_stmt := STMT_LOOP (mk_head 1 1) (mk_loop None [assign]).
Definition looping : UPLpgSQL_function :=
  scalar_function 1 "f()" VOIDOID false [] 0 [] (mk_block None [loop] [] None None).

Lemma should_jit_needs_loop_witness :
  should_jit looping = true
  /\ exists s, opens_loop s = true /\ scored_in s (blk_body (fn_action looping)).
Proof. split; [reflexivity|]. apply should_jit_needs_loop. reflexivity. Defined.
End HeuristicExamples.
