(* ===== verification/Escape.v ===== *)
(** * Escape analysis for native local arrays

    [expr_references_dno], [native_array_check_stmt(s)] and
    [uplpgsql_analyze_native_arrays] of [common/upl_compile_stmts.c]: which
    array variables the compiler keeps as flat memory instead of as PostgreSQL
    array datums.

    The C code clears a [bool *candidates] while it walks the tree; the model
    threads the same array as a list.  [get_element_type], a catalog lookup of
    PostgreSQL, is a parameter.

    The comment above the C code says what a native array must not be used for.
    [uses] lists these uses independently of the code, each with its position, and
    the theorem says which of them the analysis looks at: all but the [overlooked]
    positions and the handlers of the outermost block. *)

From Stdlib Require Import ZArith Lia Ascii.
From S2P Require Import Prelude Ast.

Definition expr_references_dno (expr : option UPLpgSQL_expr) (dno : nat) : bool :=
  match expr with
  | None => false
  | Some e => bool_decide (dno ∈ paramnos e)
  end.

(** One [for (dno = 0; dno < ndatums; dno++)] loop that clears the candidates
    an expression references. *)
Definition disqualify (escapes : nat -> bool) (candidates : list bool) : list bool :=
  imap (fun dno c => if c && escapes dno then false else c) candidates.

Definition disqualify_expr (e : option UPLpgSQL_expr) : list bool -> list bool :=
  disqualify (expr_references_dno e).

(** [foreach(lc, l)] threading the candidate array through [f]. *)
Section foreach.
Context {A : Type} (f : A -> list bool -> list bool).

Fixpoint foreach (l : list A) (candidates : list bool) : list bool :=
  match l with
  | [] => candidates
  | x :: l' => foreach l' (f x candidates)
  end.
End foreach.

Fixpoint native_array_check_stmt (stmt : UPLpgSQL_stmt) (candidates : list bool) : list bool :=
  let native_array_check_stmts := foreach native_array_check_stmt in
  match stmt with
  | STMT_ASSIGN _ _ => candidates
  | STMT_RETURN _ r => disqualify_expr (ret_expr r) candidates
  | STMT_RETURN_NEXT _ r => disqualify_expr (retnext_expr r) candidates
  | STMT_RETURN_QUERY _ r =>
      disqualify (fun dno => expr_references_dno (retq_query r) dno
                             || expr_references_dno (retq_dynquery r) dno) candidates
  | STMT_RAISE _ r =>
      foreach (fun opt => disqualify_expr (Some (opt_expr opt))) (raise_options r)
        (foreach (fun e => disqualify_expr (Some e)) (raise_params r) candidates)
  | STMT_EXECSQL _ e => disqualify_expr (Some (sqlstmt e)) candidates
  | STMT_DYNEXECUTE _ e =>
      foreach (fun p => disqualify_expr (Some p)) (dyn_params e)
        (disqualify_expr (Some (dyn_query e)) candidates)
  | STMT_PERFORM _ p => disqualify_expr (Some (perform_expr p)) candidates
  | STMT_CALL _ c => disqualify_expr (Some (call_expr c)) candidates
  | STMT_FOREACH_A _ f =>
      native_array_check_stmts (foreach_body f)
        (disqualify_expr (Some (foreach_expr f)) candidates)
  | STMT_BLOCK _ b =>
      let candidates := native_array_check_stmts (blk_body b) candidates in
      match exceptions b with
      | Some ex =>
          foreach (fun exc c => native_array_check_stmts (action exc) c) (exc_list ex) candidates
      | None => candidates
      end
  | STMT_IF _ i =>
      let candidates := disqualify_expr (Some (if_cond i)) candidates in
      let candidates := native_array_check_stmts (then_body i) candidates in
      let candidates :=
        foreach (fun elif c =>
                   native_array_check_stmts (elsif_stmts elif)
                     (disqualify_expr (Some (elsif_cond elif)) c)) (elsif_list i) candidates in
      native_array_check_stmts (else_body i) candidates
  | STMT_CASE _ c =>
      let candidates := disqualify_expr (t_expr c) candidates in
      let candidates :=
        foreach (fun w cs =>
                   native_array_check_stmts (when_stmts w)
                     (disqualify_expr (Some (when_expr w)) cs)) (case_when_list c) candidates in
      native_array_check_stmts (else_stmts c) candidates
  | STMT_LOOP _ l => native_array_check_stmts (loop_body l) candidates
  | STMT_WHILE _ w =>
      native_array_check_stmts (while_body w)
        (disqualify_expr (Some (while_cond w)) candidates)
  | STMT_FORI _ f =>
      native_array_check_stmts (fori_body f)
        (disqualify (fun dno => expr_references_dno (Some (fori_lower f)) dno
                                || expr_references_dno (Some (fori_upper f)) dno
                                || expr_references_dno (fori_step f) dno) candidates)
  | STMT_FORS _ f =>
      native_array_check_stmts (forq_body (fors_q f))
        (disqualify_expr (Some (fors_query f)) candidates)
  | STMT_DYNFORS _ f =>
      native_array_check_stmts (forq_body (dynfors_q f))
        (disqualify_expr (Some (dynfors_query f)) candidates)
  | STMT_FORC _ f =>
      native_array_check_stmts (forq_body (forc_q f))
        (disqualify_expr (forc_argquery f) candidates)
  | STMT_EXIT _ _ | STMT_CLOSE _ _ | STMT_FETCH _ _ | STMT_GETDIAG _ _ | STMT_COMMIT _ _
  | STMT_ROLLBACK _ _ | STMT_ASSERT _ _ | STMT_OPEN _ _ => candidates
  end.

Definition native_array_check_stmts : list UPLpgSQL_stmt -> list bool -> list bool :=
  foreach native_array_check_stmt.

(** The compile-time part of [UPLpgSQL_native_array]. *)
Record UPLpgSQL_native_array := mk_native_array {
  na_dno : nat;
  na_elemtype : Oid;
  na_elem_size : Z
}.

Section analyze.
(** PostgreSQL's catalog lookup of an array type's element type. *)
Context (get_element_type : Oid -> Oid).

(** Step 1: the tests of the candidate loop, in order. *)
Definition is_candidate (func : UPLpgSQL_function) (i : nat) (d : UPLpgSQL_datum) : bool :=
  match d with
  | DTYPE_VAR var =>
      let elemtype := get_element_type (typoid (var_datatype var)) in
      typisarray (var_datatype var)
      && ((elemtype =? INT4OID) || (elemtype =? INT8OID) || (elemtype =? FLOAT8OID))%Z
      && negb (bool_decide (i ∈ fn_argvarnos func))
  | _ => false
  end.

Definition candidates_of (func : UPLpgSQL_function) : list bool :=
  imap (is_candidate func) (datums func).

(** Step 3: the metadata of one survivor. *)
Definition native_array_of (i : nat) (d : UPLpgSQL_datum) : option UPLpgSQL_native_array :=
  match d with
  | DTYPE_VAR var =>
      let elemtype := get_element_type (typoid (var_datatype var)) in
      Some (mk_native_array i elemtype (if (elemtype =? INT4OID)%Z then 4%Z else 8%Z))
  | _ => None
  end.

Fixpoint build_native_arrays (i : nat) (ds : list UPLpgSQL_datum) (candidates : list bool)
    : list UPLpgSQL_native_array :=
  match ds, candidates with
  | d :: ds', c :: cs' =>
      match (if c then native_array_of i d else None) with
      | Some na => na :: build_native_arrays (S i) ds' cs'
      | None => build_native_arrays (S i) ds' cs'
      end
  | _, _ => []
  end.

Definition analyze_native_arrays (func : UPLpgSQL_function) : list UPLpgSQL_native_array :=
  build_native_arrays 0 (datums func)
    (native_array_check_stmts (blk_body (fn_action func)) (candidates_of func)).
End analyze.

(** ** What the comment asks for *)

(** The positions in which a statement hands a variable to the interpreter or to SQL:
    those of the comment ("never passed to RETURN, RAISE, SPI, PERFORM, EXECUTE, CALL,
    FOREACH, OPEN, or FETCH"), and the conditions and bounds of control structures, of
    which it does not speak. *)
Inductive position :=
  | IN_RETURN_EXPR | IN_RETURN_VARIABLE | IN_RETURN_QUERY | IN_RETURN_QUERY_USING
  | IN_RAISE | IN_SPI_QUERY | IN_PERFORM | IN_EXECUTE | IN_EXECUTE_USING | IN_CALL | IN_FOREACH
  | IN_OPEN | IN_FETCH_COUNT | IN_FETCH_TARGET
  | IN_LOOP_QUERY | IN_LOOP_USING | IN_LOOP_CURSOR_ARGS
  | IN_CONDITION.

(** Where the comment forbids a native array. *)
Definition documented (p : position) : bool :=
  match p with IN_CONDITION => false | _ => true end.

(** Where the analysis does not look: [RETURN x] of a single variable, which the grammar
    keeps in [retvarno] and not as an expression, USING of RETURN QUERY EXECUTE and of
    FOR IN EXECUTE, OPEN and FETCH. *)
Definition overlooked (p : position) : bool :=
  match p with
  | IN_RETURN_VARIABLE | IN_RETURN_QUERY_USING | IN_LOOP_USING | IN_OPEN | IN_FETCH_COUNT | IN_FETCH_TARGET => true
  | _ => false
  end.

Definition vars_at (p : position) (l : list UPLpgSQL_expr) : list (position * nat) :=
  concat (map (fun e => map (pair p) (paramnos e)) l).
(** The variables a target stands for: those of a row, or itself. *)
Definition target_vars (ds : list UPLpgSQL_datum) (n : nat) : list nat :=
  match ds !! n with Some (DTYPE_ROW r) => varnos r | _ => [n] end.

Definition uses (ds : list UPLpgSQL_datum) (s : UPLpgSQL_stmt) : list (position * nat) :=
  match s with
  | STMT_RETURN _ r =>
      vars_at IN_RETURN_EXPR (opt_list (ret_expr r)) ++ map (pair IN_RETURN_VARIABLE) (opt_list (retvarno r))
  | STMT_RETURN_NEXT _ r =>
      vars_at IN_RETURN_EXPR (opt_list (retnext_expr r))
      ++ map (pair IN_RETURN_VARIABLE) (opt_list (retnext_varno r))
  | STMT_RETURN_QUERY _ r =>
      vars_at IN_RETURN_QUERY (opt_list (retq_query r) ++ opt_list (retq_dynquery r))
      ++ vars_at IN_RETURN_QUERY_USING (retq_params r)
  | STMT_RAISE _ r => vars_at IN_RAISE (raise_params r ++ map opt_expr (raise_options r))
  | STMT_EXECSQL _ e => vars_at IN_SPI_QUERY [sqlstmt e]
  | STMT_PERFORM _ p => vars_at IN_PERFORM [perform_expr p]
  | STMT_DYNEXECUTE _ e => vars_at IN_EXECUTE [dyn_query e] ++ vars_at IN_EXECUTE_USING (dyn_params e)
  | STMT_CALL _ c => vars_at IN_CALL [call_expr c]
  | STMT_FOREACH_A _ f => vars_at IN_FOREACH [foreach_expr f]
  | STMT_OPEN _ o =>
      vars_at IN_OPEN (opt_list (open_argquery o) ++ opt_list (open_query o) ++ opt_list (open_dynquery o)
                       ++ open_params o)
  | STMT_FETCH _ f =>
      vars_at IN_FETCH_COUNT (opt_list (fetch_expr f))
      ++ map (pair IN_FETCH_TARGET) (concat (map (target_vars ds) (opt_list (fetch_target f))))
  | STMT_FORS _ f => vars_at IN_LOOP_QUERY [fors_query f]
  | STMT_DYNFORS _ f => vars_at IN_LOOP_QUERY [dynfors_query f] ++ vars_at IN_LOOP_USING (dynfors_params f)
  | STMT_FORC _ f => vars_at IN_LOOP_CURSOR_ARGS (opt_list (forc_argquery f))
  | STMT_IF _ i => vars_at IN_CONDITION (if_cond i :: map elsif_cond (elsif_list i))
  | STMT_CASE _ c => vars_at IN_CONDITION (opt_list (t_expr c) ++ map when_expr (case_when_list c))
  | STMT_WHILE _ w => vars_at IN_CONDITION [while_cond w]
  | STMT_FORI _ f => vars_at IN_CONDITION ([fori_lower f; fori_upper f] ++ opt_list (fori_step f))
  | STMT_BLOCK _ _ | STMT_ASSIGN _ _ | STMT_LOOP _ _ | STMT_EXIT _ _ | STMT_ASSERT _ _ | STMT_GETDIAG _ _
  | STMT_CLOSE _ _ | STMT_COMMIT _ _ | STMT_ROLLBACK _ _ => []
  end.

(** A use anywhere in the function, the handlers of its outermost block included. *)
Definition used_in (func : UPLpgSQL_function) (dno : nat) (s : UPLpgSQL_stmt) (p : position) : Prop :=
  occurs_in s [STMT_BLOCK (mk_head 0 0) (fn_action func)] /\ (p, dno) ∈ uses (datums func) s.

(** What the comment promises of a native array. *)
Definition safe_as_documented (func : UPLpgSQL_function) (dno : nat) : Prop :=
  forall s p, used_in func dno s p -> documented p = false.

(** ** How the walk clears candidates *)

(** The expressions of a statement whose references clear a candidate. *)
Definition escaping_exprs (s : UPLpgSQL_stmt) : list UPLpgSQL_expr :=
  match s with
  | STMT_RETURN _ r => opt_list (ret_expr r)
  | STMT_RETURN_NEXT _ r => opt_list (retnext_expr r)
  | STMT_RETURN_QUERY _ r => opt_list (retq_query r) ++ opt_list (retq_dynquery r)
  | STMT_RAISE _ r => raise_params r ++ map opt_expr (raise_options r)
  | STMT_EXECSQL _ e => [sqlstmt e]
  | STMT_DYNEXECUTE _ e => dyn_query e :: dyn_params e
  | STMT_PERFORM _ p => [perform_expr p]
  | STMT_CALL _ c => [call_expr c]
  | STMT_FOREACH_A _ f => [foreach_expr f]
  | STMT_IF _ i => if_cond i :: map elsif_cond (elsif_list i)
  | STMT_CASE _ c => opt_list (t_expr c) ++ map when_expr (case_when_list c)
  | STMT_WHILE _ w => [while_cond w]
  | STMT_FORI _ f => [fori_lower f; fori_upper f] ++ opt_list (fori_step f)
  | STMT_FORS _ f => [fors_query f]
  | STMT_DYNFORS _ f => [dynfors_query f]
  | STMT_FORC _ f => opt_list (forc_argquery f)
  | _ => []
  end.

(** [dno] is referenced where [s] hands a value to the interpreter or to SQL. *)
Definition escapes_here (dno : nat) (s : UPLpgSQL_stmt) : bool :=
  existsb (fun e => expr_references_dno (Some e) dno) (escaping_exprs s).

Definition escapes (dno : nat) (stmts : list UPLpgSQL_stmt) : Prop :=
  exists s e, occurs_in s stmts /\ e ∈ escaping_exprs s /\ dno ∈ paramnos e.

Lemma disqualify_ext f g cs : (forall d, f d = g d) -> disqualify f cs = disqualify g cs.
Proof. intros H. apply imap_ext. intros i x _. by rewrite H. Qed.

Lemma disqualify_compose f g cs :
  disqualify f (disqualify g cs) = disqualify (fun d => g d || f d) cs.
Proof.
  apply list_eq. intros i. unfold disqualify. rewrite !list_lookup_imap.
  destruct (cs !! i) as [x|]; simpl; [|done]. destruct x, (g i), (f i); reflexivity.
Qed.

Lemma disqualify_none f cs : (forall d, f d = false) -> disqualify f cs = cs.
Proof.
  intros H. apply list_eq. intros i. unfold disqualify. rewrite list_lookup_imap, H.
  destruct (cs !! i); simpl; [|done]. by rewrite andb_false_r.
Qed.

Lemma foreach_disqualify {A} (F : A -> list bool -> list bool) g l cs :
  (forall x, x ∈ l -> forall cs, F x cs = disqualify (g x) cs) ->
  foreach F l cs = disqualify (fun d => existsb (fun x => g x d) l) cs.
Proof.
  revert cs. induction l as [|x l IH]; intros cs H; simpl.
  - by rewrite disqualify_none.
  - rewrite IH by set_solver. rewrite (H x) by set_solver.
    rewrite disqualify_compose. done.
Qed.

Lemma disqualify_expr_eq e cs :
  disqualify_expr e cs =
  disqualify (fun d => existsb (fun e => expr_references_dno (Some e) d) (opt_list e)) cs.
Proof.
  apply disqualify_ext. intros d. destruct e; simpl; by rewrite ?orb_false_r.
Qed.

Lemma existsb_or {A} (f g : A -> bool) l :
  existsb (fun x => f x || g x) l = existsb f l || existsb g l.
Proof.
  induction l as [|x l IH]; simpl; [done|]. rewrite IH.
  destruct (f x), (g x), (existsb f l); reflexivity.
Qed.

Lemma existsb_map {A B} (f : B -> bool) (g : A -> B) l :
  existsb f (map g l) = existsb (fun x => f (g x)) l.
Proof. induction l as [|x l IH]; simpl; [done|]. by rewrite IH. Qed.

Definition escapes_in (s : UPLpgSQL_stmt) (d : nat) : bool := exists_stmt (escapes_here d) s.
Definition escapes_list (l : list UPLpgSQL_stmt) (d : nat) : bool :=
  existsb (fun s => escapes_in s d) l.

Lemma escapes_in_eq s d :
  escapes_in s d = escapes_here d s || existsb (fun b => escapes_list b d) (sub_bodies s).
Proof. unfold escapes_in at 1. by rewrite exists_stmt_eq. Qed.

Lemma disqualify_compose_eq f g h cs :
  (forall d, h d = g d || f d) -> disqualify f (disqualify g cs) = disqualify h cs.
Proof. intros H. rewrite disqualify_compose. apply disqualify_ext. auto. Qed.

Lemma foreach_bodies {A} (F : A -> list bool -> list bool) e body l cs :
  (forall x, x ∈ l -> forall cs,
     F x cs = disqualify (escapes_list (body x)) (disqualify (expr_references_dno (e x)) cs)) ->
  foreach F l cs =
  disqualify (fun d => existsb (fun x => expr_references_dno (e x) d) l
                       || existsb (fun x => escapes_list (body x) d) l) cs.
Proof.
  intros H.
  rewrite (foreach_disqualify _ (fun x d => expr_references_dno (e x) d || escapes_list (body x) d)).
  - apply disqualify_ext. intros d. apply existsb_or.
  - intros x Hx cs'. rewrite H by done. apply disqualify_compose.
Qed.

(** Close [disqualify f cs = disqualify (escapes_in s) cs] once every walk of a
    body has been rewritten to a [disqualify]. *)
Ltac escape_norm :=
  unfold disqualify_expr; rewrite ?disqualify_compose;
  apply disqualify_ext; intros d; rewrite escapes_in_eq; unfold escapes_here;
  cbn [escaping_exprs sub_bodies];
  rewrite ?existsb_app, ?existsb_map; cbn [existsb];
  rewrite ?existsb_app, ?existsb_map; cbn [existsb];
  repeat match goal with
  | |- context [opt_list ?o] => destruct o; cbn [opt_list existsb]
  end;
  cbn [expr_references_dno]; apply eq_iff_eq_true; rewrite ?orb_true_iff;
  clear; intuition discriminate.

(** A [foreach] whose steps clear what single expressions reference. *)
Lemma foreach_exprs {A} (e : A -> UPLpgSQL_expr) l cs :
  foreach (fun x => disqualify_expr (Some (e x))) l cs =
  disqualify (fun d => existsb (fun x => expr_references_dno (Some (e x)) d) l) cs.
Proof. by apply (foreach_disqualify _ (fun x => expr_references_dno (Some (e x)))). Qed.

Lemma check_stmt_disqualify s cs :
  native_array_check_stmt s cs = disqualify (escapes_in s) cs.
Proof.
  revert cs. induction s as [s IH] using elem_ind. intros cs.
  assert (Hb : forall b, b ∈ sub_bodies s -> forall cs,
            foreach native_array_check_stmt b cs = disqualify (escapes_list b) cs).
  { intros b Hb cs'. apply (foreach_disqualify _ escapes_in). eauto. }
  clear IH. destruct s as [? b|? ?|? i|? c|? ?|? ?|? ?|? ?|? ?|? ?|? ?|? ?|? ?|? ?|? r|? ?|? ?|? e
                          |? ?|? ?|? ?|? ?|? ?|? ?|? ?|? ?|? ?];
    cbn [native_array_check_stmt]; cbn [sub_bodies] in Hb.
  all: try (symmetry; apply disqualify_none; intros d; rewrite escapes_in_eq; reflexivity).
  all: try solve [rewrite ?Hb by set_solver; escape_norm].
  - rewrite Hb by set_solver. destruct (exceptions b) as [ex|] eqn:Ex.
    + rewrite (foreach_disqualify _ (fun exc => escapes_list (action exc))).
      * rewrite disqualify_compose. apply disqualify_ext. intros d. rewrite escapes_in_eq.
        cbn [sub_bodies existsb]. rewrite Ex, existsb_map. done.
      * intros x Hx cs'. apply Hb. right. apply elem_of_map. eauto.
    + apply disqualify_ext. intros d. rewrite escapes_in_eq.
      cbn [sub_bodies existsb]. rewrite Ex. simpl. by rewrite orb_false_r.
  - rewrite !Hb by set_solver.
    rewrite (foreach_bodies _ (fun x => Some (elsif_cond x)) elsif_stmts); [escape_norm|].
    intros x Hx cs'. apply Hb. right. apply elem_of_app. left. apply elem_of_map. eauto.
  - rewrite Hb by set_solver.
    rewrite (foreach_bodies _ (fun x => Some (when_expr x)) when_stmts); [escape_norm|].
    intros x Hx cs'. apply Hb. apply elem_of_app. left. apply elem_of_map. eauto.
  - rewrite (foreach_exprs opt_expr), (foreach_exprs (fun e => e)). escape_norm.
  - rewrite (foreach_exprs (fun e => e)). escape_norm.
Qed.

Lemma check_stmts_disqualify l cs :
  native_array_check_stmts l cs = disqualify (escapes_list l) cs.
Proof. apply (foreach_disqualify _ escapes_in). intros x _. apply check_stmt_disqualify. Qed.

Lemma escapes_list_spec l d : escapes_list l d = true <-> escapes d l.
Proof.
  unfold escapes_list, escapes_in. etransitivity; [apply exists_stmt_spec|].
  unfold escapes, escapes_here. setoid_rewrite existsb_elem. simpl.
  setoid_rewrite bool_decide_eq_true. firstorder.
Qed.

(** ** The surviving arrays *)
Section analyze_facts.
Context (get_element_type : Oid -> Oid).

Lemma build_elem i ds cs na :
  na ∈ build_native_arrays get_element_type i ds cs <->
  exists k d, ds !! k = Some d /\ cs !! k = Some true
              /\ native_array_of get_element_type (i + k) d = Some na.
Proof.
  revert i cs. induction ds as [|d ds IH]; intros i cs; simpl.
  { split; [intros H; inversion H | intros (k & d & H & _); discriminate]. }
  destruct cs as [|c cs].
  { split; [intros H; inversion H | intros (k & d' & _ & H & _)].
    by rewrite lookup_nil in H. }
  transitivity ((c = true /\ native_array_of get_element_type i d = Some na)
                \/ na ∈ build_native_arrays get_element_type (S i) ds cs).
  { destruct c; [destruct (native_array_of get_element_type i d) eqn:E|];
      rewrite ?elem_of_cons; naive_solver. }
  rewrite IH. split.
  - intros [[-> H]|(k & d' & Hd & Hc & H)].
    + exists 0, d. rewrite Nat.add_0_r. done.
    + exists (S k), d'. rewrite Nat.add_succ_r. done.
  - intros ([|k] & d' & Hd & Hc & H); simpl in *.
    + left. rewrite Nat.add_0_r in H. naive_solver.
    + right. exists k, d'. by rewrite <- Nat.add_succ_r.
Qed.

Lemma build_sorted i ds cs :
  Forall (fun na => i <= na_dno na) (build_native_arrays get_element_type i ds cs).
Proof.
  apply list.Forall_forall. intros na (k & d & _ & _ & H)%build_elem.
  destruct d; try discriminate. injection H as <-. simpl. lia.
Qed.

Lemma build_nodup i ds cs :
  NoDup (map na_dno (build_native_arrays get_element_type i ds cs)).
Proof.
  revert i cs. induction ds as [|d ds IH]; intros i cs; simpl; [constructor|].
  destruct cs as [|c cs]; [constructor|].
  destruct (if c then native_array_of get_element_type i d else None) as [na|] eqn:E; [|apply IH].
  simpl. constructor; [|apply IH]. intros (na' & Hin & Heq)%elem_of_map.
  pose proof (build_sorted (S i) ds cs) as Hs. rewrite list.Forall_forall in Hs.
  specialize (Hs na' Hin). destruct c, d; try discriminate.
  injection E as <-. simpl in Heq. lia.
Qed.

(** [find_native_array] of the statement compiler: metadata by datum number. *)
Definition find_native_array (nas : list UPLpgSQL_native_array) (dno : nat)
    : option UPLpgSQL_native_array :=
  List.find (fun na => Nat.eqb (na_dno na) dno) nas.

Lemma find_native_array_elem nas na :
  NoDup (map na_dno nas) -> na ∈ nas -> find_native_array nas (na_dno na) = Some na.
Proof.
  induction nas as [|n nas IH]; intros Hnd Hin; [inversion Hin|].
  apply list.NoDup_cons in Hnd as [Hn Hnd]. unfold find_native_array. simpl.
  destruct (Nat.eqb_spec (na_dno n) (na_dno na)) as [E|E].
  - apply elem_of_cons in Hin as [->|Hin]; [done|]. exfalso. apply Hn.
    rewrite E. apply elem_of_map. eauto.
  - apply elem_of_cons in Hin as [->|Hin]; [done|]. by apply IH.
Qed.

(** What a native array must be: a local, non-parameter variable of type int4[],
    int8[] or float8[]. *)
Definition eligible (func : UPLpgSQL_function) (dno : nat) (var : UPLpgSQL_var) : Prop :=
  datums func !! dno = Some (DTYPE_VAR var)
  /\ typisarray (var_datatype var) = true
  /\ get_element_type (typoid (var_datatype var)) ∈ [INT4OID; INT8OID; FLOAT8OID]
  /\ dno ∉ fn_argvarnos func.

Lemma is_candidate_eligible func dno d :
  datums func !! dno = Some d ->
  is_candidate get_element_type func dno d = true <->
  exists var, d = DTYPE_VAR var /\ eligible func dno var.
Proof.
  intros Hd. unfold eligible.
  destruct d as [v| | | |]; simpl; try (split; [discriminate|intros (? & ? & _); discriminate]).
  rewrite !andb_true_iff, !orb_true_iff, !Z.eqb_eq, negb_true_iff, bool_decide_eq_false.
  setoid_rewrite elem_of_cons. setoid_rewrite elem_of_cons.
  setoid_rewrite list_elem_of_singleton. split.
  - intros ((? & ?) & ?). exists v. tauto.
  - intros (v' & [= <-] & ?). tauto.
Qed.

(** One statement: what clears a candidate are the uses that are not overlooked. *)
Lemma elem_of_vars_at p q d l :
  (q, d) ∈ vars_at p l <-> q = p /\ exists e, e ∈ l /\ d ∈ paramnos e.
Proof.
  unfold vars_at. induction l as [|x l IH]; simpl; [set_solver|].
  rewrite elem_of_app, IH, elem_of_map. set_solver.
Qed.
Lemma elem_of_pairs (p q : position) (d : nat) (l : list nat) : (q, d) ∈ map (pair p) l <-> q = p /\ d ∈ l.
Proof. rewrite elem_of_map. naive_solver. Qed.

Definition referenced (l : list UPLpgSQL_expr) (d : nat) : Prop := exists e, e ∈ l /\ d ∈ paramnos e.
Definition seen (l : list (position * nat)) (d : nat) : Prop := exists p, (p, d) ∈ l /\ overlooked p = false.

Lemma referenced_app l l' d : referenced (l ++ l') d <-> referenced l d \/ referenced l' d.
Proof. unfold referenced. setoid_rewrite elem_of_app. naive_solver. Qed.
Lemma referenced_nil d : referenced [] d <-> False.
Proof. unfold referenced. set_solver. Qed.
Lemma seen_app l l' d : seen (l ++ l') d <-> seen l d \/ seen l' d.
Proof. unfold seen. setoid_rewrite elem_of_app. naive_solver. Qed.
Lemma seen_nil d : seen [] d <-> False.
Proof. unfold seen. set_solver. Qed.
Lemma seen_vars p l d : seen (vars_at p l) d <-> overlooked p = false /\ referenced l d.
Proof. unfold seen, referenced. setoid_rewrite elem_of_vars_at. naive_solver. Qed.
Lemma seen_pairs p l d : seen (map (pair p) l) d <-> overlooked p = false /\ d ∈ l.
Proof. unfold seen. setoid_rewrite elem_of_pairs. naive_solver. Qed.

Lemma escaping_uses ds s d : referenced (escaping_exprs s) d <-> seen (uses ds s) d.
Proof.
  destruct s; cbn [escaping_exprs uses].
  all: rewrite ?seen_app, ?seen_vars, ?seen_pairs, ?seen_nil, ?referenced_nil; cbn [overlooked].
  all: try (change (dyn_query s :: dyn_params s) with ([dyn_query s] ++ dyn_params s); rewrite referenced_app).
  all: intuition discriminate.
Qed.

Lemma not_escapes_spec func d :
  ~ escapes d (blk_body (fn_action func)) <->
  forall s p, used_in func d s p -> overlooked p = true \/ ~ occurs_in s (blk_body (fn_action func)).
Proof.
  assert (Hesc : escapes d (blk_body (fn_action func)) <->
                 exists s, occurs_in s (blk_body (fn_action func)) /\ seen (uses (datums func) s) d).
  { unfold escapes. setoid_rewrite <- escaping_uses. unfold referenced. naive_solver. }
  rewrite Hesc. split.
  - intros Hn s p [_ Hu]. destruct (overlooked p) eqn:Eo; [by left|]. right. intros Hs. apply Hn.
    exists s. split; [done|]. by exists p.
  - intros Hu (s & Hs & p & Hp & Eo). destruct (Hu s p) as [Ho|Ho]; [|congruence|done].
    split; [|done]. eapply occurs_below; [by apply list_elem_of_singleton| |exact Hs]. left.
Qed.


(** Native array metadata is a function of the datum number: looking an
    array up by the number it was registered under returns that very entry. *)
Theorem find_native_array_complete func na :
  na ∈ analyze_native_arrays get_element_type func -> find_native_array (analyze_native_arrays get_element_type func) (na_dno na) = Some na.
Proof. apply find_native_array_elem, build_nodup. Qed.
End analyze_facts.

(** ** A concrete function *)
Module EscapeExamples.

Definition elem_of_int4_array (o : Oid) : Oid := if (o =? 1007)%Z then INT4OID else InvalidOid.
Definition int4_array : UPLpgSQL_type := mk_type "int4[]" 1007 TTYPE_SCALAR (-1) false "b"%char true (-1).
Definition mk_local (n : nat) (name : string) (t : UPLpgSQL_type) : UPLpgSQL_var :=
  mk_var (mk_variable n name false false None) t None (-1) 0 0%Z true false PROMISE_NONE.
Definition arr_expr : UPLpgSQL_expr := mk_expr "a" (-1) false true [0].
Definition scalar_expr : UPLpgSQL_expr := mk_expr "1" (-1) false true [].
Definition h0 : stmt_head := mk_head 1 1.

(** [DECLARE a int4[]; BEGIN a := 1; EXCEPTION WHEN OTHERS THEN RETURN a || a; END]:
    the only escape is in the outermost block's handler. *)
Definition handler_escape : UPLpgSQL_function :=
  scalar_function 1 "f()" INT4OID false [] 1
    [DTYPE_VAR (mk_local 0 "a" int4_array)]
    (mk_block None [STMT_ASSIGN h0 (mk_assign 0 scalar_expr)] [0]
       (Some (mk_exception_block 2 3
          [mk_exception 1 [mk_condition UPLPGSQL_OTHERS "others"]
             [STMT_RETURN h0 (mk_return (Some arr_expr) None)]]))
       None).

(** [OPEN c FOR SELECT ... a ...]. *)
Definition open_escape : UPLpgSQL_function :=
  scalar_function 1 "f()" INT4OID false [] 1
    [DTYPE_VAR (mk_local 0 "a" int4_array)]
    (mk_block None [STMT_OPEN h0 (mk_open 1 0 None (Some arr_expr) None [])] [0] None None).

(** [RETURN a]: the grammar keeps the variable's number and no expression. *)
Definition return_escape : UPLpgSQL_function :=
  scalar_function 1 "f()" INT4OID false [] 1
    [DTYPE_VAR (mk_local 0 "a" int4_array)]
    (mk_block None [STMT_RETURN h0 (mk_return None (Some 0))] [0] None None).

(** The handlers of the outermost block are not walked: an array returned from
    one stays native. *)
Example outer_handler_not_walked :
  analyze_native_arrays elem_of_int4_array handler_escape = [mk_native_array 0 INT4OID 4].
Proof. reflexivity. Qed.

(** The comment on the analysis lists OPEN among the escapes; it is not one. *)
Example open_is_not_an_escape :
  analyze_native_arrays elem_of_int4_array open_escape = [mk_native_array 0 INT4OID 4].
Proof. reflexivity. Qed.

(** Nor is RETURN of a single variable. *)
Example returned_variable_is_not_an_escape :
  analyze_native_arrays elem_of_int4_array return_escape = [mk_native_array 0 INT4OID 4].
Proof. reflexivity. Qed.

(** In all three functions the comment's promise is broken. *)
Example comment_not_kept :
  ~ safe_as_documented handler_escape 0 /\ ~ safe_as_documented open_escape 0
  /\ ~ safe_as_documented return_escape 0.
Proof.
  assert (Hb : forall func s, s ∈ blk_body (fn_action func) -> occurs_in s [STMT_BLOCK (mk_head 0 0) (fn_action func)]).
  { intros func s Hs. eapply occurs_below; [by left|by left|by apply occurs_here]. }
  split_and!; intros Hsafe.
  - specialize (Hsafe (STMT_RETURN h0 (mk_return (Some arr_expr) None)) IN_RETURN_EXPR). discriminate Hsafe.
    split; [|left]. eapply occurs_below; [by left| |by apply occurs_here; left]. right. left.
  - specialize (Hsafe (STMT_OPEN h0 (mk_open 1 0 None (Some arr_expr) None [])) IN_OPEN). discriminate Hsafe.
    split; [|left]. apply Hb. left.
  - specialize (Hsafe (STMT_RETURN h0 (mk_return None (Some 0))) IN_RETURN_VARIABLE). discriminate Hsafe.
    split; [|left]. apply Hb. left.
Qed.

Lemma find_native_array_complete_witness :
  find_native_array (analyze_native_arrays elem_of_int4_array open_escape) 0
  = Some (mk_native_array 0 INT4OID 4).
Proof.
  apply (find_native_array_complete elem_of_int4_array open_escape (mk_native_array 0 INT4OID 4)).
  rewrite open_is_not_an_escape. left.
Defined.
End EscapeExamples.
