(* ===== verification/Expr.v ===== *)
(** * Expression trees and their classification

    [common/upl_compile_expr.c] compiles an expression in one of three ways: to native
    instructions (tier 1), to calls of the functions behind its operators (tier 2), or
    not at all (tier 3, the interpreter evaluates it).  This file has the expression
    trees PostgreSQL's parser delivers, as far as the compiler looks at them, and the
    decisions: [uplpgsql_classify_expr] and [uplpgsql_can_fmgr_compile], with the
    question whether a tier 2 evaluation needs a scope for its allocations.

    Functions are known by their OIDs; the macros of [fmgroids.h] the compiler names
    are constructors here, and every other function keeps its number. *)

From Stdlib Require Import ZArith.
From S2P Require Import Prelude Ast Escape.
#[local] Open Scope Z_scope.

(** ** Trees *)
Inductive func_oid :=
  | F_INT4PL | F_INT4MI | F_INT4MUL | F_INT4DIV | F_INT4MOD | F_INT4UM
  | F_INT8PL | F_INT8MI | F_INT8MUL | F_INT8DIV | F_INT8MOD | F_INT8UM
  | F_FLOAT8PL | F_FLOAT8MI | F_FLOAT8MUL | F_FLOAT8DIV | F_FLOAT8UM
  | F_INT4EQ | F_INT4NE | F_INT4LT | F_INT4LE | F_INT4GT | F_INT4GE
  | F_INT8EQ | F_INT8NE | F_INT8LT | F_INT8LE | F_INT8GT | F_INT8GE
  | F_FLOAT8EQ | F_FLOAT8NE | F_FLOAT8LT | F_FLOAT8LE | F_FLOAT8GT | F_FLOAT8GE
  | F_BOOLEQ | F_BOOLNE
  | F_INT84EQ | F_INT84NE | F_INT84LT | F_INT84LE | F_INT84GT | F_INT84GE
  | F_INT48EQ | F_INT48NE | F_INT48LT | F_INT48LE | F_INT48GT | F_INT48GE
  | F_INT84PL | F_INT84MI | F_INT84MUL | F_INT84DIV
  | F_INT48PL | F_INT48MI | F_INT48MUL | F_INT48DIV
  | F_DPOW | F_POW_FLOAT8_FLOAT8 | F_POWER_FLOAT8_FLOAT8
  | F_INT4ABS | F_INT8ABS | F_FLOAT8ABS
  | F_DSQRT | F_SQRT_FLOAT8 | F_CEIL_FLOAT8 | F_CEILING_FLOAT8 | F_FLOOR_FLOAT8
  | F_DEXP | F_EXP_FLOAT8 | F_DLOG1 | F_LN_FLOAT8 | F_SIN | F_COS
  | F_FLOAT8_INT4 | F_FLOAT8_INT2 | F_FLOAT8_INT8 | F_FLOAT8_FLOAT4 | F_FLOAT8_NUMERIC
  | F_OTHER (oid : Oid).

#[export] Instance func_oid_eq_dec : EqDecision func_oid.
Proof. solve_decision. Defined.

Inductive param_kind := PARAM_EXTERN | PARAM_EXEC.
Inductive bool_op := AND_EXPR | OR_EXPR | NOT_EXPR.

(** [nodes/primnodes.h]; [OtherExpr] is every other node. *)
Inductive Expr :=
  | Const (consttype : Oid) (constbyval : bool) (constvalue : Datum) (constisnull : bool)
  | Param (paramkind : param_kind) (paramid : Z) (paramtype : Oid)
  | OpExpr (opfuncid : func_oid) (opresulttype inputcollid : Oid) (args : list Expr)
  | FuncExpr (funcid : func_oid) (funcresulttype inputcollid : Oid) (args : list Expr)
  | RelabelType (arg : Expr)
  | BoolExpr (boolop : bool_op) (args : list Expr)
  | SubscriptingRef (refrestype : Oid) (refexpr : Expr) (refupperindexpr reflowerindexpr : list Expr)
      (refassgnexpr : option Expr)
  | ArrayExpr (elements : list Expr)
  | OtherExpr.

Section expr_ind.
Context (P : Expr -> Prop).
Context (HConst : forall t b v n, P (Const t b v n)) (HParam : forall k i t, P (Param k i t)).
Context (HOp : forall f r c l, (forall x, x ∈ l -> P x) -> P (OpExpr f r c l)).
Context (HFunc : forall f r c l, (forall x, x ∈ l -> P x) -> P (FuncExpr f r c l)).
Context (HRelabel : forall a, P a -> P (RelabelType a)).
Context (HBool : forall o l, (forall x, x ∈ l -> P x) -> P (BoolExpr o l)).
Context (HSub : forall t r u l a, P r -> (forall x, x ∈ u -> P x) -> (forall x, x ∈ l -> P x) ->
  P (SubscriptingRef t r u l a)).
Context (HArray : forall l, (forall x, x ∈ l -> P x) -> P (ArrayExpr l)).
Context (HOther : P OtherExpr).

Fixpoint expr_ind' (e : Expr) : P e :=
  let all := fix all (l : list Expr) : forall x, x ∈ l -> P x :=
    match l return forall x, x ∈ l -> P x with
    | [] => fun x Hx => False_ind _ (not_elem_of_nil x Hx)
    | y :: l' => fun x Hx =>
        match proj1 (elem_of_cons l' x y) Hx with
        | or_introl Heq => eq_ind_r P (expr_ind' y) Heq
        | or_intror Hin => all l' x Hin
        end
    end in
  match e with
  | Const t b v n => HConst t b v n
  | Param k i t => HParam k i t
  | OpExpr f r c l => HOp f r c l (all l)
  | FuncExpr f r c l => HFunc f r c l (all l)
  | RelabelType a => HRelabel a (expr_ind' a)
  | BoolExpr o l => HBool o l (all l)
  | SubscriptingRef t r u l a => HSub t r u l a (expr_ind' r) (all u) (all l)
  | ArrayExpr l => HArray l (all l)
  | OtherExpr => HOther
  end.
End expr_ind.

(** ** Type classes of native values *)
Inductive ExprTypeClass :=
  | EXPR_TYPE_INT4 | EXPR_TYPE_INT8 | EXPR_TYPE_FLOAT8 | EXPR_TYPE_BOOL | EXPR_TYPE_UNKNOWN.

#[export] Instance ExprTypeClass_eq_dec : EqDecision ExprTypeClass.
Proof. solve_decision. Defined.

(** The chain of tests on [consttype], [paramtype] and [refrestype]. *)
Definition type_class (t : Oid) : ExprTypeClass :=
  if t =? INT4OID then EXPR_TYPE_INT4
  else if t =? INT8OID then EXPR_TYPE_INT8
  else if t =? FLOAT8OID then EXPR_TYPE_FLOAT8
  else if t =? BOOLOID then EXPR_TYPE_BOOL
  else EXPR_TYPE_UNKNOWN.

(** [oid_to_type_class] and [elemtype_to_class], which leave booleans out. *)
Definition oid_to_type_class (t : Oid) : ExprTypeClass :=
  if t =? INT4OID then EXPR_TYPE_INT4
  else if t =? INT8OID then EXPR_TYPE_INT8
  else if t =? FLOAT8OID then EXPR_TYPE_FLOAT8
  else EXPR_TYPE_UNKNOWN.
Definition elemtype_to_class (t : Oid) : ExprTypeClass := oid_to_type_class t.

(** ** Classification *)

(** The groups of operators: the class of the operands (of both, or of the left and
    the right one) and of the result. *)
Inductive op_group :=
  | AllArgs (arg result : ExprTypeClass)
  | TwoArgs (left right result : ExprTypeClass)
  | NoOp.

Definition op_group_of (f : func_oid) : op_group :=
  match f with
  | F_INT4PL | F_INT4MI | F_INT4MUL | F_INT4DIV | F_INT4MOD | F_INT4UM =>
      AllArgs EXPR_TYPE_INT4 EXPR_TYPE_INT4
  | F_INT8PL | F_INT8MI | F_INT8MUL | F_INT8DIV | F_INT8MOD | F_INT8UM =>
      AllArgs EXPR_TYPE_INT8 EXPR_TYPE_INT8
  | F_FLOAT8PL | F_FLOAT8MI | F_FLOAT8MUL | F_FLOAT8DIV | F_FLOAT8UM =>
      AllArgs EXPR_TYPE_FLOAT8 EXPR_TYPE_FLOAT8
  | F_INT4EQ | F_INT4NE | F_INT4LT | F_INT4LE | F_INT4GT | F_INT4GE =>
      TwoArgs EXPR_TYPE_INT4 EXPR_TYPE_INT4 EXPR_TYPE_BOOL
  | F_INT8EQ | F_INT8NE | F_INT8LT | F_INT8LE | F_INT8GT | F_INT8GE =>
      TwoArgs EXPR_TYPE_INT8 EXPR_TYPE_INT8 EXPR_TYPE_BOOL
  | F_FLOAT8EQ | F_FLOAT8NE | F_FLOAT8LT | F_FLOAT8LE | F_FLOAT8GT | F_FLOAT8GE =>
      TwoArgs EXPR_TYPE_FLOAT8 EXPR_TYPE_FLOAT8 EXPR_TYPE_BOOL
  | F_BOOLEQ | F_BOOLNE => TwoArgs EXPR_TYPE_BOOL EXPR_TYPE_BOOL EXPR_TYPE_BOOL
  | F_INT84EQ | F_INT84NE | F_INT84LT | F_INT84LE | F_INT84GT | F_INT84GE =>
      TwoArgs EXPR_TYPE_INT8 EXPR_TYPE_INT4 EXPR_TYPE_BOOL
  | F_INT48EQ | F_INT48NE | F_INT48LT | F_INT48LE | F_INT48GT | F_INT48GE =>
      TwoArgs EXPR_TYPE_INT4 EXPR_TYPE_INT8 EXPR_TYPE_BOOL
  | F_INT84PL | F_INT84MI | F_INT84MUL | F_INT84DIV =>
      TwoArgs EXPR_TYPE_INT8 EXPR_TYPE_INT4 EXPR_TYPE_INT8
  | F_INT48PL | F_INT48MI | F_INT48MUL | F_INT48DIV =>
      TwoArgs EXPR_TYPE_INT4 EXPR_TYPE_INT8 EXPR_TYPE_INT8
  | _ => NoOp
  end.

(** The operators of one operand. *)
Definition is_unary (f : func_oid) : bool :=
  match f with F_INT4UM | F_INT8UM | F_FLOAT8UM => true | _ => false end.

(** A value class: neither unknown nor boolean. *)
Definition value_class (c : ExprTypeClass) : bool :=
  match c with EXPR_TYPE_INT4 | EXPR_TYPE_INT8 | EXPR_TYPE_FLOAT8 => true | _ => false end.

Definition is_pow (f : func_oid) : bool :=
  match f with F_DPOW | F_POW_FLOAT8_FLOAT8 | F_POWER_FLOAT8_FLOAT8 => true | _ => false end.

(** "Single-arg float8 math intrinsics". *)
Definition is_float_math (f : func_oid) : bool :=
  match f with
  | F_DSQRT | F_SQRT_FLOAT8 | F_CEIL_FLOAT8 | F_CEILING_FLOAT8 | F_FLOOR_FLOAT8
  | F_DEXP | F_EXP_FLOAT8 | F_DLOG1 | F_LN_FLOAT8 | F_SIN | F_COS => true
  | _ => false
  end.

Definition is_const (e : Expr) : bool := match e with Const _ _ _ _ => true | _ => false end.
Definition is_param_extern (e : Expr) : bool :=
  match e with Param PARAM_EXTERN _ _ => true | _ => false end.

Abbreviation class_is c k := (bool_decide (c = k)).

(** A function of one argument whose class is [c]. *)
Definition classify_func1 (f : func_oid) (arg : Expr) (c : ExprTypeClass) : ExprTypeClass :=
  match f with
  | F_INT4ABS => if class_is c EXPR_TYPE_INT4 then EXPR_TYPE_INT4 else EXPR_TYPE_UNKNOWN
  | F_INT8ABS => if class_is c EXPR_TYPE_INT8 then EXPR_TYPE_INT8 else EXPR_TYPE_UNKNOWN
  | F_FLOAT8ABS => if class_is c EXPR_TYPE_FLOAT8 then EXPR_TYPE_FLOAT8 else EXPR_TYPE_UNKNOWN
  | F_FLOAT8_INT4 | F_FLOAT8_INT2 =>
      if class_is c EXPR_TYPE_INT4 then EXPR_TYPE_FLOAT8 else EXPR_TYPE_UNKNOWN
  | F_FLOAT8_INT8 => if class_is c EXPR_TYPE_INT8 then EXPR_TYPE_FLOAT8 else EXPR_TYPE_UNKNOWN
  | F_FLOAT8_FLOAT4 => EXPR_TYPE_FLOAT8
  | F_FLOAT8_NUMERIC => if is_const arg then EXPR_TYPE_FLOAT8 else EXPR_TYPE_UNKNOWN
  | _ => if is_float_math f && class_is c EXPR_TYPE_FLOAT8 then EXPR_TYPE_FLOAT8 else EXPR_TYPE_UNKNOWN
  end.

(** AND, OR and NOT are not strict and stay out of tier 1. *)
Fixpoint uplpgsql_classify_expr (expr : Expr) : ExprTypeClass :=
  match expr with
  | Const t _ _ isnull => if isnull then EXPR_TYPE_UNKNOWN else type_class t
  | Param PARAM_EXTERN _ t => type_class t
  | Param _ _ _ => EXPR_TYPE_UNKNOWN
  | OpExpr f _ _ args =>
      match op_group_of f with
      | AllArgs a r =>
          if forallb (fun x => class_is (uplpgsql_classify_expr x) a) args then r else EXPR_TYPE_UNKNOWN
      | TwoArgs l r res =>
          match args with
          | [x; y] =>
              if class_is (uplpgsql_classify_expr x) l && class_is (uplpgsql_classify_expr y) r
              then res else EXPR_TYPE_UNKNOWN
          | _ => EXPR_TYPE_UNKNOWN
          end
      | NoOp => EXPR_TYPE_UNKNOWN
      end
  | FuncExpr f _ _ args =>
      match args with
      | [x; y] =>
          if is_pow f && class_is (uplpgsql_classify_expr x) EXPR_TYPE_FLOAT8
             && class_is (uplpgsql_classify_expr y) EXPR_TYPE_FLOAT8
          then EXPR_TYPE_FLOAT8 else EXPR_TYPE_UNKNOWN
      | [x] => classify_func1 f x (uplpgsql_classify_expr x)
      | _ => EXPR_TYPE_UNKNOWN
      end
  | RelabelType arg => uplpgsql_classify_expr arg
  | BoolExpr _ _ => EXPR_TYPE_UNKNOWN
  | SubscriptingRef restype refexpr [idx] [] None =>
      if is_param_extern refexpr && class_is (uplpgsql_classify_expr idx) EXPR_TYPE_INT4
      then type_class restype else EXPR_TYPE_UNKNOWN
  | SubscriptingRef _ _ _ _ _ => EXPR_TYPE_UNKNOWN
  | ArrayExpr _ | OtherExpr => EXPR_TYPE_UNKNOWN
  end.

(** ** Tier 2 *)
Section fmgr.
(** The OID behind a name, and the catalogue's [typbyval]. *)
Context (oid_of : func_oid -> Oid) (get_typbyval : Oid -> bool).

Definition FirstNormalObjectId : Z := 16384.

(** "Only allow Tier 2 for built-in functions." *)
Definition builtin (f : func_oid) : bool :=
  negb (oid_of f =? InvalidOid) && negb (oid_of f >=? FirstNormalObjectId).

Fixpoint uplpgsql_can_fmgr_compile (expr : Expr) : bool :=
  match expr with
  | Const _ _ _ _ => true
  | Param k _ _ => match k with PARAM_EXTERN => true | _ => false end
  | RelabelType arg => uplpgsql_can_fmgr_compile arg
  | OpExpr f _ _ args | FuncExpr f _ _ args => builtin f && forallb uplpgsql_can_fmgr_compile args
  | BoolExpr _ args => forallb uplpgsql_can_fmgr_compile args
  | _ => false
  end.

(** A function or operator in the tree returns a value by reference. *)
Definition returns_byref (t : Oid) : bool := negb (t =? InvalidOid) && negb (get_typbyval t).

Fixpoint fmgr_expr_allocates (expr : Expr) : bool :=
  match expr with
  | OpExpr _ t _ args | FuncExpr _ t _ args => returns_byref t || existsb fmgr_expr_allocates args
  | RelabelType arg => fmgr_expr_allocates arg
  | BoolExpr _ args => existsb fmgr_expr_allocates args
  | _ => false
  end.

(** [is_native n]: variable [n] is kept as a native array. *)
Fixpoint fmgr_expr_reads_native_array (is_native : nat -> bool) (expr : Expr) : bool :=
  match expr with
  | Param PARAM_EXTERN id _ => is_native (Z.to_nat (id - 1))
  | RelabelType arg => fmgr_expr_reads_native_array is_native arg
  | OpExpr _ _ _ args | FuncExpr _ _ _ args | BoolExpr _ args =>
      existsb (fmgr_expr_reads_native_array is_native) args
  | _ => false
  end.

Definition fmgr_expr_wants_alloc_scope (is_native : nat -> bool) (expr : Expr) : bool :=
  fmgr_expr_allocates expr && negb (fmgr_expr_reads_native_array is_native expr).
End fmgr.

(** ** From the prepared statement to the tree

    What [uplpgsql_prepare_and_get_expr] and [exec_is_simple_query] look at in a
    prepared query. *)
Record Query := mk_query {
  q_is_select : bool;
  q_rtable : bool; q_hasAggs : bool; q_hasWindowFuncs : bool; q_hasTargetSRFs : bool;
  q_hasSubLinks : bool; q_cteList : bool; q_fromlist : bool; q_quals : bool;
  q_groupClause : bool; q_groupingSets : bool; q_havingQual : bool; q_windowClause : bool;
  q_distinctClause : bool; q_sortClause : bool; q_limitOffset : bool; q_limitCount : bool;
  q_setOperations : bool;
  q_targetList : list Expr
}.

(** [sources] are the plan sources of the prepared expression, each with its list
    of queries; [None] when preparing it failed. *)
Definition uplpgsql_prepare_and_get_expr (sources : option (list (list Query))) : option Expr :=
  match sources with
  | Some [[q]] =>
      if negb (q_is_select q) || q_rtable q || q_hasAggs q || q_hasWindowFuncs q || q_hasTargetSRFs q
         || q_hasSubLinks q || q_cteList q || q_fromlist q || q_quals q || q_groupClause q
         || q_havingQual q
      then None
      else match q_targetList q with [e] => Some e | _ => None end
  | _ => None
  end.
