(* ===== verification/Cache.v ===== *)
(** * The compiled-function cache and the call handler's dispatch

    [core/upl_cache.c] keeps a backend-lifetime hash table from a function's
    OID to its compiled code, or to the decision not to compile it;
    [uplpgsql_call_handler] of [drivers/plpgsql/uplpgsql_handler.c] consults it
    on every call, compiles on a miss and then runs the compiled code or the
    interpreter.

    The hash table is a [gmap]; [None] is the uninitialised table pointer.
    What compiling yields (the LLVM-generated code) is a type of its own and
    the compiler, whose front end the emission files model, is the section
    variable [compile_function] here. *)

From Stdlib Require Import ZArith Lia.
From S2P Require Import Prelude Ast Heuristic.

(** [TransactionId], [ItemPointerData] and a pointer to the language's
    function struct: what the cache compares. *)
Definition TransactionId := Z.
Record ItemPointerData := mk_tid { ip_blkid : Z; ip_posid : Z }.
Definition Pointer := Z.

#[export] Instance ItemPointerData_eq_dec : EqDecision ItemPointerData.
Proof. solve_decision. Defined.

Section cache.
Context {Jit : Type}.

(** [UPL_func *jit_func]: NULL, the skip sentinel, or compiled code. *)
Inductive jit_ptr :=
  | JIT_NULL
  | UPL_SKIP_JIT
  | JIT_FUNC (f : Jit).

Record UPL_cache_entry := mk_entry {
  e_jit_func : jit_ptr;
  e_fn_xmin : TransactionId;
  e_fn_tid : ItemPointerData;
  e_lang_func : Pointer
}.

(** [upl_cache_htab]. *)
Definition cache := option (gmap Z UPL_cache_entry).

Definition upl_cache_init : cache := Some ∅.

Inductive cache_status := UPL_CACHE_MISS | UPL_CACHE_SKIP | UPL_CACHE_HIT (f : Jit).

(** The language driver's staleness callback. *)
Definition check_fn := Pointer -> Pointer -> bool.
Definition uplpgsql_cache_check : check_fn := Z.eqb.

(** The entry was made from another version of the function. *)
Definition stale (entry : UPL_cache_entry) (fn_xmin : TransactionId) (fn_tid : ItemPointerData)
    (current_lang_func : Pointer) (check : option check_fn) : bool :=
  negb (e_fn_xmin entry =? fn_xmin)%Z
  || negb (bool_decide (e_fn_tid entry = fn_tid))
  || match check with
     | Some check => negb (check (e_lang_func entry) current_lang_func)
     | None => false
     end.

Definition upl_cache_lookup (c : cache) (fn_oid : Oid) (fn_xmin : TransactionId)
    (fn_tid : ItemPointerData) (current_lang_func : Pointer) (check : option check_fn)
    : cache_status * cache :=
  match c with
  | None => (UPL_CACHE_MISS, c)
  | Some htab =>
      match htab !! fn_oid with
      | None => (UPL_CACHE_MISS, c)
      | Some entry =>
          if stale entry fn_xmin fn_tid current_lang_func check
          then (UPL_CACHE_MISS, Some (delete fn_oid htab))
          else
            match e_jit_func entry with
            | UPL_SKIP_JIT => (UPL_CACHE_SKIP, c)
            | JIT_NULL => (UPL_CACHE_MISS, c)
            | JIT_FUNC f => (UPL_CACHE_HIT f, c)
            end
      end
  end.

Definition upl_cache_store (c : cache) (fn_oid : Oid) (fn_xmin : TransactionId)
    (fn_tid : ItemPointerData) (lang_func : Pointer) (jitfunc : jit_ptr) : cache :=
  let htab := match c with Some htab => htab | None => ∅ end in
  Some (<[fn_oid := mk_entry jitfunc fn_xmin fn_tid lang_func]> htab).

Definition upl_cache_store_skip (c : cache) (fn_oid : Oid) (fn_xmin : TransactionId)
    (fn_tid : ItemPointerData) (lang_func : Pointer) : cache :=
  upl_cache_store c fn_oid fn_xmin fn_tid lang_func UPL_SKIP_JIT.

(** ** The handler *)

(** The function struct [uplpgsql_compile] hands the handler: its parse tree,
    the pg_proc row version it was parsed from and its address. *)
Record func_handle := mk_handle {
  fh_func : UPLpgSQL_function;
  fh_xmin : TransactionId;
  fh_tid : ItemPointerData;
  fh_ptr : Pointer
}.

Inductive call_kind := CALL_FUNCTION | CALL_TRIGGER | CALL_EVENT_TRIGGER.

(** What the handler ends up running: one of the five [uplpgsql_exec_*]. *)
Inductive exec_path :=
  | EXEC_FUNCTION_JIT (code : Jit) | EXEC_FUNCTION
  | EXEC_TRIGGER_JIT (code : Jit) | EXEC_TRIGGER
  | EXEC_EVENT_TRIGGER.

Definition path_of (k : call_kind) (jitfunc : option Jit) : exec_path :=
  match k, jitfunc with
  | CALL_TRIGGER, Some j => EXEC_TRIGGER_JIT j
  | CALL_TRIGGER, None => EXEC_TRIGGER
  | CALL_EVENT_TRIGGER, _ => EXEC_EVENT_TRIGGER
  | CALL_FUNCTION, Some j => EXEC_FUNCTION_JIT j
  | CALL_FUNCTION, None => EXEC_FUNCTION
  end.

Definition code_of (p : exec_path) : option Jit :=
  match p with EXEC_FUNCTION_JIT j | EXEC_TRIGGER_JIT j => Some j | _ => None end.

Section handler.
Context (compile_function : UPLpgSQL_function -> result Jit).

(** The lookup/heuristic/compile part of [uplpgsql_call_handler]: the compiled
    function to use, if any, and the cache afterwards.  A compile error is
    caught, the subtransaction rolled back and the cache left alone. *)
Definition select_jitfunc (enable_jit_heuristic : bool) (c : cache) (fh : func_handle)
    : option Jit * cache :=
  let func := fh_func fh in
  let '(status, c) := upl_cache_lookup c (fn_oid func) (fh_xmin fh) (fh_tid fh) (fh_ptr fh)
                        (Some uplpgsql_cache_check) in
  match status with
  | UPL_CACHE_MISS =>
      if negb enable_jit_heuristic || should_jit func then
        match compile_function func with
        | Success jitfunc =>
            (Some jitfunc,
             upl_cache_store c (fn_oid func) (fh_xmin fh) (fh_tid fh) (fh_ptr fh)
               (JIT_FUNC jitfunc))
        | Failure _ => (None, c)
        end
      else
        (None, upl_cache_store_skip c (fn_oid func) (fh_xmin fh) (fh_tid fh) (fh_ptr fh))
  | UPL_CACHE_SKIP => (None, c)
  | UPL_CACHE_HIT f => (Some f, c)
  end.

Definition call_handler (enable_jit_heuristic : bool) (c : cache) (k : call_kind)
    (fh : func_handle) : exec_path * cache :=
  match k with
  | CALL_EVENT_TRIGGER => (path_of k None, c)
  | _ =>
      let '(jitfunc, c) := select_jitfunc enable_jit_heuristic c fh in
      (path_of k jitfunc, c)
  end.

(** One call after another in the same backend; the GUC may change between
    calls. *)
Inductive reaches : cache -> list func_handle -> cache -> Prop :=
  | reaches_nil c : reaches c [] c
  | reaches_call c guc k fh p c' fhs c'' :
      call_handler guc c k fh = (p, c') -> reaches c' fhs c'' -> reaches c (fh :: fhs) c''.
End handler.
End cache.
Arguments jit_ptr : clear implicits.
Arguments UPL_cache_entry : clear implicits.
Arguments cache : clear implicits.
Arguments exec_path : clear implicits.
Arguments cache_status : clear implicits.

(** ** Abstract view

    What a caller may rely on: the decision recorded for the current version
    of a function, [None] when there is none. *)
Section cache_spec.
Context {Jit : Type}.
Implicit Types (c : cache Jit) (fh : func_handle).

Definition decision (c : cache Jit) (fh : func_handle) : option (jit_ptr Jit) :=
  htab ← c;
  entry ← htab !! fn_oid (fh_func fh);
  if stale entry (fh_xmin fh) (fh_tid fh) (fh_ptr fh) (Some uplpgsql_cache_check)
  then None else Some (e_jit_func entry).

Lemma stale_false entry xmin tid ptr :
  stale (Jit := Jit) entry xmin tid ptr (Some uplpgsql_cache_check) = false <->
  e_fn_xmin entry = xmin /\ e_fn_tid entry = tid /\ e_lang_func entry = ptr.
Proof.
  unfold stale, uplpgsql_cache_check.
  rewrite !orb_false_iff, !negb_false_iff, !Z.eqb_eq, bool_decide_eq_true. tauto.
Qed.

Definition same_version (fh1 fh2 : func_handle) : Prop :=
  fn_oid (fh_func fh1) = fn_oid (fh_func fh2) /\ fh_xmin fh1 = fh_xmin fh2
  /\ fh_tid fh1 = fh_tid fh2 /\ fh_ptr fh1 = fh_ptr fh2.

Lemma lookup_decision c fh :
  (upl_cache_lookup c (fn_oid (fh_func fh)) (fh_xmin fh) (fh_tid fh) (fh_ptr fh)
     (Some uplpgsql_cache_check)).1 =
  match decision c fh with
  | Some UPL_SKIP_JIT => UPL_CACHE_SKIP
  | Some (JIT_FUNC f) => UPL_CACHE_HIT f
  | _ => UPL_CACHE_MISS
  end.
Proof.
  unfold upl_cache_lookup, decision. destruct c as [htab|]; simpl; [|done].
  destruct (htab !! fn_oid (fh_func fh)) as [e|]; simpl; [|done].
  destruct (stale e _ _ _ _); simpl; [done|]. by destruct (e_jit_func e).
Qed.

(** A lookup changes no decision: it only drops entries that were already
    stale for the function asked about. *)
Lemma lookup_keeps c fh c' s :
  upl_cache_lookup c (fn_oid (fh_func fh)) (fh_xmin fh) (fh_tid fh) (fh_ptr fh)
    (Some uplpgsql_cache_check) = (s, c') ->
  c' = c \/ (decision c fh = None /\ exists htab, c = Some htab
             /\ c' = Some (delete (fn_oid (fh_func fh)) htab)).
Proof.
  unfold upl_cache_lookup, decision. destruct c as [htab|]; simpl; [|naive_solver].
  destruct (htab !! fn_oid (fh_func fh)) as [e|]; simpl; [|naive_solver].
  destruct (stale e _ _ _ _); simpl; [|destruct (e_jit_func e); naive_solver].
  intros [= <- <-]. right. eauto.
Qed.

Lemma decision_store c fh fh' j :
  decision (upl_cache_store c (fn_oid (fh_func fh)) (fh_xmin fh) (fh_tid fh) (fh_ptr fh) j) fh' =
  if decide (fn_oid (fh_func fh) = fn_oid (fh_func fh'))
  then if decide (fh_xmin fh = fh_xmin fh' /\ fh_tid fh = fh_tid fh' /\ fh_ptr fh = fh_ptr fh')
       then Some j else None
  else decision c fh'.
Proof.
  unfold decision, upl_cache_store. simpl. case_decide as Ho.
  - rewrite <- Ho, lookup_insert_eq. simpl.
    destruct (stale _ _ _ _ _) eqn:Es; case_decide as Hd; try done.
    + rewrite (proj2 (stale_false _ _ _ _)) in Es; done.
    + by apply stale_false in Es.
  - rewrite lookup_insert_ne by done. by destruct c.
Qed.

(** ** Coherence

    Every compiled entry was produced from the function version it is filed
    under. *)
Section coherence.
Context (compile_function : UPLpgSQL_function -> result Jit).

(** The function handles the backend sees, and PostgreSQL's guarantee about
    them: a parse tree at one address, parsed from one version of one pg_proc
    row, does not change. *)
Context (seen : func_handle -> Prop).
Context (version_determines_func :
  forall fh1 fh2, seen fh1 -> seen fh2 -> same_version fh1 fh2 -> fh_func fh1 = fh_func fh2).

Definition coherent (c : cache Jit) : Prop :=
  forall fh code, seen fh -> decision c fh = Some (JIT_FUNC code) ->
    compile_function (fh_func fh) = Success code.

Lemma coherent_init : coherent upl_cache_init.
Proof. intros fh code _. unfold decision. simpl. by rewrite lookup_empty. Qed.

Lemma coherent_store c fh j :
  seen fh -> coherent c ->
  (forall code, j = JIT_FUNC code -> compile_function (fh_func fh) = Success code) ->
  coherent (upl_cache_store c (fn_oid (fh_func fh)) (fh_xmin fh) (fh_tid fh) (fh_ptr fh) j).
Proof.
  intros Hs Hc Hj fh' code Hs'. rewrite decision_store.
  case_decide as Ho; [|by apply Hc]. case_decide as Hv; [|done]. intros [= ->].
  rewrite <- (version_determines_func fh fh'); [auto..|]. unfold same_version. tauto.
Qed.

Lemma coherent_lookup c fh s c' :
  coherent c ->
  upl_cache_lookup c (fn_oid (fh_func fh)) (fh_xmin fh) (fh_tid fh) (fh_ptr fh)
    (Some uplpgsql_cache_check) = (s, c') ->
  coherent c'.
Proof.
  intros Hc [->|(_ & htab & -> & ->)]%lookup_keeps; [done|].
  intros fh' code Hs Hd. apply (Hc fh' code Hs). unfold decision in *. simpl in *.
  destruct (decide (fn_oid (fh_func fh) = fn_oid (fh_func fh'))) as [E|E].
  - rewrite E, lookup_delete_eq in Hd. done.
  - by rewrite lookup_delete_ne in Hd by done.
Qed.

Lemma select_coherent guc c fh :
  seen fh -> coherent c ->
  coherent (select_jitfunc compile_function guc c fh).2
  /\ (forall code, (select_jitfunc compile_function guc c fh).1 = Some code ->
                   compile_function (fh_func fh) = Success code).
Proof.
  intros Hs Hc. unfold select_jitfunc.
  pose proof (lookup_decision c fh) as Hl. pose proof (coherent_lookup c fh) as Hk.
  destruct (upl_cache_lookup _ _ _ _ _ _) as [s c1]. simpl in Hl.
  specialize (Hk s c1 Hc eq_refl). destruct s as [| |f]; simpl.
  - destruct (negb guc || should_jit (fh_func fh)); simpl.
    + destruct (compile_function (fh_func fh)) as [j|msg] eqn:Ej; simpl; [|done].
      split; [|naive_solver]. apply coherent_store; naive_solver.
    + split; [|done]. by apply coherent_store.
  - done.
  - split; [done|]. intros code [= <-]. apply (Hc fh f Hs).
    by destruct (decision c fh) as [[]|]; simplify_eq.
Qed.

Lemma call_coherent guc c k fh p c' :
  seen fh -> coherent c -> call_handler compile_function guc c k fh = (p, c') ->
  coherent c' /\ (forall code, code_of p = Some code -> compile_function (fh_func fh) = Success code).
Proof.
  intros Hs Hc H. pose proof (select_coherent guc c fh Hs Hc) as [Hc' Hj].
  destruct k; simpl in H.
  1,2: destruct (select_jitfunc _ _ _ _) as [[j|] c1]; injection H as <- <-; simpl in *;
       (split; [done|naive_solver]).
  injection H as <- <-. split; [done|]. simpl. done.
Qed.

Lemma reaches_coherent c fhs c' :
  Forall seen fhs -> coherent c -> reaches compile_function c fhs c' -> coherent c'.
Proof.
  intros Hs Hc H. induction H as [c|c guc k fh p c1 fhs c2 Hcall _ IH]; [done|].
  apply list.Forall_cons in Hs as [Hs Hss]. apply IH; [done|].
  by apply (call_coherent guc c k fh p c1).
Qed.
End coherence.
End cache_spec.

(** ** Decisions persist *)
Section persistence.
Context {Jit : Type} (compile_function : UPLpgSQL_function -> result Jit).
Implicit Types (c : cache Jit) (fh : func_handle).

Lemma decision_same_version c fh fh' d :
  same_version fh fh' -> decision c fh = d -> decision c fh' = d.
Proof. intros (Ho & Hx & Ht & Hp) <-. unfold decision. by rewrite Ho, Hx, Ht, Hp. Qed.

Lemma lookup_decided c fh code :
  decision c fh = Some (JIT_FUNC code) ->
  upl_cache_lookup c (fn_oid (fh_func fh)) (fh_xmin fh) (fh_tid fh) (fh_ptr fh)
    (Some uplpgsql_cache_check) = (UPL_CACHE_HIT code, c).
Proof.
  intros Hd. pose proof (lookup_decision c fh) as Hs. pose proof (lookup_keeps c fh) as Hk.
  destruct (upl_cache_lookup _ _ _ _ _ _) as [s c']. simpl in Hs. rewrite Hd in Hs. subst.
  destruct (Hk c' _ eq_refl) as [->|[Hn _]]; congruence.
Qed.

Lemma call_decided guc c k fh code :
  decision c fh = Some (JIT_FUNC code) -> k <> CALL_EVENT_TRIGGER ->
  call_handler compile_function guc c k fh = (path_of k (Some code), c).
Proof.
  intros Hd Hk. unfold call_handler, select_jitfunc. rewrite (lookup_decided _ _ _ Hd).
  by destruct k.
Qed.

Lemma call_decides guc c k fh p c' code :
  call_handler compile_function guc c k fh = (p, c') -> code_of p = Some code ->
  decision c' fh = Some (JIT_FUNC code).
Proof.
  unfold call_handler, select_jitfunc. intros H Hcode.
  destruct k; [| |injection H as <- <-; discriminate].
  all: pose proof (lookup_decision c fh) as Hs; pose proof (lookup_keeps c fh) as Hk;
    destruct (upl_cache_lookup _ _ _ _ _ _) as [s c1]; simpl in Hs;
    specialize (Hk c1 s eq_refl);
    destruct s; [destruct (negb guc || _); [destruct (compile_function _)|]| |];
    injection H as <- <-; simpl in Hcode; try discriminate; injection Hcode as <-.
  1,3: rewrite decision_store; rewrite !decide_True by done; done.
  all: destruct Hk as [->|[Hn _]]; [|rewrite Hn in Hs; discriminate];
    destruct (decision c fh) as [[]|]; congruence.
Qed.

(** Calls for another OID do not change a function's decision. *)
Lemma call_other guc c k fh p c' fh' :
  call_handler compile_function guc c k fh = (p, c') ->
  fn_oid (fh_func fh) <> fn_oid (fh_func fh') -> decision c' fh' = decision c fh'.
Proof.
  unfold call_handler, select_jitfunc. intros H Ho.
  destruct k; [| |injection H as <- <-; done].
  all: pose proof (lookup_keeps c fh) as Hk;
    destruct (upl_cache_lookup _ _ _ _ _ _) as [s c1]; specialize (Hk c1 s eq_refl);
    assert (Hc1 : decision c1 fh' = decision c fh')
      by (destruct Hk as [->|(_ & htab & -> & ->)]; [done|];
          unfold decision; simpl; by rewrite lookup_delete_ne);
    rewrite <- Hc1; clear Hk Hc1;
    destruct s; [destruct (negb guc || _); [destruct (compile_function _)|]| |];
    injection H as <- <-; try done;
    unfold upl_cache_store_skip; rewrite decision_store; by rewrite decide_False.
Qed.

Lemma decision_kept c fhs c' fh d :
  reaches compile_function c fhs c' ->
  Forall (fun fh2 => fn_oid (fh_func fh2) <> fn_oid (fh_func fh)) fhs ->
  decision c fh = d -> decision c' fh = d.
Proof.
  intros H. induction H as [c|c guc k fh1 p c1 fhs c2 Hcall _ IH]; intros Ho Hd; [done|].
  apply list.Forall_cons in Ho as [Ho Hos]. apply IH; [done|]. rewrite <- Hd.
  by apply (call_other guc c k fh1 p).
Qed.
End persistence.

(** ** Properties *)

(** C6: the handler never runs stale code.  Take any sequence of calls in one
    backend, starting from the cache [_PG_init] creates, with the heuristic
    switched on and off at will between calls.  If the next call runs compiled
    code, that code is what compiling that call's own function yields, however
    many times the function was replaced in between. *)
Theorem handler_runs_own_code {Jit} (compile_function : UPLpgSQL_function -> result Jit)
    (seen : func_handle -> Prop) fhs c guc k fh p c' code
    (version_determines_func : forall fh1 fh2,
       seen fh1 -> seen fh2 -> same_version fh1 fh2 -> fh_func fh1 = fh_func fh2)
    (Hseen : Forall seen (fhs ++ [fh]))
    (Hreach : reaches compile_function upl_cache_init fhs c)
    (Hcall : call_handler compile_function guc c k fh = (p, c'))
    (Hcode : code_of p = Some code) :
  compile_function (fh_func fh) = Success code.
Proof.
  apply Forall_app in Hseen as [H1 H2]. apply list.Forall_cons in H2 as [H2 _].
  assert (Hc : coherent compile_function seen c).
  { by apply (reaches_coherent compile_function seen version_determines_func upl_cache_init fhs);
      [|apply coherent_init|]. }
  apply (call_coherent compile_function seen version_determines_func guc c k fh p c' H2 Hc Hcall).
  done.
Qed.

(** C25: a compiled function is found again, for as long as nothing else is
    filed under its OID: after a call that compiled [fh], any calls for other
    OIDs leave a state in which the next call for the same version of [fh]
    runs the same code and changes nothing. *)
Theorem compiled_once {Jit} (compile_function : UPLpgSQL_function -> result Jit)
    guc c k fh p c1 others c2 guc' k' fh' code
    (Hcall : call_handler compile_function guc c k fh = (p, c1))
    (Hcode : code_of p = Some code)
    (Hothers : reaches compile_function c1 others c2)
    (Hoid : Forall (fun fh2 => fn_oid (fh_func fh2) <> fn_oid (fh_func fh)) others)
    (Hsame : same_version fh fh') (Hk : k' <> CALL_EVENT_TRIGGER) :
  call_handler compile_function guc' c2 k' fh' = (path_of k' (Some code), c2).
Proof.
  assert (Hd : decision c2 fh' = Some (JIT_FUNC code)).
  { apply (decision_kept compile_function c1 others c2 fh' _ Hothers).
    - eapply Forall_impl; [|exact Hoid]. intros x Hx. destruct Hsame as (<- & _). done.
    - apply (decision_same_version _ fh); [done|].
      by apply (call_decides compile_function guc c k fh p). }
  by apply call_decided.
Qed.

(** ** A concrete backend: two versions of one function *)
Module CacheExamples.

(** The compiled code is the name of the function it came from. *)
Definition compile_name (f : UPLpgSQL_function) : result string := Success (fn_signature f).
Definition fn (sig : string) : UPLpgSQL_function :=
  scalar_function 42 sig INT4OID false [] 0 [] (mk_block None [] [] None None).
Definition v1 : func_handle := mk_handle (fn "v1") 100 (mk_tid 0 1) 4096.
Definition v2 : func_handle := mk_handle (fn "v2") 101 (mk_tid 0 2) 4096.
Definition seen_versions (fh : func_handle) : Prop := fh = v1 \/ fh = v2.

Definition after_v1 : cache string := (call_handler compile_name false upl_cache_init CALL_FUNCTION v1).2.

Lemma handler_runs_own_code_witness :
  call_handler compile_name false after_v1 CALL_FUNCTION v2
    = (EXEC_FUNCTION_JIT "v2", Some {[42%Z := mk_entry (JIT_FUNC "v2") 101 (mk_tid 0 2) 4096]})
  /\ compile_name (fh_func v2) = Success "v2".
Proof.
  split; [vm_compute; reflexivity|].
  eapply (handler_runs_own_code compile_name seen_versions [v1] after_v1 false CALL_FUNCTION v2).
  - intros ? ? [->| ->] [->| ->] (_ & H & _); vm_compute in H; first [reflexivity|discriminate].
  - apply Forall_cons_2; [by left|]. apply Forall_cons_2; [by right|]. constructor.
  - apply (reaches_call compile_name _ false CALL_FUNCTION v1 (EXEC_FUNCTION_JIT "v1") after_v1);
      [reflexivity|constructor].
  - vm_compute. reflexivity.
  - reflexivity.
Defined.

Lemma compiled_once_witness :
  call_handler compile_name true after_v1 CALL_FUNCTION v1 = (EXEC_FUNCTION_JIT "v1", after_v1).
Proof.
  apply (compiled_once compile_name false upl_cache_init CALL_FUNCTION v1
           (EXEC_FUNCTION_JIT "v1") after_v1 [] after_v1 true CALL_FUNCTION v1 "v1").
  - reflexivity.
  - reflexivity.
  - constructor.
  - constructor.
  - repeat split.
  - discriminate.
Defined.
End CacheExamples.
