(* ===== verification/Float.v ===== *)
(** * Doubles

    LLVM's [double] is IEEE 754 binary64.  The Standard Library's [SpecFloat] gives
    its values and correctly rounded operations; this file adds the 64-bit encoding
    in which a float8 is kept in a Datum, and the order in which PostgreSQL compares
    float8 values (NaN equal to itself and above everything else). *)

From Stdlib Require Import ZArith Lia SpecFloat.
From S2P Require Import Prelude.
#[local] Open Scope Z_scope.

Definition double := spec_float.
Definition prec : Z := 53.
Definition emax : Z := 1024.

Definition fadd : double -> double -> double := SFadd prec emax.
Definition fsub : double -> double -> double := SFsub prec emax.
Definition fmul : double -> double -> double := SFmul prec emax.
Definition fdiv : double -> double -> double := SFdiv prec emax.
Definition double_of_int (z : Z) : double := binary_normalize prec emax z 0 false.
Definition double_zero : double := S754_zero false.
Definition double_infinity (negative : bool) : double := S754_infinity negative.

Definition is_nan (d : double) : bool := match d with S754_nan => true | _ => false end.
Definition is_inf (d : double) : bool := match d with S754_infinity _ => true | _ => false end.
Definition is_zero (d : double) : bool := match d with S754_zero _ => true | _ => false end.

(** ** The encoding

    Datums are signed words. *)
Definition double_of_bits (b : Z) : double :=
  let s := Z.testbit b 63 in
  let e := Z.land (Z.shiftr b 52) 2047 in
  let m := Z.land b (Z.ones 52) in
  if e =? 2047 then (if m =? 0 then S754_infinity s else S754_nan)
  else
    match (if e =? 0 then m else m + 2 ^ 52) with
    | Zpos p => S754_finite s p (if e =? 0 then -1074 else e - 1075)
    | _ => S754_zero s
    end.

Definition bits_of_double (d : double) : Z :=
  let word (s : bool) e m := wrap64 ((if s then 2 ^ 63 else 0) + e * 2 ^ 52 + m) in
  match d with
  | S754_zero s => word s 0 0
  | S754_infinity s => word s 2047 0
  | S754_nan => word false 2047 (2 ^ 51)
  | S754_finite s m e =>
      if Z.pos m <? 2 ^ 52 then word s 0 (Z.pos m) else word s (e + 1075) (Z.pos m - 2 ^ 52)
  end.

(** ** Comparisons

    What LLVM's predicates say: the ordered ones are false, and [UNO] is true, if an
    operand is NaN. *)
Definition fcmp_oeq (a b : double) : bool := SFeqb a b.
Definition fcmp_olt (a b : double) : bool := SFltb a b.
Definition fcmp_ole (a b : double) : bool := SFleb a b.
Definition fcmp_uno (a b : double) : bool := is_nan a || is_nan b.
Definition fcmp_one (a b : double) : bool := negb (fcmp_uno a b) && negb (fcmp_oeq a b).
