(* ===== verification/IR.v ===== *)
(** * The intermediate code the compiler builds, and its builder

    The compiler drives LLVM's builder through [LLVMBuild*],
    [LLVMAppendBasicBlock] and [LLVMPositionBuilderAtEnd].  LLVM is not part of
    the program; what the program decides is which instructions go into which
    block, and that is what this file represents: a function under
    construction is a list of blocks, each a list of instructions in the order
    they were appended, with the builder's current block.

    - A basic block is its creation index; [code] maps it to its instructions.
    - An SSA value is a register number; an [alloca] is a slot number.
    - A terminator ([br], [switch], [ret], [unreachable]) is an instruction like
      the others: that every block ends in exactly one is a theorem about the
      compiler (file Wellformed), not a convention of the model.
    - [LLVMAddCase] adds cases to a [switch] that is already in place, so the
      cases of a switch are kept beside the code, under the switch's number.
    - Allocas that [upl_emit_fori] inserts at the top of the entry block are
      kept in [entry_allocas].
    - A [getelementptr] chain with its loads that reads one field of the
      execution state is one instruction ([ILoadPlstate], [ILoadDatumPtr],
      [ILoadVarDatum], [ILoadVarIsnull], [IStoreErrStmt]), and so are the three
      stores into a variable's value, [isnull] and [freeval] ([IStoreVar]) and the
      accesses to expanded records and flat arrays: an element of a type at an index
      ([ILoadElem], [IStoreElem]) or at a byte offset ([IStoreAt]), a null flag.
    - [IArrayAlloca] is an [alloca] of a number of bytes known when it runs.
    - A call of a PostgreSQL function through its C address, with the stores that
      fill in its arguments' values and null flags and the load of the result's, is
      [ICallFmgr]. *)

From Stdlib Require Import ZArith Lia SpecFloat.
From S2P Require Import Prelude Ast Escape Expr.

(** ** Callees *)

(** [UPLpgSQL_rt_func] of [common/upl_common.h]. *)
Inductive UPLpgSQL_rt_func :=
  | RT_EVAL_EXPR | RT_EVAL_BOOL | RT_EVAL_INT | RT_INIT_VAR | RT_ASSIGN_EXPR | RT_SET_FOUND
  | RT_ASSIGN_INT | RT_EXEC_RETURN | RT_EXEC_PERFORM | RT_EXEC_SQL | RT_EXEC_DYNEXECUTE
  | RT_EXEC_CALL | RT_EXEC_RAISE | RT_EXEC_ASSERT | RT_EXEC_BLOCK_PROTECTED | RT_EXEC_OPEN
  | RT_EXEC_FETCH | RT_EXEC_CLOSE | RT_EXEC_RETURN_NEXT | RT_EXEC_RETURN_QUERY
  | RT_EXEC_FOR_QUERY | RT_EXEC_COMMIT | RT_EXEC_ROLLBACK | RT_EXEC_GETDIAG | RT_ASSIGN_NULL
  | RT_CASE_ERROR | RT_EXEC_ASSERT_FAIL | RT_OPEN_QUERY_CURSOR | RT_FETCH_CURSOR_ROW
  | RT_CLOSE_PORTAL | RT_OPEN_FORC_CURSOR | RT_CLOSE_FORC_CURSOR | RT_EXEC_FOREACH_A
  | RT_OPEN_DYNFORS_CURSOR | RT_EXCEPTION_PUSH_FRAME | RT_EXCEPTION_ARM
  | RT_EXCEPTION_TRY_EXIT | RT_EXCEPTION_CATCH | RT_EXCEPTION_SET_HANDLER_VARS
  | RT_EXCEPTION_HANDLER_DONE | RT_EXCEPTION_RETHROW | RT_ASSIGN_VAR_DATUM
  | RT_COPY_ASSIGN_VAR_DATUM | RT_ALLOC_SCOPE_ENTER | RT_ALLOC_SCOPE_EXIT
  | RT_COPY_ASSIGN_VAR_DATUM_SCOPED | RT_GET_RECFIELD | RT_GET_RECFIELD_FAST
  | RT_ARRAY_GET_ELEMENT | RT_ARRAY_SET_ELEMENT | RT_NATIVE_ARRAY_ALLOC
  | RT_NATIVE_ARRAY_BOUNDS_CHECK | RT_FREE_VAR_DATUM | RT_NATIVE_ARRAY_FROM_DATUM
  | RT_NATIVE_ARRAY_TO_DATUM | RT_NATIVE_ARRAY_RESERVE | RT_NATIVE_ARRAY_RELEASE.

#[export] Instance rt_func_eq_dec : EqDecision UPLpgSQL_rt_func.
Proof. solve_decision. Defined.

(** The interpreter functions the generated code calls by address. *)
Inductive exec_fn :=
  | FN_exec_stmt_perform | FN_exec_stmt_execsql | FN_exec_stmt_raise | FN_exec_stmt_open
  | FN_exec_stmt_fetch | FN_exec_stmt_close | FN_exec_stmt_dynexecute
  | FN_exec_stmt_foreach_a | FN_exec_stmt_return_next | FN_exec_stmt_return_query
  | FN_exec_stmt_call | FN_exec_stmt_getdiag | FN_exec_stmt_commit | FN_exec_stmt_rollback
  | FN_exec_assign_expr | FN_exec_set_found | FN_rt_case_assign_test.

(** The functions without result that raise an error and do not return: the three
    of [upl_compile_expr.c], and PostgreSQL's own for floats. *)
Inductive err_fn :=
  | ERR_rt_int_overflow | ERR_rt_div_zero | ERR_rt_array_subscript_null
  | ERR_float_overflow_error | ERR_float_underflow_error | ERR_float_zero_divide_error.

Inductive callee :=
  | RT (f : UPLpgSQL_rt_func)
  | DIRECT (f : exec_fn)
  | ERROR (f : err_fn).

(** ** Values and instructions *)

(** What a register, a slot or an argument can hold: an integer (i1, i8, i32 or
    a Datum word, the last two signed), a double, the two state pointers, a
    parse-tree pointer embedded by [upl_const_ptr], the address of a datum, of a slot
    or of a block of memory, or NULL. *)
Inductive value :=
  | VInt (z : Z)
  | VDouble (d : spec_float)
  | VEstate
  | VPlstate
  | VExpr (e : UPLpgSQL_expr)
  | VStmt (s : UPLpgSQL_stmt)
  | VBlock (b : UPLpgSQL_stmt_block UPLpgSQL_stmt)
  | VDatum (dno : nat)
  | VSlot (slot : nat)
  | VBuf (b : nat)
  | VNull.

Inductive operand :=
  | OReg (r : nat)
  | OConst (v : value).

Inductive icmp_pred := EQ | NE | SLT | SLE | SGT | SGE.
Inductive fcmp_pred := UNO | OEQ | ONE | OLT | OLE | OGT | OGE.
Inductive int_width := I32 | I64.
Inductive arith_op := ADD | SUB | MUL.
Inductive math_fn := SQRT | CEIL | FLOOR | EXP | LOG | SIN | COS | POW.

(** Instructions that only compute a value from their operands.  The two results of
    an overflow intrinsic are taken by [OpArith] (the wrapped value) and [OpOverflow]
    (the flag).  [OpMove] is what becomes of a [phi]: every incoming edge assigns the
    incoming value to the phi's register just before it branches. *)
Inductive llvm_op :=
  | OpMove | OpSelect
  | OpTrunc32 | OpTrunc1 | OpSExt | OpZExt
  | OpICmp (p : icmp_pred)
  | OpArith (op : arith_op) (w : int_width) | OpOverflow (op : arith_op) (w : int_width)
  | OpSDiv (w : int_width) | OpSRem (w : int_width) | OpNeg (w : int_width)
  | OpAnd | OpOr | OpNot
  | OpBitsToDouble | OpDoubleToBits | OpSIToFP | OpFPExt
  | OpFAdd | OpFSub | OpFMul | OpFDiv | OpFNeg
  | OpFCmp (p : fcmp_pred)
  | OpMath (f : math_fn)
  | OpIsNotNull.

Inductive instr :=
  | ICall (dst : option nat) (f : callee) (args : list operand)
  | ISigsetjmp (dst : nat) (frame : operand)
  | IAlloca (slot : nat)
  | IStore (v : operand) (slot : nat)
  | ILoad (dst : nat) (slot : nat)
  | IICmp (dst : nat) (p : icmp_pred) (a b : operand)
  | IAdd (dst : nat) (a b : operand)
  | ISub (dst : nat) (a b : operand)
  | IZExt (dst : nat) (a : operand)
  | IStoreErrStmt (s : UPLpgSQL_stmt)
  | ILoadPlstate (dst : nat)
  | ILoadDatumPtr (dst : nat) (dno : nat)
  | ILoadVarDatum (dst : nat) (dno : nat)
  | ILoadVarIsnull (dst : nat) (dno : nat)
  | IStoreVar (dno : nat) (datum null : operand)
  | ILoadErh (dst : nat) (recno : nat)
  | ILoadErhDvaluesValid (dst : nat) (erh : operand)
  | ILoadDvalue (dst : nat) (erh : operand) (field : nat)
  | ILoadNullFlag (dst : nat) (nulls idx : operand)
  | ILoadElem (dst : nat) (ty : Oid) (data idx : operand)
  | IStoreElem (ty : Oid) (v data idx : operand)
  | IStoreAt (ty : Oid) (v data off : operand)
  | IStoreNullFlag (v nulls idx : operand)
  | IArrayAlloca (dst : nat) (bytes : operand)
  | IMemSetZero (ptr bytes : operand)
  | IOp (dst : nat) (op : llvm_op) (args : list operand)
  | ICallFmgr (dst dst_null : nat) (f : func_oid) (collation : Oid) (args : list (operand * operand))
  | IBr (target : nat)
  | ICondBr (c : operand) (t e : nat)
  | ISwitch (v : operand) (default : nat) (switch : nat)
  | IRet (v : operand)
  | IUnreachable.

Definition is_terminator (i : instr) : bool :=
  match i with IBr _ | ICondBr _ _ _ | ISwitch _ _ _ | IRet _ | IUnreachable => true | _ => false end.

(** ** The builder *)
Record builder := mk_builder {
  block_names : list string;
  block_code : gmap nat (list instr);
  cur : nat;
  next_reg : nat;
  next_slot : nat;
  entry_allocas : list nat;
  switches : list (list nat);
  has_exceptions : bool;
  defer_cond_plan : bool
}.

(** [UPL_loop_info] and [UPL_cleanup_info]; the linked stacks are lists. *)
Record UPL_loop_info := mk_loop_info {
  li_label : option string;
  li_is_loop : bool;
  li_continue_bb : option nat;
  li_exit_bb : nat;
  li_cleanup_depth : nat
}.

Record UPL_cleanup_info := mk_cleanup_info {
  unwind_rt_fn : UPLpgSQL_rt_func;
  cl_args : list operand
}.
Definition UPL_CLEANUP_MAX_ARGS : nat := 2.

(** The slots [uplpgsql_setup_entry] allocates for one native array. *)
Record native_slots := mk_native_slots {
  ns_array : UPLpgSQL_native_array;
  data_ptr : nat;
  len_ptr : nat;
  lb_ptr : nat;
  nulls_ptr : nat;
  cap_ptr : nat;
  is_heap_ptr : nat
}.

(** The part of [UPL_compile_ctx] that statement compilation reads and
    temporarily changes.  [record_shapes] are the record variables that have a temporary
    expanded record ([rec->erh] while a function is compiled), with its columns. *)
Record cenv := mk_cenv {
  return_bb : nat;
  rc_ptr : nat;
  plstate : nat;
  loop_stack : list UPL_loop_info;
  cleanup_stack : list UPL_cleanup_info;
  cleanup_depth : nat;
  native_arrays : list native_slots;
  record_shapes : list (nat * TupleDesc)
}.

Record UPL_compile_ctx := mk_ctx { bld : builder; env : cenv }.

(** ** The emission monad *)
Definition emit (A : Type) : Type := UPL_compile_ctx -> result (A * UPL_compile_ctx).

Definition ret {A} (a : A) : emit A := fun c => Success (a, c).
Definition bind {A B} (m : emit A) (k : A -> emit B) : emit B :=
  fun c => match m c with
           | Success (a, c') => k a c'
           | Failure e => Failure e
           end.
Definition elog_error {A} (msg : string) : emit A := fun _ => Failure msg.

Declare Scope emit_scope.
Delimit Scope emit_scope with emit.
Bind Scope emit_scope with emit.
Notation "x <-- m ; k" := (bind m (fun x => k))
  (at level 80, m at next level, right associativity) : emit_scope.
Notation "m ;;; k" := (bind m (fun _ => k)) (at level 80, right associativity) : emit_scope.

Definition set_bld (f : builder -> builder) : emit unit :=
  fun c => Success (tt, mk_ctx (f (bld c)) (env c)).
Definition set_env (f : cenv -> cenv) : emit unit :=
  fun c => Success (tt, mk_ctx (bld c) (f (env c))).
Definition get_env : emit cenv := fun c => Success (env c, c).

(** ** Builder operations *)

Definition code_of (b : builder) (n : nat) : list instr := default [] (block_code b !! n).

(** [upl_append_block]: a new, empty block; the builder does not move. *)
Definition append_block (name : string) : emit nat :=
  fun c =>
    let b := bld c in
    Success (length (block_names b),
             mk_ctx (mk_builder (block_names b ++ [name]) (block_code b) (cur b) (next_reg b)
                       (next_slot b) (entry_allocas b) (switches b) (has_exceptions b) (defer_cond_plan b)) (env c)).

(** [LLVMPositionBuilderAtEnd]. *)
Definition position (n : nat) : emit unit :=
  set_bld (fun b => mk_builder (block_names b) (block_code b) n (next_reg b) (next_slot b)
                      (entry_allocas b) (switches b) (has_exceptions b) (defer_cond_plan b)).

(** Append an instruction to the current block. *)
Definition build (i : instr) : emit unit :=
  set_bld (fun b => mk_builder (block_names b) (<[cur b := code_of b (cur b) ++ [i]]> (block_code b))
                      (cur b) (next_reg b) (next_slot b) (entry_allocas b) (switches b)
                      (has_exceptions b) (defer_cond_plan b)).

Definition fresh_reg : emit nat :=
  fun c =>
    let b := bld c in
    Success (next_reg b,
             mk_ctx (mk_builder (block_names b) (block_code b) (cur b) (S (next_reg b)) (next_slot b)
                       (entry_allocas b) (switches b) (has_exceptions b) (defer_cond_plan b)) (env c)).

Definition fresh_slot : emit nat :=
  fun c =>
    let b := bld c in
    Success (next_slot b,
             mk_ctx (mk_builder (block_names b) (block_code b) (cur b) (next_reg b) (S (next_slot b))
                       (entry_allocas b) (switches b) (has_exceptions b) (defer_cond_plan b)) (env c)).

Open Scope emit_scope.

(** Instructions that produce a value. *)
Definition build_value (mk : nat -> instr) : emit operand :=
  r <-- fresh_reg; build (mk r) ;;; ret (OReg r).

Definition build_call (f : callee) (args : list operand) : emit operand :=
  build_value (fun r => ICall (Some r) f args).
Definition build_call_void (f : callee) (args : list operand) : emit unit :=
  build (ICall None f args).

(** [LLVMBuildAlloca] at the current position. *)
Definition build_alloca : emit nat :=
  s <-- fresh_slot; build (IAlloca s) ;;; ret s.

(** An alloca inserted before the first instruction of the entry block. *)
Definition build_entry_alloca : emit nat :=
  s <-- fresh_slot;
  set_bld (fun b => mk_builder (block_names b) (block_code b) (cur b) (next_reg b) (next_slot b)
                      (s :: entry_allocas b) (switches b) (has_exceptions b) (defer_cond_plan b)) ;;;
  ret s.

(** [LLVMBuildSwitch] with no cases yet, and [LLVMAddCase] for the next one. *)
Definition build_switch (v : operand) (dflt : nat) : emit nat :=
  fun c =>
    let n := length (switches (bld c)) in
    (set_bld (fun b => mk_builder (block_names b) (block_code b) (cur b) (next_reg b) (next_slot b)
                        (entry_allocas b) (switches b ++ [[]]) (has_exceptions b) (defer_cond_plan b)) ;;;
     build (ISwitch v dflt n) ;;;
     ret n) c.

Definition add_case (switch : nat) (target : nat) : emit unit :=
  set_bld (fun b => mk_builder (block_names b) (block_code b) (cur b) (next_reg b) (next_slot b)
                      (entry_allocas b) (alter (fun l => l ++ [target]) switch (switches b))
                      (has_exceptions b) (defer_cond_plan b)).

Definition mark_has_exceptions : emit unit :=
  set_bld (fun b => mk_builder (block_names b) (block_code b) (cur b) (next_reg b) (next_slot b)
                      (entry_allocas b) (switches b) true (defer_cond_plan b)).

Definition set_defer_cond_plan (d : bool) : emit unit :=
  set_bld (fun b => mk_builder (block_names b) (block_code b) (cur b) (next_reg b) (next_slot b)
                      (entry_allocas b) (switches b) (has_exceptions b) d).

(** A loop over a list of things to emit. *)
Section for_each.
Context {A : Type} (f : A -> emit unit).
Fixpoint for_each (l : list A) : emit unit :=
  match l with
  | [] => ret tt
  | x :: l' => f x ;;; for_each l'
  end.
End for_each.

(** Constants. *)
Definition const_int32 (z : Z) : operand := OConst (VInt z).
Definition const_true : operand := OConst (VInt 1).
Definition const_false : operand := OConst (VInt 0).
Definition estate_ref : operand := OConst VEstate.
