(* ===== verification/RtSig.v ===== *)
(** * Runtime function signatures

    [uplpgsql_register_runtime_funcs] of [common/upl_compile_stmts.c] declares
    every runtime helper in the LLVM module with its type; a call the compiler
    emits must agree with that declaration. *)

From Stdlib Require Import ZArith.
From S2P Require Import Prelude Ast IR.

(** The LLVM types the declarations use. *)
Inductive llvm_type := Tvoid | Ti1 | Ti8 | Ti32 | Ti64 | Tptr.

#[export] Instance llvm_type_eq_dec : EqDecision llvm_type.
Proof. solve_decision. Defined.

Record fn_type := mk_fn_type { ft_ret : llvm_type; ft_params : list llvm_type }.

Definition register_expr_funcs : list (UPLpgSQL_rt_func * fn_type) := [
  (RT_EVAL_EXPR, mk_fn_type Ti64 [Tptr; Tptr; Tptr]);
  (RT_EVAL_BOOL, mk_fn_type Ti1 [Tptr; Tptr]);
  (RT_EVAL_INT, mk_fn_type Ti32 [Tptr; Tptr]);
  (RT_INIT_VAR, mk_fn_type Tvoid [Tptr; Ti32]);
  (RT_ASSIGN_EXPR, mk_fn_type Tvoid [Tptr; Ti32; Tptr]);
  (RT_SET_FOUND, mk_fn_type Tvoid [Tptr; Ti1]);
  (RT_ASSIGN_INT, mk_fn_type Tvoid [Tptr; Ti32; Ti32]);
  (RT_EXEC_RETURN, mk_fn_type Ti32 [Tptr; Tptr]);
  (RT_EXEC_PERFORM, mk_fn_type Ti32 [Tptr; Tptr]);
  (RT_EXEC_SQL, mk_fn_type Ti32 [Tptr; Tptr]);
  (RT_EXEC_RAISE, mk_fn_type Tvoid [Tptr; Tptr]);
  (RT_ASSIGN_NULL, mk_fn_type Tvoid [Tptr; Ti32])
].

Definition register_stmt_funcs : list (UPLpgSQL_rt_func * fn_type) := [
  (RT_CASE_ERROR, mk_fn_type Tvoid [Tptr; Ti32]);
  (RT_EXEC_ASSERT_FAIL, mk_fn_type Tvoid [Tptr; Tptr]);
  (RT_EXEC_OPEN, mk_fn_type Ti32 [Tptr; Tptr]);
  (RT_EXEC_FETCH, mk_fn_type Ti32 [Tptr; Tptr]);
  (RT_EXEC_CLOSE, mk_fn_type Ti32 [Tptr; Tptr]);
  (RT_OPEN_QUERY_CURSOR, mk_fn_type Tptr [Tptr; Tptr]);
  (RT_FETCH_CURSOR_ROW, mk_fn_type Ti1 [Tptr; Tptr; Ti32]);
  (RT_CLOSE_PORTAL, mk_fn_type Tvoid [Tptr; Tptr]);
  (RT_OPEN_FORC_CURSOR, mk_fn_type Tptr [Tptr; Tptr]);
  (RT_CLOSE_FORC_CURSOR, mk_fn_type Tvoid [Tptr; Tptr; Tptr])
].

Definition register_delegated_funcs : list (UPLpgSQL_rt_func * fn_type) := [
  (RT_EXEC_BLOCK_PROTECTED, mk_fn_type Ti32 [Tptr; Tptr]);
  (RT_EXEC_DYNEXECUTE, mk_fn_type Ti32 [Tptr; Tptr]);
  (RT_EXEC_CALL, mk_fn_type Ti32 [Tptr; Tptr]);
  (RT_EXEC_GETDIAG, mk_fn_type Tvoid [Tptr; Tptr]);
  (RT_EXEC_RETURN_NEXT, mk_fn_type Ti32 [Tptr; Tptr]);
  (RT_EXEC_RETURN_QUERY, mk_fn_type Ti32 [Tptr; Tptr]);
  (RT_EXEC_COMMIT, mk_fn_type Tvoid [Tptr; Tptr]);
  (RT_EXEC_ROLLBACK, mk_fn_type Tvoid [Tptr; Tptr]);
  (RT_EXEC_FOREACH_A, mk_fn_type Ti32 [Tptr; Tptr]);
  (RT_OPEN_DYNFORS_CURSOR, mk_fn_type Tptr [Tptr; Tptr])
].

Definition register_exception_funcs : list (UPLpgSQL_rt_func * fn_type) := [
  (RT_EXCEPTION_PUSH_FRAME, mk_fn_type Tptr [Tptr; Tptr]);
  (RT_EXCEPTION_ARM, mk_fn_type Tvoid [Tptr; Tptr]);
  (RT_EXCEPTION_TRY_EXIT, mk_fn_type Tvoid [Tptr; Tptr]);
  (RT_EXCEPTION_CATCH, mk_fn_type Ti32 [Tptr; Tptr; Tptr]);
  (RT_EXCEPTION_SET_HANDLER_VARS, mk_fn_type Tvoid [Tptr; Tptr; Ti32]);
  (RT_EXCEPTION_HANDLER_DONE, mk_fn_type Tvoid [Tptr; Tptr]);
  (RT_EXCEPTION_RETHROW, mk_fn_type Tvoid [Tptr; Tptr])
].

Definition register_datum_funcs : list (UPLpgSQL_rt_func * fn_type) := [
  (RT_ASSIGN_VAR_DATUM, mk_fn_type Tvoid [Tptr; Ti32; Ti64; Ti8]);
  (RT_COPY_ASSIGN_VAR_DATUM, mk_fn_type Tvoid [Tptr; Ti32; Ti64; Ti8]);
  (RT_ALLOC_SCOPE_ENTER, mk_fn_type Tptr [Tptr]);
  (RT_ALLOC_SCOPE_EXIT, mk_fn_type Tvoid [Tptr; Tptr]);
  (RT_COPY_ASSIGN_VAR_DATUM_SCOPED, mk_fn_type Tvoid [Tptr; Ti32; Ti64; Ti8; Tptr]);
  (RT_GET_RECFIELD, mk_fn_type Ti64 [Tptr; Ti32]);
  (RT_GET_RECFIELD_FAST, mk_fn_type Ti64 [Tptr; Ti32; Ti32; Tptr])
].

Definition register_array_funcs : list (UPLpgSQL_rt_func * fn_type) := [
  (RT_ARRAY_GET_ELEMENT, mk_fn_type Ti64 [Tptr; Ti32; Ti32; Ti32; Ti32; Ti1; Ti8; Tptr]);
  (RT_ARRAY_SET_ELEMENT, mk_fn_type Tvoid [Tptr; Ti32; Ti32; Ti64; Ti1; Ti32; Ti32; Ti32; Ti1; Ti8]);
  (RT_NATIVE_ARRAY_ALLOC, mk_fn_type Tptr [Tptr; Ti64]);
  (RT_NATIVE_ARRAY_BOUNDS_CHECK, mk_fn_type Tvoid [Ti32; Ti32]);
  (RT_NATIVE_ARRAY_FROM_DATUM, mk_fn_type Tptr [Tptr; Ti64; Ti32; Ti32; Tptr; Tptr; Tptr]);
  (RT_FREE_VAR_DATUM, mk_fn_type Tvoid [Tptr; Ti32]);
  (RT_NATIVE_ARRAY_TO_DATUM, mk_fn_type Tvoid [Tptr; Ti32; Tptr; Ti32; Ti32; Tptr; Ti32; Ti32]);
  (RT_NATIVE_ARRAY_RESERVE, mk_fn_type Tvoid [Tptr; Tptr; Tptr; Tptr; Tptr; Ti32; Ti32]);
  (RT_NATIVE_ARRAY_RELEASE, mk_fn_type Tvoid [Tptr; Tptr; Ti8])
].

(** The declarations in the order they are made; a later declaration of the
    same index would replace an earlier one, so the table is read from the
    end. *)
Definition register_runtime_funcs : list (UPLpgSQL_rt_func * fn_type) :=
  register_expr_funcs ++ register_stmt_funcs ++ register_delegated_funcs
  ++ register_exception_funcs ++ register_datum_funcs ++ register_array_funcs.

Definition rt_fntypes (f : UPLpgSQL_rt_func) : option fn_type :=
  snd <$> List.find (fun p => bool_decide (p.1 = f)) (rev register_runtime_funcs).

(** The function types [uplpgsql_call_exec] builds for the functions called by
    address: its return-type argument, and pointer operands except for the
    flag of [exec_set_found] and the datum number of the CASE helper.  An error
    function has neither arguments nor a result. *)
Definition exec_fntypes (f : exec_fn) : fn_type :=
  match f with
  | FN_exec_stmt_raise | FN_exec_stmt_getdiag | FN_exec_stmt_commit | FN_exec_stmt_rollback =>
      mk_fn_type Tvoid [Tptr; Tptr]
  | FN_exec_assign_expr => mk_fn_type Tvoid [Tptr; Tptr; Tptr]
  | FN_exec_set_found => mk_fn_type Tvoid [Tptr; Ti1]
  | FN_rt_case_assign_test => mk_fn_type Tvoid [Tptr; Ti32; Tptr]
  | _ => mk_fn_type Ti32 [Tptr; Tptr]
  end.

Definition callee_type (f : callee) : option fn_type :=
  match f with
  | RT f => rt_fntypes f
  | DIRECT f => Some (exec_fntypes f)
  | ERROR _ => Some (mk_fn_type Tvoid [])
  end.

(** Whether a constant operand is of a type.  A register has the type of its definition,
    which the model does not track: it is taken to fit wherever a value can stand. *)
Definition operand_fits (o : operand) (t : llvm_type) : bool :=
  match o with
  | OReg _ => negb (bool_decide (t = Tvoid))
  | OConst (VInt _) => match t with Ti1 | Ti8 | Ti32 | Ti64 => true | _ => false end
  | OConst (VDouble _) => false
  | OConst _ => bool_decide (t = Tptr)
  end.

(** The call agrees with its declaration: declared, right number and kinds of
    operands, and a result exactly when the function returns one. *)
Definition call_ok (dst : option nat) (f : callee) (args : list operand) : bool :=
  match callee_type f with
  | Some ft =>
      Nat.eqb (length args) (length (ft_params ft))
      && forallb (fun p => operand_fits p.1 p.2) (combine args (ft_params ft))
      && bool_decide (dst = None <-> ft_ret ft = Tvoid)
  | None => false
  end.
