(* ===== verification/CoreEmit.v ===== *)
(** * The language-independent compiler core

    [core/upl_compile.c]: the loop and cleanup stacks and the control-flow
    primitives that emit IF, WHILE/REPEAT, LOOP, FOR, EXIT/CONTINUE, CASE,
    RETURN and BLOCK.

    The C primitives receive statement bodies as opaque pointers and hand them
    to [ctx->callbacks.compile_stmts]; here a body is the emission action that
    callback would run.  The other callbacks are the fields of
    [UPL_callbacks]. *)

From Stdlib Require Import ZArith Lia.
From S2P Require Import Prelude Ast IR.
Open Scope emit_scope.

(** ** Callbacks *)

(** [try_compile_bool] returns [None] when the expression cannot be inlined; it
    may have emitted code by then (see [uplpgsql_try_compile_bool]). *)
Record UPL_callbacks := mk_callbacks {
  cb_try_compile_bool : UPLpgSQL_expr -> emit (option operand);
  cb_assign_expr : nat -> UPLpgSQL_expr -> emit unit;
  rt_eval_bool : UPLpgSQL_rt_func;
  rt_eval_int : UPLpgSQL_rt_func;
  rt_set_found : UPLpgSQL_rt_func;
  rt_assign_int : UPLpgSQL_rt_func;
  rt_case_error : UPLpgSQL_rt_func;
  rt_assign_null : UPLpgSQL_rt_func;
  rt_init_var : UPLpgSQL_rt_func
}.

(** ** Loop stack *)

Definition upl_push_loop (label : option string) (continue_bb exit_bb : nat) : emit unit :=
  set_env (fun e =>
    mk_cenv (return_bb e) (rc_ptr e) (plstate e)
      (mk_loop_info label true (Some continue_bb) exit_bb (cleanup_depth e) :: loop_stack e)
      (cleanup_stack e) (cleanup_depth e) (native_arrays e)
      (record_shapes e)).

Definition upl_push_block_label (label : option string) (exit_bb : nat) : emit unit :=
  set_env (fun e =>
    mk_cenv (return_bb e) (rc_ptr e) (plstate e)
      (mk_loop_info label false None exit_bb (cleanup_depth e) :: loop_stack e)
      (cleanup_stack e) (cleanup_depth e) (native_arrays e)
      (record_shapes e)).

Definition upl_pop_loop : emit unit :=
  set_env (fun e =>
    mk_cenv (return_bb e) (rc_ptr e) (plstate e) (tail (loop_stack e))
      (cleanup_stack e) (cleanup_depth e) (native_arrays e)
      (record_shapes e)).

(** [upl_find_loop]: by label, or the innermost real loop. *)
Fixpoint find_loop (stack : list UPL_loop_info) (label : option string) : option UPL_loop_info :=
  match stack with
  | [] => None
  | info :: next =>
      match label with
      | None => if li_is_loop info then Some info else find_loop next label
      | Some l =>
          match li_label info with
          | Some l' => if String.eqb l' l then Some info else find_loop next label
          | None => find_loop next label
          end
      end
  end.

Definition upl_find_loop (label : option string) : emit (option UPL_loop_info) :=
  e <-- get_env; ret (find_loop (loop_stack e) label).

(** ** Cleanup stack *)

Definition upl_push_cleanup (fn : UPLpgSQL_rt_func) (args : list operand) : emit unit :=
  set_env (fun e =>
    mk_cenv (return_bb e) (rc_ptr e) (plstate e) (loop_stack e)
      (mk_cleanup_info fn args :: cleanup_stack e) (S (cleanup_depth e)) (native_arrays e) (record_shapes e)).

Definition upl_pop_cleanup : emit unit :=
  set_env (fun e =>
    mk_cenv (return_bb e) (rc_ptr e) (plstate e) (loop_stack e)
      (tail (cleanup_stack e)) (pred (cleanup_depth e)) (native_arrays e) (record_shapes e)).

Definition set_return_bb (bb : nat) : emit unit :=
  set_env (fun e =>
    mk_cenv bb (rc_ptr e) (plstate e) (loop_stack e) (cleanup_stack e) (cleanup_depth e)
      (native_arrays e) (record_shapes e)).

(** [upl_emit_rt_call], for callees that return a value and for void ones. *)
Definition upl_emit_rt_call (f : UPLpgSQL_rt_func) (args : list operand) : emit operand :=
  build_call (RT f) args.
Definition upl_emit_rt_call_void (f : UPLpgSQL_rt_func) (args : list operand) : emit unit :=
  build_call_void (RT f) args.

(** The loop of [upl_emit_cleanup_unwind]: [depth - target] calls, taken from
    the top of the stack. *)
Fixpoint emit_unwind (n : nat) (stack : list UPL_cleanup_info) : emit unit :=
  match n, stack with
  | S n', cleanup :: next =>
      upl_emit_rt_call_void (unwind_rt_fn cleanup) (estate_ref :: cl_args cleanup) ;;;
      emit_unwind n' next
  | _, _ => ret tt
  end.

Definition upl_emit_cleanup_unwind (target_depth : nat) : emit unit :=
  e <-- get_env; emit_unwind (cleanup_depth e - target_depth) (cleanup_stack e).

(** ** Expressions *)
Section core.
Context (cb : UPL_callbacks).

Definition upl_eval_bool (cond : UPLpgSQL_expr) : emit operand :=
  inlined <-- cb_try_compile_bool cb cond;
  match inlined with
  | Some result => ret result
  | None => upl_emit_rt_call (rt_eval_bool cb) [estate_ref; OConst (VExpr cond)]
  end.

Definition upl_eval_int (e : UPLpgSQL_expr) : emit operand :=
  upl_emit_rt_call (rt_eval_int cb) [estate_ref; OConst (VExpr e)].

(** ** Control flow *)

(** One pass of the ELSIF loop of [upl_emit_if]: the builder is in the
    previous condition's else block. *)
Definition emit_elsif (merge_bb : nat) (clause : UPLpgSQL_expr * emit unit) : emit unit :=
  elsif_cond <-- upl_eval_bool clause.1;
  elsif_then <-- append_block "elsif.then";
  elsif_else <-- append_block "elsif.else";
  build (ICondBr elsif_cond elsif_then elsif_else) ;;;
  position elsif_then ;;;
  clause.2 ;;;
  build (IBr merge_bb) ;;;
  position elsif_else.

Definition upl_emit_if (cond_expr : UPLpgSQL_expr) (then_stmts : emit unit)
    (elsifs : list (UPLpgSQL_expr * emit unit)) (else_stmts : option (emit unit)) : emit unit :=
  merge_bb <-- append_block "if.merge";
  cond <-- upl_eval_bool cond_expr;
  then_bb <-- append_block "if.then";
  else_bb <-- append_block "if.else";
  build (ICondBr cond then_bb else_bb) ;;;
  position then_bb ;;;
  then_stmts ;;;
  build (IBr merge_bb) ;;;
  position else_bb ;;;
  for_each (emit_elsif merge_bb) elsifs ;;;
  match else_stmts with Some m => m | None => ret tt end ;;;
  build (IBr merge_bb) ;;;
  position merge_bb.

Definition upl_emit_cond_loop (label : option string) (cond_expr : UPLpgSQL_expr)
    (test_at_top : bool) (body_stmts : emit unit) : emit unit :=
  cond_bb <-- append_block (if test_at_top then "while.cond" else "repeat.cond");
  body_bb <-- append_block (if test_at_top then "while.body" else "repeat.body");
  exit_bb <-- append_block (if test_at_top then "while.exit" else "repeat.exit");
  (if test_at_top then
     build (IBr cond_bb) ;;;
     position cond_bb ;;;
     cond <-- upl_eval_bool cond_expr;
     build (ICondBr cond body_bb exit_bb) ;;;
     position body_bb ;;;
     upl_push_loop label cond_bb exit_bb ;;;
     body_stmts ;;;
     upl_pop_loop ;;;
     build (IBr cond_bb)
   else
     build (IBr body_bb) ;;;
     position body_bb ;;;
     upl_push_loop label cond_bb exit_bb ;;;
     body_stmts ;;;
     upl_pop_loop ;;;
     build (IBr cond_bb) ;;;
     position cond_bb ;;;
     cond <-- upl_eval_bool cond_expr;
     build (ICondBr cond exit_bb body_bb)) ;;;
  position exit_bb.

Definition upl_emit_loop (label : option string) (body_stmts : emit unit) : emit unit :=
  body_bb <-- append_block "loop.body";
  exit_bb <-- append_block "loop.exit";
  build (IBr body_bb) ;;;
  position body_bb ;;;
  upl_push_loop label body_bb exit_bb ;;;
  body_stmts ;;;
  upl_pop_loop ;;;
  build (IBr body_bb) ;;;
  position exit_bb.

(** The three bounds of a FOR loop, evaluated in order. *)
Definition emit_fori_bounds (lower_expr upper_expr : UPLpgSQL_expr)
    (step_expr : option UPLpgSQL_expr) : emit (operand * operand * operand) :=
  lower <-- upl_eval_int lower_expr;
  upper <-- upl_eval_int upper_expr;
  step <-- match step_expr with
           | Some e => upl_eval_int e
           | None => ret (const_int32 1)
           end;
  ret (lower, upper, step).

(** The condition block: [cur] against the upper bound. *)
Definition emit_fori_cond (reverse : bool) (loop_val_ptr : nat) (upper : operand)
    (exit_bb body_bb : nat) : emit operand :=
  cur_val <-- build_value (fun r => ILoad r loop_val_ptr);
  done <-- build_value (fun r => IICmp r (if reverse then SLT else SGT) cur_val upper);
  build (ICondBr done exit_bb body_bb) ;;;
  ret cur_val.

(** The step block and the store block it branches to. *)
Definition emit_fori_step (reverse : bool) (loop_val_ptr : nat) (step : operand)
    (exit_bb cond_bb : nat) : emit unit :=
  cur_val <-- build_value (fun r => ILoad r loop_val_ptr);
  store_bb <-- append_block "fori.store";
  next_val <-- build_value (fun r => if reverse then ISub r cur_val step else IAdd r cur_val step);
  overflow <-- build_value (fun r => IICmp r (if reverse then SGT else SLT) next_val cur_val);
  build (ICondBr overflow exit_bb store_bb) ;;;
  position store_bb ;;;
  build (IStore next_val loop_val_ptr) ;;;
  build (IBr cond_bb).

Definition upl_emit_fori (label : option string) (var_dno : nat)
    (lower_expr upper_expr : UPLpgSQL_expr) (step_expr : option UPLpgSQL_expr) (reverse : bool)
    (body_stmts : emit unit) : emit unit :=
  bounds <-- emit_fori_bounds lower_expr upper_expr step_expr;
  loop_val_ptr <-- build_entry_alloca;
  found_ptr <-- build_entry_alloca;
  build (IStore bounds.1.1 loop_val_ptr) ;;;
  build (IStore const_false found_ptr) ;;;
  cond_bb <-- append_block "fori.cond";
  body_bb <-- append_block "fori.body";
  step_bb <-- append_block "fori.step";
  exit_bb <-- append_block "fori.exit";
  build (IBr cond_bb) ;;;
  position cond_bb ;;;
  cur_val <-- emit_fori_cond reverse loop_val_ptr bounds.1.2 exit_bb body_bb;
  position body_bb ;;;
  build (IStore const_true found_ptr) ;;;
  upl_emit_rt_call_void (rt_assign_int cb)
    [estate_ref; const_int32 (Z.of_nat var_dno); cur_val] ;;;
  upl_push_loop label step_bb exit_bb ;;;
  body_stmts ;;;
  upl_pop_loop ;;;
  build (IBr step_bb) ;;;
  position step_bb ;;;
  emit_fori_step reverse loop_val_ptr bounds.2 exit_bb cond_bb ;;;
  position exit_bb ;;;
  found_val <-- build_value (fun r => ILoad r found_ptr);
  upl_emit_rt_call_void (rt_set_found cb) [estate_ref; found_val].

(** The jump of an EXIT/CONTINUE to [target_bb], past the cleanups above
    [loop]'s depth. *)
Definition emit_jump (is_exit : bool) (cond_expr : option UPLpgSQL_expr) (loop : UPL_loop_info)
    (target_bb : nat) : emit unit :=
  match cond_expr with
  | Some cond_expr =>
      skip_bb <-- append_block (if is_exit then "exit.skip" else "continue.skip");
      cond <-- upl_eval_bool cond_expr;
      e <-- get_env;
      (if li_cleanup_depth loop <? cleanup_depth e then
         unwind_bb <-- append_block (if is_exit then "exit.unwind" else "continue.unwind");
         build (ICondBr cond unwind_bb skip_bb) ;;;
         position unwind_bb ;;;
         upl_emit_cleanup_unwind (li_cleanup_depth loop) ;;;
         build (IBr target_bb)
       else
         build (ICondBr cond target_bb skip_bb)) ;;;
      position skip_bb
  | None =>
      upl_emit_cleanup_unwind (li_cleanup_depth loop) ;;;
      build (IBr target_bb) ;;;
      dead_bb <-- append_block "exit.dead";
      position dead_bb
  end.

Definition upl_emit_loop_exit (label : option string) (is_exit : bool)
    (cond_expr : option UPLpgSQL_expr) : emit unit :=
  loop <-- upl_find_loop label;
  match loop with
  | None => elog_error "upl: EXIT/CONTINUE outside of a loop"
  | Some loop =>
      if negb is_exit && negb (li_is_loop loop)
      then elog_error "upl: block label cannot be used in CONTINUE"
      else
        let target := if is_exit then Some (li_exit_bb loop) else li_continue_bb loop in
        match target with
        | Some target_bb => emit_jump is_exit cond_expr loop target_bb
        | None => elog_error "upl: NULL branch target"
        end
  end.

(** One pass of the WHEN loop of [upl_emit_case]. *)
Definition emit_when (has_test_expr : bool) (test_varno : nat) (merge_bb : nat)
    (clause : UPLpgSQL_expr * emit unit) : emit unit :=
  set_defer_cond_plan has_test_expr ;;;
  cond <-- upl_eval_bool clause.1;
  set_defer_cond_plan false ;;;
  when_then_bb <-- append_block "case.when.then";
  when_else_bb <-- append_block "case.when.else";
  build (ICondBr cond when_then_bb when_else_bb) ;;;
  position when_then_bb ;;;
  (if has_test_expr
   then upl_emit_rt_call_void (rt_assign_null cb) [estate_ref; const_int32 (Z.of_nat test_varno)]
   else ret tt) ;;;
  clause.2 ;;;
  build (IBr merge_bb) ;;;
  position when_else_bb.

Definition upl_emit_case (test : option UPLpgSQL_expr) (test_varno : nat)
    (whens : list (UPLpgSQL_expr * emit unit)) (has_else : bool) (else_body : emit unit)
    (lineno : Z) : emit unit :=
  merge_bb <-- append_block "case.merge";
  match test with
  | Some test_assign_expr => cb_assign_expr cb test_varno test_assign_expr
  | None => ret tt
  end ;;;
  let has_test_expr := match test with Some _ => true | None => false end in
  for_each (emit_when has_test_expr test_varno merge_bb) whens ;;;
  (if has_test_expr
   then upl_emit_rt_call_void (rt_assign_null cb) [estate_ref; const_int32 (Z.of_nat test_varno)]
   else ret tt) ;;;
  (if has_else then else_body
   else upl_emit_rt_call_void (rt_case_error cb) [estate_ref; const_int32 lineno]) ;;;
  build (IBr merge_bb) ;;;
  position merge_bb.

Definition upl_emit_return (rt_exec_return : UPLpgSQL_rt_func) (stmt : UPLpgSQL_stmt) : emit unit :=
  rc <-- upl_emit_rt_call rt_exec_return [estate_ref; OConst (VStmt stmt)];
  e <-- get_env;
  build (IStore rc (rc_ptr e)) ;;;
  build (IBr (return_bb e)) ;;;
  dead_bb <-- append_block "dead";
  position dead_bb.

Definition upl_emit_block (initvarnos : list nat) (body_stmts : emit unit)
    (compile_exceptions : option (emit unit)) : emit unit :=
  match compile_exceptions with
  | Some m => mark_has_exceptions ;;; m
  | None =>
      for_each (fun n => upl_emit_rt_call_void (rt_init_var cb)
                           [estate_ref; const_int32 (Z.of_nat n)]) initvarnos ;;;
      body_stmts
  end.
End core.

(** ** The pipeline *)

(** What [upl_verify_module] and the code generator receive. *)
Record ir_function := mk_ir_function {
  ir_blocks : list string;
  ir_code : gmap nat (list instr);
  ir_entry_allocas : list nat;
  ir_switches : list (list nat);
  ir_nounwind : bool
}.

Definition empty_builder : builder := mk_builder [] ∅ 0 0 0 [] [] false false.
Definition empty_cenv : cenv := mk_cenv 0 0 0 [] [] 0 [] [].

(** [upl_compile_function], steps 6 to 13: [setup_entry] and [compile_body] are
    the driver's hooks. *)
Definition upl_emit_function (default_rc : Z) (setup_entry compile_body : emit unit) : emit unit :=
  entry_bb <-- append_block "entry";
  return_bb <-- append_block "return";
  position entry_bb ;;;
  rc <-- build_alloca;
  build (IStore (const_int32 default_rc) rc) ;;;
  set_env (fun e => mk_cenv return_bb rc (plstate e) (loop_stack e) (cleanup_stack e)
                      (cleanup_depth e) (native_arrays e) (record_shapes e)) ;;;
  setup_entry ;;;
  compile_body ;;;
  build (IBr return_bb) ;;;
  position return_bb ;;;
  rc_val <-- build_value (fun r => ILoad r rc);
  build (IRet rc_val).

Definition upl_compile_function (default_rc : Z) (setup_entry compile_body : emit unit)
    : result ir_function :=
  match upl_emit_function default_rc setup_entry compile_body (mk_ctx empty_builder empty_cenv) with
  | Success (_, c) =>
      let b := bld c in
      Success (mk_ir_function (block_names b) (block_code b) (entry_allocas b) (switches b)
                 (negb (has_exceptions b)))
  | Failure e => Failure e
  end.
