(* ===== verification/StmtEmit.v ===== *)
(** * The PL/pgSQL statement compiler

    [common/upl_compile_stmts.c]: one definition per [uplpgsql_compile_*]
    function, [compile_stmt] for the dispatch, and [compile_function] for the
    driver's entry point.

    Expression inlining ([common/upl_compile_expr.c]) is the class
    [ExprCompiler]: a partial function that may emit code for a condition or an
    assignment, and otherwise leaves the builder alone so that the statement
    compiler falls back to the runtime.  What the statement compiler relies on
    of it is stated where it is used, in the files Wellformed, CompileTotal, Growth
    and SimRel; file ExprEmit has the instance. *)

From Stdlib Require Import ZArith Lia.
From stdpp Require Import pretty.
From S2P Require Import Prelude Ast Escape IR CoreEmit.
Open Scope emit_scope.

(** [uplpgsql_try_compile_bool] and [uplpgsql_try_compile_assign]; and
    [query_result_desc], the [resultDesc] of the one source of the plan that
    [SPI_prepare_extended] makes for a query, if it makes one. *)
Class ExprCompiler := {
  try_compile_bool : UPLpgSQL_expr -> emit (option operand);
  try_compile_assign : UPLpgSQL_stmt_assign -> emit bool;
  query_result_desc : UPLpgSQL_expr -> option TupleDesc
}.

Definition UPLPGSQL_RC_OK : Z := 0.
Definition UPLPGSQL_RC_EXIT : Z := 1.
Definition UPLPGSQL_RC_RETURN : Z := 2.
Definition UPLPGSQL_RC_CONTINUE : Z := 3.

(** ** Native arrays *)

Definition emit_sync_native_array (na : native_slots) : emit unit :=
  data <-- build_value (fun r => ILoad r (data_ptr na));
  len <-- build_value (fun r => ILoad r (len_ptr na));
  lb <-- build_value (fun r => ILoad r (lb_ptr na));
  nulls <-- build_value (fun r => ILoad r (nulls_ptr na));
  build_call_void (RT RT_NATIVE_ARRAY_TO_DATUM)
    [estate_ref; const_int32 (Z.of_nat (na_dno (ns_array na))); data; len; lb; nulls;
     const_int32 (na_elemtype (ns_array na)); const_int32 (na_elem_size (ns_array na))].

Definition sync_native_arrays : emit unit :=
  e <-- get_env; for_each emit_sync_native_array (native_arrays e).

(** The array is marshalled when the expression reads it; when the read set is
    not known to be complete (no plan), every array is. *)
Definition sync_native_arrays_for_expr (expr : option UPLpgSQL_expr) : emit unit :=
  match expr with
  | Some ex =>
      if plan ex then
        e <-- get_env;
        for_each (fun na => if expr_references_dno (Some ex) (na_dno (ns_array na))
                            then emit_sync_native_array na else ret tt) (native_arrays e)
      else sync_native_arrays
  | None => sync_native_arrays
  end.

Definition find_native_slots (nas : list native_slots) (dno : nat) : option native_slots :=
  List.find (fun na => Nat.eqb (na_dno (ns_array na)) dno) nas.

Definition emit_refresh_native_array (na : native_slots) : emit unit :=
  datum_val <-- build_value (fun r => ILoadVarDatum r (na_dno (ns_array na)));
  isnull_val <-- build_value (fun r => ILoadVarIsnull r (na_dno (ns_array na)));
  nelems_ptr <-- build_alloca;
  lb_out_ptr <-- build_alloca;
  nulls_out_ptr <-- build_alloca;
  isnull_i32 <-- build_value (fun r => IZExt r isnull_val);
  old_data <-- build_value (fun r => ILoad r (data_ptr na));
  old_nulls <-- build_value (fun r => ILoad r (nulls_ptr na));
  old_onheap <-- build_value (fun r => ILoad r (is_heap_ptr na));
  build_call_void (RT RT_NATIVE_ARRAY_RELEASE) [old_data; old_nulls; old_onheap] ;;;
  new_data <-- build_call (RT RT_NATIVE_ARRAY_FROM_DATUM)
    [estate_ref; datum_val; isnull_i32; const_int32 (na_elem_size (ns_array na));
     OConst (VSlot nelems_ptr); OConst (VSlot lb_out_ptr); OConst (VSlot nulls_out_ptr)];
  build (IStore new_data (data_ptr na)) ;;;
  new_len <-- build_value (fun r => ILoad r nelems_ptr);
  build (IStore new_len (len_ptr na)) ;;;
  new_lb <-- build_value (fun r => ILoad r lb_out_ptr);
  build (IStore new_lb (lb_ptr na)) ;;;
  new_nulls <-- build_value (fun r => ILoad r nulls_out_ptr);
  build (IStore new_nulls (nulls_ptr na)) ;;;
  build (IStore new_len (cap_ptr na)) ;;;
  build (IStore (const_int32 1) (is_heap_ptr na)).

(** Refresh the datums of a list that are native arrays. *)
Definition refresh_dno (dno : nat) : emit unit :=
  e <-- get_env;
  match find_native_slots (native_arrays e) dno with
  | Some na => emit_refresh_native_array na
  | None => ret tt
  end.

(** ** Calls into the interpreter *)

(** [uplpgsql_call_exec_nosync] and [uplpgsql_call_exec], for callees that
    return an [int] and for void ones. *)
Definition call_exec_nosync_void (f : exec_fn) (args : list operand) : emit unit :=
  build_call_void (DIRECT f) args.
Definition call_exec (f : exec_fn) (args : list operand) : emit unit :=
  sync_native_arrays ;;; _ <-- build_call (DIRECT f) args; ret tt.
Definition call_exec_void (f : exec_fn) (args : list operand) : emit unit :=
  sync_native_arrays ;;; call_exec_nosync_void f args.

Definition ctx_plstate : emit operand := e <-- get_env; ret (OReg (plstate e)).

(** [uplpgsql_cb_assign_expr]. *)
Definition cb_assign_expr_impl (varno : nat) (expr : UPLpgSQL_expr) : emit unit :=
  call_exec_void FN_rt_case_assign_test
    [estate_ref; const_int32 (Z.of_nat varno); OConst (VExpr expr)].

(** Statements that are one call of an [exec_stmt_*] function. *)
Definition compile_by_call (f : exec_fn) (stmt : UPLpgSQL_stmt) : emit unit :=
  pl <-- ctx_plstate; call_exec f [pl; OConst (VStmt stmt)].
Definition compile_by_call_void (f : exec_fn) (stmt : UPLpgSQL_stmt) : emit unit :=
  pl <-- ctx_plstate; call_exec_void f [pl; OConst (VStmt stmt)].

Section driver.
Context `{ExprCompiler}.
(** The datum array of the function being compiled ([ctx_func(ctx)->datums]). *)
Context (func_datums : list UPLpgSQL_datum).

(** The callbacks [uplpgsql_compile_function] installs. *)
Definition callbacks : UPL_callbacks :=
  mk_callbacks try_compile_bool cb_assign_expr_impl RT_EVAL_BOOL RT_EVAL_INT RT_SET_FOUND
    RT_ASSIGN_INT RT_CASE_ERROR RT_ASSIGN_NULL RT_INIT_VAR.

(** ** Statements *)

Definition emit_init_vars (initvarnos : list nat) : emit unit :=
  for_each (fun dno =>
    build_call_void (RT RT_INIT_VAR) [estate_ref; const_int32 (Z.of_nat dno)] ;;;
    refresh_dno dno) initvarnos.

(** An exception block's own label is pushed around its body and around each
    handler, if it has one. *)
Definition push_own_label (b : UPLpgSQL_stmt_block UPLpgSQL_stmt) (exit_bb : nat) : emit unit :=
  match blk_label b with
  | Some _ => upl_push_block_label (blk_label b) exit_bb
  | None => ret tt
  end.
Definition pop_own_label (b : UPLpgSQL_stmt_block UPLpgSQL_stmt) : emit unit :=
  match blk_label b with
  | Some _ => upl_pop_loop
  | None => ret tt
  end.

(** The handler loop of [uplpgsql_compile_block_exceptions]; [i] is the index
    of the first handler of the list. *)
Fixpoint emit_handlers (b : UPLpgSQL_stmt_block UPLpgSQL_stmt) (frame_ptr : operand)
    (switch after_block_bb handler_exit_bb : nat) (i : nat) (handlers : list (emit unit))
    : emit unit :=
  match handlers with
  | [] => ret tt
  | handler :: rest =>
      handler_bb <-- append_block ("exc.handler_" +:+ pretty i);
      add_case switch handler_bb ;;;
      position handler_bb ;;;
      build_call_void (RT RT_EXCEPTION_SET_HANDLER_VARS)
        [estate_ref; OConst (VBlock b); const_int32 (Z.of_nat i)] ;;;
      push_own_label b handler_exit_bb ;;;
      handler ;;;
      pop_own_label b ;;;
      build_call_void (RT RT_EXCEPTION_HANDLER_DONE) [estate_ref; frame_ptr] ;;;
      build (IBr after_block_bb) ;;;
      emit_handlers b frame_ptr switch after_block_bb handler_exit_bb (S i) rest
  end.

(** The try half: push the frame, sigsetjmp, arm, initialise, body. *)
Definition emit_try (b : UPLpgSQL_stmt_block UPLpgSQL_stmt) (body : emit unit)
    (try_enter_bb catch_enter_bb try_exit_bb exception_return_bb after_block_bb : nat)
    : emit operand :=
  frame_ptr <-- build_call (RT RT_EXCEPTION_PUSH_FRAME) [estate_ref; OConst (VBlock b)];
  sjrc <-- build_value (fun r => ISigsetjmp r frame_ptr);
  is_try <-- build_value (fun r => IICmp r EQ sjrc (const_int32 0));
  build (ICondBr is_try try_enter_bb catch_enter_bb) ;;;
  position try_enter_bb ;;;
  build_call_void (RT RT_EXCEPTION_ARM) [estate_ref; frame_ptr] ;;;
  emit_init_vars (initvarnos b) ;;;
  e <-- get_env;
  set_return_bb exception_return_bb ;;;
  upl_push_cleanup RT_EXCEPTION_TRY_EXIT [frame_ptr] ;;;
  push_own_label b try_exit_bb ;;;
  body ;;;
  pop_own_label b ;;;
  upl_pop_cleanup ;;;
  set_return_bb (return_bb e) ;;;
  build (IBr try_exit_bb) ;;;
  position exception_return_bb ;;;
  build_call_void (RT RT_EXCEPTION_TRY_EXIT) [estate_ref; frame_ptr] ;;;
  build (IBr (return_bb e)) ;;;
  position try_exit_bb ;;;
  build_call_void (RT RT_EXCEPTION_TRY_EXIT) [estate_ref; frame_ptr] ;;;
  build (IBr after_block_bb) ;;;
  ret frame_ptr.

(** The catch half: find the handler, run it, or rethrow. *)
Definition emit_catch (b : UPLpgSQL_stmt_block UPLpgSQL_stmt) (handlers : list (emit unit))
    (frame_ptr : operand)
    (catch_enter_bb handler_return_bb handler_exit_bb after_block_bb rethrow_bb : nat)
    : emit unit :=
  position catch_enter_bb ;;;
  handler_idx <-- build_call (RT RT_EXCEPTION_CATCH) [estate_ref; OConst (VBlock b); frame_ptr];
  switch_inst <-- build_switch handler_idx rethrow_bb;
  e <-- get_env;
  set_return_bb handler_return_bb ;;;
  upl_push_cleanup RT_EXCEPTION_HANDLER_DONE [frame_ptr] ;;;
  emit_handlers b frame_ptr switch_inst after_block_bb handler_exit_bb 0 handlers ;;;
  upl_pop_cleanup ;;;
  set_return_bb (return_bb e) ;;;
  position handler_return_bb ;;;
  build_call_void (RT RT_EXCEPTION_HANDLER_DONE) [estate_ref; frame_ptr] ;;;
  build (IBr (return_bb e)) ;;;
  position handler_exit_bb ;;;
  build_call_void (RT RT_EXCEPTION_HANDLER_DONE) [estate_ref; frame_ptr] ;;;
  build (IBr after_block_bb) ;;;
  position rethrow_bb ;;;
  build_call_void (RT RT_EXCEPTION_RETHROW) [estate_ref; frame_ptr] ;;;
  build IUnreachable.

Definition compile_block_exceptions (b : UPLpgSQL_stmt_block UPLpgSQL_stmt) (body : emit unit)
    (handlers : list (emit unit)) : emit unit :=
  mark_has_exceptions ;;;
  try_enter_bb <-- append_block "exc.try_enter";
  catch_enter_bb <-- append_block "exc.catch_enter";
  try_exit_bb <-- append_block "exc.try_exit";
  exception_return_bb <-- append_block "exc.return";
  handler_return_bb <-- append_block "exc.handler_return";
  handler_exit_bb <-- append_block "exc.handler_exit";
  after_block_bb <-- append_block "exc.after";
  rethrow_bb <-- append_block "exc.rethrow";
  frame_ptr <-- emit_try b body try_enter_bb catch_enter_bb try_exit_bb exception_return_bb
                  after_block_bb;
  emit_catch b handlers frame_ptr catch_enter_bb handler_return_bb handler_exit_bb after_block_bb
    rethrow_bb ;;;
  position after_block_bb.

(** [uplpgsql_compile_block]. The test for a missing terminator before the
    branch to [block.end] is the code's own. *)
Definition has_terminator (c : UPL_compile_ctx) : bool :=
  match list.last (code_of (bld c) (cur (bld c))) with Some i => is_terminator i | None => false end.

Definition build_br_if_open (target : nat) : emit unit :=
  fun c => if has_terminator c then Success (tt, c) else build (IBr target) c.

Definition compile_block (b : UPLpgSQL_stmt_block UPLpgSQL_stmt) (body : emit unit)
    (handlers : list (emit unit)) : emit unit :=
  match exceptions b with
  | Some _ =>
      upl_emit_block callbacks [] body (Some (compile_block_exceptions b body handlers))
  | None =>
      emit_init_vars (initvarnos b) ;;;
      match blk_label b with
      | Some label =>
          end_bb <-- append_block "block.end";
          upl_push_block_label (Some label) end_bb ;;;
          upl_emit_block callbacks [] body None ;;;
          upl_pop_loop ;;;
          build_br_if_open end_bb ;;;
          position end_bb
      | None => upl_emit_block callbacks [] body None
      end
  end.

Definition compile_return (stmt : UPLpgSQL_stmt) : emit unit :=
  e <-- get_env;
  (if (0 <? length (native_arrays e)) then sync_native_arrays else ret tt) ;;;
  upl_emit_return RT_EXEC_RETURN stmt.

(** Not here: the plans made on the way, which an assignment that is left to the
    interpreter frees at the end ([SPI_freeplan]; [jit_free_plan] of file SimpleExpr). *)
Definition compile_assign (s : UPLpgSQL_stmt_assign) : emit unit :=
  inlined <-- try_compile_assign s;
  if inlined : bool then ret tt
  else
    datum_ptr <-- build_value (fun r => ILoadDatumPtr r (assign_varno s));
    pl <-- ctx_plstate;
    sync_native_arrays_for_expr (Some (assign_expr s)) ;;;
    call_exec_nosync_void FN_exec_assign_expr
      [pl; datum_ptr; OConst (VExpr (assign_expr s))] ;;;
    refresh_dno (assign_varno s).

(** The datums an INTO target names: the row's fields (the first 64), or the
    target itself. *)
Definition into_targets (target : nat) : list nat :=
  match func_datums !! target with
  | Some (DTYPE_ROW row) => take 64 (varnos row)
  | _ => [target]
  end.

Definition compile_execsql (stmt : UPLpgSQL_stmt) (s : UPLpgSQL_stmt_execsql) : emit unit :=
  compile_by_call FN_exec_stmt_execsql stmt ;;;
  match sql_into s, sql_target s with
  | true, Some target => for_each refresh_dno (into_targets target)
  | _, _ => ret tt
  end.

Definition compile_assert (stmt : UPLpgSQL_stmt) (s : UPLpgSQL_stmt_assert) : emit unit :=
  cond <-- upl_eval_bool callbacks (assert_cond s);
  fail_bb <-- append_block "assert.fail";
  cont_bb <-- append_block "assert.cont";
  build (ICondBr cond cont_bb fail_bb) ;;;
  position fail_bb ;;;
  build_call_void (RT RT_EXEC_ASSERT_FAIL) [estate_ref; OConst (VStmt stmt)] ;;;
  build (IBr cont_bb) ;;;
  position cont_bb.

(** The loop the three FOR-over-rows statements share in the source's three
    copies: open a cursor, fetch a row per iteration, release the cursor on
    every way out. *)
Definition compile_row_loop (prefix : string) (open_fn : UPLpgSQL_rt_func) (open_arg : value)
    (close_fn : UPLpgSQL_rt_func) (close_args : list operand)
    (label : option string) (target_dno : nat) (body : emit unit) : emit unit :=
  sync_native_arrays ;;;
  portal_val <-- build_call (RT open_fn) [estate_ref; OConst open_arg];
  let cleanup_args := close_args ++ [portal_val] in
  found_ptr <-- build_alloca;
  build (IStore const_false found_ptr) ;;;
  cond_bb <-- append_block (prefix +:+ ".cond");
  body_bb <-- append_block (prefix +:+ ".body");
  exit_bb <-- append_block (prefix +:+ ".exit");
  for_return_bb <-- append_block (prefix +:+ ".return");
  cont_bb <-- append_block (prefix +:+ ".cont");
  build (IBr cond_bb) ;;;
  position cond_bb ;;;
  has_row <-- build_call (RT RT_FETCH_CURSOR_ROW)
                [estate_ref; portal_val; const_int32 (Z.of_nat target_dno)];
  build (ICondBr has_row body_bb exit_bb) ;;;
  position body_bb ;;;
  build (IStore const_true found_ptr) ;;;
  e <-- get_env;
  set_return_bb for_return_bb ;;;
  upl_push_cleanup close_fn cleanup_args ;;;
  upl_push_loop label cond_bb exit_bb ;;;
  body ;;;
  upl_pop_loop ;;;
  upl_pop_cleanup ;;;
  set_return_bb (return_bb e) ;;;
  build (IBr cond_bb) ;;;
  position for_return_bb ;;;
  build_call_void (RT close_fn) (estate_ref :: cleanup_args) ;;;
  build (IBr (return_bb e)) ;;;
  position exit_bb ;;;
  build_call_void (RT close_fn) (estate_ref :: cleanup_args) ;;;
  found_val <-- build_value (fun r => ILoad r found_ptr);
  pl <-- ctx_plstate;
  call_exec_void FN_exec_set_found [pl; found_val] ;;;
  build (IBr cont_bb) ;;;
  position cont_bb.

(** "Phase 5d": while the body is compiled, a loop variable that is a plain record
    without an expanded record has a temporary one with the columns of the query. *)
Definition with_record_shapes (shapes : list (nat * TupleDesc)) : emit unit :=
  set_env (fun e => mk_cenv (return_bb e) (rc_ptr e) (plstate e) (loop_stack e) (cleanup_stack e)
                      (cleanup_depth e) (native_arrays e) shapes).
Definition record_shape (e : cenv) (dno : nat) : option TupleDesc :=
  snd <$> List.find (fun p => Nat.eqb p.1 dno) (record_shapes e).
Definition temporary_shape (e : cenv) (target_dno : nat) (query : UPLpgSQL_expr) : option TupleDesc :=
  match func_datums !! target_dno, record_shape e target_dno with
  | Some (DTYPE_REC rec), None => if (rectypeid rec =? RECORDOID)%Z then query_result_desc query else None
  | _, _ => None
  end.
Definition with_temporary_record (target_dno : nat) (query : UPLpgSQL_expr) (body : emit unit) : emit unit :=
  e <-- get_env;
  match temporary_shape e target_dno query with
  | Some tupdesc =>
      with_record_shapes ((target_dno, tupdesc) :: record_shapes e) ;;;
      body ;;;
      with_record_shapes (record_shapes e)
  | None => body
  end.

Definition compile_fors (s : UPLpgSQL_stmt_fors UPLpgSQL_stmt) (body : emit unit) : emit unit :=
  compile_row_loop "fors" RT_OPEN_QUERY_CURSOR (VExpr (fors_query s)) RT_CLOSE_PORTAL []
    (forq_label (fors_q s)) (forq_var (fors_q s))
    (with_temporary_record (forq_var (fors_q s)) (fors_query s) body).

Definition compile_forc (stmt : UPLpgSQL_stmt) (s : UPLpgSQL_stmt_forc UPLpgSQL_stmt)
    (body : emit unit) : emit unit :=
  compile_row_loop "forc" RT_OPEN_FORC_CURSOR (VStmt stmt) RT_CLOSE_FORC_CURSOR [OConst (VStmt stmt)]
    (forq_label (forc_q s)) (forq_var (forc_q s)) body.

Definition compile_dynfors (stmt : UPLpgSQL_stmt) (s : UPLpgSQL_stmt_dynfors UPLpgSQL_stmt)
    (body : emit unit) : emit unit :=
  compile_row_loop "dynfors" RT_OPEN_DYNFORS_CURSOR (VStmt stmt) RT_CLOSE_PORTAL []
    (forq_label (dynfors_q s)) (forq_var (dynfors_q s)) body.

(** [uplpgsql_compile_stmt] and [uplpgsql_compile_stmts]. *)
Fixpoint compile_stmt (stmt : UPLpgSQL_stmt) : emit unit :=
  let compile_stmts l := for_each compile_stmt l in
  build (IStoreErrStmt stmt) ;;;
  match stmt with
  | STMT_BLOCK _ b =>
      compile_block b (compile_stmts (blk_body b))
        match exceptions b with
        | Some ex => map (fun exc => compile_stmts (action exc)) (exc_list ex)
        | None => []
        end
  | STMT_RETURN _ _ => compile_return stmt
  | STMT_ASSIGN _ s => compile_assign s
  | STMT_IF _ s =>
      upl_emit_if callbacks (if_cond s) (compile_stmts (then_body s))
        (map (fun e => (elsif_cond e, compile_stmts (elsif_stmts e))) (elsif_list s))
        match else_body s with [] => None | _ => Some (compile_stmts (else_body s)) end
  | STMT_WHILE _ s =>
      upl_emit_cond_loop callbacks (while_label s) (while_cond s) (test_at_top s)
        (compile_stmts (while_body s))
  | STMT_LOOP _ s => upl_emit_loop (loop_label s) (compile_stmts (loop_body s))
  | STMT_FORI _ s =>
      upl_emit_fori callbacks (fori_label s) (fori_var s) (fori_lower s) (fori_upper s)
        (fori_step s) (fori_reverse s) (compile_stmts (fori_body s))
  | STMT_EXIT _ s => upl_emit_loop_exit callbacks (exit_label s) (is_exit s) (exit_cond s)
  | STMT_PERFORM _ _ => compile_by_call FN_exec_stmt_perform stmt
  | STMT_EXECSQL _ s => compile_execsql stmt s
  | STMT_RAISE _ _ => compile_by_call_void FN_exec_stmt_raise stmt
  | STMT_CASE h s =>
      upl_emit_case callbacks (t_expr s) (t_varno s)
        (map (fun w => (when_expr w, compile_stmts (when_stmts w))) (case_when_list s))
        (have_else s) (compile_stmts (else_stmts s)) (lineno h)
  | STMT_ASSERT _ s => compile_assert stmt s
  | STMT_OPEN _ _ => compile_by_call FN_exec_stmt_open stmt
  | STMT_FETCH _ _ => compile_by_call FN_exec_stmt_fetch stmt
  | STMT_CLOSE _ _ => compile_by_call FN_exec_stmt_close stmt
  | STMT_FORS _ s => compile_fors s (compile_stmts (forq_body (fors_q s)))
  | STMT_FORC _ s => compile_forc stmt s (compile_stmts (forq_body (forc_q s)))
  | STMT_DYNEXECUTE _ _ => compile_by_call FN_exec_stmt_dynexecute stmt
  | STMT_DYNFORS _ s => compile_dynfors stmt s (compile_stmts (forq_body (dynfors_q s)))
  | STMT_FOREACH_A _ _ => compile_by_call FN_exec_stmt_foreach_a stmt
  | STMT_RETURN_NEXT _ _ => compile_by_call FN_exec_stmt_return_next stmt
  | STMT_RETURN_QUERY _ _ => compile_by_call FN_exec_stmt_return_query stmt
  | STMT_CALL _ _ => compile_by_call FN_exec_stmt_call stmt
  | STMT_GETDIAG _ _ => compile_by_call_void FN_exec_stmt_getdiag stmt
  | STMT_COMMIT _ _ => compile_by_call_void FN_exec_stmt_commit stmt
  | STMT_ROLLBACK _ _ => compile_by_call_void FN_exec_stmt_rollback stmt
  end.

Definition compile_stmts (l : list UPLpgSQL_stmt) : emit unit := for_each compile_stmt l.

(** ** Functions *)

(** The allocas and initial stores of one native array. *)
Definition alloca_init (v : operand) : emit nat :=
  s <-- build_alloca; build (IStore v s) ;;; ret s.

Definition setup_native_array (na : UPLpgSQL_native_array) : emit native_slots :=
  data <-- alloca_init (OConst VNull);
  len <-- alloca_init (const_int32 0);
  lb <-- alloca_init (const_int32 1);
  nulls <-- alloca_init (OConst VNull);
  cap <-- alloca_init (const_int32 0);
  onheap <-- alloca_init (const_int32 0);
  ret (mk_native_slots na data len lb nulls cap onheap).

Fixpoint setup_native_arrays (nas : list UPLpgSQL_native_array) : emit (list native_slots) :=
  match nas with
  | [] => ret []
  | na :: nas' => s <-- setup_native_array na; rest <-- setup_native_arrays nas'; ret (s :: rest)
  end.

Definition setup_entry (nas : list UPLpgSQL_native_array) : emit unit :=
  r <-- fresh_reg;
  build (ILoadPlstate r) ;;;
  slots <-- setup_native_arrays nas;
  set_env (fun e => mk_cenv (return_bb e) (rc_ptr e) r (loop_stack e) (cleanup_stack e)
                      (cleanup_depth e) slots (record_shapes e)).

Definition compile_body (b : UPLpgSQL_stmt_block UPLpgSQL_stmt) : emit unit :=
  compile_block b (compile_stmts (blk_body b))
    match exceptions b with
    | Some ex => map (fun exc => compile_stmts (action exc)) (exc_list ex)
    | None => []
    end.
End driver.

Definition compile_function `{ExprCompiler} (get_element_type : Oid -> Oid)
    (func : UPLpgSQL_function) : result ir_function :=
  upl_compile_function UPLPGSQL_RC_OK
    (setup_entry (analyze_native_arrays get_element_type func))
    (compile_body (datums func) (fn_action func)).

(** An expression compiler that declines every expression, so that all of them
    go through the runtime. *)
Definition no_inlining : ExprCompiler := {|
  try_compile_bool := fun _ => ret None;
  try_compile_assign := fun _ => ret false;
  query_result_desc := fun _ => None
|}.
