(* ===== verification/ExprEmit.v ===== *)
(** * The expression compiler

    [common/upl_compile_expr.c]: loads and stores of variables, checked integer and
    float arithmetic, the tier 1 compilation of expression trees to values
    ([uplpgsql_compile_expr_datum]) and conditions ([uplpgsql_compile_expr_bool]) with
    its treatment of NULL ([tier1_expr_any_null]), the tier 2 calls of functions
    ([uplpgsql_compile_expr_fmgr_full]), and the two entry points, an instance of class
    [ExprCompiler]; and the assignments to arrays: array_fill expanded in place, element writes and
    reads of native and of other arrays. *)

From Stdlib Require Import ZArith Ascii SpecFloat.
From S2P Require Import Prelude Ast Escape Expr Float IR CoreEmit StmtEmit.

(** What is known at compile time: the function's variables, PostgreSQL's catalogue
    and functions evaluated at compile time, the native values of prepared queries.
    [ce_plan_sources e] are the plan sources of [e] prepared where it stands in the
    function, [ce_result_desc] the columns of a loop's query; [ce_lookup_field d name] is
    the index of a field in an expanded record with columns [d]. *)
Class CompileEnv := {
  ce_datums : list UPLpgSQL_datum;
  ce_plan_sources : UPLpgSQL_expr -> option (list (list Query));
  ce_result_desc : UPLpgSQL_expr -> option TupleDesc;
  ce_lookup_field : TupleDesc -> string -> option nat;
  ce_get_element_type : Oid -> Oid;
  ce_get_typlenbyvalalign : Oid -> Z * bool * Z;
  ce_get_typbyval : Oid -> bool;
  ce_oid_of : func_oid -> Oid;
  ce_numeric_float8 : Datum -> Datum;
  ce_datumCopy : Datum -> Datum;
  ce_has_polymorphic : func_oid -> bool;
  ce_fn_strict : func_oid -> bool;
  ce_get_func_name : func_oid -> option string
}.

Section expr.
Context `{CompileEnv}.

Definition build_op (op : llvm_op) (args : list operand) : emit operand :=
  build_value (fun r => IOp r op args).
(** An incoming edge of the phi [r]. *)
Definition incoming (r : nat) (v : operand) : emit unit := build (IOp r OpMove [v]).

Definition const_double (d : spec_float) : operand := OConst (VDouble d).
Definition dno_of (paramid : Z) : nat := Z.to_nat (paramid - 1).

(** ** Variables *)

Definition emit_load_var_datum (dno : nat) : emit operand := build_value (fun r => ILoadVarDatum r dno).

Definition emit_get_recfield (dno : nat) : emit operand :=
  build_call (RT RT_GET_RECFIELD) [estate_ref; const_int32 (Z.of_nat dno)].

(** The inline access to a field of a record whose structure is known. *)
Definition emit_recfield_fast (dno recno field : nat) : emit operand :=
  erh_ptr <-- build_value (fun r => ILoadErh r recno);
  cond_erh <-- build_op OpIsNotNull [erh_ptr];
  cond_flags <-- build_value (fun r => ILoadErhDvaluesValid r erh_ptr);
  cond <-- build_op OpAnd [cond_erh; cond_flags];
  bb_fast <-- append_block "rf.fast";
  bb_slow <-- append_block "rf.slow";
  bb_merge <-- append_block "rf.merge";
  phi <-- fresh_reg;
  build (ICondBr cond bb_fast bb_slow) ;;;
  position bb_fast ;;;
  field_datum <-- build_value (fun r => ILoadDvalue r erh_ptr field);
  incoming phi field_datum ;;;
  build (IBr bb_merge) ;;;
  position bb_slow ;;;
  slow_result <-- emit_get_recfield dno;
  incoming phi slow_result ;;;
  build (IBr bb_merge) ;;;
  position bb_merge ;;;
  ret (OReg phi).

(** A native array is marshalled before its variable is read as a whole. *)
Definition sync_if_native (dno : nat) : emit unit :=
  e <-- get_env;
  match find_native_slots (native_arrays e) dno with
  | Some na => emit_sync_native_array na
  | None => ret tt
  end.

Definition emit_load_param_datum (dno : nat) : emit operand :=
  sync_if_native dno ;;;
  match ce_datums !! dno with
  | Some (DTYPE_PROMISE _) => emit_get_recfield dno
  | Some (DTYPE_RECFIELD recfield) =>
      e <-- get_env;
      match record_shape e (recparentno recfield) ≫= (fun d => ce_lookup_field d (fieldname recfield)) with
      | Some field => emit_recfield_fast dno (recparentno recfield) field
      | None => emit_get_recfield dno
      end
  | _ => emit_load_var_datum dno
  end.

Definition emit_load_param_isnull (dno : nat) : emit operand :=
  match ce_datums !! dno with
  | Some (DTYPE_RECFIELD _ | DTYPE_PROMISE _) => ret const_false
  | _ =>
      sync_if_native dno ;;;
      isnull_raw <-- build_value (fun r => ILoadVarIsnull r dno);
      build_op OpTrunc1 [isnull_raw]
  end.

Definition emit_store_var_datum (dno : nat) (datum_val : operand) : emit unit :=
  build (IStoreVar dno datum_val const_false).
Definition emit_store_var_datum_isnull (dno : nat) (datum_val isnull_val : operand) : emit unit :=
  isnull_i8 <-- build_op OpZExt [isnull_val];
  build (IStoreVar dno datum_val isnull_i8).
Definition emit_store_var_null (dno : nat) : emit unit := build (IStoreVar dno (const_int32 0) const_true).

(** The constants that describe an array's type: the length of the array type, and
    type, length, by-value flag and alignment of its elements.  The C code takes the
    datum for a variable without looking at its kind. *)
Record ArrayTypeInfo := mk_ati {
  typlen_val : operand; elemtype_val : operand; elmlen_val : operand; elmbyval_val : operand;
  elmalign_val : operand
}.

Definition resolve_array_type_info (array_dno : nat) : emit ArrayTypeInfo :=
  match ce_datums !! array_dno with
  | Some (DTYPE_VAR arrayvar | DTYPE_PROMISE arrayvar) =>
      let elemtype := ce_get_element_type (typoid (var_datatype arrayvar)) in
      let '(elmlen, elmbyval, elmalign) := ce_get_typlenbyvalalign elemtype in
      ret (mk_ati (const_int32 (typlen (var_datatype arrayvar))) (const_int32 elemtype)
             (const_int32 elmlen) (if elmbyval : bool then const_true else const_false)
             (const_int32 elmalign))
  | _ => elog_error "wild pointer in resolve_array_type_info"
  end.

(** "Element [idx0] of this native array is NULL": there may be no flags at all. *)
Definition emit_native_array_elem_isnull (na : native_slots) (idx0 : operand) : emit operand :=
  nulls <-- build_value (fun r => ILoad r (nulls_ptr na));
  has_nulls <-- build_op OpIsNotNull [nulls];
  load_bb <-- append_block "na.nulls.load";
  done_bb <-- append_block "na.nulls.done";
  phi <-- fresh_reg;
  incoming phi const_false ;;;
  build (ICondBr has_nulls load_bb done_bb) ;;;
  position load_bb ;;;
  flag_raw <-- build_value (fun r => ILoadNullFlag r nulls idx0);
  flag <-- build_op OpTrunc1 [flag_raw];
  incoming phi flag ;;;
  build (IBr done_bb) ;;;
  position done_bb ;;;
  ret (OReg phi).

(** ** Errors *)

Definition emit_error_call (fn : err_fn) : emit unit :=
  build_call_void (ERROR fn) [] ;;; build IUnreachable.

(** Branch to the error block [bad] if [cond] holds, and go on in [good]. *)
Definition emit_error_branch (cond : operand) (bad good : nat) (fn : err_fn) : emit unit :=
  build (ICondBr cond bad good) ;;;
  position bad ;;;
  emit_error_call fn ;;;
  position good.

(** [emit_float_error_if], and the same sequence in the integer operations. *)
Definition emit_error_if (cond : operand) (fn : err_fn) (tag ok_tag : string) : emit unit :=
  err_bb <-- append_block tag;
  ok_bb <-- append_block ok_tag;
  emit_error_branch cond err_bb ok_bb fn.
Definition emit_float_error_if (cond : operand) (fn : err_fn) (tag : string) : emit unit :=
  emit_error_if cond fn tag "f8.ok".

(** ** Floats *)

Definition emit_float_isnan (v : operand) : emit operand := build_op (OpFCmp UNO) [v; v].
Definition emit_float_isinf (v : operand) : emit operand :=
  pos <-- build_op (OpFCmp OEQ) [v; const_double (double_infinity false)];
  neg <-- build_op (OpFCmp OEQ) [v; const_double (double_infinity true)];
  build_op OpOr [pos; neg].
Definition emit_float_iszero (v : operand) : emit operand :=
  build_op (OpFCmp OEQ) [v; const_double double_zero].

(** [r && (!a && !b)], each given by the code that tests it. *)
Definition emit_and_neither (test : operand -> emit operand) (result lhs rhs : operand) : emit operand :=
  r <-- test result;
  l <-- test lhs; l_not <-- build_op OpNot [l];
  r2 <-- test rhs; r_not <-- build_op OpNot [r2];
  both <-- build_op OpAnd [l_not; r_not];
  build_op OpAnd [r; both].

Definition emit_float_addsub (lhs rhs : operand) (is_add : bool) : emit operand :=
  result <-- build_op (if is_add then OpFAdd else OpFSub) [lhs; rhs];
  cond <-- emit_and_neither emit_float_isinf result lhs rhs;
  emit_float_error_if cond ERR_float_overflow_error "f8.ovf.err" ;;;
  ret result.

Definition emit_float_mul (lhs rhs : operand) : emit operand :=
  result <-- build_op OpFMul [lhs; rhs];
  ovf <-- emit_and_neither emit_float_isinf result lhs rhs;
  emit_float_error_if ovf ERR_float_overflow_error "f8.ovf.err" ;;;
  unf <-- emit_and_neither emit_float_iszero result lhs rhs;
  emit_float_error_if unf ERR_float_underflow_error "f8.unf.err" ;;;
  ret result.

Definition emit_float_div (lhs rhs : operand) : emit operand :=
  d_zero <-- emit_float_iszero rhs;
  l_nan <-- emit_float_isnan lhs; l_notnan <-- build_op OpNot [l_nan];
  divzero <-- build_op OpAnd [d_zero; l_notnan];
  emit_float_error_if divzero ERR_float_zero_divide_error "f8.div0.err" ;;;
  result <-- build_op OpFDiv [lhs; rhs];
  r_inf <-- emit_float_isinf result;
  l_inf <-- emit_float_isinf lhs; l_fin <-- build_op OpNot [l_inf];
  ovf <-- build_op OpAnd [r_inf; l_fin];
  emit_float_error_if ovf ERR_float_overflow_error "f8.ovf.err" ;;;
  r_zero <-- emit_float_iszero result;
  l_zero <-- emit_float_iszero lhs; l_nz <-- build_op OpNot [l_zero];
  r2_inf <-- emit_float_isinf rhs; r_fin <-- build_op OpNot [r2_inf];
  rest <-- build_op OpAnd [l_nz; r_fin];
  unf <-- build_op OpAnd [r_zero; rest];
  emit_float_error_if unf ERR_float_underflow_error "f8.unf.err" ;;;
  ret result.

Definition emit_float_cmp (fid : func_oid) (lhs rhs : operand) : emit operand :=
  l_nan <-- emit_float_isnan lhs;
  r_nan <-- emit_float_isnan rhs;
  l_ok <-- build_op OpNot [l_nan];
  r_ok <-- build_op OpNot [r_nan];
  match fid with
  | F_FLOAT8EQ =>
      c <-- build_op (OpFCmp OEQ) [lhs; rhs]; x <-- build_op OpAnd [r_ok; c];
      build_op OpSelect [l_nan; r_nan; x]
  | F_FLOAT8NE =>
      c <-- build_op (OpFCmp ONE) [lhs; rhs]; x <-- build_op OpOr [r_nan; c];
      build_op OpSelect [l_nan; r_ok; x]
  | F_FLOAT8LT =>
      c <-- build_op (OpFCmp OLT) [lhs; rhs]; x <-- build_op OpOr [r_nan; c];
      build_op OpAnd [l_ok; x]
  | F_FLOAT8LE =>
      c <-- build_op (OpFCmp OLE) [lhs; rhs]; x <-- build_op OpAnd [l_ok; c];
      build_op OpOr [r_nan; x]
  | F_FLOAT8GT =>
      c <-- build_op (OpFCmp OGT) [lhs; rhs]; x <-- build_op OpOr [l_nan; c];
      build_op OpAnd [r_ok; x]
  | F_FLOAT8GE =>
      c <-- build_op (OpFCmp OGE) [lhs; rhs]; x <-- build_op OpAnd [r_ok; c];
      build_op OpOr [l_nan; x]
  | _ => elog_error "uplpgsql: unhandled float8 comparison funcid"
  end.

(** ** Integers *)

Definition const_min (w : int_width) : operand :=
  const_int32 (match w with I32 => PG_INT32_MIN | I64 => PG_INT64_MIN end).

Definition emit_int_arith_checked (op : arith_op) (w : int_width) (lhs rhs : operand) : emit operand :=
  value <-- build_op (OpArith op w) [lhs; rhs];
  overflow <-- build_op (OpOverflow op w) [lhs; rhs];
  emit_error_if overflow ERR_rt_int_overflow "ovf.error" "ovf.ok" ;;;
  ret value.

(** The quotient, after the test for the one that overflows. *)
Definition emit_int_div (w : int_width) (lhs rhs : operand) : emit operand :=
  ovf_bb <-- append_block "div.ovf";
  div_bb <-- append_block "div.do";
  is_min <-- build_op (OpICmp EQ) [lhs; const_min w];
  is_neg1 <-- build_op (OpICmp EQ) [rhs; const_int32 (-1)];
  is_ovf <-- build_op OpAnd [is_min; is_neg1];
  emit_error_branch is_ovf ovf_bb div_bb ERR_rt_int_overflow ;;;
  build_op (OpSDiv w) [lhs; rhs].

(** The remainder, with a divisor that is never -1. *)
Definition emit_int_mod (w : int_width) (lhs rhs : operand) : emit operand :=
  is_neg1 <-- build_op (OpICmp EQ) [rhs; const_int32 (-1)];
  safe_rhs <-- build_op OpSelect [is_neg1; const_int32 1; rhs];
  rem <-- build_op (OpSRem w) [lhs; safe_rhs];
  build_op OpSelect [is_neg1; const_int32 0; rem].

Definition emit_int_divmod (w : int_width) (is_div : bool) (lhs rhs : operand) : emit operand :=
  zero_bb <-- append_block "div.zero";
  check_bb <-- append_block "div.check";
  ok_bb <-- append_block "div.ok";
  cmp <-- build_op (OpICmp EQ) [rhs; const_int32 0];
  emit_error_branch cmp zero_bb check_bb ERR_rt_div_zero ;;;
  result <-- (if is_div then emit_int_div w lhs rhs else emit_int_mod w lhs rhs);
  phi <-- fresh_reg;
  incoming phi result ;;;
  build (IBr ok_bb) ;;;
  position ok_bb ;;;
  ret (OReg phi).

(** Blocks are created before the comparison is built. *)
Definition emit_int_min_check (w : int_width) (arg : operand) (tag ok_tag : string) : emit unit :=
  ovf_bb <-- append_block tag;
  ok_bb <-- append_block ok_tag;
  cmp <-- build_op (OpICmp EQ) [arg; const_min w];
  emit_error_branch cmp ovf_bb ok_bb ERR_rt_int_overflow.

Definition emit_int_negate (w : int_width) (arg : operand) : emit operand :=
  emit_int_min_check w arg "neg.ovf" "neg.ok" ;;;
  build_op (OpNeg w) [arg].

Definition emit_int_abs (w : int_width) (arg : operand) : emit operand :=
  emit_int_min_check w arg "abs.ovf" "abs.ok" ;;;
  neg <-- build_op (OpNeg w) [arg];
  cmp <-- build_op (OpICmp SGE) [arg; const_int32 0];
  build_op OpSelect [cmp; arg; neg].

(** ** Values

    The native value of an expression, in a register of its class. *)

(** A Datum taken to its native form: the switch on [*result_type] of parameters and
    array elements, and of [datum_to_native]. *)
Definition datum_value (datum : operand) (c : ExprTypeClass) (msg : string) : emit operand :=
  match c with
  | EXPR_TYPE_INT4 => build_op OpTrunc32 [datum]
  | EXPR_TYPE_INT8 => ret datum
  | EXPR_TYPE_FLOAT8 => build_op OpBitsToDouble [datum]
  | _ => elog_error msg
  end.
Definition datum_to_native (datum : operand) (c : ExprTypeClass) : emit operand :=
  datum_value datum c "uplpgsql: cannot convert Datum to type class".

Definition native_to_datum (val : operand) (c : ExprTypeClass) : emit operand :=
  match c with
  | EXPR_TYPE_INT4 => build_op OpSExt [val]
  | EXPR_TYPE_INT8 => ret val
  | EXPR_TYPE_FLOAT8 => build_op OpDoubleToBits [val]
  | _ => elog_error "uplpgsql: cannot convert type class to Datum"
  end.

(** An operand of a cross-type operator. *)
Definition widen (val : operand) (c : ExprTypeClass) : emit operand :=
  match c with EXPR_TYPE_INT4 => build_op OpSExt [val] | _ => ret val end.

Definition cross_arith (op : arith_op) (lhs rhs : operand) (ltype rtype : ExprTypeClass) : emit operand :=
  l <-- widen lhs ltype; r <-- widen rhs rtype; emit_int_arith_checked op I64 l r.

(** The binary operators. *)
Definition compile_binop (fid : func_oid) (lhs rhs : operand) (ltype rtype : ExprTypeClass) : emit operand :=
  match fid with
  | F_INT4PL => emit_int_arith_checked ADD I32 lhs rhs
  | F_INT4MI => emit_int_arith_checked SUB I32 lhs rhs
  | F_INT4MUL => emit_int_arith_checked MUL I32 lhs rhs
  | F_INT4DIV => emit_int_divmod I32 true lhs rhs
  | F_INT4MOD => emit_int_divmod I32 false lhs rhs
  | F_INT8PL => emit_int_arith_checked ADD I64 lhs rhs
  | F_INT8MI => emit_int_arith_checked SUB I64 lhs rhs
  | F_INT8MUL => emit_int_arith_checked MUL I64 lhs rhs
  | F_INT8DIV => emit_int_divmod I64 true lhs rhs
  | F_INT8MOD => emit_int_divmod I64 false lhs rhs
  | F_INT84PL | F_INT48PL => cross_arith ADD lhs rhs ltype rtype
  | F_INT84MI | F_INT48MI => cross_arith SUB lhs rhs ltype rtype
  | F_INT84MUL | F_INT48MUL => cross_arith MUL lhs rhs ltype rtype
  | F_INT84DIV | F_INT48DIV =>
      l <-- widen lhs ltype; r <-- widen rhs rtype; emit_int_divmod I64 true l r
  | F_FLOAT8PL => emit_float_addsub lhs rhs true
  | F_FLOAT8MI => emit_float_addsub lhs rhs false
  | F_FLOAT8MUL => emit_float_mul lhs rhs
  | F_FLOAT8DIV => emit_float_div lhs rhs
  | _ => elog_error "uplpgsql: unhandled OpExpr funcid in datum compilation"
  end.

Definition compile_unop (fid : func_oid) (arg : operand) : emit operand :=
  match fid with
  | F_INT4UM => emit_int_negate I32 arg
  | F_INT8UM => emit_int_negate I64 arg
  | F_FLOAT8UM => build_op OpFNeg [arg]
  | _ => elog_error "uplpgsql: unhandled OpExpr funcid in datum compilation"
  end.

Definition math_intrinsic (fid : func_oid) : math_fn :=
  match fid with
  | F_DSQRT | F_SQRT_FLOAT8 => SQRT
  | F_CEIL_FLOAT8 | F_CEILING_FLOAT8 => CEIL
  | F_FLOOR_FLOAT8 => FLOOR
  | F_DEXP | F_EXP_FLOAT8 => EXP
  | F_DLOG1 | F_LN_FLOAT8 => LOG
  | F_SIN => SIN
  | _ => COS
  end.

(** The functions of one argument. *)
Definition compile_func1 (fid : func_oid) (arg : operand) : emit operand :=
  match fid with
  | F_INT4ABS => emit_int_abs I32 arg
  | F_INT8ABS => emit_int_abs I64 arg
  | F_FLOAT8ABS =>
      neg <-- build_op OpFNeg [arg];
      cmp <-- build_op (OpFCmp OGE) [arg; const_double double_zero];
      build_op OpSelect [cmp; arg; neg]
  | F_FLOAT8_INT4 | F_FLOAT8_INT2 | F_FLOAT8_INT8 => build_op OpSIToFP [arg]
  | F_FLOAT8_FLOAT4 => build_op OpFPExt [arg]
  | _ => if is_float_math fid then build_op (OpMath (math_intrinsic fid)) [arg]
         else elog_error "uplpgsql: unhandled FuncExpr funcid in datum compilation"
  end.

(** Read an element with [RT_ARRAY_GET_ELEMENT]: its Datum, and the slot that
    receives its null flag. *)
Definition emit_array_get_element (array_dno : nat) (idx : operand) : emit (operand * nat) :=
  isnull_ptr <-- build_entry_alloca;
  info <-- resolve_array_type_info array_dno;
  d <-- build_call (RT RT_ARRAY_GET_ELEMENT)
    [estate_ref; const_int32 (Z.of_nat array_dno); idx; typlen_val info; elmlen_val info;
     elmbyval_val info; elmalign_val info; OConst (VSlot isnull_ptr)];
  ret (d, isnull_ptr).

(** The element at a subscript that is in range. *)
Definition emit_native_elem (na : native_slots) (idx : operand) : emit operand :=
  data <-- build_value (fun r => ILoad r (data_ptr na));
  lb <-- build_value (fun r => ILoad r (lb_ptr na));
  idx0 <-- build_op (OpArith SUB I32) [idx; lb];
  build_value (fun r => ILoadElem r (na_elemtype (ns_array na)) data idx0).

Definition array_element_value (datum : operand) (c : ExprTypeClass) : emit operand :=
  match c with
  | EXPR_TYPE_INT4 => build_op OpTrunc32 [datum]
  | EXPR_TYPE_INT8 => ret datum
  | EXPR_TYPE_FLOAT8 => build_op OpBitsToDouble [datum]
  | _ => build_op OpTrunc1 [datum]
  end.

(** What an array subscript reads. *)
Definition compile_element (array_dno : nat) (idx : operand) (c : ExprTypeClass) : emit operand :=
  e <-- get_env;
  match find_native_slots (native_arrays e) array_dno with
  | Some na => emit_native_elem na idx
  | None => p <-- emit_array_get_element array_dno idx; array_element_value p.1 c
  end.

(** A numeric constant under a cast to float8: its value and null flag.  The cast is
    evaluated at compile time. *)
Definition numeric_const (fid : func_oid) (args : list Expr) : option (Datum * bool) :=
  match fid, args with
  | F_FLOAT8_NUMERIC, Const _ _ v isnull :: _ => Some (v, isnull)
  | _, _ => None
  end.

Definition unhandled_datum_node {A} : emit A :=
  elog_error "uplpgsql: unhandled node type in datum compilation".

(** [uplpgsql_compile_expr_datum]: the value and [*result_type].  Looking at the first
    element of an empty argument list, which no parsed expression has, ends in the
    last case. *)
Fixpoint uplpgsql_compile_expr_datum (expr : Expr) : emit (operand * ExprTypeClass) :=
  let result_type := uplpgsql_classify_expr expr in
  let typed (m : emit operand) : emit (operand * ExprTypeClass) := v <-- m; ret (v, result_type) in
  match expr with
  | Const _ _ v _ =>
      match result_type with
      | EXPR_TYPE_INT4 => ret (const_int32 (wrap32 v), result_type)
      | EXPR_TYPE_INT8 => ret (const_int32 v, result_type)
      | EXPR_TYPE_FLOAT8 => ret (const_double (double_of_bits v), result_type)
      | _ => elog_error "uplpgsql: unexpected const type in datum compilation"
      end
  | Param _ id _ =>
      datum <-- emit_load_param_datum (dno_of id);
      typed (datum_value datum result_type "uplpgsql: unexpected param type in datum compilation")
  | OpExpr fid _ _ args =>
      match args with
      | [x; y] =>
          l <-- uplpgsql_compile_expr_datum x; r <-- uplpgsql_compile_expr_datum y;
          typed (compile_binop fid l.1 r.1 l.2 r.2)
      | [x] => a <-- uplpgsql_compile_expr_datum x; typed (compile_unop fid a.1)
      | _ => elog_error "uplpgsql: unhandled OpExpr funcid in datum compilation"
      end
  | FuncExpr fid _ _ args =>
      match numeric_const fid args with
      | Some (v, _) => ret (const_double (double_of_bits (ce_numeric_float8 v)), result_type)
      | None =>
          match args with
          | x :: y :: _ =>
              if is_pow fid
              then l <-- uplpgsql_compile_expr_datum x; r <-- uplpgsql_compile_expr_datum y;
                   typed (build_op (OpMath POW) [l.1; r.1])
              else a <-- uplpgsql_compile_expr_datum x; typed (compile_func1 fid a.1)
          | [x] => a <-- uplpgsql_compile_expr_datum x; typed (compile_func1 fid a.1)
          | [] => unhandled_datum_node
          end
      end
  | RelabelType arg => uplpgsql_compile_expr_datum arg
  | SubscriptingRef _ (Param _ id _) (idx :: _) _ _ =>
      i <-- uplpgsql_compile_expr_datum idx; typed (compile_element (dno_of id) i.1 result_type)
  | _ => unhandled_datum_node
  end.

(** ** Conditions *)

(** The integer predicate of a comparison, and whether its operands are of
    different width. *)
Definition int_predicate (fid : func_oid) : option (icmp_pred * bool) :=
  match fid with
  | F_INT4EQ | F_INT8EQ | F_BOOLEQ => Some (EQ, false)
  | F_INT4NE | F_INT8NE | F_BOOLNE => Some (NE, false)
  | F_INT4LT | F_INT8LT => Some (SLT, false)
  | F_INT4LE | F_INT8LE => Some (SLE, false)
  | F_INT4GT | F_INT8GT => Some (SGT, false)
  | F_INT4GE | F_INT8GE => Some (SGE, false)
  | F_INT84EQ | F_INT48EQ => Some (EQ, true)
  | F_INT84NE | F_INT48NE => Some (NE, true)
  | F_INT84LT | F_INT48LT => Some (SLT, true)
  | F_INT84LE | F_INT48LE => Some (SLE, true)
  | F_INT84GT | F_INT48GT => Some (SGT, true)
  | F_INT84GE | F_INT48GE => Some (SGE, true)
  | _ => None
  end.

Definition is_float_cmp (fid : func_oid) : bool :=
  match fid with
  | F_FLOAT8EQ | F_FLOAT8NE | F_FLOAT8LT | F_FLOAT8LE | F_FLOAT8GT | F_FLOAT8GE => true
  | _ => false
  end.
Definition is_bool_cmp (fid : func_oid) : bool :=
  match fid with F_BOOLEQ | F_BOOLNE => true | _ => false end.

Definition compile_int_cmp (p : icmp_pred) (is_cross_cmp : bool) (l r : operand * ExprTypeClass)
    : emit operand :=
  lhs <-- (if is_cross_cmp then widen l.1 l.2 else ret l.1);
  rhs <-- (if is_cross_cmp then widen r.1 r.2 else ret r.1);
  build_op (OpICmp p) [lhs; rhs].

Definition unhandled_bool_op {A} : emit A :=
  elog_error "uplpgsql: unhandled OpExpr funcid in bool compilation".

(** AND and OR fold their arguments into one value. *)
Section fold_bool.
Context (f : Expr -> emit operand) (op : llvm_op).
Fixpoint fold_bool (result : operand) (l : list Expr) : emit operand :=
  match l with
  | [] => ret result
  | x :: l' => arg <-- f x; result' <-- build_op op [result; arg]; fold_bool result' l'
  end.
End fold_bool.

Fixpoint uplpgsql_compile_expr_bool (expr : Expr) : emit operand :=
  match expr with
  | Const _ _ v _ => ret (if Z.eqb v 0 then const_false else const_true)
  | Param _ id _ => datum <-- emit_load_param_datum (dno_of id); build_op OpTrunc1 [datum]
  | OpExpr fid _ _ args =>
      match args with
      | x :: y :: _ =>
          if is_float_cmp fid
          then l <-- uplpgsql_compile_expr_datum x; r <-- uplpgsql_compile_expr_datum y;
               emit_float_cmp fid l.1 r.1
          else
            match int_predicate fid with
            | Some (p, cross) =>
                if is_bool_cmp fid
                then l <-- uplpgsql_compile_expr_bool x; r <-- uplpgsql_compile_expr_bool y;
                     build_op (OpICmp p) [l; r]
                else l <-- uplpgsql_compile_expr_datum x; r <-- uplpgsql_compile_expr_datum y;
                     compile_int_cmp p cross l r
            | None => unhandled_bool_op
            end
      | _ => unhandled_bool_op
      end
  | BoolExpr NOT_EXPR (x :: _) => arg <-- uplpgsql_compile_expr_bool x; build_op OpNot [arg]
  | BoolExpr AND_EXPR args => fold_bool uplpgsql_compile_expr_bool OpAnd const_true args
  | BoolExpr OR_EXPR args => fold_bool uplpgsql_compile_expr_bool OpOr const_false args
  | _ => elog_error "uplpgsql: unhandled node type in bool compilation"
  end.

(** ** NULL *)

(** OR two flags, either of which may be missing. *)
Definition or_flag (acc v : option operand) : emit (option operand) :=
  match acc, v with
  | _, None => ret acc
  | None, Some v => ret (Some v)
  | Some a, Some v => r <-- build_op OpOr [a; v]; ret (Some r)
  end.

Section fold_null.
Context (f : Expr -> emit (option operand)).
Fixpoint fold_null (acc : option operand) (l : list Expr) : emit (option operand) :=
  match l with
  | [] => ret acc
  | x :: l' => v <-- f x; acc' <-- or_flag acc v; fold_null acc' l'
  end.
End fold_null.

(** A subscript as i32. *)
Definition compile_subscript (idx : Expr) : emit operand :=
  i <-- uplpgsql_compile_expr_datum idx;
  match i.2 with EXPR_TYPE_INT8 => build_op OpTrunc32 [i.1] | _ => ret i.1 end.

(** Out of range, or NULL inside. *)
Definition native_elem_null (na : native_slots) (idx_expr : Expr) : emit operand :=
  idx <-- compile_subscript idx_expr;
  len <-- build_value (fun r => ILoad r (len_ptr na));
  lb <-- build_value (fun r => ILoad r (lb_ptr na));
  notflat <-- build_op (OpICmp SLT) [len; const_int32 0];
  below <-- build_op (OpICmp SLT) [idx; lb];
  oob <-- build_op OpOr [notflat; below];
  last_end <-- build_op (OpArith ADD I32) [lb; len];
  last <-- build_op (OpArith SUB I32) [last_end; const_int32 1];
  above <-- build_op (OpICmp SGT) [idx; last];
  oob2 <-- build_op OpOr [oob; above];
  idx0 <-- build_op (OpArith SUB I32) [idx; lb];
  elem_null <-- emit_native_array_elem_isnull na idx0;
  build_op OpOr [oob2; elem_null].

Definition array_elem_null (array_dno : nat) (idx_expr : Expr) : emit operand :=
  idx <-- compile_subscript idx_expr;
  p <-- emit_array_get_element array_dno idx;
  build_value (fun r => ILoad r p.2).

(** The variable and the subscript of a read a[i]. *)
Definition single_element (refexpr : Expr) (upper : list Expr) : option (nat * Expr) :=
  match refexpr, upper with Param _ id _, [idx] => Some (dno_of id, idx) | _, _ => None end.

Fixpoint tier1_expr_any_null (expr : Expr) : emit (option operand) :=
  match expr with
  | Const _ _ _ _ => ret None
  | Param _ id _ => v <-- emit_load_param_isnull (dno_of id); ret (Some v)
  | RelabelType arg => tier1_expr_any_null arg
  | SubscriptingRef _ refexpr upper lower _ =>
      e <-- get_env;
      let na := match single_element refexpr upper with Some (n, _) => find_native_slots (native_arrays e) n | None => None end in
      acc <-- (match na with Some _ => ret None | None => tier1_expr_any_null refexpr end);
      acc <-- fold_null tier1_expr_any_null acc upper;
      match single_element refexpr upper, na with
      | Some (_, idx), Some na => v <-- native_elem_null na idx; or_flag acc (Some v)
      | Some (n, idx), None =>
          match lower with
          | [] => v <-- array_elem_null n idx; or_flag acc (Some v)
          | _ => ret acc
          end
      | None, _ => ret acc
      end
  | OpExpr _ _ _ args | FuncExpr _ _ _ args => fold_null tier1_expr_any_null None args
  | _ => ret (Some const_true)
  end.

(** The zero of a class. *)
Definition null_of (c : ExprTypeClass) : operand :=
  match c with EXPR_TYPE_FLOAT8 => const_double double_zero | _ => const_int32 0 end.

(** The value, computed only where it is not NULL, and the flag. *)
Definition tier1_compile_value_guarded (val_expr : Expr) (val_class : ExprTypeClass)
    : emit (operand * ExprTypeClass * option operand) :=
  isnull_out <-- tier1_expr_any_null val_expr;
  match isnull_out with
  | None => v <-- uplpgsql_compile_expr_datum val_expr; ret (v.1, v.2, None)
  | Some flag =>
      compute_bb <-- append_block "t1.val.compute";
      join_bb <-- append_block "t1.val.done";
      phi <-- fresh_reg;
      incoming phi (null_of val_class) ;;;
      build (ICondBr flag join_bb compute_bb) ;;;
      position compute_bb ;;;
      computed <-- uplpgsql_compile_expr_datum val_expr;
      incoming phi computed.1 ;;;
      build (IBr join_bb) ;;;
      position join_bb ;;;
      ret (OReg phi, computed.2, Some flag)
  end.

Definition emit_set_subscript_null_check (idx_expr : Expr) : emit unit :=
  idx_isnull <-- tier1_expr_any_null idx_expr;
  match idx_isnull with
  | None => ret tt
  | Some flag => emit_error_if flag ERR_rt_array_subscript_null "na.set.idxnull" "na.set.idxok"
  end.

(** ** Tier 2: calls of the functions behind operators *)

(** [fmgr_load_arg_datum] for constants. *)
Definition const_datum (byval : bool) (v : Datum) (isnull : bool) : operand :=
  if isnull then const_int32 0 else const_int32 (if byval then v else ce_datumCopy v).
Definition const_bool (b : bool) : operand := if b then const_true else const_false.

Abbreviation datum_null := (operand * operand)%type.

(** The three-valued fold of AND and OR: the value, whether an argument was NULL,
    whether one decided the result. *)
Section fold_3vl.
Context (f : Expr -> emit (option datum_null)) (is_and : bool).
Fixpoint fold_3vl (result any_null decided : operand) (l : list Expr)
    : emit (option (operand * operand * operand)) :=
  match l with
  | [] => ret (Some (result, any_null, decided))
  | x :: l' =>
      r <-- f x;
      match r with
      | None => ret None
      | Some (arg, arg_isnull) =>
          b1 <-- build_op OpTrunc1 [arg];
          result' <-- build_op (if is_and then OpAnd else OpOr) [result; b1];
          any_null' <-- build_op OpOr [any_null; arg_isnull];
          notnull <-- build_op OpNot [arg_isnull];
          known <-- (if is_and then isfalse <-- build_op OpNot [b1]; build_op OpAnd [notnull; isfalse]
                     else build_op OpAnd [notnull; b1]);
          decided' <-- build_op OpOr [decided; known];
          fold_3vl result' any_null' decided' l'
      end
  end.
End fold_3vl.

(** The arguments of a call, in order, until one cannot be compiled. *)
Section fmgr_args.
Context (f : Expr -> emit (option datum_null)).
Fixpoint compile_fmgr_args (l : list Expr) : emit (option (list datum_null)) :=
  match l with
  | [] => ret (Some [])
  | x :: l' =>
      r <-- f x;
      match r with
      | None => ret None
      | Some a => rest <-- compile_fmgr_args l';
                  ret (match rest with Some l => Some (a :: l) | None => None end)
      end
  end.
End fmgr_args.

Fixpoint or_all (acc : operand) (l : list datum_null) : emit operand :=
  match l with
  | [] => ret acc
  | a :: l' => acc' <-- build_op OpOr [acc; a.2]; or_all acc' l'
  end.

(** The call itself, with [fcinfo->isnull] reset before and read back after. *)
Definition emit_fmgr_call (fid : func_oid) (collation : Oid) (args : list datum_null) : emit datum_null :=
  r <-- fresh_reg;
  raw <-- fresh_reg;
  build (ICallFmgr r raw fid collation args) ;;;
  isnull <-- build_op OpTrunc1 [OReg raw];
  ret (OReg r, isnull).

(** A strict function is not called on NULL. *)
Definition emit_strict_call (fid : func_oid) (collation : Oid) (args : list datum_null) : emit datum_null :=
  call_bb <-- append_block "fmgr.strict.call";
  skip_bb <-- append_block "fmgr.strict.skip";
  merge_bb <-- append_block "fmgr.strict.merge";
  any_null <-- or_all const_false args;
  result_phi <-- fresh_reg;
  isnull_phi <-- fresh_reg;
  build (ICondBr any_null skip_bb call_bb) ;;;
  position skip_bb ;;;
  incoming result_phi (const_int32 0) ;;;
  incoming isnull_phi const_true ;;;
  build (IBr merge_bb) ;;;
  position call_bb ;;;
  r <-- emit_fmgr_call fid collation args;
  incoming result_phi r.1 ;;;
  incoming isnull_phi r.2 ;;;
  build (IBr merge_bb) ;;;
  position merge_bb ;;;
  ret (OReg result_phi, OReg isnull_phi).

(** A call once its arguments are compiled; the call's argument block is allocated
    and initialised in the entry block. *)
Definition compile_fmgr_call (fid : func_oid) (collation : Oid) (m : emit (option (list datum_null)))
    : emit (option datum_null) :=
  if ce_has_polymorphic fid then ret None
  else
    build_entry_alloca ;;;
    args <-- m;
    match args with
    | None => ret None
    | Some args =>
        r <-- (if ce_fn_strict fid && (0 <? length args) then emit_strict_call fid collation args
               else emit_fmgr_call fid collation args);
        ret (Some r)
    end.

(** [uplpgsql_compile_expr_fmgr_full] as its callers use it, asking for the null flag. *)
Fixpoint uplpgsql_compile_expr_fmgr_full (expr : Expr) : emit (option datum_null) :=
  match expr with
  | Const _ byval v isnull => ret (Some (const_datum byval v isnull, const_bool isnull))
  | Param _ id _ =>
      isnull <-- emit_load_param_isnull (dno_of id);
      datum <-- emit_load_param_datum (dno_of id);
      ret (Some (datum, isnull))
  | RelabelType arg => uplpgsql_compile_expr_fmgr_full arg
  | BoolExpr NOT_EXPR (x :: _) =>
      r <-- uplpgsql_compile_expr_fmgr_full x;
      match r with
      | None => ret None
      | Some (arg, arg_isnull) =>
          b1 <-- build_op OpTrunc1 [arg];
          notv <-- build_op OpNot [b1];
          d <-- build_op OpZExt [notv];
          ret (Some (d, arg_isnull))
      end
  | BoolExpr NOT_EXPR [] => elog_error "uplpgsql: unhandled BoolExpr type"
  | BoolExpr o args =>
      let is_and := match o with AND_EXPR => true | _ => false end in
      r <-- fold_3vl uplpgsql_compile_expr_fmgr_full is_and (const_bool is_and) const_false const_false args;
      match r with
      | None => ret None
      | Some (result, any_null, decided) =>
          undec <-- build_op OpNot [decided];
          isnull <-- build_op OpAnd [any_null; undec];
          d <-- build_op OpZExt [result];
          ret (Some (d, isnull))
      end
  | OpExpr fid _ coll args =>
      compile_fmgr_call fid coll (compile_fmgr_args uplpgsql_compile_expr_fmgr_full args)
  | FuncExpr fid _ coll args =>
      match numeric_const fid args with
      | Some (v, isnull) =>
          ret (Some (if isnull then const_int32 0 else const_int32 (ce_numeric_float8 v), const_bool isnull))
      | None => compile_fmgr_call fid coll (compile_fmgr_args uplpgsql_compile_expr_fmgr_full args)
      end
  | _ => elog_error "uplpgsql: unhandled node type in fmgr compilation"
  end.

(** ** Entry points *)

(** An evaluation bracketed by an allocation scope, if it needs one. *)
Definition scope_enter (scoped : bool) : emit (option operand) :=
  if scoped then old <-- build_call (RT RT_ALLOC_SCOPE_ENTER) [estate_ref]; ret (Some old) else ret None.
Definition scope_exit (old : option operand) : emit unit :=
  match old with
  | Some old => build_call_void (RT RT_ALLOC_SCOPE_EXIT) [estate_ref; old]
  | None => ret tt
  end.

Definition wants_alloc_scope (expr : Expr) : emit bool :=
  e <-- get_env;
  ret (fmgr_expr_wants_alloc_scope ce_get_typbyval
         (fun n => match find_native_slots (native_arrays e) n with Some _ => true | None => false end) expr).

Definition tier1_store (varno : nat) (expr : Expr) : emit unit :=
  r <-- uplpgsql_compile_expr_datum expr;
  datum_val <-- native_to_datum r.1 r.2;
  emit_store_var_datum varno datum_val.

(** Tier 1: computed only if no leaf is NULL; otherwise NULL is stored. *)
Definition tier1_assign (varno : nat) (expr : Expr) : emit unit :=
  any_null <-- tier1_expr_any_null expr;
  match any_null with
  | None => tier1_store varno expr
  | Some flag =>
      compute_bb <-- append_block "t1.notnull";
      null_bb <-- append_block "t1.null";
      merge_bb <-- append_block "t1.done";
      build (ICondBr flag null_bb compute_bb) ;;;
      position compute_bb ;;;
      tier1_store varno expr ;;;
      build (IBr merge_bb) ;;;
      position null_bb ;;;
      emit_store_var_null varno ;;;
      build (IBr merge_bb) ;;;
      position merge_bb
  end.

(** Tier 2, for targets passed by value. *)
Definition tier2_assign_byval (varno : nat) (expr : Expr) : emit bool :=
  scoped <-- wants_alloc_scope expr;
  old <-- scope_enter scoped;
  r <-- uplpgsql_compile_expr_fmgr_full expr;
  match r with
  | Some (datum_val, isnull_val) =>
      emit_store_var_datum_isnull varno datum_val isnull_val ;;; scope_exit old ;;; ret true
  | None => scope_exit old ;;; ret false
  end.

(** Tier 2, for targets passed by reference: the value is copied. *)
Definition tier2_assign_byref (varno : nat) (expr : Expr) : emit bool :=
  scoped <-- wants_alloc_scope expr;
  old <-- scope_enter scoped;
  r <-- uplpgsql_compile_expr_fmgr_full expr;
  match r with
  | Some (datum_val, isnull_val) =>
      isnull_i8 <-- build_op OpZExt [isnull_val];
      let args := [estate_ref; const_int32 (Z.of_nat varno); datum_val; isnull_i8] in
      match old with
      | Some old => build_call_void (RT RT_COPY_ASSIGN_VAR_DATUM_SCOPED) (args ++ [old])
      | None => build_call_void (RT RT_COPY_ASSIGN_VAR_DATUM) args
      end ;;;
      refresh_dno varno ;;;
      ret true
  | None => scope_exit old ;;; ret false
  end.

Definition tier2_assign (varno : nat) (byval : bool) (expr : Expr) : emit bool :=
  if uplpgsql_can_fmgr_compile ce_oid_of expr
  then if byval then tier2_assign_byval varno expr else tier2_assign_byref varno expr
  else ret false.

Definition prepared (e : UPLpgSQL_expr) : option Expr := uplpgsql_prepare_and_get_expr (ce_plan_sources e).

Definition tier1_class (expr : Expr) (target : ExprTypeClass) : bool :=
  let c := uplpgsql_classify_expr expr in
  negb (bool_decide (c = EXPR_TYPE_UNKNOWN)) && bool_decide (c = target).

(** ** Native arrays: creation and element writes

    The last part of [uplpgsql_try_compile_assign]. *)

(** The call array_fill(value, ARRAY[n], ...): the value and [n]. *)
Definition array_fill_args (expr : Expr) : option (Expr * Expr) :=
  match expr with
  | FuncExpr f _ _ (fill_arg :: ArrayExpr [size_arg] :: _) =>
      match ce_get_func_name f with
      | Some name => if String.eqb name "array_fill" then Some (fill_arg, size_arg) else None
      | None => None
      end
  | _ => None
  end.

(** The value of an argument of array_fill: of a class in [ok], or any parameter. *)
Definition fill_operand (ok : ExprTypeClass -> bool) (e : Expr) : emit (option (operand * ExprTypeClass)) :=
  if ok (uplpgsql_classify_expr e) || is_param_extern e
  then v <-- uplpgsql_compile_expr_datum e; ret (Some v)
  else ret None.

Definition NATIVE_ARRAY_STACK_THRESHOLD : Z := 4096.

(** The flat memory: on the stack up to [NATIVE_ARRAY_STACK_THRESHOLD] bytes, else from
    [uplpgsql_rt_native_array_alloc]. *)
Definition emit_native_alloc (na : native_slots) (n_val : operand) : emit operand :=
  n64 <-- build_op OpSExt [n_val];
  byte_size <-- build_op (OpArith MUL I64) [n64; const_int32 (na_elem_size (ns_array na))];
  use_stack <-- build_op (OpICmp SLE) [byte_size; const_int32 NATIVE_ARRAY_STACK_THRESHOLD];
  stack_bb <-- append_block "na.stack";
  heap_bb <-- append_block "na.heap";
  merge_bb <-- append_block "na.merge";
  data_phi <-- fresh_reg;
  build (ICondBr use_stack stack_bb heap_bb) ;;;
  position stack_bb ;;;
  stack_bytes <-- build_op OpTrunc32 [byte_size];
  stack_ptr <-- build_value (fun r => IArrayAlloca r stack_bytes);
  build (IMemSetZero stack_ptr byte_size) ;;;
  incoming data_phi stack_ptr ;;;
  build (IBr merge_bb) ;;;
  position heap_bb ;;;
  heap_ptr <-- build_call (RT RT_NATIVE_ARRAY_ALLOC) [estate_ref; byte_size];
  incoming data_phi heap_ptr ;;;
  build (IBr merge_bb) ;;;
  position merge_bb ;;;
  build (IStore (OReg data_phi) (data_ptr na)) ;;;
  build (IStore n_val (cap_ptr na)) ;;;
  onheap1 <-- build_op OpNot [use_stack];
  onheap <-- build_op OpZExt [onheap1];
  build (IStore onheap (is_heap_ptr na)) ;;;
  ret (OReg data_phi).

(** The fill value as an element. *)
Definition fill_cast (v : operand) (c : ExprTypeClass) (elemtype : Oid) : emit operand :=
  if class_is c EXPR_TYPE_INT4 && (elemtype =? INT8OID)%Z then build_op OpSExt [v]
  else if class_is c EXPR_TYPE_INT8 && (elemtype =? INT4OID)%Z then build_op OpTrunc32 [v]
  else ret v.

(** for (i = 0; i < n; i++) data[i] = val *)
Definition emit_fill_loop (na : native_slots) (data n_val fill_val : operand) : emit unit :=
  let ty := na_elemtype (ns_array na) in
  fill_cond_bb <-- append_block "na.fill.cond";
  fill_body_bb <-- append_block "na.fill.body";
  fill_done_bb <-- append_block "na.fill.done";
  idx_ptr <-- build_alloca;
  build (IStore (const_int32 0) idx_ptr) ;;;
  build (IBr fill_cond_bb) ;;;
  position fill_cond_bb ;;;
  idx <-- build_value (fun r => ILoad r idx_ptr);
  cmp <-- build_op (OpICmp SLT) [idx; n_val];
  build (ICondBr cmp fill_body_bb fill_done_bb) ;;;
  position fill_body_bb ;;;
  byte_off <-- build_op (OpArith MUL I32) [idx; const_int32 (na_elem_size (ns_array na))];
  gep_idx <-- build_op OpSExt [byte_off];
  build (IStoreAt ty fill_val data gep_idx) ;;;
  next <-- build_op (OpArith ADD I32) [idx; const_int32 1];
  build (IStore next idx_ptr) ;;;
  build (IBr fill_cond_bb) ;;;
  position fill_done_bb.

(** A native array is assigned something other than an element write: array_fill is
    expanded in place.  [false] is the jump to [not_native_init]. *)
Definition native_init (na : native_slots) (expr : Expr) : emit bool :=
  match array_fill_args expr with
  | None => ret false
  | Some (fill_arg, size_arg) =>
      n <-- fill_operand (fun c => class_is c EXPR_TYPE_INT4) size_arg;
      match n with
      | None => ret false
      | Some (n_val, _) =>
          v <-- fill_operand value_class fill_arg;
          match v with
          | None => ret false
          | Some (fill_val, fill_class) =>
              build (IStore n_val (len_ptr na)) ;;;
              build (IStore (const_int32 1) (lb_ptr na)) ;;;
              build (IStore (OConst VNull) (nulls_ptr na)) ;;;
              data <-- emit_native_alloc na n_val;
              fill_val <-- fill_cast fill_val fill_class (na_elemtype (ns_array na));
              emit_fill_loop na data n_val fill_val ;;;
              ret true
          end
      end
  end.

(** "This flag does not hold" as one more condition, when there is a flag. *)
Definition and_not (cond : operand) (flag : option operand) : emit operand :=
  match flag with
  | None => ret cond
  | Some fl => nn <-- build_op OpNot [fl]; build_op OpAnd [cond; nn]
  end.

(** Element [idx0] now has a value: clear its flag, if there are flags. *)
Definition emit_clear_null (na : native_slots) (idx0 : operand) (clr stored : string) : emit unit :=
  nulls <-- build_value (fun r => ILoad r (nulls_ptr na));
  has <-- build_op OpIsNotNull [nulls];
  clr_bb <-- append_block clr;
  after_bb <-- append_block stored;
  build (ICondBr has clr_bb after_bb) ;;;
  position clr_bb ;;;
  build (IStoreNullFlag (const_int32 0) nulls idx0) ;;;
  build (IBr after_bb) ;;;
  position after_bb.

(** "In range": the array is flat and lb <= idx <= lb + len - 1. *)
Definition emit_in_range (len lb idx : operand) (val_isnull : option operand) : emit operand :=
  flat <-- build_op (OpICmp SGE) [len; const_int32 0];
  ge_lb <-- build_op (OpICmp SGE) [idx; lb];
  lo <-- build_op OpAnd [flat; ge_lb];
  na_end <-- build_op (OpArith ADD I32) [lb; len];
  last <-- build_op (OpArith SUB I32) [na_end; const_int32 1];
  le_hi <-- build_op (OpICmp SLE) [idx; last];
  ok <-- build_op OpAnd [lo; le_hi];
  and_not ok val_isnull.

(** "Append": the array is flat and idx = lb + len. *)
Definition emit_is_append (len lb idx : operand) (val_isnull : option operand) : emit operand :=
  flat <-- build_op (OpICmp SGE) [len; const_int32 0];
  next <-- build_op (OpArith ADD I32) [lb; len];
  at_end <-- build_op (OpICmp EQ) [idx; next];
  app <-- build_op OpAnd [flat; at_end];
  and_not app val_isnull.

Definition emit_array_set_element (array_dno : nat) (idx datum isnull : operand) : emit unit :=
  info <-- resolve_array_type_info array_dno;
  build_call_void (RT RT_ARRAY_SET_ELEMENT)
    [estate_ref; const_int32 (Z.of_nat array_dno); idx; datum; isnull; typlen_val info;
     elemtype_val info; elmlen_val info; elmbyval_val info; elmalign_val info].

Definition flag_or_false (flag : option operand) : operand :=
  match flag with Some fl => fl | None => const_false end.

(** The three stores: in place, *)
Definition emit_set_fast (na : native_slots) (idx lb val : operand) : emit unit :=
  data <-- build_value (fun r => ILoad r (data_ptr na));
  idx0 <-- build_op (OpArith SUB I32) [idx; lb];
  build (IStoreElem (na_elemtype (ns_array na)) val data idx0) ;;;
  emit_clear_null na idx0 "na.set.clrnull" "na.set.stored".

(** after the last element, with the array grown before when it is full, *)
Definition emit_set_grow (na : native_slots) (len : operand) : emit unit :=
  build_call_void (RT RT_NATIVE_ARRAY_RESERVE)
    [estate_ref; OConst (VSlot (data_ptr na)); OConst (VSlot (nulls_ptr na));
     OConst (VSlot (is_heap_ptr na)); OConst (VSlot (cap_ptr na)); len;
     const_int32 (na_elem_size (ns_array na))].
Definition emit_set_append (na : native_slots) (len val : operand) : emit unit :=
  adata <-- build_value (fun r => ILoad r (data_ptr na));
  build (IStoreElem (na_elemtype (ns_array na)) val adata len) ;;;
  emit_clear_null na len "na.app.clrnull" "na.app.stored" ;;;
  newlen <-- build_op (OpArith ADD I32) [len; const_int32 1];
  build (IStore newlen (len_ptr na)).

(** or by [RT_ARRAY_SET_ELEMENT] between a sync and a refresh. *)
Definition emit_set_slow (na : native_slots) (array_dno : nat) (idx val : operand)
    (val_class : ExprTypeClass) (val_isnull : option operand) : emit unit :=
  emit_sync_native_array na ;;;
  datum_val <-- native_to_datum val val_class;
  emit_array_set_element array_dno idx datum_val (flag_or_false val_isnull) ;;;
  emit_refresh_native_array na.

(** The store of a value at a subscript. *)
Definition emit_native_set (na : native_slots) (array_dno : nat) (idx val : operand)
    (val_class : ExprTypeClass) (val_isnull : option operand) : emit unit :=
  len <-- build_value (fun r => ILoad r (len_ptr na));
  lb <-- build_value (fun r => ILoad r (lb_ptr na));
  in_range <-- emit_in_range len lb idx val_isnull;
  fast_bb <-- append_block "na.set.fast";
  miss_bb <-- append_block "na.set.miss";
  append_bb <-- append_block "na.set.append";
  grow_bb <-- append_block "na.set.grow";
  appstore_bb <-- append_block "na.set.appstore";
  slow_bb <-- append_block "na.set.slow";
  done_bb <-- append_block "na.set.done";
  build (ICondBr in_range fast_bb miss_bb) ;;;
  position miss_bb ;;;
  is_append <-- emit_is_append len lb idx val_isnull;
  build (ICondBr is_append append_bb slow_bb) ;;;
  position append_bb ;;;
  cap <-- build_value (fun r => ILoad r (cap_ptr na));
  need_grow <-- build_op (OpICmp SGE) [len; cap];
  build (ICondBr need_grow grow_bb appstore_bb) ;;;
  position grow_bb ;;;
  emit_set_grow na len ;;;
  build (IBr appstore_bb) ;;;
  position appstore_bb ;;;
  emit_set_append na len val ;;;
  build (IBr done_bb) ;;;
  position fast_bb ;;;
  emit_set_fast na idx lb val ;;;
  build (IBr done_bb) ;;;
  position slow_bb ;;;
  emit_set_slow na array_dno idx val val_class val_isnull ;;;
  build (IBr done_bb) ;;;
  position done_bb.

(** a[i] := value of an array that is not native, the value in tier 1. *)
Definition standard_set (array_dno : nat) (idx_expr val_expr : Expr) : emit bool :=
  let val_class := uplpgsql_classify_expr val_expr in
  if class_is val_class EXPR_TYPE_UNKNOWN then ret false
  else
    emit_set_subscript_null_check idx_expr ;;;
    idx <-- uplpgsql_compile_expr_datum idx_expr;
    r <-- tier1_compile_value_guarded val_expr val_class;
    val_datum <-- native_to_datum r.1.1 r.1.2;
    emit_array_set_element array_dno idx.1 val_datum (flag_or_false r.2) ;;;
    ret true.

(** a[i] := value of a native array. *)
Definition native_set (na : native_slots) (array_dno : nat) (idx_expr val_expr : Expr) : emit bool :=
  let val_class := uplpgsql_classify_expr val_expr in
  if negb (class_is val_class EXPR_TYPE_UNKNOWN) then
    emit_set_subscript_null_check idx_expr ;;;
    idx <-- uplpgsql_compile_expr_datum idx_expr;
    r <-- tier1_compile_value_guarded val_expr val_class;
    emit_native_set na array_dno idx.1 r.1.1 r.1.2 r.2 ;;;
    ret true
  else if uplpgsql_can_fmgr_compile ce_oid_of val_expr then
    let val_class := elemtype_to_class (na_elemtype (ns_array na)) in
    if class_is val_class EXPR_TYPE_UNKNOWN then standard_set array_dno idx_expr val_expr
    else
      emit_set_subscript_null_check idx_expr ;;;
      idx <-- uplpgsql_compile_expr_datum idx_expr;
      scoped <-- wants_alloc_scope val_expr;
      old <-- scope_enter scoped;
      r <-- uplpgsql_compile_expr_fmgr_full val_expr;
      match r with
      | None => scope_exit old ;;; standard_set array_dno idx_expr val_expr
      | Some (datum, isnull) =>
          val <-- datum_to_native datum val_class;
          scope_exit old ;;;
          emit_native_set na array_dno idx.1 val val_class (Some isnull) ;;;
          ret true
      end
  else standard_set array_dno idx_expr val_expr.

(** A NULL subscript branches to the block for NULL before the subscript is computed. *)
Definition emit_null_subscript (idx_expr : Expr) (null_bb : nat) (ok_name : string) : emit unit :=
  idx_isnull <-- tier1_expr_any_null idx_expr;
  match idx_isnull with
  | None => ret tt
  | Some fl =>
      idxok_bb <-- append_block ok_name;
      build (ICondBr fl null_bb idxok_bb) ;;;
      position idxok_bb
  end.

(** x := a[i] of a native array. *)
Definition native_get (na : native_slots) (varno : nat) (idx_expr : Expr) : emit bool :=
  let ty := na_elemtype (ns_array na) in
  null_bb <-- append_block "na.get.null";
  get_done_bb <-- append_block "na.get.done";
  emit_null_subscript idx_expr null_bb "na.get.idxok" ;;;
  idx <-- uplpgsql_compile_expr_datum idx_expr;
  len <-- build_value (fun r => ILoad r (len_ptr na));
  lb <-- build_value (fun r => ILoad r (lb_ptr na));
  notflat <-- build_op (OpICmp SLT) [len; const_int32 0];
  below <-- build_op (OpICmp SLT) [idx.1; lb];
  oob <-- build_op OpOr [notflat; below];
  na_end <-- build_op (OpArith ADD I32) [lb; len];
  last <-- build_op (OpArith SUB I32) [na_end; const_int32 1];
  above <-- build_op (OpICmp SGT) [idx.1; last];
  oob2 <-- build_op OpOr [oob; above];
  val_bb <-- append_block "na.get.val";
  build (ICondBr oob2 null_bb val_bb) ;;;
  position null_bb ;;;
  emit_store_var_null varno ;;;
  build (IBr get_done_bb) ;;;
  position val_bb ;;;
  data <-- build_value (fun r => ILoad r (data_ptr na));
  idx0 <-- build_op (OpArith SUB I32) [idx.1; lb];
  elem <-- build_value (fun r => ILoadElem r ty data idx0);
  datum_val <-- (if (ty =? INT4OID)%Z then build_op OpSExt [elem]
                 else if (ty =? FLOAT8OID)%Z then build_op OpDoubleToBits [elem] else ret elem);
  emit_store_var_datum varno datum_val ;;;
  build (IBr get_done_bb) ;;;
  position get_done_bb ;;;
  ret true.

(** x := a[i] of another array. *)
Definition standard_get (array_dno varno : nat) (idx_expr : Expr) : emit bool :=
  idx_isnull <-- tier1_expr_any_null idx_expr;
  done <-- match idx_isnull with
           | None => ret None
           | Some fl =>
               null_bb <-- append_block "arr.get.null";
               done_bb <-- append_block "arr.get.done";
               idxok_bb <-- append_block "arr.get.idxok";
               build (ICondBr fl null_bb idxok_bb) ;;;
               position null_bb ;;;
               emit_store_var_null varno ;;;
               build (IBr done_bb) ;;;
               position idxok_bb ;;;
               ret (Some done_bb)
           end;
  idx <-- uplpgsql_compile_expr_datum idx_expr;
  p <-- emit_array_get_element array_dno idx.1;
  elem_isnull <-- build_value (fun r => ILoad r p.2);
  emit_store_var_datum_isnull varno p.1 elem_isnull ;;;
  match done with
  | None => ret tt
  | Some done_bb => build (IBr done_bb) ;;; position done_bb
  end ;;;
  ret true.

(** Subscripts: one dimension, an integer subscript, of a variable. *)
Definition subscript_assign (varno : nat) (expr : Expr) : emit bool :=
  match expr with
  | SubscriptingRef _ (Param PARAM_EXTERN id _) [idx_expr] [] assgn =>
      if class_is (uplpgsql_classify_expr idx_expr) EXPR_TYPE_INT4 then
        e <-- get_env;
        match find_native_slots (native_arrays e) (dno_of id), assgn with
        | Some na, Some val_expr => native_set na (dno_of id) idx_expr val_expr
        | Some na, None => native_get na varno idx_expr
        | None, Some val_expr => standard_set (dno_of id) idx_expr val_expr
        | None, None => standard_get (dno_of id) varno idx_expr
        end
      else ret false
  | _ => ret false
  end.

Definition is_subscripting (e : Expr) : bool :=
  match e with SubscriptingRef _ _ _ _ _ => true | _ => false end.

(** The rest of [uplpgsql_try_compile_assign], after tiers 1 and 2. *)
Definition native_assign (s : UPLpgSQL_stmt_assign) (expr : Expr) : emit bool :=
  e <-- get_env;
  init <-- match find_native_slots (native_arrays e) (assign_varno s) with
           | Some na => if is_subscripting expr then ret false else native_init na expr
           | None => ret false
           end;
  if init : bool then ret true else subscript_assign (assign_varno s) expr.

Definition uplpgsql_try_compile_assign (s : UPLpgSQL_stmt_assign) : emit bool :=
  match ce_datums !! assign_varno s with
  | Some (DTYPE_VAR target_var) =>
      match prepared (assign_expr s) with
      | None => ret false
      | Some expr =>
          if tier1_class expr (oid_to_type_class (typoid (var_datatype target_var)))
          then tier1_assign (assign_varno s) expr ;;; ret true
          else
            inlined <-- tier2_assign (assign_varno s) (typbyval (var_datatype target_var)) expr;
            if inlined : bool then ret true else native_assign s expr
      end
  | _ => ret false
  end.

Definition tier1_bool (expr : Expr) : emit operand :=
  any_null <-- tier1_expr_any_null expr;
  match any_null with
  | None => uplpgsql_compile_expr_bool expr
  | Some flag =>
      compute_bb <-- append_block "t1b.notnull";
      null_bb <-- append_block "t1b.null";
      merge_bb <-- append_block "t1b.done";
      phi <-- fresh_reg;
      build (ICondBr flag null_bb compute_bb) ;;;
      position compute_bb ;;;
      val <-- uplpgsql_compile_expr_bool expr;
      incoming phi val ;;;
      build (IBr merge_bb) ;;;
      position null_bb ;;;
      incoming phi const_false ;;;
      build (IBr merge_bb) ;;;
      position merge_bb ;;;
      ret (OReg phi)
  end.

Definition tier2_bool (expr : Expr) : emit (option operand) :=
  if uplpgsql_can_fmgr_compile ce_oid_of expr then
    scoped <-- wants_alloc_scope expr;
    old <-- scope_enter scoped;
    r <-- uplpgsql_compile_expr_fmgr_full expr;
    match r with
    | Some (datum_result, isnull_val) =>
        val <-- build_op OpTrunc1 [datum_result];
        notnull <-- build_op OpNot [isnull_val];
        cond <-- build_op OpAnd [val; notnull];
        scope_exit old ;;; ret (Some cond)
    | None => scope_exit old ;;; ret None
    end
  else ret None.

Definition get_defer_cond_plan : emit bool := fun c => Success (defer_cond_plan (bld c), c).

Definition uplpgsql_try_compile_bool (e : UPLpgSQL_expr) : emit (option operand) :=
  defer <-- get_defer_cond_plan;
  if defer : bool then ret None
  else
    match prepared e with
    | None => ret None
    | Some expr =>
        if bool_decide (uplpgsql_classify_expr expr = EXPR_TYPE_BOOL)
        then v <-- tier1_bool expr; ret (Some v)
        else
          r <-- tier2_bool expr;
          match r with
          | Some v => ret (Some v)
          | None => sync_native_arrays ;;; ret None
          end
    end.

Definition expr_compiler : ExprCompiler := {|
  try_compile_bool := uplpgsql_try_compile_bool;
  try_compile_assign := uplpgsql_try_compile_assign;
  query_result_desc := ce_result_desc
|}.
End expr.
