(* ===== verification/Wellformed.v ===== *)
(** * Every block the compiler builds is complete

    LLVM rejects a module in which a basic block has no terminator, has an
    instruction after one, or branches to a block of another function, and
    a call with another number of arguments than its callee has.  This
    file proves that whatever function it is given, the statement compiler
    never builds such code.  The types of registers are not followed.

    The proof is a Hoare logic for the emission monad.  While statements are
    compiled, [inv c P] holds: the current block is open (no terminator yet),
    the blocks in [P] have been created but not filled, and every other block is
    closed.  [done c P] holds right after a terminator was emitted. [emits m]
    says that an action keeps [inv c P] for every [P] and restores the
    compilation environment (loop stack, cleanup stack, return block). *)

From Stdlib Require Import ZArith Lia.
From stdpp Require Import pretty.
From S2P Require Import Prelude Ast Escape IR RtSig CoreEmit StmtEmit.

(** ** Invariants *)
Definition nb (c : UPL_compile_ctx) : nat := length (block_names (bld c)).
Definition codeb (c : UPL_compile_ctx) (n : nat) : list instr := code_of (bld c) n.

Definition open_code (l : list instr) : Prop := Forall (fun i => is_terminator i = false) l.
Definition closed_code (l : list instr) : Prop :=
  exists l' t, l = l' ++ [t] /\ open_code l' /\ is_terminator t = true.

(** Branch targets of an instruction; a switch's cases are kept apart. *)
Definition targets (i : instr) : list nat :=
  match i with
  | IBr t => [t]
  | ICondBr _ t e => [t; e]
  | ISwitch _ d _ => [d]
  | _ => []
  end.

Definition instr_ok (nblocks nswitches : nat) (i : instr) : Prop :=
  Forall (fun t => t < nblocks) (targets i)
  /\ match i with
     | ICall dst f args => call_ok dst f args = true
     | ISwitch _ _ sw => sw < nswitches
     | _ => True
     end.

Definition loop_info_ok (nblocks : nat) (li : UPL_loop_info) : Prop :=
  li_exit_bb li < nblocks
  /\ match li_continue_bb li with Some b => b < nblocks | None => True end.

Definition cleanup_ok (cl : UPL_cleanup_info) : Prop :=
  call_ok None (RT (unwind_rt_fn cl)) (estate_ref :: cl_args cl) = true.

Record env_ok (nblocks : nat) (e : cenv) : Prop := {
  eo_return : return_bb e < nblocks;
  eo_loops : Forall (loop_info_ok nblocks) (loop_stack e);
  eo_cleanups : Forall cleanup_ok (cleanup_stack e)
}.

Record common (c : UPL_compile_ctx) : Prop := {
  cm_fresh : forall n, nb c <= n -> codeb c n = [];
  cm_instr : forall n i, i ∈ codeb c n -> instr_ok (nb c) (length (switches (bld c))) i;
  cm_cases : Forall (Forall (fun t => t < nb c)) (switches (bld c));
  cm_env : env_ok (nb c) (env c)
}.

Definition pending (c : UPL_compile_ctx) (P : gset nat) : Prop :=
  forall b, b ∈ P -> b < nb c /\ codeb c b = [].

Record inv (c : UPL_compile_ctx) (P : gset nat) : Prop := {
  in_common : common c;
  in_pending : pending c P;
  in_cur : cur (bld c) < nb c;
  in_notin : cur (bld c) ∉ P;
  in_open : open_code (codeb c (cur (bld c)));
  in_closed : forall b, b < nb c -> b <> cur (bld c) -> b ∉ P -> closed_code (codeb c b)
}.

Record done (c : UPL_compile_ctx) (P : gset nat) : Prop := {
  dn_common : common c;
  dn_pending : pending c P;
  dn_closed : forall b, b < nb c -> b ∉ P -> closed_code (codeb c b)
}.

(** ** Builder steps *)

Lemma bind_Success {A B} (m : emit A) (k : A -> emit B) c r :
  bind m k c = Success r -> exists a c', m c = Success (a, c') /\ k a c' = Success r.
Proof. unfold bind. destruct (m c) as [[a c']|]; [eauto|discriminate]. Qed.

Lemma codeb_build i c u c' n :
  build i c = Success (u, c') ->
  codeb c' n = if decide (n = cur (bld c)) then codeb c n ++ [i] else codeb c n.
Proof.
  intros [= <- <-]. unfold codeb, code_of. simpl. case_decide as E.
  - subst. by rewrite lookup_insert_eq.
  - by rewrite lookup_insert_ne.
Qed.

Lemma instr_ok_mono n n' s s' i : n <= n' -> s <= s' -> instr_ok n s i -> instr_ok n' s' i.
Proof.
  intros Hn Hs [Ht Hi]. split.
  - eapply Forall_impl; [|exact Ht]. simpl. lia.
  - destruct i; try done. lia.
Qed.

Lemma env_ok_mono n n' e : n <= n' -> env_ok n e -> env_ok n' e.
Proof.
  intros Hn [Hr Hl Hc]. split; [lia| |done]. eapply Forall_impl; [|exact Hl].
  intros li [? ?]. split; [lia|]. destruct (li_continue_bb li); [lia|done].
Qed.

(** A change of the builder that keeps the blocks and their code keeps
    everything: fresh registers and slots, entry allocas, flags. *)
Lemma common_same c c' :
  common c -> nb c' = nb c -> (forall n, codeb c' n = codeb c n) ->
  switches (bld c') = switches (bld c) -> env_ok (nb c) (env c') -> common c'.
Proof.
  intros [Hf Hi Hc He] Hn Hcode Hs He'. split; rewrite ?Hn, ?Hs; [|by intros; eapply Hi; rewrite <- Hcode|done|done].
  intros n. rewrite Hcode. apply Hf.
Qed.

Lemma inv_same c c' P :
  inv c P -> nb c' = nb c -> (forall n, codeb c' n = codeb c n) ->
  cur (bld c') = cur (bld c) -> switches (bld c') = switches (bld c) ->
  env_ok (nb c) (env c') -> inv c' P.
Proof.
  intros [Hc Hp Hcur Hni Ho Hcl] Hn Hcode Hcu Hs He.
  split; rewrite ?Hcu, ?Hcode, ?Hn; try done.
  - by eapply common_same.
  - intros b Hb. rewrite Hcode, Hn. by apply Hp.
  - intros b. rewrite Hcode. apply Hcl.
Qed.

Lemma build_common i c u c' :
  build i c = Success (u, c') -> common c -> cur (bld c) < nb c ->
  instr_ok (nb c) (length (switches (bld c))) i -> common c'.
Proof.
  intros H [Hf Hi Hc He] Hcur Hok.
  assert (Hn : nb c' = nb c) by (by injection H as <- <-).
  assert (Hs : switches (bld c') = switches (bld c)) by (by injection H as <- <-).
  assert (Hen : env c' = env c) by (by injection H as <- <-).
  split; rewrite ?Hn, ?Hs, ?Hen; try done.
  - intros n Hge. rewrite (codeb_build _ _ _ _ _ H). rewrite decide_False by lia. by apply Hf.
  - intros n j. rewrite (codeb_build _ _ _ _ _ H). case_decide; [|apply Hi].
    rewrite elem_of_app, list_elem_of_singleton. intros [Hj| ->]; [by eapply Hi|done].
Qed.

Lemma build_inv i c u c' P :
  build i c = Success (u, c') -> inv c P -> is_terminator i = false ->
  instr_ok (nb c) (length (switches (bld c))) i ->
  inv c' P /\ env c' = env c /\ nb c <= nb c'.
Proof.
  intros H [Hc Hp Hcur Hni Ho Hcl] Ht Hok.
  assert (Hn : nb c' = nb c) by (by injection H as <- <-).
  assert (Hcu : cur (bld c') = cur (bld c)) by (by injection H as <- <-).
  split; [|split; [by injection H as <- <-|lia]].
  split; rewrite ?Hcu, ?Hn; try done.
  - by eapply build_common.
  - intros b Hb. destruct (Hp b Hb). rewrite (codeb_build _ _ _ _ _ H), Hn.
    rewrite decide_False by (intros ->; done). done.
  - rewrite (codeb_build _ _ _ _ _ H), decide_True by done.
    apply Forall_app. split; [done|]. by constructor.
  - intros b Hb Hne Hnp. rewrite (codeb_build _ _ _ _ _ H), decide_False by done. by apply Hcl.
Qed.

Lemma build_done i c u c' P :
  build i c = Success (u, c') -> inv c P -> is_terminator i = true ->
  instr_ok (nb c) (length (switches (bld c))) i ->
  done c' P /\ env c' = env c /\ nb c <= nb c'.
Proof.
  intros H [Hc Hp Hcur Hni Ho Hcl] Ht Hok.
  assert (Hn : nb c' = nb c) by (by injection H as <- <-).
  split; [|split; [by injection H as <- <-|lia]].
  split; rewrite ?Hn.
  - by eapply build_common.
  - intros b Hb. destruct (Hp b Hb). rewrite (codeb_build _ _ _ _ _ H), Hn.
    rewrite decide_False by (intros ->; done). done.
  - intros b Hb Hnp. rewrite (codeb_build _ _ _ _ _ H). case_decide as E.
    + subst. exists (codeb c (cur (bld c))), i. done.
    + by apply Hcl.
Qed.

Lemma append_facts name c n c' :
  append_block name c = Success (n, c') ->
  n = nb c /\ nb c' = S (nb c) /\ (forall k, codeb c' k = codeb c k)
  /\ cur (bld c') = cur (bld c) /\ switches (bld c') = switches (bld c) /\ env c' = env c.
Proof.
  intros [= <- <-]. unfold nb. simpl. rewrite length_app. simpl. repeat split; lia.
Qed.

Lemma append_common name c n c' :
  append_block name c = Success (n, c') -> common c -> common c'.
Proof.
  intros (-> & Hn & Hcode & Hcu & Hs & He)%append_facts [Hf Hi Hc Hen].
  split; rewrite ?Hn, ?Hs, ?He.
  - intros k Hk. rewrite Hcode. apply Hf. lia.
  - intros k i. rewrite Hcode. intros ?%Hi. eapply instr_ok_mono; [..|done]; lia.
  - eapply Forall_impl; [|exact Hc]. intros l Hl. eapply Forall_impl; [|exact Hl]. simpl. lia.
  - eapply env_ok_mono; [|done]. lia.
Qed.

Lemma append_pending name c n c' P :
  append_block name c = Success (n, c') -> common c -> pending c P -> pending c' ({[n]} ∪ P).
Proof.
  intros (-> & Hn & Hcode & Hcu & Hs & He)%append_facts Hc Hp b Hb. rewrite Hn, Hcode.
  apply elem_of_union in Hb as [Hb|Hb].
  - apply elem_of_singleton in Hb as ->. split; [lia|]. by apply (cm_fresh c Hc).
  - destruct (Hp b Hb). split; [lia|done].
Qed.

Lemma pending_fresh c P : pending c P -> nb c ∉ P.
Proof. intros Hp Hin. destruct (Hp _ Hin). lia. Qed.

Lemma append_inv name c n c' P :
  append_block name c = Success (n, c') -> inv c P ->
  (inv c' ({[n]} ∪ P) /\ env c' = env c /\ nb c <= nb c') /\ (n ∉ P) /\ n < nb c'.
Proof.
  intros H [Hc Hp Hcur Hni Ho Hcl]. pose proof (append_facts _ _ _ _ H) as (-> & Hn & Hcode & Hcu & Hs & He).
  split; [|split; [by apply pending_fresh|lia]]. split; [|split; [done|lia]].
  split; rewrite ?Hcu, ?Hcode, ?Hn.
  - by eapply append_common.
  - by eapply append_pending.
  - lia.
  - apply not_elem_of_union. split; [|done]. apply not_elem_of_singleton. lia.
  - done.
  - intros b Hb Hne [Hn1 Hn2]%not_elem_of_union. rewrite Hcode. apply not_elem_of_singleton in Hn1.
    apply Hcl; [lia|done|done].
Qed.

Lemma append_done name c n c' P :
  append_block name c = Success (n, c') -> done c P ->
  (done c' ({[n]} ∪ P) /\ env c' = env c /\ nb c <= nb c') /\ (n ∉ P) /\ n < nb c'.
Proof.
  intros H [Hc Hp Hcl]. pose proof (append_facts _ _ _ _ H) as (-> & Hn & Hcode & Hcu & Hs & He).
  split; [|split; [by apply pending_fresh|lia]]. split; [|split; [done|lia]].
  split.
  - by eapply append_common.
  - by eapply append_pending.
  - intros b Hb [Hn1 Hn2]%not_elem_of_union. rewrite Hcode. apply not_elem_of_singleton in Hn1.
    apply Hcl; [lia|done].
Qed.

Lemma position_done n c u c' P :
  position n c = Success (u, c') -> done c P -> n ∈ P ->
  inv c' (P ∖ {[n]}) /\ env c' = env c /\ nb c <= nb c'.
Proof.
  intros [= <- <-] [Hc Hp Hcl] Hin. split; [|split; [done|done]].
  destruct (Hp n Hin) as [Hlt Hemp].
  split; unfold nb, codeb in *; simpl.
  - destruct Hc. split; done.
  - intros b Hb. apply Hp. set_solver.
  - done.
  - set_solver.
  - unfold code_of in *. simpl in *. rewrite Hemp. constructor.
  - intros b Hb Hne Hnp. apply Hcl; [done|]. set_solver.
Qed.

#[local] Opaque bind.

(** ** Actions that keep the invariant

    [emits Q m]: [m] keeps [inv c P], restores the environment, only adds blocks,
    and returns a value satisfying [Q]. *)
Definition emits {A} (Q : A -> Prop) (m : emit A) : Prop :=
  forall c a c' P, m c = Success (a, c') -> inv c P ->
    (inv c' P /\ env c' = env c /\ nb c <= nb c') /\ Q a.

Definition any {A} (_ : A) : Prop := True.
Definition is_reg (o : operand) : Prop := exists r, o = OReg r.

Lemma emits_ret {A} (Q : A -> Prop) a : Q a -> emits Q (ret a).
Proof. intros Hq c a' c' P [= <- <-] HI. auto. Qed.

Lemma emits_error {A} (Q : A -> Prop) msg : emits Q (elog_error msg).
Proof. intros c a c' P H. discriminate. Qed.

Lemma emits_bind {A B} (Q : A -> Prop) (R : B -> Prop) m k :
  emits Q m -> (forall a, Q a -> emits R (k a)) -> emits R (bind m k).
Proof.
  intros Hm Hk c b c' P (a & c1 & H1 & H2)%bind_Success HI.
  destruct (Hm _ _ _ _ H1 HI) as [(HI1 & He1 & Hn1) Hq].
  destruct (Hk a Hq _ _ _ _ H2 HI1) as [(HI2 & He2 & Hn2) Hr].
  split; [|done]. split; [done|]. split; [congruence|lia].
Qed.

Lemma emits_weaken {A} (Q R : A -> Prop) m : emits Q m -> (forall a, Q a -> R a) -> emits R m.
Proof. intros Hm H c a c' P Hc HI. destruct (Hm _ _ _ _ Hc HI) as [? ?]. eauto. Qed.

Lemma emits_get_env : emits any get_env.
Proof. intros c a c' P [= <- <-] HI. done. Qed.

(** Steps that leave blocks, code and environment alone. *)
Lemma emits_quiet {A} (Q : A -> Prop) (m : emit A) :
  (forall c a c', m c = Success (a, c') ->
     block_names (bld c') = block_names (bld c) /\ block_code (bld c') = block_code (bld c)
     /\ cur (bld c') = cur (bld c) /\ switches (bld c') = switches (bld c) /\ env c' = env c /\ Q a) ->
  emits Q m.
Proof.
  intros Hm c a c' P H HI. destruct (Hm _ _ _ H) as (Hb & Hc & Hcu & Hs & He & Hq).
  assert (Hn : nb c' = nb c) by (unfold nb; by rewrite Hb).
  split; [|done]. split; [|split; [done|lia]].
  eapply (inv_same c c' P HI Hn); [|done|done|].
  - intros n. unfold codeb, code_of. by rewrite Hc.
  - rewrite He. apply (in_common _ _ HI).
Qed.

Lemma emits_fresh_reg : emits any fresh_reg.
Proof. apply emits_quiet. intros c a c' [= <- <-]. done. Qed.

Lemma emits_fresh_slot : emits any fresh_slot.
Proof. apply emits_quiet. intros c a c' [= <- <-]. done. Qed.

Lemma emits_mark_has_exceptions : emits any mark_has_exceptions.
Proof. apply emits_quiet. intros c a c' [= <- <-]. done. Qed.

Lemma emits_set_defer d : emits any (set_defer_cond_plan d).
Proof. apply emits_quiet. intros c a c' [= <- <-]. done. Qed.

Lemma emits_entry_alloca : emits any build_entry_alloca.
Proof. apply emits_quiet. intros c a c' [= <- <-]. done. Qed.

(** An instruction that is no terminator, branches nowhere, and, if a call,
    agrees with its declaration. *)
Definition plain_instr (i : instr) : Prop :=
  is_terminator i = false /\ match i with ICall d f a => call_ok d f a = true | _ => True end.

Lemma plain_instr_ok i n s : plain_instr i -> instr_ok n s i.
Proof. intros [Ht Hi]. destruct i; try discriminate; (split; [constructor|done]). Qed.

Lemma emits_build i : plain_instr i -> emits any (build i).
Proof.
  intros Hi c a c' P H HI. split; [|done].
  apply (build_inv i c a c' P H HI); [apply Hi | by apply plain_instr_ok].
Qed.

Lemma emits_build_value mk : (forall r, plain_instr (mk r)) -> emits is_reg (build_value mk).
Proof.
  intros Hi. unfold build_value. eapply emits_bind; [apply emits_fresh_reg|]. intros r _.
  eapply emits_bind; [by apply emits_build|]. intros _ _. apply emits_ret. by exists r.
Qed.

Lemma emits_build_call f args : call_ok (Some 0) f args = true -> emits is_reg (build_call f args).
Proof.
  intros H. apply emits_build_value. intros r. split; [done|].
  unfold call_ok in *. destruct (callee_type f); [|done].
  rewrite !andb_true_iff in *. destruct H as [H Hd]. split; [done|].
  apply bool_decide_eq_true in Hd. apply bool_decide_eq_true. rewrite <- Hd. done.
Qed.

Lemma emits_build_call_void f args : call_ok None f args = true -> emits any (build_call_void f args).
Proof. intros H. by apply emits_build. Qed.

Lemma emits_build_alloca : emits any build_alloca.
Proof.
  unfold build_alloca. eapply emits_bind; [apply emits_fresh_slot|]. intros s _.
  eapply emits_bind; [by apply emits_build|]. intros _ _. by apply emits_ret.
Qed.

Lemma emits_for_each {A} (f : A -> emit unit) l :
  (forall x, x ∈ l -> emits any (f x)) -> emits any (for_each f l).
Proof.
  induction l as [|x l IH]; intros H; simpl; [by apply emits_ret|].
  eapply emits_bind; [apply H; set_solver|]. intros _ _. apply IH. intros y Hy. apply H. set_solver.
Qed.

Create HintDb emits discriminated.
#[export] Hint Resolve emits_ret emits_error emits_get_env emits_fresh_reg emits_fresh_slot
  emits_mark_has_exceptions emits_set_defer emits_entry_alloca emits_build_alloca : emits.

(** Evaluate a call's agreement with its declaration; operands are registers or
    constants by now. *)
Ltac solve_call :=
  repeat match goal with H : is_reg ?o |- _ => destruct H as [? ->] end;
  first [eassumption | reflexivity | vm_compute; reflexivity].

Ltac solve_plain := split; [reflexivity | first [exact I | solve_call]].

(** Straight-line code. *)
Ltac emits_step :=
  lazymatch goal with
  | |- forall _, _ => intro
  | |- emits _ (upl_emit_rt_call _ _) => unfold upl_emit_rt_call
  | |- emits _ (upl_emit_rt_call_void _ _) => unfold upl_emit_rt_call_void
  | |- emits _ (call_exec_void _ _) => unfold call_exec_void, call_exec_nosync_void
  | |- emits _ (bind _ _) => eapply emits_bind
  | |- emits _ (build_value _) => apply emits_build_value; intros ?; solve_plain
  | |- emits _ (build_call _ _) => apply emits_build_call; solve_call
  | |- emits _ (build_call_void _ _) => apply emits_build_call_void; solve_call
  | |- emits _ (build _) => apply emits_build; solve_plain
  | |- emits _ (for_each _ _) => apply emits_for_each; intros ? ?
  | |- emits _ (ret _) => apply emits_ret; first [exact I | eassumption | idtac]
  | |- emits _ _ => solve [eauto with emits]
  end.
Ltac emits_auto := repeat emits_step.

(** ** Straight-line pieces of the statement compiler *)

Lemma emits_sync_native_array na : emits any (emit_sync_native_array na).
Proof. unfold emit_sync_native_array. emits_auto. Qed.
#[export] Hint Resolve emits_sync_native_array : emits.

Lemma emits_sync_native_arrays : emits any sync_native_arrays.
Proof. unfold sync_native_arrays. emits_auto. Qed.
#[export] Hint Resolve emits_sync_native_arrays : emits.

Lemma emits_sync_for_expr e : emits any (sync_native_arrays_for_expr e).
Proof.
  unfold sync_native_arrays_for_expr. destruct e as [ex|]; [|emits_auto].
  destruct (plan ex); emits_auto. destruct (expr_references_dno _ _); emits_auto.
Qed.
#[export] Hint Resolve emits_sync_for_expr : emits.

Lemma emits_refresh_native_array na : emits any (emit_refresh_native_array na).
Proof. unfold emit_refresh_native_array. emits_auto. Qed.
#[export] Hint Resolve emits_refresh_native_array : emits.

Lemma emits_refresh_dno dno : emits any (refresh_dno dno).
Proof. unfold refresh_dno. emits_auto. destruct (find_native_slots _ _); emits_auto. Qed.
#[export] Hint Resolve emits_refresh_dno : emits.

Lemma emits_ctx_plstate : emits is_reg ctx_plstate.
Proof. unfold ctx_plstate. emits_auto. by eexists. Qed.
#[export] Hint Resolve emits_ctx_plstate : emits.

Lemma emits_compile_by_call f stmt :
  exec_fntypes f = mk_fn_type Ti32 [Tptr; Tptr] -> emits any (compile_by_call f stmt).
Proof.
  intros Hf. unfold compile_by_call, call_exec. emits_auto.
  apply emits_build_call. destruct H as [r ->]. unfold call_ok. simpl. rewrite Hf. reflexivity.
Qed.

Lemma emits_compile_by_call_void f stmt :
  exec_fntypes f = mk_fn_type Tvoid [Tptr; Tptr] -> emits any (compile_by_call_void f stmt).
Proof.
  intros Hf. unfold compile_by_call_void, call_exec_void, call_exec_nosync_void. emits_auto.
  apply emits_build_call_void. destruct H as [r ->]. unfold call_ok. simpl. rewrite Hf. reflexivity.
Qed.
#[export] Hint Extern 1 (emits any (compile_by_call _ _)) =>
  apply emits_compile_by_call; reflexivity : emits.
#[export] Hint Extern 1 (emits any (compile_by_call_void _ _)) =>
  apply emits_compile_by_call_void; reflexivity : emits.

Lemma emits_init_vars l : emits any (emit_init_vars l).
Proof. unfold emit_init_vars. emits_auto. Qed.
#[export] Hint Resolve emits_init_vars : emits.

Lemma emits_cb_assign_expr n e : emits any (cb_assign_expr_impl n e).
Proof. unfold cb_assign_expr_impl, call_exec_void, call_exec_nosync_void. emits_auto. Qed.
#[export] Hint Resolve emits_cb_assign_expr : emits.

(** What is asked of expression inlining: it keeps the invariant too. *)
Class ExprCompilerOk `{ExprCompiler} : Prop := {
  try_bool_emits : forall e, emits any (try_compile_bool e);
  try_assign_emits : forall s, emits any (try_compile_assign s)
}.

(** ** Control flow *)

Lemma set_env_inv f c u c' P :
  set_env f c = Success (u, c') -> inv c P -> env_ok (nb c) (f (env c)) ->
  inv c' P /\ env c' = f (env c) /\ nb c <= nb c'.
Proof.
  intros [= <- <-] HI He. split; [|split; done]. by eapply (inv_same c).
Qed.

Lemma set_env_done f c u c' P :
  set_env f c = Success (u, c') -> done c P -> env_ok (nb c) (f (env c)) ->
  done c' P /\ env c' = f (env c) /\ nb c <= nb c'.
Proof.
  intros [= <- <-] [Hc Hp Hcl] He. split; [|split; done].
  split; [|done|done]. by eapply (common_same c).
Qed.

Lemma inv_env_ok c P : inv c P -> env_ok (nb c) (env c).
Proof. intros HI. apply (in_common _ _ HI). Qed.
Lemma done_env_ok c P : done c P -> env_ok (nb c) (env c).
Proof. intros HI. apply (dn_common _ _ HI). Qed.

Lemma env_ok_push_loop n e l k x :
  env_ok n e -> k < n -> x < n ->
  env_ok n (mk_cenv (return_bb e) (rc_ptr e) (plstate e)
      (mk_loop_info l true (Some k) x (cleanup_depth e) :: loop_stack e)
      (cleanup_stack e) (cleanup_depth e) (native_arrays e)
      (record_shapes e)).
Proof. intros [Hr Hl Hc] Hk Hx. split; simpl; [done| |done]. by constructor. Qed.

Lemma env_ok_push_label n e l x :
  env_ok n e -> x < n ->
  env_ok n (mk_cenv (return_bb e) (rc_ptr e) (plstate e)
      (mk_loop_info l false None x (cleanup_depth e) :: loop_stack e)
      (cleanup_stack e) (cleanup_depth e) (native_arrays e)
      (record_shapes e)).
Proof. intros [Hr Hl Hc] Hx. split; simpl; [done| |done]. by constructor. Qed.

Lemma env_ok_pop_loop n e :
  env_ok n e ->
  env_ok n (mk_cenv (return_bb e) (rc_ptr e) (plstate e) (tail (loop_stack e))
      (cleanup_stack e) (cleanup_depth e) (native_arrays e)
      (record_shapes e)).
Proof.
  intros [Hr Hl Hc]. split; simpl; [done| |done].
  destruct (loop_stack e); [done|]. by inversion Hl.
Qed.

Lemma env_ok_push_cleanup n e fn args :
  env_ok n e -> call_ok None (RT fn) (estate_ref :: args) = true ->
  env_ok n (mk_cenv (return_bb e) (rc_ptr e) (plstate e) (loop_stack e)
      (mk_cleanup_info fn args :: cleanup_stack e) (S (cleanup_depth e)) (native_arrays e) (record_shapes e)).
Proof. intros [Hr Hl Hc] Hok. split; simpl; [done|done|]. by constructor. Qed.

Lemma env_ok_pop_cleanup n e :
  env_ok n e ->
  env_ok n (mk_cenv (return_bb e) (rc_ptr e) (plstate e) (loop_stack e)
      (tail (cleanup_stack e)) (pred (cleanup_depth e)) (native_arrays e) (record_shapes e)).
Proof.
  intros [Hr Hl Hc]. split; simpl; [done|done|].
  destruct (cleanup_stack e); [done|]. by inversion Hc.
Qed.

Lemma env_ok_return n e bb :
  env_ok n e -> bb < n ->
  env_ok n (mk_cenv bb (rc_ptr e) (plstate e) (loop_stack e) (cleanup_stack e) (cleanup_depth e)
      (native_arrays e) (record_shapes e)).
Proof. intros [Hr Hl Hc] Hlt. by split. Qed.

Lemma inv_proper c P Q : inv c P -> P ≡ Q -> inv c Q.
Proof. intros HI E. by apply leibniz_equiv in E as <-. Qed.

Lemma done_proper c P Q : done c P -> P ≡ Q -> done c Q.
Proof. intros HI E. by apply leibniz_equiv in E as <-. Qed.

Lemma add_case_done sw t c u c' P :
  add_case sw t c = Success (u, c') -> done c P -> t < nb c ->
  done c' P /\ env c' = env c /\ nb c <= nb c'.
Proof.
  intros [= <- <-] [[Hf Hi Hc He] Hp Hcl] Ht. split; [|split; done].
  split; [|done|done]. split; [done| | |done]; cycle 1.
  - simpl. apply Forall_lookup. intros i l Hl.
    unfold nb in *. simpl in *. rewrite Forall_lookup in Hc.
    destruct (decide (i = sw)) as [->|Hne].
    + rewrite list_lookup_alter_eq in Hl. destruct (switches (bld c) !! sw) as [l0|] eqn:E;
        [|done]. injection Hl as <-. apply Forall_app. split; [by eapply Hc|]. by constructor.
    + rewrite list_lookup_alter_ne in Hl by done. by eapply Hc.
  - simpl. intros n i Hin. rewrite length_alter. by eapply Hi.
Qed.

Lemma build_switch_done v d c n c' P :
  build_switch v d c = Success (n, c') -> inv c P -> d < nb c ->
  done c' P /\ env c' = env c /\ nb c <= nb c'.
Proof.
  intros H HI Hd. unfold build_switch in H.
  apply bind_Success in H as (u1 & c1 & H1 & H). apply bind_Success in H as (u2 & c2 & H2 & H3).
  injection H3 as <- <-.
  assert (Hn : nb c1 = nb c) by (by injection H1 as <- <-).
  assert (Hs : switches (bld c1) = switches (bld c) ++ [[]]) by (by injection H1 as <- <-).
  assert (HI1 : inv c1 P).
  { injection H1 as <- <-. destruct HI as [[Hf Hi Hc He] Hp Hcur Hni Ho Hcl].
    split; try done. split; try done.
    - intros k i Hin. eapply instr_ok_mono; [| |by eapply Hi]; [done|]. simpl.
      rewrite length_app. lia.
    - simpl. apply Forall_app. split; [done|]. by repeat constructor. }
  assert (He : env c1 = env c) by (by injection H1 as <- <-).
  destruct (build_done _ _ _ _ _ H2 HI1 eq_refl) as (HD & He2 & Hn2).
  { split; [|by rewrite Hs, length_app; simpl; lia]. constructor; [lia|constructor]. }
  split; [done|]. split; [congruence|lia].
Qed.

(** Forward reasoning: run one builder step of the hypotheses. *)
(** Set goals only depend on the membership facts. *)
Ltac set_clear :=
  repeat match goal with
  | H : ?T |- _ =>
      lazymatch T with
      | _ ∉ _ => fail
      | _ ∈ _ => fail
      | _ <> _ => fail
      | _ => lazymatch type of T with Prop => clear H end
      end
  end.
Ltac set_fast := set_clear; set_solver.
Ltac set_same := lazymatch goal with |- ?X ≡ ?X => reflexivity | |- _ => set_fast end.

Ltac unbind :=
  repeat match goal with
  | H : bind _ _ _ = Success _ |- _ =>
      let a := fresh "v" in let c := fresh "c" in let H1 := fresh "H" in
      apply bind_Success in H as (a & c & H1 & H)
  | H : ret _ _ = Success _ |- _ => injection H as <- <-
  | H : get_env _ = Success _ |- _ => injection H as <- <-
  end.

Ltac env_side :=
  match goal with
  | I : inv ?c _ |- env_ok (nb ?c) _ => pose proof (inv_env_ok _ _ I)
  | I : done ?c _ |- env_ok (nb ?c) _ => pose proof (done_env_ok _ _ I)
  end;
  first [ apply env_ok_push_loop; [done|lia|lia] | apply env_ok_push_label; [done|lia]
        | apply env_ok_pop_loop; done | apply env_ok_pop_cleanup; done
        | apply env_ok_push_cleanup; [done|solve_call]
        | apply env_ok_return; [done|]; first [lia | eapply eo_return; eassumption] ].

Ltac instr_side :=
  split; [repeat (apply Forall_cons_2; [try lia|]); apply Forall_nil_2 | first [exact I | lia | done]].

Ltac wf_step :=
  match goal with
  | H : append_block _ ?c = Success (?n, ?c'), I : inv ?c ?P |- _ =>
      let I' := fresh "I" in
      destruct (append_inv _ _ _ _ _ H I) as ((I' & ? & ?) & ? & ?); clear H I
  | H : append_block _ ?c = Success (?n, ?c'), I : done ?c ?P |- _ =>
      let I' := fresh "I" in
      destruct (append_done _ _ _ _ _ H I) as ((I' & ? & ?) & ? & ?); clear H I
  | H : position ?n ?c = Success (_, ?c'), I : done ?c ?P |- _ =>
      let I' := fresh "I" in
      destruct (position_done _ _ _ _ _ H I ltac:(set_fast)) as (I' & ? & ?); clear H I
  | H : build ?i ?c = Success (_, ?c'), I : inv ?c ?P |- _ =>
      let I' := fresh "I" in
      first
        [ destruct (build_done _ _ _ _ _ H I ltac:(reflexivity) ltac:(instr_side)) as (I' & ? & ?)
        | destruct (build_inv _ _ _ _ _ H I ltac:(reflexivity) ltac:(apply plain_instr_ok; solve_plain))
            as (I' & ? & ?) ]; clear H I
  | H : upl_push_loop _ _ _ ?c = Success (_, ?c'), I : inv ?c ?P |- _ =>
      let I' := fresh "I" in
      destruct (set_env_inv _ _ _ _ _ H I ltac:(env_side)) as (I' & ? & ?); clear H I
  | H : upl_push_block_label _ _ ?c = Success (_, ?c'), I : inv ?c ?P |- _ =>
      let I' := fresh "I" in
      destruct (set_env_inv _ _ _ _ _ H I ltac:(env_side)) as (I' & ? & ?); clear H I
  | H : upl_pop_loop ?c = Success (_, ?c'), I : inv ?c ?P |- _ =>
      let I' := fresh "I" in
      destruct (set_env_inv _ _ _ _ _ H I ltac:(env_side)) as (I' & ? & ?); clear H I
  | H : upl_push_cleanup _ _ ?c = Success (_, ?c'), I : inv ?c ?P |- _ =>
      let I' := fresh "I" in
      destruct (set_env_inv _ _ _ _ _ H I ltac:(env_side)) as (I' & ? & ?); clear H I
  | H : upl_pop_cleanup ?c = Success (_, ?c'), I : inv ?c ?P |- _ =>
      let I' := fresh "I" in
      destruct (set_env_inv _ _ _ _ _ H I ltac:(env_side)) as (I' & ? & ?); clear H I
  | H : set_return_bb _ ?c = Success (_, ?c'), I : inv ?c ?P |- _ =>
      let I' := fresh "I" in
      destruct (set_env_inv _ _ _ _ _ H I ltac:(env_side)) as (I' & ? & ?); clear H I
  | H : upl_push_cleanup _ _ ?c = Success (_, ?c'), I : done ?c ?P |- _ =>
      let I' := fresh "I" in
      destruct (set_env_done _ _ _ _ _ H I ltac:(env_side)) as (I' & ? & ?); clear H I
  | H : upl_pop_cleanup ?c = Success (_, ?c'), I : done ?c ?P |- _ =>
      let I' := fresh "I" in
      destruct (set_env_done _ _ _ _ _ H I ltac:(env_side)) as (I' & ? & ?); clear H I
  | H : set_return_bb _ ?c = Success (_, ?c'), I : done ?c ?P |- _ =>
      let I' := fresh "I" in
      destruct (set_env_done _ _ _ _ _ H I ltac:(env_side)) as (I' & ? & ?); clear H I
  | H : add_case _ _ ?c = Success (_, ?c'), I : done ?c ?P |- _ =>
      let I' := fresh "I" in
      destruct (add_case_done _ _ _ _ _ _ H I ltac:(lia)) as (I' & ? & ?); clear H I
  | H : build_switch _ _ ?c = Success (_, ?c'), I : inv ?c ?P |- _ =>
      let I' := fresh "I" in
      destruct (build_switch_done _ _ _ _ _ _ H I ltac:(lia)) as (I' & ? & ?); clear H I
  | H : ?m ?c = Success (?a, ?c'), I : inv ?c ?P |- _ =>
      let I' := fresh "I" in let Hm := fresh "Hm" in
      eassert (Hm : emits _ m) by first [solve [emits_auto] | match goal with Hx : emits _ m |- _ => exact Hx end];
      destruct (Hm _ _ _ _ H I) as ((I' & ? & ?) & ?); clear Hm H I
  end.

(** The environment is the one we started from. *)
Ltac env_back :=
  repeat match goal with
  | E : env ?c = env ?c |- _ => clear E
  | E : env ?c = _ |- context [env ?c] => rewrite E; clear E
  end;
  match goal with |- _ = env ?c => destruct (env c); reflexivity end.


Ltac wf_finish :=
  match goal with
  | I : inv ?c ?P |- (inv ?c ?Q /\ _ /\ _) /\ _ =>
      split; [|exact Logic.I]; split; [|split; [try env_back|lia]];
      apply (inv_proper _ _ _ I); set_same
  | I : inv ?c ?P |- inv ?c ?Q /\ _ /\ _ =>
      split; [|split; [try env_back|lia]];
      apply (inv_proper _ _ _ I); set_same
  | I : done ?c ?P |- done ?c ?Q /\ _ /\ _ =>
      split; [|split; [try env_back|lia]];
      apply (done_proper _ _ _ I); set_same
  end.

Ltac wf_control := intros ? ? ? ? Hrun Hinv; unbind; repeat wf_step; try wf_finish.

Section control.
Context `{ExprCompilerOk}.

Lemma emits_eval_bool e : emits any (upl_eval_bool callbacks e).
Proof.
  unfold upl_eval_bool. eapply emits_bind; [apply try_bool_emits|]. intros [v|] _; [emits_auto|].
  apply (emits_weaken is_reg any); [emits_auto|done].
Qed.

Lemma emits_eval_int e : emits is_reg (upl_eval_int callbacks e).
Proof. unfold upl_eval_int. emits_auto. Qed.
#[local] Hint Resolve emits_eval_bool emits_eval_int : emits.

Lemma emits_loop label body : emits any body -> emits any (upl_emit_loop label body).
Proof. intros Hb. unfold upl_emit_loop. wf_control. Qed.

Lemma emits_cond_loop label e top body :
  emits any body -> emits any (upl_emit_cond_loop callbacks label e top body).
Proof. intros Hb. unfold upl_emit_cond_loop. destruct top; wf_control. Qed.

Lemma emits_elsif merge_bb clause P c u c' :
  emit_elsif callbacks merge_bb clause c = Success (u, c') -> emits any clause.2 ->
  inv c P -> merge_bb < nb c -> inv c' P /\ env c' = env c /\ nb c <= nb c'.
Proof.
  intros Hrun Hb HI Hm. unfold emit_elsif in Hrun. unbind. repeat wf_step. wf_finish.
Qed.

Lemma emits_elsifs merge_bb l c u c' P :
  for_each (emit_elsif callbacks merge_bb) l c = Success (u, c') ->
  Forall (fun clause => emits any clause.2) l ->
  inv c P -> merge_bb < nb c -> inv c' P /\ env c' = env c /\ nb c <= nb c'.
Proof.
  intros Hrun Hl. revert c Hrun. induction Hl as [|x l Hx Hl IH]; intros c Hrun HI Hm; simpl in Hrun.
  - unbind. done.
  - unbind. destruct (emits_elsif _ _ _ _ _ _ H1 Hx HI Hm) as (HI1 & He1 & Hn1).
    destruct (IH _ Hrun HI1 ltac:(lia)) as (HI2 & He2 & Hn2).
    split; [done|]. split; [congruence|lia].
Qed.

Lemma emits_option_else (m : option (emit unit)) :
  (forall x, m = Some x -> emits any x) ->
  emits any (match m with Some x => x | None => ret tt end).
Proof. intros Hm. destruct m; [by apply Hm|by apply emits_ret]. Qed.

Lemma emits_if e th elsifs el :
  emits any th -> Forall (fun clause => emits any clause.2) elsifs ->
  (forall x, el = Some x -> emits any x) ->
  emits any (upl_emit_if callbacks e th elsifs el).
Proof.
  intros Hth Hel Hels. pose proof (emits_option_else el Hels) as Helse.
  unfold upl_emit_if. intros c u c' P Hrun HI. unbind. repeat wf_step.
  match goal with
  | H : for_each _ _ _ = Success _, I : inv _ _ |- _ =>
      destruct (emits_elsifs _ _ _ _ _ _ H Hel I ltac:(lia)) as (? & ? & ?); clear H I
  end.
  repeat wf_step. wf_finish.
Qed.

Lemma emits_when tst v merge_bb clause P c u c' :
  emit_when callbacks tst v merge_bb clause c = Success (u, c') -> emits any clause.2 ->
  inv c P -> merge_bb < nb c -> inv c' P /\ env c' = env c /\ nb c <= nb c'.
Proof.
  intros Hrun Hb HI Hm. unfold emit_when in Hrun. unbind.
  assert (Hcl : emits any (if tst then upl_emit_rt_call_void RT_ASSIGN_NULL
     [estate_ref; const_int32 (Z.of_nat v)] else ret tt)) by (destruct tst; emits_auto).
  simpl in *. repeat wf_step. wf_finish.
Qed.

Lemma emits_whens tst v merge_bb l c u c' P :
  for_each (emit_when callbacks tst v merge_bb) l c = Success (u, c') ->
  Forall (fun clause => emits any clause.2) l ->
  inv c P -> merge_bb < nb c -> inv c' P /\ env c' = env c /\ nb c <= nb c'.
Proof.
  intros Hrun Hl. revert c Hrun. induction Hl as [|x l Hx Hl IH]; intros c Hrun HI Hm; simpl in Hrun.
  - unbind. done.
  - unbind. destruct (emits_when _ _ _ _ _ _ _ _ H1 Hx HI Hm) as (HI1 & He1 & Hn1).
    destruct (IH _ Hrun HI1 ltac:(lia)) as (HI2 & He2 & Hn2).
    split; [done|]. split; [congruence|lia].
Qed.

Lemma emits_case tst v whens he el ln :
  Forall (fun clause => emits any clause.2) whens -> emits any el ->
  emits any (upl_emit_case callbacks tst v whens he el ln).
Proof.
  intros Hw Hel. unfold upl_emit_case. intros c u c' P Hrun HI. unbind.
  assert (Hc1 : emits any (match tst with
     | Some e => cb_assign_expr callbacks v e | None => ret tt end))
    by (destruct tst; simpl; emits_auto).
  assert (Hc2 : emits any (if match tst with Some _ => true | None => false end
     then upl_emit_rt_call_void (rt_assign_null callbacks) [estate_ref; const_int32 (Z.of_nat v)]
     else ret tt)) by (destruct tst; simpl; emits_auto).
  assert (Hc3 : emits any (if he then el
     else upl_emit_rt_call_void (rt_case_error callbacks) [estate_ref; const_int32 ln]))
    by (destruct he; simpl; emits_auto).
  do 2 wf_step.
  match goal with
  | H : for_each _ _ _ = Success _, I : inv _ _ |- _ =>
      destruct (emits_whens _ _ _ _ _ _ _ _ H Hw I ltac:(lia)) as (? & ? & ?); clear H I
  end.
  repeat wf_step. wf_finish.
Qed.
Lemma emits_fori_bounds lo up st : emits any (emit_fori_bounds callbacks lo up st).
Proof.
  assert (Hs : emits any (match st with
      | Some e => upl_eval_int callbacks e | None => ret (const_int32 1) end)).
  { destruct st; [apply (emits_weaken is_reg any); [apply emits_eval_int|done]|by apply emits_ret]. }
  unfold emit_fori_bounds. emits_auto.
Qed.

(** The condition block's value is a register, and the block is closed. *)
Lemma fori_cond_done rev slot up exit_bb body_bb c v c' P :
  emit_fori_cond rev slot up exit_bb body_bb c = Success (v, c') ->
  inv c P -> exit_bb < nb c -> body_bb < nb c ->
  (done c' P /\ env c' = env c /\ nb c <= nb c') /\ is_reg v.
Proof.
  intros Hrun HI Hx Hb. unfold emit_fori_cond in Hrun. unbind. repeat wf_step.
  split; [wf_finish|done].
Qed.

Lemma fori_step_done rev slot st exit_bb cond_bb c u c' P :
  emit_fori_step rev slot st exit_bb cond_bb c = Success (u, c') ->
  inv c P -> exit_bb < nb c -> cond_bb < nb c ->
  done c' P /\ env c' = env c /\ nb c <= nb c'.
Proof.
  intros Hrun HI Hx Hc. unfold emit_fori_step in Hrun. unbind.
  assert (Hv : emits is_reg (build_value (fun r => if rev then ISub r v st else IAdd r v st)))
    by (destruct rev; emits_auto).
  repeat wf_step. wf_finish.
Qed.

Lemma emits_fori label v lo up st rev body :
  emits any body -> emits any (upl_emit_fori callbacks label v lo up st rev body).
Proof.
  intros Hb. unfold upl_emit_fori. intros c u c' P Hrun HI.
  pose proof (emits_fori_bounds lo up st) as Hbounds. unbind. repeat wf_step.
  match goal with
  | H : emit_fori_cond _ _ _ _ _ _ = Success _, I : inv _ _ |- _ =>
      destruct (fori_cond_done _ _ _ _ _ _ _ _ _ H I ltac:(lia) ltac:(lia)) as ((? & ? & ?) & ?);
      clear H I
  end.
  repeat wf_step.
  match goal with
  | H : emit_fori_step _ _ _ _ _ _ = Success _, I : inv _ _ |- _ =>
      destruct (fori_step_done _ _ _ _ _ _ _ _ _ H I ltac:(lia) ltac:(lia)) as (? & ? & ?);
      clear H I
  end.
  repeat wf_step. wf_finish.
Qed.

Lemma emits_unwind n stack : Forall cleanup_ok stack -> emits any (emit_unwind n stack).
Proof.
  intros Hs. revert n. induction Hs as [|cl stack Hcl Hs IH]; intros [|n]; simpl;
    try by apply emits_ret.
  eapply emits_bind; [by apply emits_build_call_void|]. intros _ _. apply IH.
Qed.

Lemma emits_cleanup_unwind d : emits any (upl_emit_cleanup_unwind d).
Proof.
  intros c u c' P Hrun HI. unfold upl_emit_cleanup_unwind in Hrun. unbind.
  eapply emits_unwind; [|done|done]. apply (inv_env_ok _ _ HI).
Qed.
#[local] Hint Resolve emits_cleanup_unwind : emits.

Lemma emits_jump is_exit ce loop target c u c' P :
  emit_jump callbacks is_exit ce loop target c = Success (u, c') -> inv c P -> target < nb c ->
  inv c' P /\ env c' = env c /\ nb c <= nb c'.
Proof.
  intros Hrun HI Ht. unfold emit_jump in Hrun. destruct ce as [ce|].
  - apply bind_Success in Hrun as (skip & c1 & H1 & Hrun).
    apply bind_Success in Hrun as (v & c2 & H2 & Hrun).
    apply bind_Success in Hrun as (e & c3 & H3 & Hrun). injection H3 as <- <-.
    destruct (li_cleanup_depth loop <? cleanup_depth (env c2)); unbind; repeat wf_step; wf_finish.
  - unbind. repeat wf_step. wf_finish.
Qed.

Lemma find_loop_elem stack label li : find_loop stack label = Some li -> li ∈ stack.
Proof.
  induction stack as [|i stack IH]; simpl; [done|]. intros Hf. apply elem_of_cons.
  destruct label as [l|].
  - destruct (li_label i) as [l'|]; [destruct (String.eqb l' l)|]; naive_solver.
  - destruct (li_is_loop i); naive_solver.
Qed.

Lemma emits_loop_exit label is_exit ce : emits any (upl_emit_loop_exit callbacks label is_exit ce).
Proof.
  intros c u c' P Hrun HI. unfold upl_emit_loop_exit, upl_find_loop in Hrun. unbind.
  destruct (find_loop (loop_stack (env c)) label) as [li|] eqn:Ef; [|discriminate].
  destruct (negb is_exit && negb (li_is_loop li)); [discriminate|].
  pose proof (eo_loops _ _ (inv_env_ok _ _ HI)) as Hl. rewrite list.Forall_forall in Hl.
  destruct (Hl _ (find_loop_elem _ _ _ Ef)) as [Hx Hk].
  split; [|done]. destruct is_exit; [by eapply emits_jump|].
  destruct (li_continue_bb li); [by eapply emits_jump|discriminate].
Qed.

Lemma emits_return f stmt :
  call_ok (Some 0) (RT f) [estate_ref; OConst (VStmt stmt)] = true -> emits any (upl_emit_return f stmt).
Proof.
  intros Hf. unfold upl_emit_return, upl_emit_rt_call. intros c u c' P Hrun HI.
  pose proof (emits_build_call _ _ Hf) as Hcall. unbind. wf_step.
  pose proof (eo_return _ _ (inv_env_ok _ _ I)). repeat wf_step. wf_finish.
Qed.

Lemma push_own_label_inv b x c u c' P :
  push_own_label b x c = Success (u, c') -> inv c P -> x < nb c ->
  inv c' P /\ (exists e', env c' = e' /\ forall c2 u2 c3, env c2 = e' ->
      pop_own_label b c2 = Success (u2, c3) -> env c3 = env c) /\ nb c <= nb c'.
Proof.
  intros Hp HI Hx. unfold push_own_label, pop_own_label in *. destruct (blk_label b).
  - destruct (set_env_inv _ _ _ _ _ Hp HI ltac:(env_side)) as (HI' & He & Hn).
    split; [done|]. split; [|done]. eexists. split; [done|]. intros c2 u2 c3 He2 [= <- <-].
    simpl. rewrite He2. by destruct (env c).
  - unbind. split; [done|]. split; [|done]. eexists. split; [done|].
    intros c2 u2 c3 He2 ?. unbind. done.
Qed.

Lemma pop_own_label_inv b c u c' P :
  pop_own_label b c = Success (u, c') -> inv c P -> inv c' P /\ nb c <= nb c'.
Proof.
  intros Hp HI. unfold pop_own_label in *. destruct (blk_label b).
  - destruct (set_env_inv _ _ _ _ _ Hp HI ltac:(env_side)) as (HI' & He & Hn). done.
  - by unbind.
Qed.

(** A body bracketed by the block's own label. *)
Lemma labelled_body b x body c1 u1 c2 u2 c3 u3 c4 P :
  push_own_label b x c1 = Success (u1, c2) -> body c2 = Success (u2, c3) ->
  pop_own_label b c3 = Success (u3, c4) -> emits (@any unit) body -> inv c1 P -> x < nb c1 ->
  inv c4 P /\ env c4 = env c1 /\ nb c1 <= nb c4.
Proof.
  intros H1 H2 H3 Hb HI Hx.
  destruct (push_own_label_inv _ _ _ _ _ _ H1 HI Hx) as (HI2 & (e' & He2 & Hpop) & Hn2).
  destruct (Hb _ _ _ _ H2 HI2) as ((HI3 & He3 & Hn3) & _).
  destruct (pop_own_label_inv _ _ _ _ _ H3 HI3) as (HI4 & Hn4).
  split; [done|]. split; [|lia]. apply (Hpop c3 u3 c4); congruence.
Qed.

Lemma handlers_done b fr sw after hexit handlers i c u c' P :
  emit_handlers b fr sw after hexit i handlers c = Success (u, c') ->
  Forall (emits any) handlers -> is_reg fr ->
  done c P -> after < nb c -> hexit < nb c ->
  done c' P /\ env c' = env c /\ nb c <= nb c'.
Proof.
  intros Hrun Hh [r ->]. revert i c Hrun.
  induction Hh as [|h hs Hh Hhs IH]; intros i c Hrun HI Ha Hx; simpl in Hrun.
  { by unbind. }
  unbind. do 4 wf_step.
  match goal with
  | H1 : push_own_label _ _ ?c1 = _, H2 : h _ = _, H3 : pop_own_label _ _ = _, I : inv ?c1 _ |- _ =>
      destruct (labelled_body _ _ _ _ _ _ _ _ _ _ _ H1 H2 H3 Hh I ltac:(lia)) as (? & ? & ?);
      clear H1 H2 H3 I
  end.
  repeat wf_step.
  match goal with
  | I : done _ _ |- _ =>
      apply (done_proper _ _ P) in I; [|set_solver];
      destruct (IH _ _ Hrun I ltac:(lia) ltac:(lia)) as (? & ? & ?); clear I
  end.
  wf_finish.
Qed.

Lemma try_done b body try_enter catch_enter try_exit exc_ret after c v c' P :
  emit_try b body try_enter catch_enter try_exit exc_ret after c = Success (v, c') ->
  emits any body -> inv c P -> try_enter ∈ P -> exc_ret ∈ P -> try_exit ∈ P ->
  catch_enter < nb c -> after < nb c ->
  try_enter <> exc_ret -> try_enter <> try_exit -> try_exit <> exc_ret ->
  (done c' (P ∖ {[try_enter; exc_ret; try_exit]}) /\ env c' = env c /\ nb c <= nb c') /\ is_reg v.
Proof.
  intros Hrun Hb HI Hin1 Hin2 Hin3 Hl1 Hl2 Hne1 Hne2 Hne3. unfold emit_try in Hrun.
  pose proof (in_pending _ _ HI _ Hin1) as [? _]. pose proof (in_pending _ _ HI _ Hin2) as [? _].
  pose proof (in_pending _ _ HI _ Hin3) as [? _].
  pose proof (eo_return _ _ (inv_env_ok _ _ HI)) as Hret.
  unbind. repeat wf_step.
  match goal with
  | H : set_return_bb (return_bb (env ?k)) _ = _ |- _ =>
      assert (Ek : env k = env c) by congruence;
      repeat match goal with
      | Hk : context [return_bb (env k)] |- _ => rewrite Ek in Hk
      end
  end.
  match goal with
  | H1 : push_own_label _ _ ?c1 = _, H2 : body _ = _, H3 : pop_own_label _ _ = _, I : inv ?c1 _ |- _ =>
      destruct (labelled_body _ _ _ _ _ _ _ _ _ _ _ H1 H2 H3 Hb I ltac:(lia)) as (? & ? & ?);
      clear H1 H2 H3 I
  end.
  repeat wf_step. split; [wf_finish|done].
Qed.

Lemma catch_done b handlers fr catch_enter hret hexit after rethrow c u c' P :
  emit_catch b handlers fr catch_enter hret hexit after rethrow c = Success (u, c') ->
  Forall (emits any) handlers -> is_reg fr -> done c P ->
  catch_enter ∈ P -> hret ∈ P -> hexit ∈ P -> rethrow ∈ P -> after < nb c ->
  NoDup [catch_enter; hret; hexit; rethrow] ->
  done c' (P ∖ {[catch_enter; hret; hexit; rethrow]}) /\ env c' = env c /\ nb c <= nb c'.
Proof.
  intros Hrun Hh Hfr HI Hi1 Hi2 Hi3 Hi4 Hl Hnd. unfold emit_catch in Hrun.
  assert (Hne : hret <> catch_enter /\ hexit <> catch_enter /\ rethrow <> catch_enter
                /\ hexit <> hret /\ rethrow <> hret /\ rethrow <> hexit).
  { rewrite !list.NoDup_cons in Hnd. set_solver. }
  clear Hnd. destruct Hne as (? & ? & ? & ? & ? & ?).
  pose proof (dn_pending _ _ HI _ Hi2) as [? _]. pose proof (dn_pending _ _ HI _ Hi3) as [? _].
  pose proof (dn_pending _ _ HI _ Hi4) as [? _].
  pose proof (eo_return _ _ (done_env_ok _ _ HI)) as Hret.
  unbind. repeat wf_step.
  match goal with
  | H : set_return_bb (return_bb (env ?k)) _ = _ |- _ =>
      assert (Ek : env k = env c) by congruence;
      repeat match goal with
      | Hk : context [return_bb (env k)] |- _ => rewrite Ek in Hk
      end
  end.
  match goal with
  | H : emit_handlers _ _ _ _ _ _ _ _ = _, I : done _ _ |- _ =>
      destruct (handlers_done _ _ _ _ _ _ _ _ _ _ _ H Hh Hfr I ltac:(lia) ltac:(lia)) as (? & ? & ?);
      clear H I
  end.
  repeat wf_step. wf_finish.
Qed.

Ltac nodup_fast := repeat (apply list.NoDup_cons; split; [set_fast|]); apply NoDup_nil_2.

Lemma emits_block_exceptions b body handlers :
  emits any body -> Forall (emits any) handlers ->
  emits any (compile_block_exceptions b body handlers).
Proof.
  intros Hb Hh. unfold compile_block_exceptions. intros c u c' P Hrun HI. unbind. repeat wf_step.
  match goal with
  | H : emit_try _ _ _ _ _ _ _ _ = _, I : inv _ _ |- _ =>
      edestruct (try_done _ _ _ _ _ _ _ _ _ _ _ H Hb I) as ((? & ? & ?) & ?);
        [set_fast|set_fast|set_fast|lia|lia|set_fast|set_fast|set_fast|]; clear H I
  end.
  match goal with
  | H : emit_catch _ _ _ _ _ _ _ _ _ = _, I : done _ _ |- _ =>
      destruct (catch_done _ _ _ _ _ _ _ _ _ _ _ _ H Hh ltac:(eassumption) I ltac:(set_fast)
                  ltac:(set_fast) ltac:(set_fast) ltac:(set_fast) ltac:(lia)
                  ltac:(nodup_fast)) as (? & ? & ?); clear H I
  end.
  repeat wf_step. wf_finish.
Qed.

Lemma emits_core_block body : emits any body -> emits any (upl_emit_block callbacks [] body None).
Proof.
  intros Hb. unfold upl_emit_block. apply (emits_bind any); [by apply emits_ret|]. done.
Qed.

(** After a body the current block is open, so the label's branch is emitted. *)
Lemma br_if_open_eq target c P :
  inv c P -> build_br_if_open target c = build (IBr target) c.
Proof.
  intros HI. unfold build_br_if_open, has_terminator.
  pose proof (in_open _ _ HI) as Ho. unfold codeb in Ho.
  destruct (list.last (code_of (bld c) (cur (bld c)))) as [i|] eqn:E; [|done].
  unfold open_code in Ho. rewrite list.Forall_forall in Ho.
  rewrite (Ho i); [done|]. apply last_Some_elem_of. done.
Qed.

Lemma emits_block b body handlers :
  emits any body -> Forall (emits any) handlers -> emits any (compile_block b body handlers).
Proof.
  intros Hb Hh. unfold compile_block. destruct (exceptions b).
  - unfold upl_emit_block. pose proof (emits_block_exceptions b body handlers Hb Hh). emits_auto.
  - pose proof (emits_core_block body Hb) as Hc. destruct (blk_label b) as [l|].
    + intros c u c' P Hrun HI. unbind. repeat wf_step.
      match goal with
      | H : build_br_if_open _ _ = _, I : inv _ _ |- _ => rewrite (br_if_open_eq _ _ _ I) in H
      end.
      repeat wf_step. wf_finish.
    + emits_auto.
Qed.

Lemma emits_row_loop prefix open_fn open_arg close_fn close_args label dno body :
  call_ok (Some 0) (RT open_fn) [estate_ref; OConst open_arg] = true ->
  (forall r, call_ok None (RT close_fn) (estate_ref :: close_args ++ [OReg r]) = true) ->
  emits any body ->
  emits any (compile_row_loop prefix open_fn open_arg close_fn close_args label dno body).
Proof.
  intros Ho Hc Hb. unfold compile_row_loop. intros c u c' P Hrun HI.
  pose proof (emits_build_call _ _ Ho) as Hopen.
  pose proof (eo_return _ _ (inv_env_ok _ _ HI)) as Hret.
  unbind. do 2 wf_step. match goal with H : is_reg _ |- _ => destruct H as [r ->] end.
  specialize (Hc r). repeat wf_step.
  match goal with
  | H : set_return_bb (return_bb (env ?k)) _ = _ |- _ =>
      assert (Ek : env k = env c) by congruence;
      repeat match goal with
      | Hk : context [return_bb (env k)] |- _ => rewrite Ek in Hk
      end
  end.
  repeat wf_step.
  wf_finish.
Qed.

Lemma emits_temporary_record datums dno q body :
  emits any body -> emits any (with_temporary_record datums dno q body).
Proof.
  intros Hb c u c' P Hrun HI. unfold with_temporary_record in Hrun.
  apply bind_Success in Hrun as (e & c0 & [= <- <-] & Hrun).
  destruct (temporary_shape _ _ _ _) as [d|]; [|by eapply Hb].
  apply bind_Success in Hrun as (u1 & c1 & R1 & (u2 & c2 & R2 & R3)%bind_Success).
  destruct (set_env_inv _ _ _ _ _ R1 HI) as (I1 & E1 & N1); [by destruct (inv_env_ok _ _ HI); split|].
  destruct (Hb _ _ _ _ R2 I1) as ((I2 & E2 & N2) & _).
  destruct (set_env_inv _ _ _ _ _ R3 I2) as (I3 & E3 & N3); [by destruct (inv_env_ok _ _ I2); split|].
  split; [|done]. split; [done|]. split; [|lia]. rewrite E3, E2, E1. by destruct (env c).
Qed.

Lemma emits_compile_return stmt : emits any (compile_return stmt).
Proof.
  unfold compile_return. eapply emits_bind; [apply emits_get_env|]. intros e _.
  eapply (emits_bind any); [destruct (0 <? _); emits_auto|]. intros _ _.
  by apply emits_return.
Qed.

Lemma emits_assign s : emits any (compile_assign s).
Proof.
  unfold compile_assign. eapply emits_bind; [apply try_assign_emits|]. intros [] _; [emits_auto|].
  unfold call_exec_nosync_void. emits_auto.
Qed.

Lemma emits_execsql datums stmt s : emits any (compile_execsql datums stmt s).
Proof.
  unfold compile_execsql. apply (emits_bind any); [emits_auto|]. intros _ _.
  destruct (sql_into s), (sql_target s); emits_auto.
Qed.

Lemma emits_assert stmt s : emits any (compile_assert stmt s).
Proof. unfold compile_assert. wf_control. Qed.

Context (datums : list UPLpgSQL_datum).

Lemma emits_err_stmt s (m : emit unit) : emits any m -> emits any (bind (build (IStoreErrStmt s)) (fun _ => m)).
Proof. intros Hm. apply (emits_bind any); [apply emits_build; by split|]. done. Qed.

(** Every statement of the language keeps the invariant. *)
Lemma emits_stmt s : emits any (compile_stmt datums s).
Proof.
  induction s as [s IH] using elem_ind.
  assert (Hb : forall b, b ∈ sub_bodies s -> emits any (for_each (compile_stmt datums) b)).
  { intros b Hb. apply emits_for_each. eauto. }
  assert (Hm : forall A (f : A -> list UPLpgSQL_stmt) (l : list A), (forall x, x ∈ l -> f x ∈ sub_bodies s) ->
            Forall (emits any) (map (fun x => for_each (compile_stmt datums) (f x)) l)).
  { intros A f l Hl. apply list.Forall_forall. intros m (x & Hx & <-)%elem_of_map. auto. }
  assert (Hp : forall A (e : A -> UPLpgSQL_expr) (f : A -> list UPLpgSQL_stmt) (l : list A),
            (forall x, x ∈ l -> f x ∈ sub_bodies s) ->
            Forall (fun clause => emits any clause.2)
              (map (fun x => (e x, for_each (compile_stmt datums) (f x))) l)).
  { intros A e f l Hl. apply list.Forall_forall. intros m (x & Hx & <-)%elem_of_map. simpl. auto. }
  clear IH. destruct s as [h b|h a|h i|h k|h l|h w|h f|h f|h f|h f|h x|h r|h r|h r|h r|h a|h q|h q|h f
                          |h g|h o|h f|h k|h p|h k|h k|h k];
    cbn [compile_stmt]; apply emits_err_stmt; cbn [sub_bodies] in *.
  - apply emits_block; [apply Hb; set_solver|]. destruct (exceptions b); [|constructor].
    apply Hm. intros x Hx. right. apply elem_of_map. eauto.
  - apply emits_assign.
  - apply emits_if; [apply Hb; set_solver| |].
    + apply Hp. intros x Hx. right. apply elem_of_app. left. apply elem_of_map. eauto.
    + intros m Hm'. destruct (else_body i) eqn:E; [discriminate|]. injection Hm' as <-.
      change (emits any (for_each (compile_stmt datums) (u :: l))). apply Hb. set_solver.
  - apply emits_case; [apply Hp; intros x Hx; apply elem_of_app; left; apply elem_of_map; eauto|].
    apply Hb. set_solver.
  - apply emits_loop, Hb. set_solver.
  - apply emits_cond_loop, Hb. set_solver.
  - apply emits_fori, Hb. set_solver.
  - apply emits_row_loop; [reflexivity|intros ?; reflexivity|apply emits_temporary_record, Hb; set_solver].
  - apply emits_row_loop; [reflexivity|intros ?; reflexivity|apply Hb; set_solver].
  - emits_auto.
  - apply emits_loop_exit.
  - apply emits_compile_return.
  - emits_auto.
  - emits_auto.
  - emits_auto.
  - apply emits_assert.
  - apply emits_execsql.
  - emits_auto.
  - apply emits_row_loop; [reflexivity|intros ?; reflexivity|apply Hb; set_solver].
  - emits_auto.
  - emits_auto.
  - emits_auto.
  - emits_auto.
  - emits_auto.
  - emits_auto.
  - emits_auto.
  - emits_auto.
Qed.

Lemma emits_body b : emits any (compile_body datums b).
Proof.
  unfold compile_body. apply emits_block; [apply emits_for_each; intros; apply emits_stmt|].
  destruct (exceptions b); [|constructor]. apply list.Forall_forall.
  intros m (x & Hx & <-)%elem_of_map. apply emits_for_each. intros. apply emits_stmt.
Qed.

Lemma emits_setup_native_array na : emits any (setup_native_array na).
Proof.
  unfold setup_native_array, alloca_init. emits_auto.
Qed.
#[local] Hint Resolve emits_setup_native_array : emits.

Lemma emits_setup_native_arrays nas : emits any (setup_native_arrays nas).
Proof.
  induction nas as [|na nas IH]; simpl; [by apply emits_ret|].
  eapply emits_bind; [apply emits_setup_native_array|]. intros s _.
  eapply emits_bind; [apply IH|]. intros rest _. by apply emits_ret.
Qed.

(** The context in which the driver's hooks run: the entry block holds the
    return-code slot, the return block is pending. *)
Definition prologue_ctx (rc : Z) : UPL_compile_ctx :=
  mk_ctx (mk_builder ["entry"; "return"]
            {[0 := [IAlloca 0; IStore (const_int32 rc) 0]]} 0 0 1 [] [] false false)
         (mk_cenv 1 0 0 [] [] 0 [] []).

Lemma prologue_code rc n :
  codeb (prologue_ctx rc) n = if decide (n = 0) then [IAlloca 0; IStore (const_int32 rc) 0] else [].
Proof.
  unfold codeb, code_of, prologue_ctx. simpl. case_decide as E.
  - subst. by rewrite lookup_singleton_eq.
  - by rewrite lookup_singleton_ne.
Qed.

Lemma prologue_inv rc : inv (prologue_ctx rc) {[1]}.
Proof.
  split.
  - split.
    + intros n Hn. rewrite prologue_code, decide_False; [done|]. unfold nb in Hn. simpl in Hn. lia.
    + intros n i. rewrite prologue_code. case_decide; [|set_solver].
      intros Hi. apply plain_instr_ok. rewrite !elem_of_cons, elem_of_nil in Hi.
      destruct Hi as [->|[->|[]]]; by split.
    + constructor.
    + split; [unfold nb; simpl; lia|constructor|constructor].
  - intros b Hb. apply elem_of_singleton in Hb as ->. split; [unfold nb; simpl; lia|].
    by rewrite prologue_code.
  - unfold nb. simpl. lia.
  - simpl. set_solver.
  - rewrite prologue_code. simpl. by repeat constructor.
  - intros b Hb Hne Hnp. exfalso. unfold nb in Hb. simpl in *. set_solver by lia.
Qed.

#[local] Transparent bind.
(** The pipeline is the prologue, the hooks and the epilogue. *)
Lemma emit_function_eq rc setup body :
  upl_emit_function rc setup body (mk_ctx empty_builder empty_cenv) =
  (setup ;;; body ;;; build (IBr 1) ;;; position 1 ;;;
   rc_val <-- build_value (fun r => ILoad r 0); build (IRet rc_val))%emit (prologue_ctx rc).
Proof. 
  unfold upl_emit_function. reflexivity.
Qed.
#[local] Opaque bind.

Lemma setup_entry_inv nas c u c' P :
  setup_entry nas c = Success (u, c') -> inv c P -> inv c' P /\ nb c <= nb c'.
Proof.
  intros Hrun HI. unfold setup_entry in Hrun.
  pose proof (emits_setup_native_arrays nas). unbind. repeat wf_step.
  match goal with
  | H : set_env _ ?k = _, I : inv ?k _ |- _ =>
      destruct (set_env_inv _ _ _ _ _ H I) as (? & _ & ?);
        [destruct (inv_env_ok _ _ I); by split|]
  end.
  split; [done|lia].
Qed.
End control.

(** ** The finished function *)

(** Every block has exactly one terminator, at its end; every branch and every
    switch case goes to a block of the function; every call agrees with the
    declaration of its callee. *)
Definition ir_wellformed (f : ir_function) : Prop :=
  let n := length (ir_blocks f) in
  let code b := default [] (ir_code f !! b) in
  0 < n
  /\ (forall b, b < n -> closed_code (code b))
  /\ (forall b i, i ∈ code b -> instr_ok n (length (ir_switches f)) i)
  /\ Forall (Forall (fun t => t < n)) (ir_switches f).

(** C5: the control flow of compiled code is well formed.  Whatever function the
    compiler is given (any nesting of the twenty-seven statements, exception blocks,
    row loops, EXIT, CONTINUE and RETURN anywhere, native arrays or not), if compilation
    does not stop with an error then every basic block ends in exactly one terminator
    and has none before it, and every branch and switch target exists; and every call
    is to a declared function, has the declared number of arguments, those that are
    constants of the declared kind, and a result exactly if one is declared.  The types
    of registers and their dominance, which LLVM's verifier checks as well, are not part
    of the statement. *)
Theorem compile_function_wellformed `{ExprCompilerOk} get_element_type func f
    (Hcomp : compile_function get_element_type func = Success f) :
  ir_wellformed f.
Proof.
  unfold compile_function, upl_compile_function in Hcomp. rewrite emit_function_eq in Hcomp.
  match type of Hcomp with context [match ?m with _ => _ end] => destruct m as [[u c]|] eqn:E end;
    [|discriminate].
  injection Hcomp as <-. pose proof (prologue_inv UPLPGSQL_RC_OK) as HI. unbind.
  match goal with
  | Hs : setup_entry _ _ = _ |- _ => destruct (setup_entry_inv _ _ _ _ _ Hs HI) as [HI1 Hn1]
  end.
  pose proof (emits_body (datums func) (fn_action func)) as Hb.
  pose proof (in_pending _ _ HI1 1 ltac:(set_solver)) as [Hlt _].
  repeat wf_step.
  match goal with I : done _ _ |- _ => destruct I as [[Hf Hi Hc He] Hp Hcl] end.
  split; [unfold nb in *; simpl; lia|]. split; [|split; [exact Hi|exact Hc]].
  intros b Hlt'. apply Hcl; [done|]. set_clear. set_solver.
Qed.
#[export] Hint Resolve emits_eval_bool emits_eval_int : emits.

Module WellformedExamples.

#[local] Existing Instance no_inlining.

Lemma no_inlining_ok : ExprCompilerOk.
Proof. split; intros; apply emits_ret; done. Qed.

Definition e (s : string) : UPLpgSQL_expr := mk_expr s (-1) false false [].
Definition h : stmt_head := mk_head 1 1.
Definition assign (s : string) : UPLpgSQL_stmt := STMT_ASSIGN h (mk_assign 0 (e s)).
Definition return_x : UPLpgSQL_stmt := STMT_RETURN h (mk_return (Some (e "x")) None).

(** A WHILE loop around a FOR-query loop whose body is an exception block that
    leaves both loops, with a RETURN in the handler. *)
Definition nested : UPLpgSQL_function :=
  scalar_function 1 "f()" INT4OID false [] 1
    [DTYPE_VAR (EscapeExamples.mk_local 0 "x" EscapeExamples.int4_array)]
    (mk_block None
       [STMT_WHILE h (mk_while (Some "outer") (e "x < 10")
          [STMT_FORS h (mk_fors (mk_forq None 0
             [STMT_BLOCK h (mk_block (Some "blk")
                [STMT_EXIT h (mk_exit true (Some "outer") (Some (e "x = 5"))); assign "x + 1"]
                [0] (Some (mk_exception_block 2 3
                  [mk_exception 1 [mk_condition UPLPGSQL_OTHERS "others"] [return_x]])) None)])
             (e "SELECT 1"))] true);
        STMT_FORI h (mk_fori None 0 (e "1") (e "3") None false [assign "i"]);
        return_x]
       [0] None None).

Lemma compile_function_wellformed_witness :
  match compile_function EscapeExamples.elem_of_int4_array nested with
  | Success f => length (ir_blocks f) = 28 /\ ir_wellformed f
  | Failure _ => False
  end.
Proof.
  destruct (compile_function EscapeExamples.elem_of_int4_array nested) as [f|msg] eqn:E.
  - split; [vm_compute in E; injection E as <-; reflexivity|].
    apply (@compile_function_wellformed no_inlining no_inlining_ok _ _ _ E).
  - vm_compute in E. discriminate.
Defined.
End WellformedExamples.
