(* ===== verification/Exec.v ===== *)
(** * The execution state and what the program gets from PostgreSQL

    The state of [common/upl_exec.c] and the monad in which the interpreter's
    functions are written.

    - [execstate] is [UPLpgSQL_execstate] without [exitlabel], which belongs to
      statement execution (file Interp), and without memory contexts, error
      context strings and plugin hooks.  Everything outside the program (tables,
      portals, plan caches, allocated objects) is [world].
    - [ereport(ERROR, ...)] is the outcome [Err] with the error and the state at
      that point; following a wild pointer ([estate->datums[n]] past the end, a
      cast to the wrong kind of datum) is [Stuck]; a loop that used up its fuel
      is [OutOfFuel].
    - SPI, the executor, the catalogue and the representation of by-reference
      values are the parameters of class [PgEnv].  A function of PostgreSQL that
      works on its own data has type [pg]: it changes the world and returns or
      raises, and cannot touch the program's variables.  Only evaluation gets the
      whole state, because it reads variables through the parameter hooks. *)

From Stdlib Require Import ZArith Ascii.
From stdpp Require Import pretty.
From S2P Require Import Prelude Ast Expr.
#[local] Open Scope Z_scope.

(** ** SQLSTATE codes ([utils/elog.h]) *)
Definition PGSIXBIT (ch : ascii) : Z := Z.land (Z.of_nat (nat_of_ascii ch) - 48) 63.
Definition MAKE_SQLSTATE (a b c d e : ascii) : Z :=
  PGSIXBIT a + Z.shiftl (PGSIXBIT b) 6 + Z.shiftl (PGSIXBIT c) 12
  + Z.shiftl (PGSIXBIT d) 18 + Z.shiftl (PGSIXBIT e) 24.
Definition ERRCODE_TO_CATEGORY (ec : Z) : Z := Z.land ec (Z.ones 12).
Definition ERRCODE_IS_CATEGORY (ec : Z) : bool := Z.land ec (Z.lnot (Z.ones 12)) =? 0.

Definition ERRCODE_SUCCESSFUL_COMPLETION : Z := MAKE_SQLSTATE "0" "0" "0" "0" "0".
Definition ERRCODE_ERROR_IN_ASSIGNMENT : Z := MAKE_SQLSTATE "2" "2" "0" "0" "5".
Definition ERRCODE_NULL_VALUE_NOT_ALLOWED : Z := MAKE_SQLSTATE "2" "2" "0" "0" "4".
Definition ERRCODE_INVALID_PARAMETER_VALUE : Z := MAKE_SQLSTATE "2" "2" "0" "2" "3".
Definition ERRCODE_CASE_NOT_FOUND : Z := MAKE_SQLSTATE "2" "0" "0" "0" "0".
Definition ERRCODE_DATATYPE_MISMATCH : Z := MAKE_SQLSTATE "4" "2" "8" "0" "4".
Definition ERRCODE_UNDEFINED_COLUMN : Z := MAKE_SQLSTATE "4" "2" "7" "0" "3".
Definition ERRCODE_SYNTAX_ERROR : Z := MAKE_SQLSTATE "4" "2" "6" "0" "1".
Definition ERRCODE_FEATURE_NOT_SUPPORTED : Z := MAKE_SQLSTATE "0" "A" "0" "0" "0".
Definition ERRCODE_CARDINALITY_VIOLATION : Z := MAKE_SQLSTATE "2" "1" "0" "0" "0".
Definition ERRCODE_ARRAY_SUBSCRIPT_ERROR : Z := MAKE_SQLSTATE "2" "2" "0" "2" "E".
Definition ERRCODE_QUERY_CANCELED : Z := MAKE_SQLSTATE "5" "7" "0" "1" "4".
Definition ERRCODE_ASSERT_FAILURE : Z := MAKE_SQLSTATE "P" "0" "0" "0" "4".
Definition ERRCODE_DUPLICATE_CURSOR : Z := MAKE_SQLSTATE "4" "2" "P" "0" "3".
Definition ERRCODE_NO_DATA : Z := MAKE_SQLSTATE "0" "2" "0" "0" "0".
Definition ERRCODE_NO_DATA_FOUND : Z := MAKE_SQLSTATE "P" "0" "0" "0" "2".
Definition ERRCODE_TOO_MANY_ROWS : Z := MAKE_SQLSTATE "P" "0" "0" "0" "3".
Definition ERRCODE_RAISE_EXCEPTION : Z := MAKE_SQLSTATE "P" "0" "0" "0" "1".
Definition ERRCODE_UNDEFINED_CURSOR : Z := MAKE_SQLSTATE "3" "4" "0" "0" "0".
Definition ERRCODE_UNDEFINED_OBJECT : Z := MAKE_SQLSTATE "4" "2" "7" "0" "4".
Definition ERRCODE_WRONG_OBJECT_TYPE : Z := MAKE_SQLSTATE "4" "2" "8" "0" "9".
Definition ERRCODE_OBJECT_NOT_IN_PREREQUISITE_STATE : Z := MAKE_SQLSTATE "5" "5" "0" "0" "0".
Definition ERRCODE_STACKED_DIAGNOSTICS_ACCESSED_WITHOUT_ACTIVE_HANDLER : Z :=
  MAKE_SQLSTATE "0" "Z" "0" "0" "2".
Definition ERRCODE_INTERNAL_ERROR : Z := MAKE_SQLSTATE "X" "X" "0" "0" "0".

(** A name between double quotes, as error messages print it. *)
Definition quoted (name : string) : string :=
  let q := String (ascii_of_nat 34) EmptyString in q +:+ name +:+ q.

(** The fields of [ErrorData] the program fills in or reads. *)
Record ErrorData := mk_error_data {
  err_sqlerrcode : Z;
  err_message : string;
  err_detail : option string;
  err_hint : option string;
  err_column_name : option string;
  err_constraint_name : option string;
  err_datatype_name : option string;
  err_table_name : option string;
  err_schema_name : option string
}.
Definition mk_error (code : Z) (msg : string) : ErrorData :=
  mk_error_data code msg None None None None None None None.
Definition with_detail (d : option string) (e : ErrorData) : ErrorData :=
  mk_error_data (err_sqlerrcode e) (err_message e) d (err_hint e) (err_column_name e)
    (err_constraint_name e) (err_datatype_name e) (err_table_name e) (err_schema_name e).
Definition with_hint (h : string) (e : ErrorData) : ErrorData :=
  mk_error_data (err_sqlerrcode e) (err_message e) (err_detail e) (Some h) (err_column_name e)
    (err_constraint_name e) (err_datatype_name e) (err_table_name e) (err_schema_name e).

(** "SQL2003 mandates this error if there was no ELSE clause." *)
Definition case_not_found : ErrorData :=
  with_hint "CASE statement is missing ELSE part." (mk_error ERRCODE_CASE_NOT_FOUND "case not found").

(** ** Outcomes and the execution monad *)
Inductive outcome (S A : Type) :=
  | Ok (a : A) (s : S)
  | Err (e : ErrorData) (s : S)
  | Stuck
  | OutOfFuel.
Arguments Ok {S A}. Arguments Err {S A}. Arguments Stuck {S A}. Arguments OutOfFuel {S A}.

Definition exec (S A : Type) : Type := S -> outcome S A.

Definition xret {S A} (a : A) : exec S A := fun s => Ok a s.
Definition xbind {S A B} (m : exec S A) (k : A -> exec S B) : exec S B :=
  fun s => match m s with
           | Ok a s' => k a s'
           | Err e s' => Err e s'
           | Stuck => Stuck
           | OutOfFuel => OutOfFuel
           end.
Definition throw {S A} (e : ErrorData) : exec S A := fun s => Err e s.
Definition ereport {S A} (code : Z) (msg : string) : exec S A := throw (mk_error code msg).
Definition elog {S A} (msg : string) : exec S A := ereport ERRCODE_INTERNAL_ERROR msg.
Definition undefined {S A} : exec S A := fun _ => Stuck.
Definition xget {S} : exec S S := fun s => Ok s s.
Definition xmodify {S} (f : S -> S) : exec S unit := fun s => Ok tt (f s).

Declare Scope exec_scope.
Delimit Scope exec_scope with exec.
Bind Scope exec_scope with exec.
Notation "x <~ m ; k" := (xbind m (fun x => k))
  (at level 80, m at next level, right associativity) : exec_scope.
Notation "m ;~ k" := (xbind m (fun _ => k)) (at level 80, right associativity) : exec_scope.
Open Scope exec_scope.

(** ** The execution state *)

(** What a trigger function is called with; [tg_event] is PostgreSQL's word of
    event bits ([commands/trigger.h]), [rd_att] the relation's row type, and
    [generated_stored] tells for each of its columns whether it is one. *)
Record TriggerData := mk_trigdata {
  tg_event : Z;
  tgname : string;
  tgargs : list string;
  tg_trigtuple : tuple;
  tg_newtuple : tuple;
  rd_att : TupleDesc;
  has_generated_stored : bool;
  generated_stored : list bool;
  rd_id : Oid;
  relname : string;
  relnamespace : Oid
}.
Record EventTriggerData := mk_evtrigdata { evt_event : string; evt_tag : string }.

(** How the caller of a set-returning function wants the set: whether
    [SFRM_Materialize] is allowed, and the row type it expects. *)
Record ReturnSetInfo := mk_rsi { allow_materialize : bool; expectedDesc : option TupleDesc }.

Section state.
Context {world : Type}.

(** [tuple_store] is [estate->tuple_store] with [estate->tuple_store_desc];
    [parserSetupArg] is that field of [estate->paramLI], the only one that changes. *)
Record execstate := mk_execstate {
  es_datums : list UPLpgSQL_datum;
  found_varno : nat;
  retval : Datum;
  retisnull : bool;
  rettype : Oid;
  retisset : bool;
  retistuple : bool;
  es_fn_rettype : Oid;
  es_is_procedure : bool;
  atomic : bool;
  cur_error : option ErrorData;
  sqlstate_varno : option nat;
  sqlerrcode : Z;
  eval_processed : Z;
  tuple_store : option (TupleDesc * list tuple);
  es_rsi : option ReturnSetInfo;
  es_fn_oid : Oid;
  print_strict_params : bool;
  trigdata : option TriggerData;
  evtrigdata : option EventTriggerData;
  readonly_func : bool;
  parserSetupArg : option UPLpgSQL_expr;
  es_world : world
}.

Definition with_datums (f : list UPLpgSQL_datum -> list UPLpgSQL_datum) (s : execstate) : execstate :=
  mk_execstate (f (es_datums s)) (found_varno s) (retval s) (retisnull s) (rettype s) (retisset s)
    (retistuple s) (es_fn_rettype s) (es_is_procedure s) (atomic s) (cur_error s)
    (sqlstate_varno s) (sqlerrcode s) (eval_processed s) (tuple_store s) (es_rsi s) (es_fn_oid s)
    (print_strict_params s) (trigdata s) (evtrigdata s) (readonly_func s) (parserSetupArg s)
    (es_world s).

Definition with_ret (v : Datum) (isnull : bool) (type : Oid) (s : execstate) : execstate :=
  mk_execstate (es_datums s) (found_varno s) v isnull type (retisset s) (retistuple s)
    (es_fn_rettype s) (es_is_procedure s) (atomic s) (cur_error s) (sqlstate_varno s)
    (sqlerrcode s) (eval_processed s) (tuple_store s) (es_rsi s) (es_fn_oid s)
    (print_strict_params s) (trigdata s) (evtrigdata s) (readonly_func s) (parserSetupArg s)
    (es_world s).

Definition with_cur_error (e : option ErrorData) (s : execstate) : execstate :=
  mk_execstate (es_datums s) (found_varno s) (retval s) (retisnull s) (rettype s) (retisset s)
    (retistuple s) (es_fn_rettype s) (es_is_procedure s) (atomic s) e (sqlstate_varno s)
    (sqlerrcode s) (eval_processed s) (tuple_store s) (es_rsi s) (es_fn_oid s)
    (print_strict_params s) (trigdata s) (evtrigdata s) (readonly_func s) (parserSetupArg s)
    (es_world s).

Definition with_sqlstate_varno (v : option nat) (s : execstate) : execstate :=
  mk_execstate (es_datums s) (found_varno s) (retval s) (retisnull s) (rettype s) (retisset s)
    (retistuple s) (es_fn_rettype s) (es_is_procedure s) (atomic s) (cur_error s) v (sqlerrcode s)
    (eval_processed s) (tuple_store s) (es_rsi s) (es_fn_oid s) (print_strict_params s)
    (trigdata s) (evtrigdata s) (readonly_func s) (parserSetupArg s)
    (es_world s).

Definition with_sqlerrcode (c : Z) (s : execstate) : execstate :=
  mk_execstate (es_datums s) (found_varno s) (retval s) (retisnull s) (rettype s) (retisset s)
    (retistuple s) (es_fn_rettype s) (es_is_procedure s) (atomic s) (cur_error s)
    (sqlstate_varno s) c (eval_processed s) (tuple_store s) (es_rsi s) (es_fn_oid s)
    (print_strict_params s) (trigdata s) (evtrigdata s) (readonly_func s) (parserSetupArg s)
    (es_world s).

Definition with_eval_processed (n : Z) (s : execstate) : execstate :=
  mk_execstate (es_datums s) (found_varno s) (retval s) (retisnull s) (rettype s) (retisset s)
    (retistuple s) (es_fn_rettype s) (es_is_procedure s) (atomic s) (cur_error s)
    (sqlstate_varno s) (sqlerrcode s) n (tuple_store s) (es_rsi s) (es_fn_oid s)
    (print_strict_params s) (trigdata s) (evtrigdata s) (readonly_func s) (parserSetupArg s)
    (es_world s).

Definition with_tuple_store (t : option (TupleDesc * list tuple)) (s : execstate) : execstate :=
  mk_execstate (es_datums s) (found_varno s) (retval s) (retisnull s) (rettype s) (retisset s)
    (retistuple s) (es_fn_rettype s) (es_is_procedure s) (atomic s) (cur_error s)
    (sqlstate_varno s) (sqlerrcode s) (eval_processed s) t (es_rsi s) (es_fn_oid s)
    (print_strict_params s) (trigdata s) (evtrigdata s) (readonly_func s) (parserSetupArg s)
    (es_world s).

Definition with_setup_arg (e : option UPLpgSQL_expr) (s : execstate) : execstate :=
  mk_execstate (es_datums s) (found_varno s) (retval s) (retisnull s) (rettype s) (retisset s)
    (retistuple s) (es_fn_rettype s) (es_is_procedure s) (atomic s) (cur_error s)
    (sqlstate_varno s) (sqlerrcode s) (eval_processed s) (tuple_store s) (es_rsi s) (es_fn_oid s)
    (print_strict_params s) (trigdata s) (evtrigdata s) (readonly_func s) e (es_world s).

Definition with_world (w : world) (s : execstate) : execstate :=
  mk_execstate (es_datums s) (found_varno s) (retval s) (retisnull s) (rettype s) (retisset s)
    (retistuple s) (es_fn_rettype s) (es_is_procedure s) (atomic s) (cur_error s)
    (sqlstate_varno s) (sqlerrcode s) (eval_processed s) (tuple_store s) (es_rsi s) (es_fn_oid s)
    (print_strict_params s) (trigdata s) (evtrigdata s) (readonly_func s) (parserSetupArg s) w.
End state.
Arguments execstate : clear implicits.

(** ** What the program gets from PostgreSQL *)

(** The result of a function of PostgreSQL. *)
Inductive pg_result (world A : Type) :=
  | PgOk (a : A) (w : world)
  | PgErr (e : ErrorData) (w : world).
Arguments PgOk {world A}. Arguments PgErr {world A}.
Definition pg (world A : Type) : Type := world -> pg_result world A.

Definition pg_call {world A} (op : pg world A) : exec (execstate world) A :=
  fun s => match op (es_world s) with
           | PgOk a w => Ok a (with_world w s)
           | PgErr e w => Err e (with_world w s)
           end.

(** A value with its null flag, type and type modifier. *)
Record typed_value := mk_tv { tv_value : Datum; tv_isnull : bool; tv_type : Oid; tv_typmod : Z }.

(** SPI's result codes, as far as the program tells them apart. *)
Inductive spi_code :=
  | SPI_NO_COMMAND
  | SPI_OK_UTILITY | SPI_OK_SELECT | SPI_OK_SELINTO | SPI_OK_INSERT | SPI_OK_DELETE
  | SPI_OK_UPDATE | SPI_OK_MERGE | SPI_OK_INSERT_RETURNING | SPI_OK_DELETE_RETURNING
  | SPI_OK_UPDATE_RETURNING | SPI_OK_MERGE_RETURNING | SPI_OK_REWRITTEN
  | SPI_ERROR_COPY | SPI_ERROR_TRANSACTION
  | SPI_ERROR_OTHER (n : nat).

(** What SPI leaves behind: the code, [SPI_processed] and [SPI_tuptable]. *)
Record spi_result := mk_spi_result {
  spi_rc : spi_code;
  SPI_processed : nat;
  SPI_tuptable : option (TupleDesc * list tuple)
}.

(** One USING argument ([ParamExternData]). *)
Record param_value := mk_param { prm_value : Datum; prm_isnull : bool; prm_type : Oid }.

(** The command tags [exec_stmt_execsql] looks for. *)
Inductive command_tag := CMDTAG_INSERT | CMDTAG_UPDATE | CMDTAG_DELETE | CMDTAG_MERGE | CMDTAG_OTHER.

(** The parsed CALL: its function, and for each output argument the number of
    the parameter it is, [None] for any other expression. *)
Record call_stmt := mk_callstmt { cs_funcid : Oid; cs_outargs : list (option Z) }.

(** What [expanded_record_lookup_field] finds. *)
Record field_info := mk_field_info { fnumber : Z; ftypeid : Oid; ftypmod : Z }.

Class PgEnv (world : Type) := {
  (** evaluation: reads the variables *)
  exec_eval_simple_expr : UPLpgSQL_expr -> exec (execstate world) (option typed_value);
  SPI_execute_plan_with_paramlist : UPLpgSQL_expr -> Z -> exec (execstate world) spi_result;
  SPI_execute_plan_nonatomic : UPLpgSQL_expr -> exec (execstate world) spi_result;
  SPI_execute_plan_into_store : UPLpgSQL_expr -> exec (execstate world) spi_code;
  SPI_execute_into_store : string -> list param_value -> exec (execstate world) spi_code;
  portal : Type;
  SPI_cursor_open_with_paramlist :
    option string -> UPLpgSQL_expr -> exec (execstate world) (option portal);
  (** planning *)
  has_plan : world -> UPLpgSQL_expr -> bool;
  exec_prepare_plan : UPLpgSQL_expr -> Z -> pg world unit;
  plan_command_tags : world -> UPLpgSQL_expr -> list command_tag;
  get_callstmt : UPLpgSQL_expr -> pg world call_stmt;
  get_func_arg_info : Oid -> pg world (list (string * ascii));
  (** execution of query strings, and portals *)
  SPI_execute_extended : string -> list param_value -> pg world spi_result;
  SPI_result : world -> spi_code;
  SPI_result_code_string : spi_code -> string;
  SPI_cursor_parse_open : option string -> string -> list param_value -> Z -> pg world (option portal);
  SPI_cursor_find : string -> world -> option portal;
  portal_name : portal -> string;
  SPI_cursor_fetch : portal -> nat -> pg world (TupleDesc * list tuple);
  SPI_scroll_cursor_fetch : portal -> Z -> Z -> pg world (TupleDesc * list tuple);
  SPI_scroll_cursor_move : portal -> Z -> Z -> pg world nat;
  SPI_cursor_close : portal -> pg world unit;
  PinPortal : portal -> pg world unit;
  UnpinPortal : portal -> pg world unit;
  (** transactions and subtransactions *)
  SPI_commit : bool -> pg world unit;
  SPI_rollback : bool -> pg world unit;
  BeginInternalSubTransaction : pg world unit;
  ReleaseCurrentSubTransaction : pg world unit;
  RollbackAndReleaseCurrentSubTransaction : pg world unit;
  (** a function called directly: its arguments and its result with their null flags *)
  FunctionCallInvoke : func_oid -> Oid -> list (Datum * bool) -> pg world (Datum * bool);
  (** types and casts *)
  do_cast_value : Datum -> bool -> Oid -> Z -> Oid -> Z -> pg world (Datum * bool);
  uplpgsql_build_datatype : Oid -> Z -> pg world UPLpgSQL_type;
  type_is_rowtype : Oid -> bool;
  get_element_type : Oid -> Oid;
  format_type_be : Oid -> string;
  get_typlenbyval : Oid -> Z * bool;
  (** by-reference values: text, TOAST pointers, expanded objects, copies *)
  convert_value_to_string : Datum -> Oid -> pg world string;
  CStringGetTextDatum : string -> pg world Datum;
  DatumGetCString : world -> Datum -> string;
  TextDatumGetCString : world -> Datum -> string;
  namein : string -> pg world Datum;
  get_namespace_name : Oid -> pg world string;
  is_external_non_expanded : world -> Datum -> bool;
  is_expanded : world -> Datum -> bool;
  is_expanded_rw : world -> Datum -> bool;
  MakeExpandedObjectReadOnly : world -> Datum -> bool -> Z -> Datum;
  detoast_external_attr : Datum -> pg world Datum;
  expand_array : Datum -> pg world Datum;
  datumTransfer : Datum -> bool -> Z -> pg world Datum;
  datumCopy : Datum -> bool -> Z -> pg world Datum;
  (** expanded records, and rows *)
  DatumGetEOHP : world -> Datum -> Datum;
  make_expanded_record_from_typeid : Oid -> Z -> pg world Datum;
  make_expanded_record_from_tupdesc : TupleDesc -> pg world Datum;
  make_expanded_record_from_exprecord : Datum -> pg world Datum;
  expanded_record_set_tuple : Datum -> option tuple -> bool -> bool -> pg world unit;
  expanded_record_set_fields : Datum -> tuple -> bool -> pg world unit;
  expanded_record_set_field : Datum -> Z -> Datum -> bool -> bool -> pg world unit;
  deconstruct_expanded_record : Datum -> pg world unit;
  DeleteExpandedObject : Datum -> pg world unit;
  expanded_record_get_tupdesc : world -> Datum -> TupleDesc;
  expanded_record_fvalue : world -> Datum -> option tuple;
  expanded_record_get_tuple : Datum -> pg world tuple;
  expanded_record_fields : world -> Datum -> tuple;
  expanded_record_lookup_field : world -> Datum -> string -> option field_info;
  expanded_record_get_field : world -> Datum -> Z -> Datum * bool;
  ExpandedRecordIsEmpty : world -> Datum -> bool;
  ExpandedRecordIsDomain : world -> Datum -> bool;
  er_decltypeid : world -> Datum -> Oid;
  er_type : world -> Datum -> Oid * Z;
  er_tupdesc_id : world -> Datum -> Z;
  current_rectypeid : UPLpgSQL_rec -> pg world Oid;
  composite_datum_type : world -> Datum -> Oid * Z;
  composite_datum_tuple : Datum -> pg world tuple;
  lookup_rowtype_tupdesc : Oid -> Z -> pg world TupleDesc;
  convert_tuple_by_position : TupleDesc -> TupleDesc -> string -> tuple -> pg world tuple;
  HeapTupleGetDatum : TupleDesc -> tuple -> pg world Datum;
  (** arrays: dimensions, element type, the elements or slices in order, and
      a one-dimensional array of texts with its lower bound *)
  ARR_NDIM : world -> Datum -> Z;
  ARR_ELEMTYPE : world -> Datum -> Oid;
  array_iterate : world -> Datum -> Z -> list (Datum * bool);
  construct_text_array : list Datum -> Z -> pg world Datum;
  (** error reporting: the values of the SQLSTATE macros and their texts,
      quoting, messages below ERROR, context *)
  errcode : string -> Z;
  unpack_sql_state : Z -> string;
  string_quoted : string -> string;
  report_message : Z -> ErrorData -> pg world unit;
  error_context : world -> ErrorData -> option string;
  GetErrorContextStack : pg world string;
  (** settings *)
  uplpgsql_check_asserts : bool;
  uplpgsql_extra_errors : Z;
  uplpgsql_extra_warnings : Z
}.
