(* ===== verification/Assign.v ===== *)
(** * Variables, rows and expressions

    The parts of [common/upl_exec.c] below the statement level: assignment to
    variables, record fields, records and rows, promises of trigger functions,
    evaluation and casting of expressions, variable initialisation, RETURN and
    ASSERT.  Both the interpreter (files SqlStmts and Interp) and the runtime
    functions that compiled code calls (file Machine) are built from these.

    An expanded record is the word that identifies it; its content is in the
    world.  A row moves as the list of its column values with its descriptor.
    Memory contexts, and with them the transfer of a record between contexts,
    are not modelled. *)

From Stdlib Require Import ZArith Ascii.
From stdpp Require Import pretty.
From S2P Require Import Prelude Ast Exec.
#[local] Open Scope Z_scope.

(** ** Error levels ([utils/elog.h]) *)
Definition WARNING : Z := 19.
Definition ERROR : Z := 21.

Section primitives.
Context {world : Type} `{PgEnv world}.
Abbreviation M := (exec (execstate world)).

(** [ereport(level, ...)]. *)
Definition ereport_at (level : Z) (e : ErrorData) : M unit :=
  if ERROR <=? level then throw e else pg_call (report_message level e).

(** ** Access to datums *)

(** [estate->datums[n]]. *)
Definition get_datum (n : nat) : M UPLpgSQL_datum :=
  s <~ xget; match es_datums s !! n with Some d => xret d | None => undefined end.

(** [datum->dtype] as a number. *)
Definition dtype (d : UPLpgSQL_datum) : Z :=
  match d with
  | DTYPE_VAR _ => 0 | DTYPE_ROW _ => 1 | DTYPE_REC _ => 2 | DTYPE_RECFIELD _ => 3
  | DTYPE_PROMISE _ => 4
  end.

(** [(UPLpgSQL_var * ) estate->datums[n]], and the store back through that
    pointer. *)
Definition get_var (n : nat) : M UPLpgSQL_var :=
  d <~ get_datum n;
  match d with DTYPE_VAR v | DTYPE_PROMISE v => xret v | _ => undefined end.
Definition update_var (f : UPLpgSQL_var -> UPLpgSQL_var) (d : UPLpgSQL_datum) : UPLpgSQL_datum :=
  match d with
  | DTYPE_VAR v => DTYPE_VAR (f v)
  | DTYPE_PROMISE v => DTYPE_PROMISE (f v)
  | d => d
  end.
Definition put_var (n : nat) (f : UPLpgSQL_var -> UPLpgSQL_var) : M unit :=
  xmodify (with_datums (alter (update_var f) n)).

Definition store_value (v : Datum) (null freeable : bool) (x : UPLpgSQL_var) : UPLpgSQL_var :=
  mk_var (var_head x) (var_datatype x) (cursor_explicit_expr x) (cursor_explicit_argrow x)
    (cursor_options x) v null freeable PROMISE_NONE.
(** The generated code's stores through the same pointer leave the promise alone. *)
Definition set_value (v : Datum) (null freeable : bool) (x : UPLpgSQL_var) : UPLpgSQL_var :=
  mk_var (var_head x) (var_datatype x) (cursor_explicit_expr x) (cursor_explicit_argrow x)
    (cursor_options x) v null freeable (promise x).
Definition store_datatype (t : UPLpgSQL_type) (x : UPLpgSQL_var) : UPLpgSQL_var :=
  mk_var (var_head x) t (cursor_explicit_expr x) (cursor_explicit_argrow x)
    (cursor_options x) (value x) (isnull x) (freeval x) (promise x).
Definition disarm_promise (x : UPLpgSQL_var) : UPLpgSQL_var :=
  mk_var (var_head x) (var_datatype x) (cursor_explicit_expr x) (cursor_explicit_argrow x)
    (cursor_options x) (value x) (isnull x) (freeval x) PROMISE_NONE.

(** The same for records. *)
Definition get_rec (n : nat) : M UPLpgSQL_rec :=
  d <~ get_datum n; match d with DTYPE_REC r => xret r | _ => undefined end.
Definition update_rec (f : UPLpgSQL_rec -> UPLpgSQL_rec) (d : UPLpgSQL_datum) : UPLpgSQL_datum :=
  match d with DTYPE_REC r => DTYPE_REC (f r) | d => d end.
Definition put_rec (n : nat) (f : UPLpgSQL_rec -> UPLpgSQL_rec) : M unit :=
  xmodify (with_datums (alter (update_rec f) n)).
Definition store_erh (e : option Datum) (r : UPLpgSQL_rec) : UPLpgSQL_rec :=
  mk_rec (rec_head r) (rec_datatype r) (rectypeid r) (firstfield r) e.
Definition store_rectypeid (t : Oid) (r : UPLpgSQL_rec) : UPLpgSQL_rec :=
  mk_rec (rec_head r) (rec_datatype r) t (firstfield r) (erh r).

(** ** Simple variables *)

(** [assign_simple_var]; releasing the old value only concerns memory. *)
Definition assign_simple_var (n : nat) (newvalue : Datum) (null freeable : bool) : M unit :=
  var <~ get_var n;
  s <~ xget;
  if negb (atomic s) && negb null && (typlen (var_datatype var) =? -1)
     && is_external_non_expanded (es_world s) newvalue
  then detoasted <~ pg_call (detoast_external_attr newvalue);
       copy <~ pg_call (datumCopy detoasted false (-1));
       put_var n (store_value copy null true)
  else put_var n (store_value newvalue null freeable).

Definition assign_text_var (n : nat) (str : string) : M unit :=
  d <~ pg_call (CStringGetTextDatum str); assign_simple_var n d false true.

Definition BoolGetDatum (b : bool) : Datum := if b then 1 else 0.
Definition DatumGetBool (d : Datum) : bool := negb (d =? 0).
Definition Int32GetDatum (z : Z) : Datum := z.
Definition DatumGetInt32 (d : Datum) : Z := wrap32 d.

(** [exec_set_found]: FOUND is a boolean, so that the branch of
    [assign_simple_var] for varlena values is not reached ([pg_assume]). *)
Definition set_found (state : bool) (s : execstate world) : execstate world :=
  with_datums (alter (update_var (store_value (BoolGetDatum state) false false)) (found_varno s)) s.
Definition exec_set_found (state : bool) : M unit :=
  s <~ xget; _ <~ get_var (found_varno s); xmodify (set_found state).

Definition uplpgsql_set_sqlstate : M unit :=
  s <~ xget;
  match sqlstate_varno s with
  | Some n => assign_text_var n (unpack_sql_state (sqlerrcode s))
  | None => xret tt
  end.

(** [exec_check_assignable]; a record field's parent is a record, so that the
    recursion is one level deep. *)
Definition check_isconst (v : UPLpgSQL_variable) : M unit :=
  if isconst v
  then ereport ERRCODE_ERROR_IN_ASSIGNMENT
         ("variable " +:+ quoted (refname v) +:+ " is declared CONSTANT")
  else xret tt.
Definition exec_check_assignable (n : nat) : M unit :=
  d <~ get_datum n;
  match d with
  | DTYPE_VAR v | DTYPE_PROMISE v => check_isconst (var_head v)
  | DTYPE_REC r => check_isconst (rec_head r)
  | DTYPE_ROW _ => xret tt
  | DTYPE_RECFIELD f =>
      p <~ get_datum (recparentno f);
      match p with DTYPE_REC r => check_isconst (rec_head r) | _ => undefined end
  end.

(** [exec_cast_value]: "[isnull] is an input and also an output parameter". *)
Definition exec_cast_value (v : Datum) (null : bool) (valtype : Oid) (valtypmod : Z)
    (reqtype : Oid) (reqtypmod : Z) : M (Datum * bool) :=
  if negb (valtype =? reqtype) || (negb (valtypmod =? reqtypmod) && negb (reqtypmod =? -1))
  then pg_call (do_cast_value v null valtype valtypmod reqtype reqtypmod)
  else xret (v, null).

Definition cast_tv (tv : typed_value) (reqtype : Oid) (reqtypmod : Z) : M (Datum * bool) :=
  exec_cast_value (tv_value tv) (tv_isnull tv) (tv_type tv) (tv_typmod tv) reqtype reqtypmod.

Definition null_not_allowed (name : string) : M unit :=
  ereport ERRCODE_NULL_VALUE_NOT_ALLOWED
    ("null value cannot be assigned to variable " +:+ quoted name +:+ " declared NOT NULL").

(** The by-reference step of [exec_assign_value]: arrays are kept expanded, other
    values are copied into the function's memory. *)
Definition own_value (t : UPLpgSQL_type) (v : Datum) (null : bool) : M Datum :=
  s <~ xget;
  if negb (typbyval t) && negb null
  then if typisarray t && negb (is_expanded_rw (es_world s) v)
       then pg_call (expand_array v)
       else pg_call (datumTransfer v false (typlen t))
  else xret v.

Definition assign_value_var (n : nat) (var : UPLpgSQL_var) (tv : typed_value) : M unit :=
  let t := var_datatype var in
  cast <~ cast_tv tv (typoid t) (atttypmod t);
  if cast.2 && notnull (var_head var) then null_not_allowed (refname (var_head var))
  else
    newvalue <~ own_value t cast.1 cast.2;
    if negb (value var =? newvalue) || isnull var || cast.2
    then assign_simple_var n newvalue cast.2 (negb (typbyval t) && negb cast.2)
    else put_var n disarm_promise.

(** ** Record variables *)

(** [assign_record_var]. *)
Definition assign_record_var (n : nat) (newerh : Datum) : M unit :=
  rec <~ get_rec n;
  match erh rec with Some old => pg_call (DeleteExpandedObject old) | None => xret tt end ;~
  put_rec n (store_erh (Some newerh)).

(** [revalidate_rectypeid]: what the type cache says about the declared type is
    [current_rectypeid]. *)
Definition revalidate_rectypeid (n : nat) : M unit :=
  rec <~ get_rec n;
  if rectypeid rec =? RECORDOID then xret tt
  else t <~ pg_call (current_rectypeid rec); put_rec n (store_rectypeid t).

(** [instantiate_empty_record_variable]. *)
Definition instantiate_empty_record_variable (n : nat) : M unit :=
  rec <~ get_rec n;
  if rectypeid rec =? RECORDOID
  then throw (with_detail (Some "The tuple structure of a not-yet-assigned record is indeterminate.")
                (mk_error ERRCODE_OBJECT_NOT_IN_PREREQUISITE_STATE
                   ("record " +:+ quoted (refname (rec_head rec)) +:+ " is not assigned yet")))
  else
    revalidate_rectypeid n ;~
    rec <~ get_rec n;
    e <~ pg_call (make_expanded_record_from_typeid (rectypeid rec) (-1));
    put_rec n (store_erh (Some e)).

(** [make_expanded_record_for_rec]. *)
Definition make_expanded_record_for_rec (n : nat) (srctupdesc : option TupleDesc)
    (srcerh : option Datum) : M Datum :=
  rec <~ get_rec n;
  if negb (rectypeid rec =? RECORDOID)
  then
    revalidate_rectypeid n ;~
    rec <~ get_rec n;
    s <~ xget;
    match srcerh with
    | Some e =>
        if rectypeid rec =? er_decltypeid (es_world s) e
        then pg_call (make_expanded_record_from_exprecord e)
        else pg_call (make_expanded_record_from_typeid (rectypeid rec) (-1))
    | None => pg_call (make_expanded_record_from_typeid (rectypeid rec) (-1))
    end
  else
    s <~ xget;
    match srcerh, srctupdesc with
    | Some e, _ =>
        if negb (ExpandedRecordIsDomain (es_world s) e)
        then pg_call (make_expanded_record_from_exprecord e)
        else pg_call (make_expanded_record_from_tupdesc
                        (match srctupdesc with
                         | Some d => d
                         | None => expanded_record_get_tupdesc (es_world s) e
                         end))
    | None, Some d => pg_call (make_expanded_record_from_tupdesc d)
    | None, None => undefined
    end.

(** [compatible_tupdescs]. *)
Definition compatible_attr (d s : pg_attribute) : bool :=
  eqb (attisdropped d) (attisdropped s)
  && if negb (attisdropped d)
     then (att_typid d =? att_typid s)
          && ((att_typmod d <? 0) || (att_typmod d =? att_typmod s))
     else (attlen d =? attlen s) && (if ascii_dec (attalign d) (attalign s) then true else false).
Definition compatible_tupdescs (src dst : TupleDesc) : bool :=
  Nat.eqb (natts dst) (natts src)
  && forallb (fun p => compatible_attr p.1 p.2) (zip (attrs dst) (attrs src)).

(** ** Source columns

    The columns of a source row paired with their descriptors; the cursor [anum]
    of the C code is the list of those still to come. *)
Abbreviation columns := (list (pg_attribute * (Datum * bool))).
Definition columns_of (d : TupleDesc) (row : tuple) : columns := zip (attrs d) row.

(** "skip dropped column in tuple" *)
Fixpoint skip_dropped (cols : columns) : columns :=
  match cols with
  | c :: cols' => if attisdropped c.1 then skip_dropped cols' else cols
  | [] => []
  end.

Definition UPLPGSQL_XCHECK_TOOMANYROWS : Z := Z.shiftl 1 2.
Definition UPLPGSQL_XCHECK_STRICTMULTIASSIGNMENT : Z := Z.shiftl 1 3.

(** The level of the extra check [flag]; 0 when it is off. *)
Definition extra_check_level (flag : Z) : Z :=
  if negb (Z.land uplpgsql_extra_errors flag =? 0) then ERROR
  else if negb (Z.land uplpgsql_extra_warnings flag =? 0) then WARNING
  else 0.

Definition field_count_mismatch (level : Z) : M unit :=
  if level =? 0 then xret tt
  else ereport_at level
         (with_hint "Make sure the query returns the exact list of columns."
           (with_detail (Some ("strict_multi_assignment check of "
                               +:+ (if level =? ERROR then "extra_errors" else "extra_warnings")
                               +:+ " is active."))
             (mk_error ERRCODE_DATATYPE_MISMATCH
                "number of source and target fields in assignment does not match"))).

(** The value for the next destination column, and the columns left. *)
Definition next_column (level : Z) (cols : columns) : M (typed_value * columns) :=
  match skip_dropped cols with
  | c :: cols' => xret (mk_tv c.2.1 c.2.2 (att_typid c.1) (att_typmod c.1), cols')
  | [] => field_count_mismatch level ;~ xret (mk_tv 0 true UNKNOWNOID (-1), [])
  end.

(** "ensure there are no unassigned source attributes" *)
Definition no_columns_left (level : Z) (cols : columns) : M unit :=
  match skip_dropped cols with [] => xret tt | _ => field_count_mismatch level end.

(** ** Moving a row into a record *)

(** The loop over the record's columns in [exec_move_row_from_fields]; a dropped
    column is ignored by [expanded_record_set_fields]. *)
Fixpoint coerce_fields (level : Z) (dest : list pg_attribute) (cols : columns)
    : M (tuple * columns) :=
  match dest with
  | [] => xret ([], cols)
  | attr :: dest' =>
      if attisdropped attr
      then r <~ coerce_fields level dest' cols; xret ((0, true) :: r.1, r.2)
      else
        c <~ next_column level cols;
        v <~ cast_tv c.1 (att_typid attr) (att_typmod attr);
        r <~ coerce_fields level dest' c.2;
        xret (v :: r.1, r.2)
  end.

(** [exec_move_row_from_fields] with a record target.  The C code skips the loop
    when source and target share one descriptor, where it would change nothing:
    [exec_cast_value] is the identity on equal types. *)
Definition move_fields_rec (n : nat) (newerh : Datum) (src : option (TupleDesc * tuple)) : M unit :=
  s <~ xget;
  let var_tupdesc := expanded_record_get_tupdesc (es_world s) newerh in
  let level := match src with
               | Some _ => extra_check_level UPLPGSQL_XCHECK_STRICTMULTIASSIGNMENT
               | None => 0
               end in
  let cols := match src with Some d => columns_of d.1 d.2 | None => [] end in
  r <~ coerce_fields level (attrs var_tupdesc) cols;
  no_columns_left level r.2 ;~
  pg_call (expanded_record_set_fields newerh r.1 (negb (atomic s))) ;~
  assign_record_var n newerh.

(** [exec_move_row] with a record target. *)
Definition TYPTYPE_DOMAIN : ascii := "d".

Definition is_domain (t : option UPLpgSQL_type) : bool :=
  match t with Some t => if ascii_dec (typtype t) TYPTYPE_DOMAIN then true else false | None => false end.

Definition clear_rec (n : nat) : M unit :=
  rec <~ get_rec n;
  if is_domain (rec_datatype rec)
  then newerh <~ make_expanded_record_for_rec n None (erh rec);
       pg_call (expanded_record_set_tuple newerh None false false) ;~
       assign_record_var n newerh
  else
    match erh rec with Some old => pg_call (DeleteExpandedObject old) | None => xret tt end ;~
    put_rec n (store_erh None).

Definition move_row_rec (n : nat) (tup : option tuple) (tupdesc : option TupleDesc) : M unit :=
  match tupdesc with
  | None => clear_rec n
  | Some d =>
      newerh <~ make_expanded_record_for_rec n (Some d) None;
      rec <~ get_rec n;
      s <~ xget;
      match tup with
      | None => pg_call (deconstruct_expanded_record newerh) ;~ assign_record_var n newerh
      | Some row =>
          if (rectypeid rec =? RECORDOID) || (rectypeid rec =? tdtypeid d)
             || compatible_tupdescs d (expanded_record_get_tupdesc (es_world s) newerh)
          then pg_call (expanded_record_set_tuple newerh (Some row) true (negb (atomic s))) ;~
               assign_record_var n newerh
          else move_fields_rec n newerh (Some (d, row))
      end
  end.

(** The rowtype test of [exec_move_row_from_datum]: "same named composite type or
    same registered rowtype". *)
Definition same_rowtype (a b : Oid * Z) : bool :=
  (a.1 =? b.1) && (negb (a.1 =? RECORDOID) || ((a.2 =? b.2) && (0 <=? a.2))).

(** The source is an expanded record [e] that cannot be taken over. *)
Definition copy_expanded_rec (n : nat) (e : Datum) : M unit :=
  newerh <~ make_expanded_record_for_rec n None (Some e);
  rec <~ get_rec n;
  s <~ xget;
  let w := es_world s in
  let by_fields :=
    if ExpandedRecordIsEmpty w e
    then pg_call (deconstruct_expanded_record newerh) ;~ assign_record_var n newerh
    else
      pg_call (deconstruct_expanded_record e) ;~
      s' <~ xget;
      move_fields_rec n newerh (Some (expanded_record_get_tupdesc (es_world s') e,
                                      expanded_record_fields (es_world s') e)) in
  match expanded_record_fvalue w e with
  | Some row =>
      if (rectypeid rec =? RECORDOID) || (rectypeid rec =? (er_type w e).1)
      then pg_call (expanded_record_set_tuple newerh (Some row) true (negb (atomic s))) ;~
           assign_record_var n newerh
      else by_fields
  | None => by_fields
  end.

Definition move_expanded_rec (n : nat) (v : Datum) : M unit :=
  s <~ xget;
  let e := DatumGetEOHP (es_world s) v in
  rec <~ get_rec n;
  if decide (erh rec = Some e) then xret tt
  else
    revalidate_rectypeid n ;~
    rec <~ get_rec n;
    s <~ xget;
    let w := es_world s in
    if is_expanded_rw w v
       && ((rectypeid rec =? er_decltypeid w e)
           || ((rectypeid rec =? RECORDOID) && negb (ExpandedRecordIsDomain w e)))
    then assign_record_var n e
    else
      match erh rec, expanded_record_fvalue w e with
      | Some mine, Some row =>
          if same_rowtype (er_type w e) (er_type w mine)
          then pg_call (expanded_record_set_tuple mine (Some row) true (negb (atomic s)))
          else copy_expanded_rec n e
      | _, _ => copy_expanded_rec n e
      end.

(** The source is a plain composite datum. *)
Definition move_composite_rec (n : nat) (v : Datum) : M unit :=
  row <~ pg_call (composite_datum_tuple v);
  s <~ xget;
  rec <~ get_rec n;
  let w := es_world s in
  let t := composite_datum_type w v in
  let by_row :=
    if (rectypeid rec =? RECORDOID) || (rectypeid rec =? t.1)
    then newerh <~ pg_call (make_expanded_record_from_typeid t.1 t.2);
         pg_call (expanded_record_set_tuple newerh (Some row) true (negb (atomic s))) ;~
         assign_record_var n newerh
    else tupdesc <~ pg_call (lookup_rowtype_tupdesc t.1 t.2);
         move_row_rec n (Some row) (Some tupdesc) in
  match erh rec with
  | Some mine =>
      if same_rowtype t (er_type w mine)
      then pg_call (expanded_record_set_tuple mine (Some row) true (negb (atomic s)))
      else by_row
  | None => by_row
  end.

Definition move_datum_rec (n : nat) (v : Datum) : M unit :=
  s <~ xget;
  if is_expanded (es_world s) v then move_expanded_rec n v else move_composite_rec n v.

(** ** Record fields *)

(** [rec->erh], instantiating the record first if it is NULL. *)
Definition get_erh (recno : nat) : M Datum :=
  rec <~ get_rec recno;
  match erh rec with
  | Some e => xret e
  | None =>
      instantiate_empty_record_variable recno ;~
      rec <~ get_rec recno;
      match erh rec with Some e => xret e | None => undefined end
  end.

Definition lookup_field (recno : nat) (e : Datum) (name : string) : M field_info :=
  s <~ xget;
  rec <~ get_rec recno;
  match expanded_record_lookup_field (es_world s) e name with
  | Some i => xret i
  | None =>
      ereport ERRCODE_UNDEFINED_COLUMN
        ("record " +:+ quoted (refname (rec_head rec)) +:+ " has no field " +:+ quoted name)
  end.

Definition assign_value_recfield (f : UPLpgSQL_recfield) (tv : typed_value) : M unit :=
  e <~ get_erh (recparentno f);
  finfo <~ lookup_field (recparentno f) e (fieldname f);
  if fnumber finfo <=? 0
  then ereport ERRCODE_FEATURE_NOT_SUPPORTED ("cannot assign to system column " +:+ quoted (fieldname f))
  else
    cast <~ cast_tv tv (ftypeid finfo) (ftypmod finfo);
    s <~ xget;
    pg_call (expanded_record_set_field e (fnumber finfo) cast.1 cast.2 (negb (atomic s))).

(** ** Assignment of a value

    [exec_assign_value] calls [exec_move_row] for rows and records, which calls
    it back for the variables of a row; those are never rows themselves, so that
    the recursion is unrolled: [assign_field] is the inner level. *)

Definition assign_value_rec (n : nat) (rec : UPLpgSQL_rec) (tv : typed_value) : M unit :=
  if tv_isnull tv then
    if notnull (rec_head rec) then null_not_allowed (refname (rec_head rec))
    else move_row_rec n None None
  else if type_is_rowtype (tv_type tv) then move_datum_rec n (tv_value tv)
  else ereport ERRCODE_DATATYPE_MISMATCH "cannot assign non-composite value to a record variable".

Definition assign_field (n : nat) (tv : typed_value) : M unit :=
  d <~ get_datum n;
  match d with
  | DTYPE_VAR var | DTYPE_PROMISE var => assign_value_var n var tv
  | DTYPE_REC rec => assign_value_rec n rec tv
  | DTYPE_RECFIELD f => assign_value_recfield f tv
  | DTYPE_ROW _ => undefined
  end.

(** [exec_move_row_from_fields] with a row target: "we assign the individual
    field values to the variables the row points to". *)
Fixpoint assign_fields (level : Z) (varnos : list nat) (cols : columns) : M columns :=
  match varnos with
  | [] => xret cols
  | n :: varnos' =>
      c <~ next_column level cols;
      assign_field n c.1 ;~
      assign_fields level varnos' c.2
  end.

Definition move_fields_row (row : UPLpgSQL_row) (src : option (TupleDesc * tuple)) : M unit :=
  let level := match src with
               | Some _ => extra_check_level UPLPGSQL_XCHECK_STRICTMULTIASSIGNMENT
               | None => 0
               end in
  left <~ assign_fields level (varnos row)
            (match src with Some d => columns_of d.1 d.2 | None => [] end);
  no_columns_left level left.

(** [exec_move_row] with a row target. *)
Definition move_row_row (row : UPLpgSQL_row) (tup : option tuple) (tupdesc : option TupleDesc) : M unit :=
  move_fields_row row (match tupdesc, tup with Some d, Some t => Some (d, t) | _, _ => None end).

Definition unsupported_target (d : UPLpgSQL_datum) : M unit :=
  elog ("unsupported target type: " +:+ pretty (dtype d)).

(** [exec_move_row]. *)
Definition exec_move_row (n : nat) (tup : option tuple) (tupdesc : option TupleDesc) : M unit :=
  target <~ get_datum n;
  match target with
  | DTYPE_REC _ => move_row_rec n tup tupdesc
  | DTYPE_ROW row => move_row_row row tup tupdesc
  | _ => unsupported_target target
  end.

(** [exec_move_row_from_datum] with a row target. *)
Definition move_datum_row (row : UPLpgSQL_row) (v : Datum) : M unit :=
  s <~ xget;
  let w := es_world s in
  if is_expanded w v
  then
    let e := DatumGetEOHP w v in
    if ExpandedRecordIsEmpty w e
    then move_row_row row None (Some (expanded_record_get_tupdesc w e))
    else
      pg_call (deconstruct_expanded_record e) ;~
      s' <~ xget;
      move_fields_row row (Some (expanded_record_get_tupdesc (es_world s') e,
                                 expanded_record_fields (es_world s') e))
  else
    tup <~ pg_call (composite_datum_tuple v);
    s' <~ xget;
    let t := composite_datum_type (es_world s') v in
    tupdesc <~ pg_call (lookup_rowtype_tupdesc t.1 t.2);
    move_row_row row (Some tup) (Some tupdesc).

Definition assign_value_row (row : UPLpgSQL_row) (tv : typed_value) : M unit :=
  if tv_isnull tv then move_row_row row None None
  else if type_is_rowtype (tv_type tv) then move_datum_row row (tv_value tv)
  else ereport ERRCODE_DATATYPE_MISMATCH "cannot assign non-composite value to a row variable".

(** [exec_assign_value]. *)
Definition exec_assign_value (n : nat) (tv : typed_value) : M unit :=
  d <~ get_datum n;
  match d with
  | DTYPE_ROW row => assign_value_row row tv
  | _ => assign_field n tv
  end.

(** [exec_assign_c_string]: "We take a NULL pointer as signifying empty string". *)
Definition exec_assign_c_string (n : nat) (str : option string) : M unit :=
  v <~ pg_call (CStringGetTextDatum (default "" str));
  exec_assign_value n (mk_tv v false TEXTOID (-1)).

(** ** Promises

    The variables of a trigger function that are computed when first read. *)

(** [commands/trigger.h]. *)
Definition TRIGGER_EVENT_OPMASK : Z := 3.
Definition TRIGGER_EVENT_ROW : Z := 4.
Definition TRIGGER_EVENT_TIMINGMASK : Z := 24.
Definition TRIGGER_FIRED_BY_INSERT (ev : Z) : bool := Z.land ev TRIGGER_EVENT_OPMASK =? 0.
Definition TRIGGER_FIRED_BY_DELETE (ev : Z) : bool := Z.land ev TRIGGER_EVENT_OPMASK =? 1.
Definition TRIGGER_FIRED_BY_UPDATE (ev : Z) : bool := Z.land ev TRIGGER_EVENT_OPMASK =? 2.
Definition TRIGGER_FIRED_BY_TRUNCATE (ev : Z) : bool := Z.land ev TRIGGER_EVENT_OPMASK =? 3.
Definition TRIGGER_FIRED_FOR_ROW (ev : Z) : bool := negb (Z.land ev TRIGGER_EVENT_ROW =? 0).
Definition TRIGGER_FIRED_AFTER (ev : Z) : bool := Z.land ev TRIGGER_EVENT_TIMINGMASK =? 0.
Definition TRIGGER_FIRED_BEFORE (ev : Z) : bool := Z.land ev TRIGGER_EVENT_TIMINGMASK =? 8.
Definition TRIGGER_FIRED_INSTEAD (ev : Z) : bool := Z.land ev TRIGGER_EVENT_TIMINGMASK =? 16.

Definition trigger_when (ev : Z) : option string :=
  if TRIGGER_FIRED_BEFORE ev then Some "BEFORE"
  else if TRIGGER_FIRED_AFTER ev then Some "AFTER"
  else if TRIGGER_FIRED_INSTEAD ev then Some "INSTEAD OF" else None.
(** [TRIGGER_FIRED_FOR_STATEMENT] is the negation of [TRIGGER_FIRED_FOR_ROW]. *)
Definition trigger_level (ev : Z) : string :=
  if TRIGGER_FIRED_FOR_ROW ev then "ROW" else "STATEMENT".
Definition trigger_op (ev : Z) : option string :=
  if TRIGGER_FIRED_BY_INSERT ev then Some "INSERT"
  else if TRIGGER_FIRED_BY_UPDATE ev then Some "UPDATE"
  else if TRIGGER_FIRED_BY_DELETE ev then Some "DELETE"
  else if TRIGGER_FIRED_BY_TRUNCATE ev then Some "TRUNCATE" else None.

Definition text_or_error (n : nat) (t : option string) (msg : string) : M unit :=
  match t with Some str => assign_text_var n str | None => elog msg end.

Fixpoint text_datums (args : list string) : M (list Datum) :=
  match args with
  | [] => xret []
  | a :: args' =>
      d <~ pg_call (CStringGetTextDatum a); ds <~ text_datums args'; xret (d :: ds)
  end.

Definition assign_name (n : nat) (name : string) : M unit :=
  d <~ pg_call (namein name); assign_simple_var n d false true.

(** The promises that come from [estate->trigdata]. *)
Definition fulfill_trigger (n : nat) (p : UPLpgSQL_promise_type) (t : TriggerData) : M unit :=
  match p with
  | PROMISE_TG_NAME => assign_name n (tgname t)
  | PROMISE_TG_WHEN =>
      text_or_error n (trigger_when (tg_event t))
        "unrecognized trigger execution time: not BEFORE, AFTER, or INSTEAD OF"
  | PROMISE_TG_LEVEL => assign_text_var n (trigger_level (tg_event t))
  | PROMISE_TG_OP =>
      text_or_error n (trigger_op (tg_event t))
        "unrecognized trigger action: not INSERT, DELETE, UPDATE, or TRUNCATE"
  | PROMISE_TG_RELID => assign_simple_var n (rd_id t) false false
  | PROMISE_TG_TABLE_NAME => assign_name n (relname t)
  | PROMISE_TG_TABLE_SCHEMA =>
      name <~ pg_call (get_namespace_name (relnamespace t)); assign_name n name
  | PROMISE_TG_NARGS => assign_simple_var n (Z.of_nat (length (tgargs t))) false false
  | PROMISE_TG_ARGV =>
      match tgargs t with
      | [] => assign_simple_var n 0 true false
      | args => elems <~ text_datums args;
                a <~ pg_call (construct_text_array elems 0);
                assign_simple_var n a false true
      end
  | PROMISE_NONE | PROMISE_TG_EVENT | PROMISE_TG_TAG => xret tt
  end.

(** [uplpgsql_fulfill_promise]. *)
Definition uplpgsql_fulfill_promise (n : nat) : M unit :=
  var <~ get_var n;
  s <~ xget;
  match promise var with
  | PROMISE_NONE => xret tt
  | PROMISE_TG_EVENT =>
      match evtrigdata s with
      | Some t => assign_text_var n (evt_event t)
      | None => elog "event trigger promise is not in an event trigger function"
      end
  | PROMISE_TG_TAG =>
      match evtrigdata s with
      | Some t => assign_text_var n (evt_tag t)
      | None => elog "event trigger promise is not in an event trigger function"
      end
  | p =>
      match trigdata s with
      | Some t => fulfill_trigger n p t
      | None => elog "trigger promise is not in a trigger function"
      end
  end.

(** ** The value of a datum *)

Definition eval_datum_var (n : nat) : M typed_value :=
  var <~ get_var n;
  xret (mk_tv (value var) (isnull var) (typoid (var_datatype var)) (atttypmod (var_datatype var))).

Definition eval_datum_rec (r : UPLpgSQL_rec) : M typed_value :=
  s <~ xget;
  match erh r with
  | None => xret (mk_tv 0 true (rectypeid r) (-1))
  | Some e =>
      let empty := ExpandedRecordIsEmpty (es_world s) e in
      let type := if rectypeid r =? RECORDOID then er_type (es_world s) e else (rectypeid r, -1) in
      xret (mk_tv (if empty then 0 else e) empty type.1 type.2)
  end.

Definition eval_datum_recfield (f : UPLpgSQL_recfield) : M typed_value :=
  e <~ get_erh (recparentno f);
  finfo <~ lookup_field (recparentno f) e (fieldname f);
  s <~ xget;
  let v := expanded_record_get_field (es_world s) e (fnumber finfo) in
  xret (mk_tv v.1 v.2 (ftypeid finfo) (ftypmod finfo)).

(** [exec_eval_datum] for the variables of a row, which are never rows. *)
Definition eval_field (n : nat) : M typed_value :=
  d <~ get_datum n;
  match d with
  | DTYPE_PROMISE _ => uplpgsql_fulfill_promise n ;~ eval_datum_var n
  | DTYPE_VAR _ => eval_datum_var n
  | DTYPE_REC r => eval_datum_rec r
  | DTYPE_RECFIELD f => eval_datum_recfield f
  | DTYPE_ROW _ => undefined
  end.

(** [make_tuple_from_row]: "A NULL return indicates rowtype mismatch". *)
Fixpoint row_values (attrs : list pg_attribute) (varnos : list nat) : M (option tuple) :=
  match attrs, varnos with
  | attr :: attrs', n :: varnos' =>
      if attisdropped attr
      then rest <~ row_values attrs' varnos'; xret ((fun r => (0, true) :: r) <$> rest)
      else
        tv <~ eval_field n;
        if negb (tv_type tv =? att_typid attr) then xret None
        else rest <~ row_values attrs' varnos';
             xret ((fun r => (tv_value tv, tv_isnull tv) :: r) <$> rest)
  | _, _ => xret (Some [])
  end.
Definition make_tuple_from_row (row : UPLpgSQL_row) (tupdesc : TupleDesc) : M (option tuple) :=
  if negb (Nat.eqb (natts tupdesc) (length (varnos row))) then xret None
  else row_values (attrs tupdesc) (varnos row).

Definition eval_datum_row (row : UPLpgSQL_row) : M typed_value :=
  match rowtupdesc row with
  | None => elog "row variable has no tupdesc"
  | Some d =>
      tup <~ make_tuple_from_row row d;
      match tup with
      | None => elog "row not compatible with its own tupdesc"
      | Some t => v <~ pg_call (HeapTupleGetDatum d t);
                  xret (mk_tv v false (tdtypeid d) (tdtypmod d))
      end
  end.

(** [exec_eval_datum]. *)
Definition exec_eval_datum (n : nat) : M typed_value :=
  d <~ get_datum n;
  match d with DTYPE_ROW row => eval_datum_row row | _ => eval_field n end.

(** ** Expressions *)

(** [parsenodes.h] *)
Definition CURSOR_OPT_NO_SCROLL : Z := 4.
Definition CURSOR_OPT_PARALLEL_OK : Z := 2048.

(** "On the first call for this expression generate the plan." *)
Definition prepare (e : UPLpgSQL_expr) (cursorOptions : Z) : M unit :=
  s <~ xget;
  if has_plan (es_world s) e then xret tt else pg_call (exec_prepare_plan e cursorOptions).

(** [exec_run_select] without a portal: the tuple table, which the C code leaves
    in [estate->eval_tuptable]; it returns [SPI_OK_SELECT] or not at all. *)
Definition exec_run_select (e : UPLpgSQL_expr) (maxtuples : Z) : M (option (TupleDesc * list tuple)) :=
  prepare e (Z.lor CURSOR_OPT_NO_SCROLL CURSOR_OPT_PARALLEL_OK) ;~
  r <~ SPI_execute_plan_with_paramlist e maxtuples;
  match spi_rc r with
  | SPI_OK_SELECT => xmodify (with_eval_processed (Z.of_nat (SPI_processed r))) ;~ xret (SPI_tuptable r)
  | SPI_OK_SELINTO => ereport ERRCODE_SYNTAX_ERROR "query is SELECT INTO, but it should be plain SELECT"
  | _ => ereport ERRCODE_SYNTAX_ERROR "query is not a SELECT"
  end.

(** [exec_run_select] for a portal. *)
Definition open_query_portal (e : UPLpgSQL_expr) : M portal :=
  prepare e CURSOR_OPT_NO_SCROLL ;~
  p <~ SPI_cursor_open_with_paramlist None e;
  match p with
  | Some p => xret p
  | None =>
      s <~ xget;
      elog ("could not open implicit cursor for query " +:+ quoted (query e) +:+ ": "
            +:+ SPI_result_code_string (SPI_result (es_world s)))
  end.

(** The single column of a query used as an expression. *)
Definition single_value (processed : Z) (d : TupleDesc) (rows : list tuple) : M typed_value :=
  match attrs d with
  | [attr] =>
      if processed =? 0 then xret (mk_tv 0 true (att_typid attr) (att_typmod attr))
      else if negb (processed =? 1)
      then ereport ERRCODE_CARDINALITY_VIOLATION "query returned more than one row"
      else match rows with
           | (v :: _) :: _ => xret (mk_tv v.1 v.2 (att_typid attr) (att_typmod attr))
           | _ => undefined
           end
  | l => ereport ERRCODE_SYNTAX_ERROR ("query returned " +:+ pretty (length l) +:+ " columns")
  end.

(** [exec_eval_expr]. *)
Definition exec_eval_expr (e : UPLpgSQL_expr) : M typed_value :=
  prepare e CURSOR_OPT_PARALLEL_OK ;~
  simple <~ exec_eval_simple_expr e;
  match simple with
  | Some tv => xret tv
  | None =>
      tuptab <~ exec_run_select e 0;
      s <~ xget;
      match tuptab with
      | Some t => single_value (eval_processed s) t.1 t.2
      | None => undefined
      end
  end.

(** [exec_eval_integer] and [exec_eval_boolean]: the value and its null flag. *)
Definition exec_eval_integer (e : UPLpgSQL_expr) : M (Z * bool) :=
  tv <~ exec_eval_expr e;
  cast <~ cast_tv tv INT4OID (-1);
  xret (DatumGetInt32 cast.1, cast.2).

Definition exec_eval_boolean (e : UPLpgSQL_expr) : M (bool * bool) :=
  tv <~ exec_eval_expr e;
  cast <~ cast_tv tv BOOLOID (-1);
  xret (DatumGetBool cast.1, cast.2).

(** A condition as every statement reads it: [!isnull && value]. *)
Definition eval_cond (e : UPLpgSQL_expr) : M bool :=
  r <~ exec_eval_boolean e; xret (negb r.2 && r.1).

(** [exec_assign_expr]. *)
Definition exec_assign_expr (n : nat) (e : UPLpgSQL_expr) : M unit :=
  prepare e 0 ;~
  tv <~ exec_eval_expr e;
  exec_assign_value n tv.

(** ** Variable initialisation

    One pass of the loop at the top of [exec_stmt_block], which is also
    [uplpgsql_rt_init_var]. *)
Definition init_var (n : nat) : M unit :=
  datum <~ get_datum n;
  match datum with
  | DTYPE_VAR var =>
      assign_simple_var n 0 true false ;~
      match default_val (var_head var) with
      | None =>
          if ascii_dec (typtype (var_datatype var)) TYPTYPE_DOMAIN
          then exec_assign_value n (mk_tv 0 true UNKNOWNOID (-1))
          else xret tt
      | Some e => exec_assign_expr n e
      end
  | DTYPE_REC r =>
      match default_val (rec_head r) with
      | None => exec_move_row n None None
      | Some e => exec_assign_expr n e
      end
  | _ => elog ("unrecognized dtype: " +:+ pretty (dtype datum))
  end.

(** [uplpgsql_rt_case_assign_test], and the same lines of [exec_stmt_case]. *)
Definition case_assign_test (t_varno : nat) (t_expr : UPLpgSQL_expr) : M unit :=
  tv <~ exec_eval_expr t_expr;
  t_var <~ get_var t_varno;
  (if negb (typoid (var_datatype t_var) =? tv_type tv)
      || negb (atttypmod (var_datatype t_var) =? tv_typmod tv)
   then t <~ pg_call (uplpgsql_build_datatype (tv_type tv) (tv_typmod tv));
        put_var t_varno (store_datatype t)
   else xret tt) ;~
  exec_assign_value t_varno tv.

(** ** RETURN *)

Definition non_composite {A} : M A :=
  ereport ERRCODE_DATATYPE_MISMATCH
    "cannot return non-composite value from function returning composite type".

Definition set_ret (tv : typed_value) : M unit :=
  xmodify (with_ret (tv_value tv) (tv_isnull tv) (tv_type tv)).

(** RETURN of a variable. *)
Definition return_variable (n : nat) : M unit :=
  retvar <~ get_datum n;
  match retvar with
  | DTYPE_VAR _ | DTYPE_PROMISE _ =>
      (match retvar with DTYPE_PROMISE _ => uplpgsql_fulfill_promise n | _ => xret tt end) ;~
      var <~ get_var n;
      set_ret (mk_tv (value var) (isnull var) (typoid (var_datatype var)) (-1)) ;~
      s <~ xget;
      if retistuple s && negb (retisnull s) then non_composite else xret tt
  | DTYPE_ROW _ | DTYPE_REC _ => tv <~ exec_eval_datum n; set_ret tv
  | DTYPE_RECFIELD _ => elog ("unrecognized dtype: " +:+ pretty (dtype retvar))
  end.

(** RETURN of an expression. *)
Definition return_expr (e : UPLpgSQL_expr) : M unit :=
  tv <~ exec_eval_expr e;
  set_ret tv ;~
  s <~ xget;
  if retistuple s && negb (retisnull s) && negb (type_is_rowtype (rettype s))
  then non_composite else xret tt.

(** [exec_stmt_return]; its result is always [UPLPGSQL_RC_RETURN]. *)
Definition exec_stmt_return (stmt : UPLpgSQL_stmt_return) : M unit :=
  s <~ xget;
  if retisset s then xret tt
  else
    set_ret (mk_tv 0 true InvalidOid (-1)) ;~
    match retvarno stmt, ret_expr stmt with
    | Some n, _ => return_variable n
    | None, Some e => return_expr e
    | None, None =>
        if (es_fn_rettype s =? VOIDOID) && negb (es_is_procedure s)
        then set_ret (mk_tv 0 false VOIDOID (-1)) else xret tt
    end.

(** ** ASSERT *)

(** [exec_stmt_assert]. *)
Definition exec_assert (s : UPLpgSQL_stmt_assert) : M unit :=
  if negb uplpgsql_check_asserts then xret tt
  else
    ok <~ eval_cond (assert_cond s);
    if ok : bool then xret tt
    else
      match assert_message s with
      | Some e =>
          tv <~ exec_eval_expr e;
          if tv_isnull tv then ereport ERRCODE_ASSERT_FAILURE "assertion failed"
          else msg <~ pg_call (convert_value_to_string (tv_value tv) (tv_type tv));
               ereport ERRCODE_ASSERT_FAILURE msg
      | None => ereport ERRCODE_ASSERT_FAILURE "assertion failed"
      end.

(** ** Exceptions *)

(** [exception_matches_conditions]. *)
Definition condition_matches (code : Z) (c : UPLpgSQL_condition) : bool :=
  let sqlerrstate := sqlerrstate c in
  if sqlerrstate =? UPLPGSQL_OTHERS
  then negb (code =? ERRCODE_QUERY_CANCELED) && negb (code =? ERRCODE_ASSERT_FAILURE)
  else (code =? sqlerrstate)
       || (ERRCODE_IS_CATEGORY sqlerrstate && (ERRCODE_TO_CATEGORY code =? sqlerrstate)).
Definition exception_matches_conditions (edata : ErrorData) (conds : list UPLpgSQL_condition) : bool :=
  existsb (condition_matches (err_sqlerrcode edata)) conds.
End primitives.
