(* ===== verification/Raise.v ===== *)
(** * Conditions and RAISE

    Condition names and SQLSTATE codes ([uplpgsql_recognize_err_condition] and
    [uplpgsql_parse_err_condition] of [common/upl_comp.c], the grammar's
    [proc_condition]), the grammar's check of a RAISE statement's parameters
    ([check_raise_parameters]), and its execution ([exec_stmt_raise] of
    [common/upl_exec.c]).

    The theorems: a valid SQLSTATE determines its code; a handler for a class
    condition catches exactly that class; an error raised under a condition name
    is caught by a handler for that name; and a RAISE the grammar accepts never
    runs into a parameter list of the wrong length, but substitutes its
    parameters in order. *)

From Stdlib Require Import ZArith Lia Ascii.
From S2P Require Import Prelude Ast Exec Assign Errcodes.
#[local] Open Scope Z_scope.

(** ** SQLSTATE strings *)

(** [strspn(s, "0123456789ABCDEFGHIJKLMNOPQRSTUVWXYZ")] covers the character. *)
Definition sqlstate_char (c : ascii) : bool :=
  let n := Z.of_nat (nat_of_ascii c) in
  ((48 <=? n) && (n <=? 57)) || ((65 <=? n) && (n <=? 90)).

(** The code of a string of five such characters. *)
Definition sqlstate_code (str : string) : option Z :=
  match str with
  | String a (String b (String c (String d (String e EmptyString)))) =>
      if forallb sqlstate_char [a; b; c; d; e] then Some (MAKE_SQLSTATE a b c d e) else None
  | _ => None
  end.

Section conditions.
Context {world : Type} `{PgEnv world}.
Abbreviation M := (exec (execstate world)).

Definition exception_label_map : list (string * Z) :=
  map (fun p => (p.1, errcode p.2)) exception_labels.

Definition find_label (name : string) : option Z :=
  snd <$> List.find (fun p => String.eqb name p.1) exception_label_map.

Definition unrecognized (name : string) : string :=
  "unrecognized exception condition " +:+ quoted name.

(** [uplpgsql_recognize_err_condition]. *)
Definition uplpgsql_recognize_err_condition (name : string) (allow_sqlstate : bool) : M Z :=
  match (if allow_sqlstate then sqlstate_code name else None) with
  | Some code => xret code
  | None =>
      match find_label name with
      | Some code => xret code
      | None => ereport ERRCODE_UNDEFINED_OBJECT (unrecognized name)
      end
  end.

(** [uplpgsql_parse_err_condition]: every entry of that name, the last one first. *)
Definition uplpgsql_parse_err_condition (name : string) : result (list UPLpgSQL_condition) :=
  if String.eqb name "others" then Success [mk_condition UPLPGSQL_OTHERS name]
  else
    match rev (List.filter (fun p => String.eqb name p.1) exception_label_map) with
    | [] => Failure (unrecognized name)
    | l => Success (map (fun p => mk_condition p.2 name) l)
    end.

(** The grammar's [proc_condition]: an identifier, and the token after it, which
    has to be a string literal when the identifier is SQLSTATE. *)
Definition proc_condition (name : string) (literal : option string) : result (list UPLpgSQL_condition) :=
  if negb (String.eqb name "sqlstate") then uplpgsql_parse_err_condition name
  else
    match literal with
    | None => Failure "syntax error"
    | Some str =>
        match sqlstate_code str with
        | Some code => Success [mk_condition code str]
        | None => Failure "invalid SQLSTATE code"
        end
    end.

(** [proc_conditions]: conditions joined by OR. *)
Fixpoint proc_conditions (l : list (string * option string)) : result (list UPLpgSQL_condition) :=
  match l with
  | [] => Success []
  | c :: l' =>
      (cond <-! proc_condition c.1 c.2; rest <-! proc_conditions l'; Success (cond ++ rest))%result
  end.

(** ** RAISE *)

(** [check_raise_parameters] counts the placeholders of the message. *)
Fixpoint expected_nparams (msg : string) : nat :=
  match msg with
  | EmptyString => 0
  | String c rest =>
      if ascii_dec c "%" then
        match rest with
        | String c' rest' =>
            if ascii_dec c' "%" then expected_nparams rest' else S (expected_nparams rest)
        | EmptyString => 1
        end
      else expected_nparams rest
  end.

Definition check_raise_parameters (s : UPLpgSQL_stmt_raise) : result unit :=
  match message s with
  | None => Success tt
  | Some msg =>
      if (expected_nparams msg <? length (raise_params s))%nat
      then Failure "too many parameters specified for RAISE"
      else if (length (raise_params s) <? expected_nparams msg)%nat
      then Failure "too few parameters specified for RAISE"
      else Success tt
  end.

Definition param_text (e : UPLpgSQL_expr) : M string :=
  tv <~ exec_eval_expr e;
  if tv_isnull tv then xret "<NULL>" else pg_call (convert_value_to_string (tv_value tv) (tv_type tv)).

Definition bad_length {A} : M A := elog "unexpected RAISE parameter list length".

(** The loop over the message. *)
Fixpoint format_message (msg : string) (params : list UPLpgSQL_expr) : M string :=
  match msg with
  | EmptyString => match params with [] => xret EmptyString | _ => bad_length end
  | String c rest =>
      let placeholder :=
        match params with
        | [] => bad_length
        | e :: params' =>
            extval <~ param_text e;
            tail <~ format_message rest params';
            xret (extval +:+ tail)
        end in
      if ascii_dec c "%" then
        match rest with
        | String c' rest' =>
            if ascii_dec c' "%" then tail <~ format_message rest' params; xret (String "%" tail)
            else placeholder
        | EmptyString => placeholder
        end
      else tail <~ format_message rest params; xret (String c tail)
  end.

(** The local variables of [exec_stmt_raise]. *)
Record raise_state := mk_raise_state {
  rs_code : Z;
  rs_condname : option string;
  rs_message : option string;
  rs_detail : option string;
  rs_hint : option string;
  rs_column : option string;
  rs_constraint : option string;
  rs_datatype : option string;
  rs_table : option string;
  rs_schema : option string
}.

Definition already_specified {A} (name : string) : M A :=
  ereport ERRCODE_SYNTAX_ERROR ("RAISE option already specified: " +:+ name).

(** [SET_RAISE_OPTION_TEXT]. *)
Definition set_option_text (old : option string) (name : string) (r : raise_state) : M raise_state :=
  match old with Some _ => already_specified name | None => xret r end.

Definition apply_option (r : raise_state) (t : UPLpgSQL_raise_option_type) (v : string) : M raise_state :=
  let (code, cn, msg, det, hint, col, con, dt, tab, sch) := r in
  match t with
  | RAISEOPTION_ERRCODE =>
      if negb (code =? 0) then already_specified "ERRCODE"
      else code' <~ uplpgsql_recognize_err_condition v true;
           xret (mk_raise_state code' (Some v) msg det hint col con dt tab sch)
  | RAISEOPTION_MESSAGE =>
      set_option_text msg "MESSAGE" (mk_raise_state code cn (Some v) det hint col con dt tab sch)
  | RAISEOPTION_DETAIL =>
      set_option_text det "DETAIL" (mk_raise_state code cn msg (Some v) hint col con dt tab sch)
  | RAISEOPTION_HINT =>
      set_option_text hint "HINT" (mk_raise_state code cn msg det (Some v) col con dt tab sch)
  | RAISEOPTION_COLUMN =>
      set_option_text col "COLUMN" (mk_raise_state code cn msg det hint (Some v) con dt tab sch)
  | RAISEOPTION_CONSTRAINT =>
      set_option_text con "CONSTRAINT" (mk_raise_state code cn msg det hint col (Some v) dt tab sch)
  | RAISEOPTION_DATATYPE =>
      set_option_text dt "DATATYPE" (mk_raise_state code cn msg det hint col con (Some v) tab sch)
  | RAISEOPTION_TABLE =>
      set_option_text tab "TABLE" (mk_raise_state code cn msg det hint col con dt (Some v) sch)
  | RAISEOPTION_SCHEMA =>
      set_option_text sch "SCHEMA" (mk_raise_state code cn msg det hint col con dt tab (Some v))
  end.

Fixpoint apply_options (r : raise_state) (opts : list UPLpgSQL_raise_option) : M raise_state :=
  match opts with
  | [] => xret r
  | opt :: opts' =>
      tv <~ exec_eval_expr (opt_expr opt);
      if tv_isnull tv
      then ereport ERRCODE_NULL_VALUE_NOT_ALLOWED "RAISE statement option cannot be null"
      else
        extval <~ pg_call (convert_value_to_string (tv_value tv) (tv_type tv));
        r' <~ apply_option r (opt_type opt) extval;
        apply_options r' opts'
  end.

(** The error that is thrown or reported; a code of 0 is "none given", which only
    happens below ERROR. *)
Definition raised_error (level : Z) (r : raise_state) : ErrorData :=
  let code := if (rs_code r =? 0) && (ERROR <=? level) then ERRCODE_RAISE_EXCEPTION else rs_code r in
  let msg := match rs_message r, rs_condname r with
             | Some m, _ => m
             | None, Some cn => cn
             | None, None => unpack_sql_state code
             end in
  mk_error_data code msg (rs_detail r) (rs_hint r) (rs_column r) (rs_constraint r)
    (rs_datatype r) (rs_table r) (rs_schema r).

(** "RAISE with no parameters: re-throw current exception". *)
Definition rethrow_current : M unit :=
  s <~ xget;
  match cur_error s with
  | Some e => throw e
  | None =>
      ereport ERRCODE_STACKED_DIAGNOSTICS_ACCESSED_WITHOUT_ACTIVE_HANDLER
        "RAISE without parameters cannot be used outside an exception handler"
  end.

(** [exec_stmt_raise]; it returns [UPLPGSQL_RC_OK] if it returns. *)
Definition exec_stmt_raise (s : UPLpgSQL_stmt_raise) : M unit :=
  match raise_condname s, message s, raise_options s with
  | None, None, [] => rethrow_current
  | _, _, _ =>
      code <~ (match raise_condname s with
               | Some cn => uplpgsql_recognize_err_condition cn true
               | None => xret 0
               end);
      msg <~ (match message s with
              | Some m => text <~ format_message m (raise_params s); xret (Some text)
              | None => xret None
              end);
      r <~ apply_options (mk_raise_state code (raise_condname s) msg None None None None None None None)
             (raise_options s);
      ereport_at (elog_level s) (raised_error (elog_level s) r)
  end.
End conditions.

(** ** SQLSTATE codes are faithful *)

(** The characters of a code ([PGUNSIXBIT] of [utils/elog.h]). *)
Definition sqlstate_nth (code : Z) (i : Z) : ascii :=
  ascii_of_nat (Z.to_nat (Z.land (Z.shiftr code (6 * i)) 63 + 48)).
Definition sqlstate_text (code : Z) : string :=
  String (sqlstate_nth code 0) (String (sqlstate_nth code 1) (String (sqlstate_nth code 2)
    (String (sqlstate_nth code 3) (String (sqlstate_nth code 4) EmptyString)))).

(** What a valid character contributes. *)
Definition sixbit (c : ascii) : Z := Z.of_nat (nat_of_ascii c) - 48.

Lemma sixbit_range c : sqlstate_char c = true -> 0 <= sixbit c < 64.
Proof. unfold sqlstate_char, sixbit. intros Hc. lia. Qed.

Lemma land63 z : Z.land z 63 = z mod 64.
Proof. change 63 with (Z.ones 6). by rewrite Z.land_ones by lia. Qed.

Lemma PGSIXBIT_sixbit c : sqlstate_char c = true -> PGSIXBIT c = sixbit c.
Proof.
  intros Hc. unfold PGSIXBIT. rewrite land63. fold (sixbit c).
  apply Z.mod_small, sixbit_range, Hc.
Qed.

Lemma sixbit_char c : sqlstate_char c = true -> ascii_of_nat (Z.to_nat (sixbit c + 48)) = c.
Proof.
  intros _. unfold sixbit. replace (Z.of_nat (nat_of_ascii c) - 48 + 48) with (Z.of_nat (nat_of_ascii c)) by lia.
  by rewrite Nat2Z.id, ascii_nat_embedding.
Qed.

Lemma MAKE_SQLSTATE_digits a b c d e :
  forallb sqlstate_char [a; b; c; d; e] = true ->
  MAKE_SQLSTATE a b c d e
  = sixbit a + 64 * sixbit b + 4096 * sixbit c + 262144 * sixbit d + 16777216 * sixbit e
  /\ Forall (fun ch => 0 <= sixbit ch < 64) [a; b; c; d; e].
Proof.
  simpl. rewrite !andb_true_iff. intros (Ha & Hb & Hc & Hd & He & _). split.
  - unfold MAKE_SQLSTATE. rewrite !PGSIXBIT_sixbit, !Z.shiftl_mul_pow2 by (done || lia). lia.
  - repeat constructor; by apply sixbit_range.
Qed.

Lemma sqlstate_nth_digit code i :
  sqlstate_nth code i = ascii_of_nat (Z.to_nat ((Z.shiftr code (6 * i)) mod 64 + 48)).
Proof. unfold sqlstate_nth. by rewrite land63. Qed.

(** A SQLSTATE survives its encoding: the code the compiler computes for a
    five-character SQLSTATE decodes to the same five characters, so that distinct
    SQLSTATEs are distinct conditions. *)
Theorem sqlstate_roundtrip str code : sqlstate_code str = Some code -> sqlstate_text code = str.
Proof.
  destruct str as [|a [|b [|c [|d [|e [|f rest]]]]]]; try discriminate. unfold sqlstate_code.
  destruct (forallb sqlstate_char [a; b; c; d; e]) eqn:Hv; [|discriminate]. intros [= <-].
  destruct (MAKE_SQLSTATE_digits _ _ _ _ _ Hv) as [-> Hr]. rewrite !list.Forall_cons in Hr.
  destruct Hr as (Ra & Rb & Rc & Rd & Re & _). simpl in Hv. rewrite !andb_true_iff in Hv.
  destruct Hv as (Ha & Hb & Hc & Hd & He & _).
  unfold sqlstate_text. rewrite !sqlstate_nth_digit, !Z.shiftr_div_pow2 by lia.
  change (2 ^ (6 * 0)) with 1. change (2 ^ (6 * 1)) with 64. change (2 ^ (6 * 2)) with 4096.
  change (2 ^ (6 * 3)) with 262144. change (2 ^ (6 * 4)) with 16777216.
  f_equal; [|f_equal; [|f_equal; [|f_equal; [|f_equal]]]];
    match goal with |- ascii_of_nat (Z.to_nat (?x + 48)) = ?ch =>
      replace x with (sixbit ch) by (Z.to_euclidean_division_equations; lia); by apply sixbit_char end.
Qed.

Lemma sqlstate_category a b c d e :
  forallb sqlstate_char [a; b; c; d; e] = true ->
  ERRCODE_TO_CATEGORY (MAKE_SQLSTATE a b c d e) = sixbit a + 64 * sixbit b.
Proof.
  intros Hv. destruct (MAKE_SQLSTATE_digits _ _ _ _ _ Hv) as [-> Hr]. rewrite !list.Forall_cons in Hr.
  unfold ERRCODE_TO_CATEGORY. rewrite Z.land_ones by lia. change (2 ^ 12) with 4096.
  Z.to_euclidean_division_equations; lia.
Qed.

Lemma sixbit_inj a b : sixbit a = sixbit b -> a = b.
Proof.
  unfold sixbit. intros Hab. assert (Hn : nat_of_ascii a = nat_of_ascii b) by lia.
  rewrite <- (ascii_nat_embedding a), <- (ascii_nat_embedding b). by rewrite Hn.
Qed.

(** A handler for a class condition, SQLSTATE 'xy000', catches an error
    exactly when the error's SQLSTATE begins with the same two characters. *)
Theorem class_condition_matches x y a b c d e name :
  forallb sqlstate_char [x; y] = true -> forallb sqlstate_char [a; b; c; d; e] = true ->
  condition_matches (MAKE_SQLSTATE a b c d e) (mk_condition (MAKE_SQLSTATE x y "0" "0" "0") name) = true
  <-> x = a /\ y = b.
Proof.
  intros Hxy Hv.
  assert (Hv' : forallb sqlstate_char [x; y; "0"%char; "0"%char; "0"%char] = true).
  { simpl in *. rewrite !andb_true_iff in Hxy. destruct Hxy as (-> & -> & _). done. }
  pose proof (sqlstate_category _ _ _ _ _ Hv) as Hcat.
  pose proof (sqlstate_category _ _ _ _ _ Hv') as Hcat'.
  destruct (MAKE_SQLSTATE_digits _ _ _ _ _ Hv) as [Hd Hr].
  destruct (MAKE_SQLSTATE_digits _ _ _ _ _ Hv') as [Hd' Hr'].
  rewrite !list.Forall_cons in Hr, Hr'. change (sixbit "0") with 0 in *.
  unfold condition_matches. cbn [sqlerrstate]. rewrite Hcat.
  assert (Hcl : ERRCODE_IS_CATEGORY (MAKE_SQLSTATE x y "0" "0" "0") = true).
  { unfold ERRCODE_IS_CATEGORY. rewrite Hd'. rewrite <- Z.ldiff_land, Z.ldiff_ones_r by lia.
    rewrite Z.shiftr_div_pow2 by lia. rewrite Z.div_small by lia. done. }
  rewrite Hcl, Hd, Hd'. unfold UPLPGSQL_OTHERS.
  destruct (Z.eqb_spec (sixbit x + 64 * sixbit y + 4096 * 0 + 262144 * 0 + 16777216 * 0) (-1)); [lia|].
  rewrite andb_true_l, orb_true_iff, !Z.eqb_eq. split.
  - intros Heq. split; apply sixbit_inj; lia.
  - intros [-> ->]. right. lia.
Qed.

(** ** The message of RAISE *)
Section message.
Context {world : Type} `{PgEnv world}.
Abbreviation M := (exec (execstate world)).

(** The parameters' texts, evaluated in order. *)
Fixpoint param_texts (params : list UPLpgSQL_expr) : M (list string) :=
  match params with
  | [] => xret []
  | e :: params' => t <~ param_text e; ts <~ param_texts params'; xret (t :: ts)
  end.

(** Each [%] replaced by the next text, [%%] by one [%]. *)
Fixpoint substitute (msg : string) (texts : list string) : string :=
  match msg with
  | EmptyString => EmptyString
  | String c rest =>
      if ascii_dec c "%" then
        match rest with
        | String c' rest' =>
            if ascii_dec c' "%" then String "%" (substitute rest' texts)
            else hd EmptyString texts +:+ substitute rest (tl texts)
        | EmptyString => hd EmptyString texts
        end
      else String c (substitute rest texts)
  end.

(** Induction in the steps of the loop: one character, or [%%]. *)
Lemma message_ind (P : string -> Prop) :
  P EmptyString ->
  (forall rest, P rest -> P (String "%" (String "%" rest))) ->
  P (String "%" EmptyString) ->
  (forall c rest, c <> "%"%char -> P (String c rest) -> P (String "%" (String c rest))) ->
  (forall c rest, c <> "%"%char -> P rest -> P (String c rest)) ->
  forall msg, P msg.
Proof.
  intros He Hpp Hp Hpc Hc msg.
  assert (Hn : forall n s, (String.length s < n)%nat -> P s); [|by eapply (Hn (S (String.length msg))); lia].
  intros n. induction n as [|n IH]; [lia|]. intros [|c rest] Hl; [done|]. simpl in Hl.
  destruct (ascii_dec c "%") as [->|Hne]; [|by apply Hc; [done|apply IH; lia]].
  destruct rest as [|c' rest]; [done|]. simpl in Hl.
  destruct (ascii_dec c' "%") as [->|Hne]; [apply Hpp|apply Hpc; [done|]]; apply IH; simpl; lia.
Qed.

Lemma xbind_assoc {S A B C} (m : exec S A) (k : A -> exec S B) (l : B -> exec S C) s :
  xbind (xbind m k) l s = xbind m (fun a => xbind (k a) l) s.
Proof. unfold xbind. by destruct (m s). Qed.

Lemma xbind_ext {S A B} (m m' : exec S A) (k k' : A -> exec S B) s :
  m s = m' s -> (forall a s', k a s' = k' a s') -> xbind m k s = xbind m' k' s.
Proof. unfold xbind. intros -> Hk. destruct (m' s); auto. Qed.

Lemma append_empty_r str : str +:+ EmptyString = str.
Proof. induction str as [|c str IH]; [done|]. exact (f_equal (String c) IH). Qed.

(** A placeholder before an ordinary character. *)
Lemma placeholder_eq c rest :
  c <> "%"%char ->
  expected_nparams (String "%" (String c rest)) = S (expected_nparams (String c rest))
  /\ (forall e params, format_message (String "%" (String c rest)) (e :: params)
        = (extval <~ param_text e; tail <~ format_message (String c rest) params; xret (extval +:+ tail)))
  /\ (forall t texts, substitute (String "%" (String c rest)) (t :: texts)
        = t +:+ substitute (String c rest) texts).
Proof. intros Hne. cbn. by destruct (ascii_dec c "%"). Qed.

Lemma format_message_eq msg params s :
  expected_nparams msg = length params ->
  format_message msg params s = (texts <~ param_texts params; xret (substitute msg texts)) s.
Proof.
  assert (Hmap : forall m ps (g : string -> string) st,
    xbind (texts <~ param_texts ps; xret (substitute m texts)) (fun t => xret (g t)) st
    = xbind (param_texts ps) (fun texts => xret (g (substitute m texts))) st).
  { intros m ps g st. rewrite xbind_assoc. by apply xbind_ext. }
  revert params s. induction msg as [|rest IH| |c rest Hne IH|c rest Hne IH] using message_ind; intros params s Hn.
  - destruct params; [done|discriminate].
  - simpl in Hn |- *. etrans; [apply xbind_ext; [by apply IH|done]|apply Hmap].
  - destruct params as [|e [|]]; try discriminate. cbn. rewrite !xbind_assoc.
    apply xbind_ext; [done|]. intros t st. cbn. by rewrite append_empty_r.
  - destruct (placeholder_eq c rest Hne) as (En & Ef & Es). rewrite En in Hn.
    destruct params as [|e params]; [discriminate|]. injection Hn as Hn. rewrite Ef.
    cbn [param_texts]. rewrite xbind_assoc. apply xbind_ext; [done|]. intros t st.
    rewrite xbind_assoc. etrans; [apply xbind_ext; [by apply IH|done]|].
    etrans; [apply Hmap|]. apply xbind_ext; [done|]. intros texts st'. cbn [xbind xret].
    unfold xbind, xret. by rewrite Es.
  - cbn [expected_nparams] in Hn. cbn [format_message substitute].
    destruct (ascii_dec c "%") as [|_]; [done|].
    etrans; [apply xbind_ext; [by apply IH|done]|]. apply Hmap.
Qed.

(** C30: The RAISE statements the grammar accepts never run into a parameter list
    of the wrong length: their message is the format string with each parameter,
    evaluated in order, in place of its placeholder. *)
Theorem raise_format_substitutes stmt msg s :
  check_raise_parameters stmt = Success tt -> message stmt = Some msg ->
  format_message msg (raise_params stmt) s
  = (texts <~ param_texts (raise_params stmt); xret (substitute msg texts)) s.
Proof.
  unfold check_raise_parameters. intros Hc Hm. rewrite Hm in Hc. apply format_message_eq.
  destruct (Nat.ltb_spec (expected_nparams msg) (length (raise_params stmt))); [discriminate|].
  destruct (Nat.ltb_spec (length (raise_params stmt)) (expected_nparams msg)); [discriminate|]. lia.
Qed.

(** ** RAISE and WHEN *)

Lemma label_not_sqlstate name m : (name, m) ∈ exception_labels -> sqlstate_code name = None.
Proof.
  assert (Hall : forallb (fun p => bool_decide (sqlstate_code p.1 = None)) exception_labels = true)
    by (vm_compute; reflexivity).
  rewrite List.forallb_forall in Hall. intros Hin%list_elem_of_In.
  by apply (bool_decide_unpack _ (Is_true_true_2 _ (Hall _ Hin))).
Qed.

Lemma others_not_label m : ("others", m) ∉ exception_labels.
Proof.
  assert (Hall : forallb (fun p => negb (String.eqb p.1 "others")) exception_labels = true)
    by (vm_compute; reflexivity).
  rewrite List.forallb_forall in Hall. intros Hin%list_elem_of_In. by specialize (Hall _ Hin).
Qed.

(** A known name has a code, and its conditions include one with that code. *)
Lemma known_label name m :
  (name, m) ∈ exception_labels ->
  exists code conds, find_label name = Some code
    /\ (exists p, p ∈ exception_labels /\ code = errcode p.2)
    /\ uplpgsql_parse_err_condition name = Success conds
    /\ exists c, c ∈ conds /\ sqlerrstate c = code.
Proof.
  intros Hin.
  assert (Hf : exists p, List.find (fun p => String.eqb name p.1) exception_label_map = Some p).
  { destruct (List.find _ _) as [p|] eqn:E; [eauto|].
    eapply find_none in E; [|apply in_map, list_elem_of_In, Hin]. simpl in E. by rewrite String.eqb_refl in E. }
  destruct Hf as [p Hp]. apply find_some in Hp as Hp'. destruct Hp' as [Hpin Hpn].
  exists p.2, (map (fun p => mk_condition p.2 name)
               (rev (List.filter (fun p => String.eqb name p.1) exception_label_map))).
  split_and!.
  - unfold find_label. by rewrite Hp.
  - apply in_map_iff in Hpin as (q & <- & Hq). exists q. split; [by apply list_elem_of_In|done].
  - unfold uplpgsql_parse_err_condition. destruct (String.eqb_spec name "others") as [->|_].
    + by apply others_not_label in Hin.
    + assert (Hr : In p (rev (List.filter (fun p => String.eqb name p.1) exception_label_map)))
        by (apply in_rev; rewrite rev_involutive; by apply filter_In).
      by destruct (rev _).
  - exists (mk_condition p.2 name). split; [|done]. apply list_elem_of_In, in_map_iff.
    exists p. split; [done|]. apply in_rev. rewrite rev_involutive. by apply filter_In.
Qed.

Lemma own_condition_matches code c : sqlerrstate c = code -> condition_matches code c = true.
Proof.
  intros Hc. unfold condition_matches. rewrite Hc. destruct (Z.eqb_spec code UPLPGSQL_OTHERS) as [->|_].
  - done.
  - by rewrite Z.eqb_refl.
Qed.

(** C26: An error raised under a condition name is caught by a handler for that
    name, also for the names that stand for several codes.  No macro of the table
    is '00000', the code RAISE takes for none. *)
Theorem raise_caught_by_name name m level s :
  (forall p, p ∈ exception_labels -> errcode p.2 <> 0) ->
  (name, m) ∈ exception_labels -> ERROR <= level ->
  exists e conds,
    exec_stmt_raise (mk_raise level (Some name) None [] []) s = Err e s
    /\ uplpgsql_parse_err_condition name = Success conds
    /\ exception_matches_conditions e conds = true.
Proof.
  intros Hnz Hin Hl. destruct (known_label name m Hin) as (code & conds & Hf & (p & Hp & ->) & Hparse & c & Hc & Hcc).
  exists (raised_error level (mk_raise_state (errcode p.2) (Some name) None None None None None None None None)), conds.
  assert (Hz : (errcode p.2 =? 0) = false) by (apply Z.eqb_neq; auto).
  split_and!; [|done|].
  - unfold exec_stmt_raise, uplpgsql_recognize_err_condition. simpl.
    rewrite (label_not_sqlstate _ _ Hin), Hf. unfold xbind, xret. unfold ereport_at.
    by destruct (Z.leb_spec ERROR level); [|lia].
  - unfold exception_matches_conditions. apply existsb_elem. exists c. split; [done|].
    apply own_condition_matches. rewrite Hcc. unfold raised_error. simpl. by rewrite Hz.
Qed.
End message.
