(* ===== verification/SqlStmts.v ===== *)
(** * The statements that go through SPI

    PERFORM, CALL and DO, GET DIAGNOSTICS, RETURN NEXT and RETURN QUERY, embedded
    SQL and EXECUTE, OPEN, FETCH, MOVE, CLOSE, COMMIT and ROLLBACK, as
    [common/upl_exec.c] executes them.  Each returns [UPLPGSQL_RC_OK] if it
    returns; [exec_simple_stmt] is the dispatch of [exec_stmts] to them, and to
    RAISE (file Raise).

    The infrastructure for simple expressions that COMMIT, ROLLBACK and CALL
    rebuild after a transaction ended is not part of the state.  The row of output
    variables of a CALL is built anew each time; the C code builds it once. *)

From Stdlib Require Import ZArith Ascii.
From stdpp Require Import pretty.
From S2P Require Import Prelude Ast Exec Assign Raise.
#[local] Open Scope Z_scope.

Section statements.
Context {world : Type} `{PgEnv world}.
Abbreviation M := (exec (execstate world)).

(** ** PERFORM *)
Definition exec_stmt_perform (s : UPLpgSQL_stmt_perform) : M unit :=
  _ <~ exec_run_select (perform_expr s) 0;
  st <~ xget;
  exec_set_found (negb (eval_processed st =? 0)).

(** ** Queries given as strings *)

(** One argument of USING: "Treat 'unknown' parameters as text"; by-reference
    values are copied. *)
Definition using_param (e : UPLpgSQL_expr) : M param_value :=
  tv <~ exec_eval_expr e;
  s <~ xget;
  if tv_type tv =? UNKNOWNOID
  then if tv_isnull tv then xret (mk_param (tv_value tv) true TEXTOID)
       else v <~ pg_call (CStringGetTextDatum (DatumGetCString (es_world s) (tv_value tv)));
            xret (mk_param v false TEXTOID)
  else if negb (tv_isnull tv) && negb (get_typlenbyval (tv_type tv)).2
  then v <~ pg_call (datumCopy (tv_value tv) false (get_typlenbyval (tv_type tv)).1);
       xret (mk_param v false (tv_type tv))
  else xret (mk_param (tv_value tv) (tv_isnull tv) (tv_type tv)).

(** [exec_eval_using_params]; no parameters is the NULL list. *)
Fixpoint exec_eval_using_params (params : list UPLpgSQL_expr) : M (list param_value) :=
  match params with
  | [] => xret []
  | e :: params' => p <~ using_param e; ps <~ exec_eval_using_params params'; xret (p :: ps)
  end.

(** "Evaluate the string expression after the EXECUTE keyword." *)
Definition eval_query_string (e : UPLpgSQL_expr) : M string :=
  tv <~ exec_eval_expr e;
  if tv_isnull tv
  then ereport ERRCODE_NULL_VALUE_NOT_ALLOWED "query string argument of EXECUTE is null"
  else pg_call (convert_value_to_string (tv_value tv) (tv_type tv)).

(** [exec_dynquery_with_params]. *)
Definition exec_dynquery_with_params (dynquery : UPLpgSQL_expr) (params : list UPLpgSQL_expr)
    (portalname : option string) (cursorOptions : Z) : M portal :=
  querystr <~ eval_query_string dynquery;
  ps <~ exec_eval_using_params params;
  p <~ pg_call (SPI_cursor_parse_open portalname querystr ps cursorOptions);
  match p with
  | Some p => xret p
  | None =>
      s <~ xget;
      elog ("could not open implicit cursor for query " +:+ quoted querystr +:+ ": "
            +:+ SPI_result_code_string (SPI_result (es_world s)))
  end.

(** ** The parameters in an error's detail *)

Definition datum_refname (d : UPLpgSQL_datum) : string :=
  match d with
  | DTYPE_VAR v | DTYPE_PROMISE v => refname (var_head v)
  | DTYPE_ROW r => refname (row_head r)
  | DTYPE_REC r => refname (rec_head r)
  | DTYPE_RECFIELD f => fieldname f
  end.

Definition value_text (v : Datum) (null : bool) (type : Oid) : M string :=
  if null then xret "NULL"
  else t <~ pg_call (convert_value_to_string v type); xret (string_quoted t).

Definition separated (first : bool) (str : string) : string :=
  if first then str else ", " +:+ str.

(** [format_expr_params]; [paramnos] in increasing order. *)
Fixpoint format_params (first : bool) (dnos : list nat) : M string :=
  match dnos with
  | [] => xret EmptyString
  | n :: dnos' =>
      d <~ get_datum n;
      tv <~ exec_eval_datum n;
      v <~ value_text (tv_value tv) (tv_isnull tv) (tv_type tv);
      rest <~ format_params false dnos';
      xret (separated first (datum_refname d +:+ " = " +:+ v) +:+ rest)
  end.
Definition format_expr_params (e : UPLpgSQL_expr) : M (option string) :=
  match paramnos e with
  | [] => xret None
  | l => str <~ format_params true l; xret (Some str)
  end.

(** [format_preparedparamsdata]. *)
Fixpoint format_using (i : Z) (ps : list param_value) : M string :=
  match ps with
  | [] => xret EmptyString
  | p :: ps' =>
      v <~ value_text (prm_value p) (prm_isnull p) (prm_type p);
      rest <~ format_using (i + 1) ps';
      xret (separated (i =? 1) ("$" +:+ pretty i +:+ " = " +:+ v) +:+ rest)
  end.
Definition format_preparedparamsdata (ps : list param_value) : M (option string) :=
  match ps with
  | [] => xret None
  | _ => str <~ format_using 1 ps; xret (Some str)
  end.

(** "[print_strict_params]" *)
Definition strict_detail (detail : M (option string)) : M (option string) :=
  s <~ xget;
  if print_strict_params s
  then d <~ detail; xret ((fun t => "parameters: " +:+ t) <$> d)
  else xret None.

(** ** INTO *)

Definition no_rows_error (detail : option string) : ErrorData :=
  with_detail detail (mk_error ERRCODE_NO_DATA_FOUND "query returned no rows").
Definition too_many_rows_error (detail : option string) : ErrorData :=
  with_detail detail (mk_error ERRCODE_TOO_MANY_ROWS "query returned more than one row").

(** The result of a query goes into the target.  [too_many] is the level at
    which a second row is reported, 0 for not at all. *)
Definition move_result (target : nat) (strict : bool) (too_many : Z) (hint : bool)
    (detail : M (option string)) (processed : nat) (d : TupleDesc) (rows : list tuple) : M unit :=
  if Nat.eqb processed 0
  then
    (if strict then det <~ strict_detail detail; throw (no_rows_error det) else xret tt) ;~
    exec_move_row target None (Some d)
  else
    (if (1 <? processed)%nat && negb (too_many =? 0)
     then det <~ strict_detail detail;
          ereport_at too_many
            (if hint
             then with_hint "Make sure the query returns a single row, or use LIMIT 1."
                    (too_many_rows_error det)
             else too_many_rows_error det)
     else xret tt) ;~
    match rows with
    | row :: _ => exec_move_row target (Some row) (Some d)
    | [] => undefined
    end.

Definition into_without_data : M unit :=
  ereport ERRCODE_SYNTAX_ERROR "INTO used with a command that cannot return data".

(** ** Embedded SQL *)

Definition is_mod_tag (t : command_tag) : bool :=
  match t with CMDTAG_OTHER => false | _ => true end.

(** The result code of an embedded statement: FOUND is set for some. *)
Definition execsql_result (e : UPLpgSQL_expr) (r : spi_result) : M unit :=
  match spi_rc r with
  | SPI_OK_SELECT | SPI_OK_INSERT | SPI_OK_UPDATE | SPI_OK_DELETE | SPI_OK_MERGE
  | SPI_OK_INSERT_RETURNING | SPI_OK_UPDATE_RETURNING | SPI_OK_DELETE_RETURNING
  | SPI_OK_MERGE_RETURNING => exec_set_found (negb (Nat.eqb (SPI_processed r) 0))
  | SPI_OK_SELINTO | SPI_OK_UTILITY => xret tt
  | SPI_OK_REWRITTEN => exec_set_found false
  | SPI_ERROR_COPY => ereport ERRCODE_FEATURE_NOT_SUPPORTED "cannot COPY to/from client in PL/pgSQL"
  | SPI_ERROR_TRANSACTION =>
      ereport ERRCODE_FEATURE_NOT_SUPPORTED "unsupported transaction command in PL/pgSQL"
  | SPI_NO_COMMAND | SPI_ERROR_OTHER _ =>
      elog ("SPI_execute_plan_with_paramlist failed executing query " +:+ quoted (query e) +:+ ": "
            +:+ SPI_result_code_string (spi_rc r))
  end.

(** "query has no destination for result data" *)
Definition no_destination (rc : spi_code) : M unit :=
  let err := mk_error ERRCODE_SYNTAX_ERROR "query has no destination for result data" in
  throw (match rc with
         | SPI_OK_SELECT =>
             with_hint "If you want to discard the results of a SELECT, use PERFORM instead." err
         | _ => err
         end).

(** [exec_stmt_execsql].  The source computes [mod_stmt] when the statement first runs
    and keeps it ([mod_stmt_set]); it is a function of the plan's command tags, which
    come from the statement's text and do not change when the plan is made again. *)
Definition exec_stmt_execsql (s : UPLpgSQL_stmt_execsql) : M unit :=
  let e := sqlstmt s in
  let too_many_rows_level := extra_check_level UPLPGSQL_XCHECK_TOOMANYROWS in
  prepare e CURSOR_OPT_PARALLEL_OK ;~
  st <~ xget;
  let mod_stmt := existsb is_mod_tag (plan_command_tags (es_world st) e) in
  let tcount := if sql_into s
                then if sql_strict s || mod_stmt || negb (too_many_rows_level =? 0) then 2 else 1
                else 0 in
  r <~ SPI_execute_plan_with_paramlist e tcount;
  execsql_result e r ;~
  xmodify (with_eval_processed (Z.of_nat (SPI_processed r))) ;~
  if sql_into s
  then
    match SPI_tuptable r, sql_target s with
    | None, _ => into_without_data
    | Some t, Some target =>
        move_result target (sql_strict s)
          (if sql_strict s || mod_stmt then ERROR else too_many_rows_level)
          true (format_expr_params e) (SPI_processed r) t.1 t.2
    | Some _, None => undefined
    end
  else match SPI_tuptable r with Some _ => no_destination (spi_rc r) | None => xret tt end.

(** ** EXECUTE *)

Definition dynexecute_result (querystr : string) (rc : spi_code) : M unit :=
  match rc with
  | SPI_OK_SELINTO =>
      throw (with_hint "You might want to use EXECUTE ... INTO or EXECUTE CREATE TABLE ... AS instead."
               (mk_error ERRCODE_FEATURE_NOT_SUPPORTED "EXECUTE of SELECT ... INTO is not implemented"))
  | SPI_ERROR_COPY => ereport ERRCODE_FEATURE_NOT_SUPPORTED "cannot COPY to/from client in PL/pgSQL"
  | SPI_ERROR_TRANSACTION =>
      ereport ERRCODE_FEATURE_NOT_SUPPORTED "EXECUTE of transaction commands is not implemented"
  | SPI_ERROR_OTHER _ =>
      elog ("SPI_execute_extended failed executing query " +:+ quoted querystr +:+ ": "
            +:+ SPI_result_code_string rc)
  | _ => xret tt
  end.

(** [exec_stmt_dynexecute]. *)
Definition exec_stmt_dynexecute (s : UPLpgSQL_stmt_dynexecute) : M unit :=
  querystr <~ eval_query_string (dyn_query s);
  ps <~ exec_eval_using_params (dyn_params s);
  r <~ pg_call (SPI_execute_extended querystr ps);
  dynexecute_result querystr (spi_rc r) ;~
  xmodify (with_eval_processed (Z.of_nat (SPI_processed r))) ;~
  if dyn_into s
  then
    match SPI_tuptable r, dyn_target s with
    | None, _ => into_without_data
    | Some t, Some target =>
        move_result target (dyn_strict s) (if dyn_strict s then ERROR else 0) false
          (format_preparedparamsdata ps) (SPI_processed r) t.1 t.2
    | Some _, None => undefined
    end
  else xret tt.

(** ** CALL and DO *)

Definition PROARGMODE_OUT : ascii := "o".
Definition PROARGMODE_INOUT : ascii := "b".
Definition is_out_mode (m : ascii) : bool :=
  if ascii_dec m PROARGMODE_OUT then true else if ascii_dec m PROARGMODE_INOUT then true else false.

Definition not_writable {A} (what : string) : M A :=
  ereport ERRCODE_SYNTAX_ERROR
    ("procedure parameter " +:+ what
     +:+ " is an output parameter but corresponding argument is not writable").

(** The loop over the procedure's arguments in [make_callstmt_target]: the
    variables its output goes to. *)
Fixpoint callstmt_varnos (i : Z) (args : list (string * ascii)) (outargs : list (option Z))
    : M (list nat) :=
  match args with
  | [] => xret []
  | arg :: args' =>
      if is_out_mode arg.2
      then
        match outargs with
        | Some paramid :: outargs' =>
            let dno := Z.to_nat (paramid - 1) in
            exec_check_assignable dno ;~
            rest <~ callstmt_varnos (i + 1) args' outargs';
            xret (dno :: rest)
        | None :: _ =>
            match arg.1 with
            | EmptyString => not_writable (pretty i)
            | name => not_writable (quoted name)
            end
        | [] => undefined
        end
      else callstmt_varnos (i + 1) args' outargs
  end.

Definition make_callstmt_target (e : UPLpgSQL_expr) : M UPLpgSQL_row :=
  c <~ pg_call (get_callstmt e);
  args <~ pg_call (get_func_arg_info (cs_funcid c));
  varnos <~ callstmt_varnos 1 args (cs_outargs c);
  xret (mk_row (mk_variable 0 "(unnamed row)" false false None) None [] varnos).

Definition spi_failed (rc : spi_code) : bool :=
  match rc with SPI_ERROR_COPY | SPI_ERROR_TRANSACTION | SPI_ERROR_OTHER _ => true | _ => false end.

Definition execute_failed {A} (what querystr : string) (rc : spi_code) : M A :=
  elog (what +:+ " failed executing query " +:+ quoted querystr +:+ ": " +:+ SPI_result_code_string rc).

(** [exec_stmt_call]. *)
Definition exec_stmt_call (s : UPLpgSQL_stmt_call) : M unit :=
  let e := call_expr s in
  prepare e 0 ;~
  target <~ (if is_call s then row <~ make_callstmt_target e; xret (Some row) else xret None);
  r <~ SPI_execute_plan_nonatomic e;
  if spi_failed (spi_rc r) then execute_failed "SPI_execute_plan_extended" (query e) (spi_rc r)
  else if Nat.eqb (SPI_processed r) 1 then
    match target, SPI_tuptable r with
    | None, _ => elog "DO statement returned a row"
    | Some row, Some (d, tup :: _) => move_row_row row (Some tup) (Some d)
    | Some _, _ => undefined
    end
  else if (1 <? SPI_processed r)%nat then elog "procedure call returned more than one row"
  else xret tt.

(** ** GET DIAGNOSTICS *)

Definition get_diag (error : option ErrorData) (item : UPLpgSQL_diag_item) : M unit :=
  s <~ xget;
  let target := diag_target item in
  let stacked (f : ErrorData -> option string) :=
    match error with
    | Some e => exec_assign_c_string target (f e)
    | None => undefined
    end in
  match kind item with
  | GETDIAG_ROW_COUNT => exec_assign_value target (mk_tv (eval_processed s) false INT8OID (-1))
  | GETDIAG_ROUTINE_OID => exec_assign_value target (mk_tv (es_fn_oid s) false OIDOID (-1))
  | GETDIAG_ERROR_CONTEXT => stacked (error_context (es_world s))
  | GETDIAG_ERROR_DETAIL => stacked err_detail
  | GETDIAG_ERROR_HINT => stacked err_hint
  | GETDIAG_RETURNED_SQLSTATE => stacked (fun e => Some (unpack_sql_state (err_sqlerrcode e)))
  | GETDIAG_COLUMN_NAME => stacked err_column_name
  | GETDIAG_CONSTRAINT_NAME => stacked err_constraint_name
  | GETDIAG_DATATYPE_NAME => stacked err_datatype_name
  | GETDIAG_MESSAGE_TEXT => stacked (fun e => Some (err_message e))
  | GETDIAG_TABLE_NAME => stacked err_table_name
  | GETDIAG_SCHEMA_NAME => stacked err_schema_name
  | GETDIAG_CONTEXT => str <~ pg_call GetErrorContextStack; exec_assign_c_string target (Some str)
  end.

Fixpoint get_diags (error : option ErrorData) (items : list UPLpgSQL_diag_item) : M unit :=
  match items with
  | [] => xret tt
  | item :: items' => get_diag error item ;~ get_diags error items'
  end.

(** [exec_stmt_getdiag]. *)
Definition exec_stmt_getdiag (s : UPLpgSQL_stmt_getdiag) : M unit :=
  st <~ xget;
  match is_stacked s, cur_error st with
  | true, None =>
      ereport ERRCODE_STACKED_DIAGNOSTICS_ACCESSED_WITHOUT_ACTIVE_HANDLER
        "GET STACKED DIAGNOSTICS cannot be used outside an exception handler"
  | _, error => get_diags error (diag_items s)
  end.

(** ** Set-returning functions *)

Definition not_setof (what : string) : M unit :=
  ereport ERRCODE_SYNTAX_ERROR ("cannot use " +:+ what +:+ " in a non-SETOF function").

(** [exec_init_tuple_store]. *)
Definition exec_init_tuple_store : M unit :=
  s <~ xget;
  match es_rsi s with
  | None =>
      ereport ERRCODE_FEATURE_NOT_SUPPORTED
        "set-valued function called in context that cannot accept a set"
  | Some rsi =>
      match allow_materialize rsi, expectedDesc rsi with
      | true, Some d => xmodify (with_tuple_store (Some (d, [])))
      | _, _ =>
          ereport ERRCODE_FEATURE_NOT_SUPPORTED
            "materialize mode required, but it is not allowed in this context"
      end
  end.

(** The guard and the set-up RETURN NEXT and RETURN QUERY share; the row type. *)
Definition open_tuple_store (what : string) : M TupleDesc :=
  s <~ xget;
  (if retisset s then xret tt else not_setof what) ;~
  (match tuple_store s with None => exec_init_tuple_store | Some _ => xret tt end) ;~
  s <~ xget;
  match tuple_store s with Some t => xret t.1 | None => undefined end.

(** [tuplestore_puttuple], [tuplestore_putvalues]. *)
Definition put_tuple (row : tuple) : M unit :=
  xmodify (fun s => with_tuple_store
                      ((fun t => (t.1, t.2 ++ [row])) <$> tuple_store s) s).

Definition wrong_result_type {A} : M A :=
  ereport ERRCODE_DATATYPE_MISMATCH "wrong result type supplied in RETURN NEXT".

(** A scalar becomes the single column of a row. *)
Definition put_scalar (d : TupleDesc) (tv : typed_value) : M unit :=
  match attrs d with
  | [attr] => cast <~ cast_tv tv (att_typid attr) (att_typmod attr); put_tuple [cast]
  | _ => wrong_result_type
  end.

Definition return_next_rec (d : TupleDesc) (n : nat) : M unit :=
  e <~ get_erh n;
  s <~ xget;
  (if ExpandedRecordIsEmpty (es_world s) e then pg_call (deconstruct_expanded_record e) else xret tt) ;~
  s <~ xget;
  let rec_tupdesc := expanded_record_get_tupdesc (es_world s) e in
  tup <~ pg_call (expanded_record_get_tuple e);
  tup' <~ pg_call (convert_tuple_by_position rec_tupdesc d
                     "wrong record type supplied in RETURN NEXT" tup);
  put_tuple tup'.

Definition return_next_var (d : TupleDesc) (n : nat) : M unit :=
  retvar <~ get_datum n;
  match retvar with
  | DTYPE_VAR _ | DTYPE_PROMISE _ =>
      (match retvar with DTYPE_PROMISE _ => uplpgsql_fulfill_promise n | _ => xret tt end) ;~
      var <~ get_var n;
      s <~ xget;
      let t := var_datatype var in
      put_scalar d (mk_tv (MakeExpandedObjectReadOnly (es_world s) (value var) (isnull var) (typlen t))
                      (isnull var) (typoid t) (atttypmod t))
  | DTYPE_REC _ => return_next_rec d n
  | DTYPE_ROW row =>
      tup <~ make_tuple_from_row row d;
      match tup with
      | Some t => put_tuple t
      | None => ereport ERRCODE_DATATYPE_MISMATCH "wrong record type supplied in RETURN NEXT"
      end
  | DTYPE_RECFIELD _ => elog ("unrecognized dtype: " +:+ pretty (dtype retvar))
  end.

Definition return_next_expr (d : TupleDesc) (e : UPLpgSQL_expr) : M unit :=
  tv <~ exec_eval_expr e;
  s <~ xget;
  if retistuple s then
    if negb (tv_isnull tv) then
      if negb (type_is_rowtype (tv_type tv)) then non_composite
      else
        tup <~ pg_call (composite_datum_tuple (tv_value tv));
        s <~ xget;
        let t := composite_datum_type (es_world s) (tv_value tv) in
        retvaldesc <~ pg_call (lookup_rowtype_tupdesc t.1 t.2);
        tup' <~ pg_call (convert_tuple_by_position retvaldesc d
                           "returned record type does not match expected record type" tup);
        put_tuple tup'
    else put_tuple (repeat (0, true) (natts d))
  else put_scalar d tv.

(** [exec_stmt_return_next]. *)
Definition exec_stmt_return_next (s : UPLpgSQL_stmt_return_next) : M unit :=
  d <~ open_tuple_store "RETURN NEXT";
  match retnext_varno s, retnext_expr s with
  | Some n, _ => return_next_var d n
  | None, Some e => return_next_expr d e
  | None, None => ereport ERRCODE_SYNTAX_ERROR "RETURN NEXT must have a parameter"
  end.

(** [tuplestore_tuple_count]. *)
Definition tuple_count (s : execstate world) : Z :=
  match tuple_store s with Some t => Z.of_nat (length t.2) | None => 0 end.

(** [exec_stmt_return_query]. *)
Definition exec_stmt_return_query (s : UPLpgSQL_stmt_return_query) : M unit :=
  _ <~ open_tuple_store "RETURN QUERY";
  before <~ xget;
  (match retq_query s, retq_dynquery s with
   | Some e, _ =>
       prepare e CURSOR_OPT_PARALLEL_OK ;~
       rc <~ SPI_execute_plan_into_store e;
       if spi_failed rc then execute_failed "SPI_execute_plan_extended" (query e) rc else xret tt
   | None, Some dyn =>
       querystr <~ eval_query_string dyn;
       ps <~ exec_eval_using_params (retq_params s);
       rc <~ SPI_execute_into_store querystr ps;
       if spi_failed rc then execute_failed "SPI_execute_extended" querystr rc else xret tt
   | None, None => undefined
   end) ;~
  after <~ xget;
  let processed := tuple_count after - tuple_count before in
  xmodify (with_eval_processed processed) ;~
  exec_set_found (negb (processed =? 0)).

(** ** Cursors *)

(** The name in a cursor variable that is not NULL. *)
Definition cursor_name (curvar : UPLpgSQL_var) (s : execstate world) : option string :=
  if isnull curvar then None else Some (TextDatumGetCString (es_world s) (value curvar)).

Definition check_cursor_unused (curname : option string) : M unit :=
  s <~ xget;
  match curname with
  | Some name =>
      match SPI_cursor_find name (es_world s) with
      | Some _ => ereport ERRCODE_DUPLICATE_CURSOR ("cursor " +:+ quoted name +:+ " already in use")
      | None => xret tt
      end
  | None => xret tt
  end.

(** "We fake a SELECT ... INTO ... statement to evaluate the args and put 'em
    into the internal row." *)
Definition set_cursor_args (curvar : UPLpgSQL_var) (argquery : option UPLpgSQL_expr) : M unit :=
  match argquery with
  | Some args =>
      if cursor_explicit_argrow curvar <? 0
      then ereport ERRCODE_SYNTAX_ERROR "arguments given for cursor without arguments"
      else exec_stmt_execsql
             (mk_execsql args true false (Some (Z.to_nat (cursor_explicit_argrow curvar))))
  | None =>
      if 0 <=? cursor_explicit_argrow curvar
      then ereport ERRCODE_SYNTAX_ERROR "arguments required for cursor"
      else xret tt
  end.

(** [SPI_cursor_open_with_paramlist] under the cursor's name. *)
Definition open_cursor_portal (curname : option string) (e : UPLpgSQL_expr) : M portal :=
  p <~ SPI_cursor_open_with_paramlist curname e;
  match p with
  | Some p => xret p
  | None =>
      s <~ xget;
      elog ("could not open cursor: " +:+ SPI_result_code_string (SPI_result (es_world s)))
  end.

(** "If cursor variable was NULL, store the generated portal name in it, after
    verifying it's okay to assign to." *)
Definition store_portal_name (curvarno : nat) (curname : option string) (p : portal) : M unit :=
  match curname with
  | None => exec_check_assignable curvarno ;~ assign_text_var curvarno (portal_name p)
  | Some _ => xret tt
  end.

(** [exec_stmt_open]. *)
Definition exec_stmt_open (s : UPLpgSQL_stmt_open) : M unit :=
  curvar <~ get_var (open_curvar s);
  st <~ xget;
  let curname := cursor_name curvar st in
  check_cursor_unused curname ;~
  match open_query s, open_dynquery s with
  | Some query, _ =>
      prepare query (open_cursor_options s) ;~
      p <~ open_cursor_portal curname query;
      store_portal_name (open_curvar s) curname p
  | None, Some dynquery =>
      p <~ exec_dynquery_with_params dynquery (open_params s) curname (open_cursor_options s);
      store_portal_name (open_curvar s) curname p
  | None, None =>
      set_cursor_args curvar (open_argquery s) ;~
      match cursor_explicit_expr curvar with
      | None => undefined
      | Some query =>
          prepare query (cursor_options curvar) ;~
          p <~ open_cursor_portal curname query;
          store_portal_name (open_curvar s) curname p
      end
  end.

(** The portal a cursor variable names. *)
Definition find_cursor (curvarno : nat) : M portal :=
  curvar <~ get_var curvarno;
  s <~ xget;
  match cursor_name curvar s with
  | None =>
      ereport ERRCODE_NULL_VALUE_NOT_ALLOWED
        ("cursor variable " +:+ quoted (refname (var_head curvar)) +:+ " is null")
  | Some name =>
      match SPI_cursor_find name (es_world s) with
      | Some p => xret p
      | None => ereport ERRCODE_UNDEFINED_CURSOR ("cursor " +:+ quoted name +:+ " does not exist")
      end
  end.

Definition fetch_count (s : UPLpgSQL_stmt_fetch) : M Z :=
  match fetch_expr s with
  | None => xret (how_many s)
  | Some e =>
      n <~ exec_eval_integer e;
      if n.2 : bool
      then ereport ERRCODE_NULL_VALUE_NOT_ALLOWED "relative or absolute cursor position is null"
      else xret n.1
  end.

(** "SQL/PSM: Update SQLSTATE variable after FETCH/MOVE". *)
Definition fetch_sqlstate (n : nat) : M unit :=
  s <~ xget;
  match sqlstate_varno s with
  | Some _ =>
      xmodify (with_sqlerrcode (if Nat.eqb n 0 then ERRCODE_NO_DATA else ERRCODE_SUCCESSFUL_COMPLETION)) ;~
      uplpgsql_set_sqlstate
  | None => xret tt
  end.

(** [exec_stmt_fetch]. *)
Definition exec_stmt_fetch (s : UPLpgSQL_stmt_fetch) : M unit :=
  p <~ find_cursor (fetch_curvar s);
  count <~ fetch_count s;
  n <~ (if is_move s then pg_call (SPI_scroll_cursor_move p (direction s) count)
        else
          t <~ pg_call (SPI_scroll_cursor_fetch p (direction s) count);
          match fetch_target s with
          | Some target =>
              exec_move_row target (head t.2) (Some t.1) ;~ xret (length t.2)
          | None => undefined
          end);
  xmodify (with_eval_processed (Z.of_nat n)) ;~
  exec_set_found (negb (Nat.eqb n 0)) ;~
  fetch_sqlstate n.

(** [exec_stmt_close]. *)
Definition exec_stmt_close (s : UPLpgSQL_stmt_close) : M unit :=
  p <~ find_cursor (close_curvar s); pg_call (SPI_cursor_close p).

(** ** Transactions *)
Definition exec_stmt_commit (s : UPLpgSQL_stmt_commit) : M unit := pg_call (SPI_commit (commit_chain s)).
Definition exec_stmt_rollback (s : UPLpgSQL_stmt_rollback) : M unit :=
  pg_call (SPI_rollback (rollback_chain s)).

(** ** The dispatch *)
Definition exec_simple_stmt (stmt : UPLpgSQL_stmt) : M unit :=
  match stmt with
  | STMT_PERFORM _ s => exec_stmt_perform s
  | STMT_CALL _ s => exec_stmt_call s
  | STMT_GETDIAG _ s => exec_stmt_getdiag s
  | STMT_RETURN_NEXT _ s => exec_stmt_return_next s
  | STMT_RETURN_QUERY _ s => exec_stmt_return_query s
  | STMT_RAISE _ s => exec_stmt_raise s
  | STMT_EXECSQL _ s => exec_stmt_execsql s
  | STMT_DYNEXECUTE _ s => exec_stmt_dynexecute s
  | STMT_OPEN _ s => exec_stmt_open s
  | STMT_FETCH _ s => exec_stmt_fetch s
  | STMT_CLOSE _ s => exec_stmt_close s
  | STMT_COMMIT _ s => exec_stmt_commit s
  | STMT_ROLLBACK _ s => exec_stmt_rollback s
  | _ => undefined
  end.
End statements.
