(* ===== verification/Memory.v ===== *)
(** * The memory flat arrays live in

    Native local arrays ([common/upl_runtime.c], "Native local array helpers") keep
    their elements in blocks of bytes, allocated with [palloc] or on the machine stack.
    This file has the blocks, the C accesses to them ([memcpy], [memset], a load or a
    store of an element), and the interface of PostgreSQL's allocator with what its
    documentation promises.  A byte that was never written has no value, and an access
    outside of a block, a use of a freed block and the release of a stack block have no
    behaviour ([Stuck]): a theorem that ends in [Ok] shows that none occurs. *)

From Stdlib Require Import ZArith Lia.
From S2P Require Import Prelude Ast Exec.
#[local] Open Scope Z_scope.

(** ** Words as bytes *)
Abbreviation bytes := (list (option Z)).

(** The [n] low bytes of a word, the least significant first. *)
Fixpoint word_bytes (n : nat) (w : Z) : list Z :=
  match n with
  | O => []
  | S n' => w mod 256 :: word_bytes n' (w / 256)
  end.

Fixpoint bytes_word (l : list Z) : Z :=
  match l with
  | [] => 0
  | b :: l' => b + 256 * bytes_word l'
  end.

(** The signed integer of [sz] bytes. *)
Definition signed (sz : nat) (z : Z) : Z := if Nat.eqb sz 4 then wrap32 z else wrap64 z.
Definition in_word (sz : nat) (w : Z) : Prop := if Nat.eqb sz 4 then in_int32 w else in_int64 w.

Lemma length_word_bytes n w : length (word_bytes n w) = n.
Proof. revert w. induction n as [|n IH]; intros w; [done|]. simpl. by rewrite IH. Qed.

Lemma bytes_word_bytes n w : bytes_word (word_bytes n w) = w mod 256 ^ Z.of_nat n.
Proof.
  revert w. induction n as [|n IH]; intros w; [by rewrite Z.mod_1_r|].
  cbn [word_bytes bytes_word]. rewrite IH, Nat2Z.inj_succ, Z.pow_succ_r by lia.
  rewrite Z.rem_mul_r; lia.
Qed.

Lemma wrap32_mod z : wrap32 (z mod 4294967296) = wrap32 z.
Proof. unfold wrap32. by rewrite Zplus_mod_idemp_l. Qed.
Lemma wrap64_mod z : wrap64 (z mod 18446744073709551616) = wrap64 z.
Proof. unfold wrap64. by rewrite Zplus_mod_idemp_l. Qed.

(** The element sizes of native arrays. *)
Definition elem_width (sz : nat) : Prop := sz = 4%nat \/ sz = 8%nat.

Lemma signed_bytes sz w : elem_width sz -> in_word sz w -> signed sz (bytes_word (word_bytes sz w)) = w.
Proof.
  intros [->| ->] Hw; rewrite bytes_word_bytes; unfold signed, in_word in *; simpl in *.
  - change (256 ^ 4) with 4294967296. by rewrite wrap32_mod, wrap32_id.
  - change (256 ^ 8) with 18446744073709551616. by rewrite wrap64_mod, wrap64_id.
Qed.

(** ** Accesses *)

(** [n] bytes at offset [off], all of them written before. *)
Definition read_bytes (off n : nat) (l : bytes) : option (list Z) :=
  if (off + n <=? length l)%nat then mapM id (take n (drop off l)) else None.

(** [memcpy] to offset [off]; the bytes may be unwritten ones. *)
Definition write_bytes (off : nat) (bs : bytes) (l : bytes) : option bytes :=
  if (off + length bs <=? length l)%nat
  then Some (take off l ++ bs ++ drop (off + length bs) l) else None.

Definition load_elem (sz i : nat) (l : bytes) : option Z :=
  match read_bytes (i * sz) sz l with Some bs => Some (signed sz (bytes_word bs)) | None => None end.
Definition store_elem (sz i : nat) (w : Z) (l : bytes) : option bytes :=
  write_bytes (i * sz) (map Some (word_bytes sz w)) l.

(** A [bool] of an array of flags. *)
Definition load_flag (i : nat) (l : bytes) : option bool :=
  match read_bytes i 1 l with Some [b] => Some (negb (b =? 0)) | _ => None end.
Definition store_flag (i : nat) (b : bool) (l : bytes) : option bytes :=
  write_bytes i [Some (if b then 1 else 0)] l.

Lemma mapM_id_Some (l : list Z) : mapM id (map Some l) = Some l.
Proof. induction l as [|x l IH]; [done|]. simpl. by rewrite IH. Qed.

Lemma length_write off bs l l' : write_bytes off bs l = Some l' -> length l' = length l.
Proof.
  unfold write_bytes. case_match eqn:E; [|done]. apply Nat.leb_le in E. intros [= <-].
  rewrite !length_app, length_take, length_drop. lia.
Qed.

Lemma write_defined off bs l : (off + length bs <= length l)%nat -> exists l', write_bytes off bs l = Some l'.
Proof. intros Hl. unfold write_bytes. apply Nat.leb_le in Hl. rewrite Hl. eauto. Qed.

Lemma drop_take_app (off n : nat) (l : bytes) (bs r : bytes) :
  (off <= length l)%nat -> length bs = n -> take n (drop off (take off l ++ bs ++ r)) = bs.
Proof.
  intros Ho <-. rewrite drop_app_length'; [by rewrite take_app_length|]. rewrite length_take. lia.
Qed.

(** What was written is what is read. *)
Lemma read_write_same off bs l l' :
  write_bytes off (map Some bs) l = Some l' -> read_bytes off (length bs) l' = Some bs.
Proof.
  intros Hw. pose proof (length_write _ _ _ _ Hw) as Hl. unfold write_bytes in Hw.
  case_match eqn:E; [|done]. apply Nat.leb_le in E. rewrite length_map in E.
  unfold read_bytes. rewrite Hl. replace (off + length bs <=? length l)%nat with true by (symmetry; by apply Nat.leb_le).
  injection Hw as <-. rewrite drop_take_app by (rewrite ?length_map; lia). apply mapM_id_Some.
Qed.

(** What was not written is unchanged. *)
Lemma lookup_write off bs l l' i :
  write_bytes off bs l = Some l' -> (i < off \/ off + length bs <= i)%nat -> l' !! i = l !! i.
Proof.
  unfold write_bytes. case_match eqn:E; [|done]. apply Nat.leb_le in E. intros [= <-] [Hi|Hi].
  - rewrite lookup_app_l by (rewrite length_take; lia). by apply lookup_take_lt.
  - rewrite lookup_app_r by (rewrite length_take; lia). rewrite length_take.
    rewrite lookup_app_r by lia. rewrite lookup_drop. f_equal. lia.
Qed.

Lemma read_bytes_ext off n l l' :
  (off + n <= length l)%nat -> (off + n <= length l')%nat ->
  (forall i, (off <= i < off + n)%nat -> l' !! i = l !! i) ->
  read_bytes off n l' = read_bytes off n l.
Proof.
  intros Hl Hl' He. unfold read_bytes. apply Nat.leb_le in Hl, Hl'. rewrite Hl, Hl'. f_equal.
  apply list_eq. intros i. destruct (decide (i < n)%nat) as [Hi|Hi].
  - rewrite !lookup_take_lt by done. rewrite !lookup_drop. apply He. lia.
  - by rewrite !lookup_take_ge by lia.
Qed.

Lemma read_in_bounds off n l bs : read_bytes off n l = Some bs -> (off + n <= length l)%nat.
Proof. unfold read_bytes. case_match eqn:E; [|done]. by apply Nat.leb_le in E. Qed.

(** ** Elements *)
Section elements.
Context (sz : nat) (Hsz : elem_width sz).

Lemma load_store_same i w l l' :
  in_word sz w -> store_elem sz i w l = Some l' -> load_elem sz i l' = Some w.
Proof.
  intros Hw Hs. unfold store_elem in Hs. apply read_write_same in Hs. rewrite length_word_bytes in Hs.
  unfold load_elem. rewrite Hs. by rewrite signed_bytes.
Qed.

Lemma load_store_other i j w l l' :
  i <> j -> store_elem sz i w l = Some l' -> load_elem sz j l' = load_elem sz j l.
Proof.
  intros Hij Hs. pose proof (length_write _ _ _ _ Hs) as Hl. unfold load_elem.
  assert (He : read_bytes (j * sz) sz l' = read_bytes (j * sz) sz l); [|by rewrite He].
  destruct (decide (j * sz + sz <= length l)%nat) as [Hb|Hb].
  - apply read_bytes_ext; [done|lia|]. intros k Hk. eapply lookup_write; [done|].
    rewrite length_map, length_word_bytes. destruct Hsz as [->| ->]; lia.
  - unfold read_bytes. rewrite Hl. by replace (j * sz + sz <=? length l)%nat with false
      by (symmetry; apply Nat.leb_gt; lia).
Qed.

Lemma store_elem_defined i w l : (i * sz + sz <= length l)%nat -> exists l', store_elem sz i w l = Some l'.
Proof. intros Hl. apply write_defined. by rewrite length_map, length_word_bytes. Qed.

Lemma load_in_bounds i l w : load_elem sz i l = Some w -> (i * sz + sz <= length l)%nat.
Proof. unfold load_elem. case_match eqn:E; [|done]. by apply read_in_bounds in E. Qed.

(** A block and a copy of its beginning have the same elements. *)
Lemma load_prefix i n l l' :
  take n l' = take n l -> (i * sz + sz <= n)%nat -> (n <= length l)%nat -> (n <= length l')%nat ->
  load_elem sz i l' = load_elem sz i l.
Proof.
  intros Ht Hi Hl Hl'. unfold load_elem.
  assert (He : read_bytes (i * sz) sz l' = read_bytes (i * sz) sz l); [|by rewrite He].
  apply read_bytes_ext; [lia|lia|]. intros k Hk.
  rewrite <- (lookup_take_lt l' n k), <- (lookup_take_lt l n k) by lia. by rewrite Ht.
Qed.
End elements.

(** ** Flags *)
Lemma load_store_flag_same i b l l' : store_flag i b l = Some l' -> load_flag i l' = Some b.
Proof.
  intros Hs. apply (read_write_same i [if b then 1 else 0]) in Hs. simpl in Hs.
  unfold load_flag. rewrite Hs. by destruct b.
Qed.

Lemma load_store_flag_other i j b l l' :
  i <> j -> store_flag i b l = Some l' -> load_flag j l' = load_flag j l.
Proof.
  intros Hij Hs. pose proof (length_write _ _ _ _ Hs) as Hl. unfold load_flag.
  assert (He : read_bytes j 1 l' = read_bytes j 1 l); [|by rewrite He].
  destruct (decide (j + 1 <= length l)%nat) as [Hb|Hb].
  - apply read_bytes_ext; [done|lia|]. intros k Hk. eapply lookup_write; [done|]. simpl. lia.
  - unfold read_bytes. rewrite Hl. by replace (j + 1 <=? length l)%nat with false
      by (symmetry; apply Nat.leb_gt; lia).
Qed.

Lemma store_flag_defined i b l : (i < length l)%nat -> exists l', store_flag i b l = Some l'.
Proof. intros Hl. apply write_defined. simpl. lia. Qed.

Lemma load_flag_prefix i n l l' :
  take n l' = take n l -> (i < n)%nat -> (n <= length l)%nat -> (n <= length l')%nat ->
  load_flag i l' = load_flag i l.
Proof.
  intros Ht Hi Hl Hl'. unfold load_flag.
  assert (He : read_bytes i 1 l' = read_bytes i 1 l); [|by rewrite He].
  apply read_bytes_ext; [lia|lia|]. intros k Hk.
  rewrite <- (lookup_take_lt l' n k), <- (lookup_take_lt l n k) by lia. by rewrite Ht.
Qed.

(** ** Blocks *)
Inductive block_kind := HeapBlock | StackBlock.

Abbreviation heap := (gmap nat (block_kind * bytes)).

(** A pointer to the beginning of a block; [None] is NULL. *)
Definition pointer := option nat.

Definition MaxAllocSize : Z := 1073741823.

(** The bytes of a live block, and an update of them. *)
Definition block_bytes (b : nat) : exec heap bytes :=
  fun h => match h !! b with Some (_, l) => Ok l h | None => Stuck end.
Definition update_block (b : nat) (f : bytes -> option bytes) : exec heap unit :=
  fun h => match h !! b with
           | Some (k, l) => match f l with Some l' => Ok tt (<[b := (k, l')]> h) | None => Stuck end
           | None => Stuck
           end.

(** PostgreSQL's allocator.  Requests are answered while they are at most
    [MaxAllocSize] bytes, and refused with an error above it; that the machine runs out
    of memory is not considered. *)
Class PgMemory := {
  palloc : Z -> exec heap nat;
  palloc0 : Z -> exec heap nat;
  repalloc : nat -> Z -> exec heap nat;
  pfree : nat -> exec heap unit
}.

Class PgMemoryLaws `{PgMemory} : Prop := {
  palloc_ok n h : 0 <= n <= MaxAllocSize ->
    exists b l, palloc n h = Ok b (<[b := (HeapBlock, l)]> h) /\ h !! b = None /\ length l = Z.to_nat n;
  palloc0_ok n h : 0 <= n <= MaxAllocSize ->
    exists b, palloc0 n h = Ok b (<[b := (HeapBlock, replicate (Z.to_nat n) (Some 0))]> h) /\ h !! b = None;
  palloc0_refuses n h : MaxAllocSize < n -> exists e, palloc0 n h = Err e h;
  repalloc_ok b l n h : h !! b = Some (HeapBlock, l) -> 0 <= n <= MaxAllocSize ->
    exists b' l', repalloc b n h = Ok b' (<[b' := (HeapBlock, l')]> (delete b h))
      /\ delete b h !! b' = None /\ length l' = Z.to_nat n
      /\ take (Z.to_nat n `min` length l) l' = take (Z.to_nat n `min` length l) l;
  pfree_ok b l h : h !! b = Some (HeapBlock, l) -> pfree b h = Ok tt (delete b h)
}.
