(* ===== verification/NativeArray.v ===== *)
(** * The runtime of native local arrays

    [common/upl_runtime.c], "Native local array helpers": allocation of the flat
    elements, conversion from and to PostgreSQL's arrays, growth, release.  Arrays of
    PostgreSQL come and go through the class [PgArrays]; [array_of] is the format they
    have in memory, as far as the helpers look at it.

    [native_rep] says which array the six slots of a native array stand for.  Every
    helper is shown to establish it, to preserve it or to convert it without loss, and
    with the blocks of memory of file Memory this includes that no helper reads what was
    not written or touches what it does not own. *)

From Stdlib Require Import ZArith Lia Ascii.
From stdpp Require Import pretty.
From S2P Require Import Prelude Ast Datums Exec Assign Memory.
#[local] Open Scope Z_scope.
#[local] Open Scope exec_scope.

(** ** Arrays of PostgreSQL *)

(** [ArrayType], as the macros [ARR_NDIM], [ARR_DIMS], [ARR_LBOUND], [ARR_HASNULL] with
    [ARR_NULLBITMAP], and [ARR_DATA_PTR] show it. *)
Record ArrayType := mk_array {
  arr_ndim : Z;
  arr_dims : list Z;
  arr_lbound : list Z;
  arr_nullbitmap : option (list Z);
  arr_data : list Z
}.

(** What the helpers call: the lookup of an element type's length, passing and
    alignment, the number of items of an array, its construction; arrays as Datums; and
    the read and the assignment of an element. *)
Class PgArrays (world : Type) := {
  get_typlenbyvalalign : Oid -> Z * bool * Z;
  ArrayGetNItems : Z -> list Z -> Z;
  construct_md_array : list Datum -> option (list bool) -> Z -> list Z -> list Z -> Oid ->
    Z * bool * Z -> ArrayType + ErrorData;
  construct_empty_array : Oid -> ArrayType;
  DatumGetArrayTypeP : world -> Datum -> ArrayType;
  PointerGetDatum : ArrayType -> pg world Datum;
  array_get_element : Datum -> Z -> Z -> Z * bool * Z -> pg world (Datum * bool);
  array_set_element : Datum -> Z -> Datum -> bool -> Z -> Z * bool * Z -> pg world Datum
}.

(** The greatest number of elements: [(int32) (MaxAllocSize / sizeof(Datum))]. *)
Definition max_elements : Z := MaxAllocSize / 8.

(** ** The helpers *)
Section helpers.
Context {world : Type} `{PgMemory} `{PgArrays world}.

(** [uplpgsql_rt_native_array_alloc]; the memory context only decides when the block is
    freed at the latest. *)
Definition uplpgsql_rt_native_array_alloc (byte_size : Z) : exec heap nat := palloc0 byte_size.

Definition copy_to (b : nat) (off : nat) (bs : bytes) : exec heap unit :=
  update_block b (write_bytes off bs).
Definition memset0 (b : nat) (off n : nat) : exec heap unit :=
  copy_to b off (replicate n (Some 0)).

(** [(bitmap[i / 8] & (1 << (i % 8))) == 0]; reading past the bitmap is undefined. *)
Definition bit_is_null (bitmap : list Z) (i : nat) : option bool :=
  match bitmap !! (i / 8)%nat with
  | Some byte => Some (Z.land byte (Z.shiftl 1 (Z.of_nat (i mod 8))) =? 0)
  | None => None
  end.

(** The loop over the elements [i], [i + 1], ... of an array with NULLs: [n] are left,
    [src] is what remains of the packed values. *)
Fixpoint unpack_elems (elem_size : nat) (bitmap : list Z) (result nulls : nat) (n i : nat)
    (src : list Z) : exec heap unit :=
  match n with
  | O => xret tt
  | S n' =>
      match bit_is_null bitmap i with
      | None => undefined
      | Some null =>
          update_block nulls (store_flag i null) ;~
          if null then
            memset0 result (i * elem_size) elem_size ;~
            unpack_elems elem_size bitmap result nulls n' (S i) src
          else if (elem_size <=? length src)%nat then
            copy_to result (i * elem_size) (map Some (take elem_size src)) ;~
            unpack_elems elem_size bitmap result nulls n' (S i) (drop elem_size src)
          else undefined
      end
  end.

(** The result and the three output arguments. *)
Record from_datum_out := mk_fd { fd_data : pointer; fd_nelems : Z; fd_lb : Z; fd_nulls : pointer }.

Definition uplpgsql_rt_native_array_from_datum (w : world) (array_datum : Datum) (isnull : bool)
    (elem_size : nat) : exec heap from_datum_out :=
  if isnull then xret (mk_fd None 0 1 None)
  else
    let arr := DatumGetArrayTypeP w array_datum in
    if arr_ndim arr =? 0 then xret (mk_fd None 0 1 None)
    else if negb (arr_ndim arr =? 1) then xret (mk_fd None (-1) 1 None)
    else
      let nelems := ArrayGetNItems (arr_ndim arr) (arr_dims arr) in
      match arr_lbound arr with
      | [] => undefined
      | lb :: _ =>
          if nelems =? 0 then xret (mk_fd None 0 lb None)
          else
            let size := wrap32 (nelems * Z.of_nat elem_size) in
            result <~ palloc size;
            match arr_nullbitmap arr with
            | Some bitmap =>
                nulls <~ palloc nelems;
                unpack_elems elem_size bitmap result nulls (Z.to_nat nelems) 0 (arr_data arr) ;~
                xret (mk_fd (Some result) nelems lb (Some nulls))
            | None =>
                if (Z.to_nat size <=? length (arr_data arr))%nat then
                  copy_to result 0 (map Some (take (Z.to_nat size) (arr_data arr))) ;~
                  xret (mk_fd (Some result) nelems lb None)
                else undefined
            end
      end.

Definition read_block {A} (b : nat) (f : bytes -> option A) : exec heap A :=
  bs <~ block_bytes b; match f bs with Some x => xret x | None => undefined end.

(** The Datums of the elements [i], [i + 1], ...: [Int32GetDatum], [Float8GetDatum] and
    [Int64GetDatum] keep the bits of a word. *)
Fixpoint elem_datums (elem_size : nat) (data : nat) (n i : nat) : exec heap (list Datum) :=
  match n with
  | O => xret []
  | S n' =>
      w <~ read_block data (load_elem elem_size i);
      ws <~ elem_datums elem_size data n' (S i);
      xret (w :: ws)
  end.

(** The flags [construct_md_array] reads. *)
Fixpoint elem_flags (nulls : nat) (n i : nat) : exec heap (list bool) :=
  match n with
  | O => xret []
  | S n' =>
      x <~ read_block nulls (load_flag i);
      xs <~ elem_flags nulls n' (S i);
      xret (x :: xs)
  end.

(** The array [uplpgsql_rt_native_array_to_datum] builds; [None] when there is nothing
    to build and the variable keeps its value. *)
Definition native_array_value (data : pointer) (nelems lb : Z) (nulls : pointer)
    (elemtype : Oid) (elem_size : nat) : exec heap (option ArrayType) :=
  match data with
  | None => xret None
  | Some b =>
      if nelems <=? 0 then xret None
      else
        let n := Z.to_nat nelems in
        elems <~ elem_datums elem_size b n 0;
        flags <~ match nulls with
                 | None => xret None
                 | Some nb => fs <~ elem_flags nb n 0; xret (Some fs)
                 end;
        match construct_md_array elems flags 1 [nelems] [lb] elemtype (get_typlenbyvalalign elemtype) with
        | inl arr => xret (Some arr)
        | inr e => throw e
        end
  end.

(** The function runs on its own state and on the memory. *)
Definition on_memory {S A} (m : exec heap A) : exec (S * heap) A :=
  fun s => match m s.2 with
           | Ok a h => Ok a (s.1, h)
           | Err e h => Err e (s.1, h)
           | Stuck => Stuck
           | OutOfFuel => OutOfFuel
           end.
Definition on_state {S A} (m : exec S A) : exec (S * heap) A :=
  fun s => match m s.1 with
           | Ok a s' => Ok a (s', s.2)
           | Err e s' => Err e (s', s.2)
           | Stuck => Stuck
           | OutOfFuel => OutOfFuel
           end.

Context `{PgEnv world}.

Definition uplpgsql_rt_native_array_to_datum (varno : nat) (data : pointer) (nelems lb : Z)
    (nulls : pointer) (elemtype : Oid) (elem_size : nat) : exec (execstate world * heap) unit :=
  v <~ on_memory (native_array_value data nelems lb nulls elemtype elem_size);
  match v with
  | None => xret tt
  | Some arr =>
      on_state (d <~ pg_call (PointerGetDatum arr); assign_simple_var varno d false true)
  end.

(** [uplpgsql_rt_array_get_element]; [elm] has the length, the passing and the alignment
    of the elements. *)
Definition uplpgsql_rt_array_get_element (array_dno : nat) (subscript typlen : Z) (elm : Z * bool * Z)
    : exec (execstate world) (Datum * bool) :=
  arrayvar <~ get_var array_dno;
  if isnull arrayvar then xret (0, true)
  else
    r <~ pg_call (array_get_element (value arrayvar) subscript typlen elm);
    if negb r.2 && negb elm.1.2
    then d <~ pg_call (datumCopy r.1 elm.1.2 elm.1.1); xret (d, r.2)
    else xret r.

Definition uplpgsql_rt_array_set_element (array_dno : nat) (subscript : Z) (newvalue : Datum)
    (valisnull : bool) (typlen : Z) (elemtype : Oid) (elm : Z * bool * Z) : exec (execstate world) unit :=
  arrayvar <~ get_var array_dno;
  olddatum <~ (if isnull arrayvar then pg_call (PointerGetDatum (construct_empty_array elemtype))
               else xret (value arrayvar));
  arraydatum <~ pg_call (array_set_element olddatum subscript newvalue valisnull typlen elm);
  if arraydatum =? olddatum then xret tt
  else
    expanded <~ pg_call (expand_array arraydatum);
    assign_simple_var array_dno expanded false true.

(** The slots of a native array. *)
Record native_array := mk_native {
  na_data : pointer; na_len : Z; na_lb : Z; na_nulls : pointer; na_cap : Z; na_heap : bool
}.

(** The capacity a full array of [len] elements grows to, in 32-bit arithmetic. *)
Definition grown_capacity (cap len : Z) : Z :=
  let newcap := if 0 <? cap then wrap32 (cap * 2) else 8 in
  let newcap := if newcap <=? len then wrap32 (len + 1) else newcap in
  if max_elements <? newcap then max_elements else newcap.

Definition ERRCODE_PROGRAM_LIMIT_EXCEEDED : Z := MAKE_SQLSTATE "5" "4" "0" "0" "0".

(** The new block of the elements: a block of the heap is reallocated, the first [len]
    elements of a stack block are copied. *)
Definition reserve_data (na : native_array) (len newcap : Z) (elem_size : nat) : exec heap nat :=
  match na_data na, na_heap na with
  | Some b, true => repalloc b (newcap * Z.of_nat elem_size)
  | p, _ =>
      newdata <~ palloc (newcap * Z.of_nat elem_size);
      match p with
      | Some b =>
          if 0 <? len then
            bs <~ block_bytes b;
            let n := (Z.to_nat len * elem_size)%nat in
            if (n <=? length bs)%nat then copy_to newdata 0 (take n bs) ;~ xret newdata
            else undefined
          else xret newdata
      | None => xret newdata
      end
  end.

(** The flags, if there are any, with those of the new slots cleared. *)
Definition reserve_nulls (na : native_array) (len newcap : Z) : exec heap pointer :=
  match na_nulls na with
  | None => xret None
  | Some nb =>
      nb' <~ repalloc nb newcap;
      memset0 nb' (Z.to_nat len) (Z.to_nat (newcap - len)) ;~
      xret (Some nb')
  end.

(** [uplpgsql_rt_native_array_reserve]; [*data_io], [*nulls_io], [*is_heap_io] and
    [*cap_io] are those slots of the array. *)
Definition uplpgsql_rt_native_array_reserve (na : native_array) (len : Z) (elem_size : nat)
    : exec heap native_array :=
  if len <? na_cap na then xret na
  else if max_elements <=? len
  then ereport ERRCODE_PROGRAM_LIMIT_EXCEEDED
         ("array size exceeds the maximum allowed (" +:+ pretty max_elements +:+ ")")
  else
    let newcap := grown_capacity (na_cap na) len in
    data <~ reserve_data na len newcap elem_size;
    nulls <~ reserve_nulls na len newcap;
    xret (mk_native (Some data) (na_len na) (na_lb na) nulls newcap true).

Definition uplpgsql_rt_native_array_release (data nulls : pointer) (is_heap : bool) : exec heap unit :=
  match data with Some b => if is_heap then pfree b else xret tt | None => xret tt end ;~
  match nulls with Some b => pfree b | None => xret tt end.

Definition ERRCODE_ARRAY_SUBSCRIPT_ERROR : Z := MAKE_SQLSTATE "2" "2" "0" "2" "E".

Definition uplpgsql_rt_native_array_bounds_check (subscript length : Z) : exec heap unit :=
  if (subscript <? 1) || (length <? subscript)
  then ereport ERRCODE_ARRAY_SUBSCRIPT_ERROR
         ("array subscript " +:+ pretty subscript +:+ " out of range [1.." +:+ pretty length +:+ "]")
  else xret tt.
End helpers.

(** ** What the slots stand for *)
Section representation.
Context (sz : nat).

Definition is_null (x : option Z) : bool := match x with Some _ => false | None => true end.

(** The values of an array, without the NULLs, one after the other. *)
Fixpoint packed (es : list (option Z)) : list Z :=
  match es with
  | [] => []
  | Some w :: es' => word_bytes sz w ++ packed es'
  | None :: es' => packed es'
  end.

(** A one-dimensional array with these elements and this lower bound: bit [i mod 8] of
    byte [i / 8] of the bitmap, if there is one, is set when element [i] is not NULL. *)
Definition array_of (es : list (option Z)) (lb : Z) (arr : ArrayType) : Prop :=
  arr_ndim arr = 1 /\ arr_dims arr = [Z.of_nat (length es)] /\ arr_lbound arr = [lb]
  /\ packed es `prefix_of` arr_data arr
  /\ match arr_nullbitmap arr with
     | None => Forall (fun x => is_null x = false) es
     | Some bitmap => forall i x, es !! i = Some x -> exists byte, bitmap !! (i / 8)%nat = Some byte
                        /\ Z.testbit byte (Z.of_nat (i mod 8)) = negb (is_null x)
     end.

(** Every slot holds a word; for an element that is not NULL, its value. *)
Definition elem_at (l : bytes) (i : nat) (x : option Z) : Prop :=
  exists w, load_elem sz i l = Some w /\ in_word sz w /\ (x = Some w \/ x = None).
Definition holds_elems (l : bytes) (es : list (option Z)) : Prop :=
  forall i x, es !! i = Some x -> elem_at l i x.
Definition holds_flags (l : bytes) (es : list (option Z)) : Prop :=
  forall i x, es !! i = Some x -> load_flag i l = Some (is_null x).

Definition data_rep (h : heap) (na : native_array) (es : list (option Z)) : Prop :=
  match na_data na with
  | None => na_cap na = 0
  | Some b => exists l, h !! b = Some (if na_heap na then HeapBlock else StackBlock, l)
                /\ length l = (Z.to_nat (na_cap na) * sz)%nat /\ holds_elems l es
  end.
Definition nulls_rep (h : heap) (na : native_array) (es : list (option Z)) : Prop :=
  match na_nulls na with
  | None => Forall (fun x => is_null x = false) es
  | Some b => Some b <> na_data na
              /\ exists l, h !! b = Some (HeapBlock, l) /\ length l = Z.to_nat (na_cap na) /\ holds_flags l es
  end.

(** The slots stand for the array of the elements [es] with lower bound [na_lb]. *)
Definition native_rep (h : heap) (na : native_array) (es : list (option Z)) : Prop :=
  na_len na = Z.of_nat (length es) /\ na_len na <= na_cap na <= max_elements
  /\ data_rep h na es /\ nulls_rep h na es.
End representation.

(** The element types of native arrays, with their sizes. *)
Definition elem_type (ty : Oid) (sz : nat) : Prop :=
  (ty = INT4OID /\ sz = 4%nat) \/ ((ty = INT8OID \/ ty = FLOAT8OID) /\ sz = 8%nat).

Lemma elem_type_width ty sz : elem_type ty sz -> elem_width sz.
Proof. intros [[_ ->]|[_ ->]]; [by left|by right]. Qed.

(** What an assignment to a[i] makes of a one-dimensional array with these elements and
    this lower bound: PostgreSQL extends the array to the subscript and fills the gap
    with NULLs; an empty array becomes one of one element. *)
Definition assign_elem (es : list (option Z)) (lb i : Z) (x : option Z) : list (option Z) * Z :=
  match es with
  | [] => ([x], i)
  | _ =>
      if i <? lb then (x :: replicate (Z.to_nat (lb - i - 1)) None ++ es, i)
      else if i <? lb + Z.of_nat (length es) then (<[Z.to_nat (i - lb) := x]> es, lb)
      else (es ++ replicate (Z.to_nat (i - lb) - length es) None ++ [x], lb)
  end.

(** An array that PostgreSQL accepts. *)
Definition in_limits (es : list (option Z)) (lb : Z) : Prop :=
  Z.of_nat (length es) <= max_elements /\ in_int32 lb /\ in_int32 (lb + Z.of_nat (length es)).

(** The value of a Datum: these elements with this lower bound.  The empty array has no
    dimensions, and its lower bound does not matter. *)
Definition datum_array {world} `{PgArrays world} (sz : nat) (w : world) (d : Datum)
    (es : list (option Z)) (lb : Z) : Prop :=
  match es with
  | [] => arr_ndim (DatumGetArrayTypeP w d) = 0
  | _ => array_of sz es lb (DatumGetArrayTypeP w d)
  end.

(** What the helpers rely on of PostgreSQL's arrays: the number of items, the catalogue's
    entries of the element types, that the construction of an array within the limits
    yields that array, and that an assignment to an element does what the documentation
    says. *)
Class PgArraysLaws (world : Type) `{PgArrays world} `{PgEnv world} : Prop := {
  ArrayGetNItems_1d n : 0 <= n -> ArrayGetNItems 1 [n] = n;
  typlenbyval_elem ty sz : elem_type ty sz -> (get_typlenbyvalalign ty).1 = (Z.of_nat sz, true);
  construct_md_array_ok sz es ws flags lb ty t :
    elem_width sz -> es <> [] -> in_limits es lb -> t.1 = (Z.of_nat sz, true) ->
    Forall2 (fun x w => x = Some w \/ x = None) es ws ->
    (if flags is Some fs then fs = map is_null es else Forall (fun x => is_null x = false) es) ->
    exists arr, construct_md_array ws flags 1 [Z.of_nat (length es)] [lb] ty t = inl arr
                /\ array_of sz es lb arr;
  construct_empty_array_ok ty : arr_ndim (construct_empty_array ty) = 0;
  PointerGetDatum_ok a w :
    exists d w', PointerGetDatum a w = PgOk d w' /\ DatumGetArrayTypeP w' d = a
                 /\ is_external_non_expanded w' d = false /\ is_expanded w' d = false /\ in_int64 d;
  array_set_element_ok sz w d es lb i x v typlen t :
    elem_width sz -> datum_array sz w d es lb -> t.1 = (Z.of_nat sz, true) ->
    x = Some v \/ x = None ->
    in_limits (assign_elem es lb i x).1 (assign_elem es lb i x).2 ->
    exists d' w', array_set_element d i v (is_null x) typlen t w = PgOk d' w'
      /\ datum_array sz w' d' (assign_elem es lb i x).1 (assign_elem es lb i x).2
      /\ (is_expanded w d = false -> d' <> d) /\ in_int64 d';
  expand_array_ok d w : in_int64 d ->
    exists d' w', expand_array d w = PgOk d' w' /\ DatumGetArrayTypeP w' d' = DatumGetArrayTypeP w d
                  /\ is_external_non_expanded w' d' = false /\ in_int64 d'
}.

(** ** Blocks *)
Lemma copy_to_ok b off bs k l h l' :
  h !! b = Some (k, l) -> write_bytes off bs l = Some l' -> copy_to b off bs h = Ok tt (<[b := (k, l')]> h).
Proof. intros Hb Hw. unfold copy_to, update_block. by rewrite Hb, Hw. Qed.

Lemma read_block_ok {A} b (f : bytes -> option A) k l x h :
  h !! b = Some (k, l) -> f l = Some x -> read_block b f h = Ok x h.
Proof. intros Hb Hf. unfold read_block, xbind, block_bytes. by rewrite Hb, Hf. Qed.

(** The test of a bit. *)
Lemma land_shiftl_testbit byte k : 0 <= k -> (Z.land byte (Z.shiftl 1 k) =? 0) = negb (Z.testbit byte k).
Proof.
  intros Hk. rewrite Z.shiftl_1_l. destruct (Z.testbit byte k) eqn:E; simpl.
  - apply Z.eqb_neq. intros Hz. assert (Hb : Z.testbit (Z.land byte (2 ^ k)) k = true).
    { by rewrite Z.land_spec, E, Z.pow2_bits_true. }
    by rewrite Hz, Z.bits_0 in Hb.
  - apply Z.eqb_eq, Z.bits_inj'. intros i Hi. rewrite Z.land_spec, Z.bits_0.
    destruct (decide (i = k)) as [->|Hne]; [by rewrite E|].
    by rewrite Z.pow2_bits_false, andb_false_r.
Qed.

Section unpack.
Context (sz : nat) (Hsz : elem_width sz).

Lemma bit_is_null_spec bitmap i byte x :
  bitmap !! (i / 8)%nat = Some byte -> Z.testbit byte (Z.of_nat (i mod 8)) = negb (is_null x) ->
  bit_is_null bitmap i = Some (is_null x).
Proof.
  intros Hb Ht. unfold bit_is_null. rewrite Hb, land_shiftl_testbit by lia. rewrite Ht.
  by rewrite negb_involutive.
Qed.

(** One element of the vector is written: the others keep what they had. *)
Lemma holds_extend (l l' : bytes) (done : list (option Z)) x :
  holds_elems sz l done -> (forall j, (j < length done)%nat -> load_elem sz j l' = load_elem sz j l) ->
  elem_at sz l' (length done) x -> holds_elems sz l' (done ++ [x]).
Proof.
  intros Hd Ho Hx j y Hj. apply lookup_app_Some in Hj as [Hj|[Hl Hj]].
  - destruct (Hd _ _ Hj) as (w & Hw & Hr). exists w. apply lookup_lt_Some in Hj. by rewrite Ho.
  - apply list_lookup_singleton_Some in Hj as [Hj <-]. by replace j with (length done) by lia.
Qed.

Lemma holds_flags_extend (l l' : bytes) (done : list (option Z)) x :
  holds_flags l done -> store_flag (length done) (is_null x) l = Some l' -> holds_flags l' (done ++ [x]).
Proof.
  intros Hd Hs j y Hj. apply lookup_app_Some in Hj as [Hj|[Hl Hj]].
  - assert (Hne : length done <> j) by (apply lookup_lt_Some in Hj; lia).
    rewrite (load_store_flag_other _ _ _ _ _ Hne Hs). by apply Hd.
  - apply list_lookup_singleton_Some in Hj as [Hj <-]. replace j with (length done) by lia.
    by eapply load_store_flag_same.
Qed.

(** A slot cleared with [memset] holds zero. *)
Lemma load_memset i l l' :
  write_bytes (i * sz) (replicate sz (Some 0)) l = Some l' -> store_elem sz i 0 l = Some l'.
Proof.
  intros Hw. unfold store_elem. replace (map Some (word_bytes sz 0)) with (replicate sz (Some 0)); [done|].
  by destruct Hsz as [->| ->].
Qed.

Lemma in_word_0 : in_word sz 0.
Proof. unfold in_word. destruct Hsz as [->| ->]; simpl; unfold_int32; unfold_int64; lia. Qed.

(** The loop, with the blocks of the values and of the flags. *)
Lemma unpack_ok bitmap result nulls n : result <> nulls ->
  forall rest done src h l nl pad,
  length rest = n ->
  src = packed sz rest ++ pad -> Forall (fun x => if x is Some w then in_word sz w else True) rest ->
  (forall i x, (done ++ rest) !! i = Some x -> bit_is_null bitmap i = Some (is_null x)) ->
  h !! result = Some (HeapBlock, l) -> h !! nulls = Some (HeapBlock, nl) ->
  length l = (length (done ++ rest) * sz)%nat -> length nl = length (done ++ rest) ->
  holds_elems sz l done -> holds_flags nl done ->
  exists l' nl',
    unpack_elems sz bitmap result nulls n (length done) src h
      = Ok tt (<[result := (HeapBlock, l')]> (<[nulls := (HeapBlock, nl')]> h))
    /\ length l' = length l /\ length nl' = length nl
    /\ holds_elems sz l' (done ++ rest) /\ holds_flags nl' (done ++ rest).
Proof.
  intros Hne. induction n as [|n IH]; intros rest done src h l nl pad Hn Hsrc Hw Hbits Hr Hb Hl Hnl Hde Hdf.
  - destruct rest; [|done]. rewrite app_nil_r in *. exists l, nl. simpl. split; [|done].
    unfold xret. rewrite (insert_id h nulls) by done. by rewrite insert_id by done.
  - destruct rest as [|x rest]; [done|]. injection Hn as Hn.
    assert (Hx : bit_is_null bitmap (length done) = Some (is_null x)).
    { apply Hbits. by rewrite list_lookup_middle. }
    rewrite length_app in Hl, Hnl. simpl in Hl, Hnl.
    destruct (store_flag_defined (length done) (is_null x) nl) as [nl1 Hs1]; [lia|].
    apply list.Forall_cons in Hw as [Hwx Hw].
    assert (Hstore : exists src' l1,
      (if is_null x then
         memset0 result (length done * sz) sz ;~
         unpack_elems sz bitmap result nulls n (S (length done)) src
       else if (sz <=? length src)%nat then
         copy_to result (length done * sz) (map Some (take sz src)) ;~
         unpack_elems sz bitmap result nulls n (S (length done)) (drop sz src)
       else undefined) (<[nulls := (HeapBlock, nl1)]> h)
      = unpack_elems sz bitmap result nulls n (S (length done)) src'
          (<[result := (HeapBlock, l1)]> (<[nulls := (HeapBlock, nl1)]> h))
      /\ src' = packed sz rest ++ pad /\ length l1 = length l /\ holds_elems sz l1 (done ++ [x])).
    { destruct x as [w|]; simpl.
      - destruct (store_elem_defined sz (length done) w l) as [l1 Hl1]; [lia|].
        exists (packed sz rest ++ pad), l1. subst src. simpl. rewrite <- (assoc_L (++)).
        rewrite length_app, length_word_bytes. replace (sz <=? _)%nat with true
          by (symmetry; apply Nat.leb_le; lia).
        rewrite take_app_length', drop_app_length' by (by rewrite length_word_bytes). unfold xbind.
        rewrite (copy_to_ok _ _ _ HeapBlock l _ l1) by (by rewrite ?lookup_insert_ne).
        split; [done|]. split; [done|]. split; [by eapply length_write|].
        eapply (holds_extend l); [done| |].
        + intros j Hj. eapply load_store_other; [done| |done]. lia.
        + exists w. split; [by eapply load_store_same|]. auto.
      - destruct (write_defined (length done * sz) (replicate sz (Some 0)) l) as [l1 Hl1];
          [rewrite length_replicate; lia|].
        exists (packed sz rest ++ pad), l1. subst src. simpl. unfold memset0, xbind.
        rewrite (copy_to_ok _ _ _ HeapBlock l _ l1) by (by rewrite ?lookup_insert_ne).
        split; [done|]. split; [done|]. split; [by eapply length_write|].
        apply load_memset in Hl1. eapply (holds_extend l); [done| |].
        + intros j Hj. eapply load_store_other; [done| |done]. lia.
        + exists 0. split; [|split; [apply in_word_0|by right]]. eapply load_store_same; [done|apply in_word_0|done]. }
    destruct Hstore as (src' & l1 & Hrun & Hsrc' & Hl1 & He1).
    cbn [unpack_elems]. rewrite Hx. unfold xbind at 1, update_block. rewrite Hb, Hs1.
    rewrite Hrun.
    destruct (IH rest (done ++ [x]) src' (<[result := (HeapBlock, l1)]> (<[nulls := (HeapBlock, nl1)]> h)) l1 nl1 pad)
      as (l' & nl' & Hu & Hll & Hlnl & He & Hf); try done.
    + intros i y. rewrite <- (assoc_L (++)). apply Hbits.
    + by rewrite lookup_insert_eq.
    + rewrite lookup_insert_ne by done. by rewrite lookup_insert_eq.
    + rewrite Hl1, Hl, !length_app. simpl. lia.
    + rewrite (length_write _ _ _ _ Hs1), Hnl, !length_app. simpl. lia.
    + by eapply holds_flags_extend.
    + exists l', nl'. rewrite length_app in Hu. simpl in Hu. rewrite Nat.add_1_r in Hu.
      rewrite <- (assoc_L (++)) in He, Hf. rewrite Hu. split; [|split; [lia|split; [|done]]].
      * f_equal. rewrite (insert_insert_ne _ nulls result) by done. rewrite !insert_insert_eq. done.
      * rewrite Hlnl. by eapply length_write.
Qed.
End unpack.

(** ** From an array to the slots *)
Section from_datum.
Context (sz : nat) (Hsz : elem_width sz).
Context {world : Type} `{PgMemoryLaws} `{PgArraysLaws world}.

Lemma length_packed es :
  Forall (fun x => is_null x = false) es -> length (packed sz es) = (length es * sz)%nat.
Proof.
  induction 1 as [|[w|] es Hx _ IH]; [done| |done]. simpl. rewrite length_app, length_word_bytes, IH. lia.
Qed.

Lemma packed_word es i w :
  Forall (fun x => is_null x = false) es -> es !! i = Some (Some w) ->
  take sz (drop (i * sz) (packed sz es)) = word_bytes sz w.
Proof.
  intros Hes. revert i. induction Hes as [|[v|] es Hx Hes IH]; intros i Hi; [done| |done]. simpl.
  destruct i as [|i].
  - injection Hi as ->. rewrite drop_0. apply take_app_length'. by rewrite length_word_bytes.
  - rewrite drop_app_ge by (rewrite length_word_bytes; lia). rewrite length_word_bytes.
    replace (S i * sz - sz)%nat with (i * sz)%nat by lia. by apply IH.
Qed.

Definition words_ok (es : list (option Z)) : Prop :=
  Forall (fun x : option Z => if x is Some w then in_word sz w else True) es.

(** A block with the values of an array without NULLs holds them. *)
Lemma holds_packed es :
  Forall (fun x => is_null x = false) es -> words_ok es -> holds_elems sz (map Some (packed sz es)) es.
Proof.
  intros Hes Hw i x Hi. unfold words_ok in Hw. rewrite list.Forall_lookup in Hes, Hw.
  pose proof (Hes _ _ Hi) as Hx. destruct x as [w|]; [|done]. exists w.
  pose proof (Hw _ _ Hi) as Hin. split; [|auto].
  assert (He : Forall (fun x => is_null x = false) es) by by apply list.Forall_lookup.
  unfold load_elem, read_bytes. rewrite length_map, length_packed by done.
  apply lookup_lt_Some in Hi as Hlt. replace (i * sz + sz <=? length es * sz)%nat with true
    by (symmetry; apply Nat.leb_le; nia).
  rewrite skipn_map, firstn_map. rewrite (packed_word es i w) by done.
  rewrite mapM_id_Some. by rewrite signed_bytes.
Qed.

Lemma size_in_range (es : list (option Z)) : Z.of_nat (length es) <= max_elements ->
  wrap32 (Z.of_nat (length es) * Z.of_nat sz) = Z.of_nat (length es * sz)%nat
  /\ 0 <= Z.of_nat (length es * sz)%nat <= MaxAllocSize
  /\ 0 <= Z.of_nat (length es) <= MaxAllocSize.
Proof.
  intros Hl. change max_elements with 134217727 in Hl. change MaxAllocSize with 1073741823.
  assert (Hb : 0 <= Z.of_nat (length es) * Z.of_nat sz <= 1073741823) by (destruct Hsz as [->| ->]; lia).
  rewrite wrap32_id by (unfold_int32; lia). rewrite Nat2Z.inj_mul. lia.
Qed.

(** The blocks of [h'] are those of [h] and the ones of the native array. *)
Definition grows_by (h h' : heap) (data nulls : pointer) : Prop :=
  (forall b, is_Some (h !! b) -> h' !! b = h !! b)
  /\ (forall b, is_Some (h' !! b) <-> is_Some (h !! b) \/ data = Some b \/ nulls = Some b)
  /\ forall b, data = Some b \/ nulls = Some b -> h !! b = None.

Lemma grows_by_one (h : heap) b v :
  h !! b = None -> grows_by h (<[b := v]> h) (Some b) None.
Proof.
  intros Hb. split; [|split; [|naive_solver]].
  - intros b' Hs. rewrite lookup_insert_ne; [done|]. intros ->. by rewrite Hb in Hs; destruct Hs.
  - intros b'. rewrite lookup_insert_is_Some. destruct (decide (b = b')) as [->|Hne]; naive_solver.
Qed.

Lemma grows_by_two (h : heap) b v b' v' :
  h !! b = None -> h !! b' = None -> b <> b' ->
  grows_by h (<[b := v]> (<[b' := v']> h)) (Some b) (Some b').
Proof.
  intros Hb Hb' Hne. split; [|split; [|naive_solver]].
  - intros c Hs. rewrite !lookup_insert_ne; [done|..]; intros ->;
      [by rewrite Hb' in Hs; destruct Hs|by rewrite Hb in Hs; destruct Hs].
  - intros c. rewrite !lookup_insert_is_Some. destruct (decide (b = c)) as [->|Hc]; [naive_solver|].
    destruct (decide (b' = c)) as [->|Hc']; naive_solver.
Qed.

Lemma from_datum_ok w d es lb arr h :
  DatumGetArrayTypeP w d = arr -> array_of sz es lb arr -> words_ok es ->
  Z.of_nat (length es) <= max_elements ->
  exists data nulls h',
    uplpgsql_rt_native_array_from_datum w d false sz h
      = Ok (mk_fd data (Z.of_nat (length es)) lb nulls) h'
    /\ native_rep sz h' (mk_native data (Z.of_nat (length es)) lb nulls (Z.of_nat (length es)) true) es
    /\ grows_by h h' data nulls.
Proof.
  intros Hd (Hnd & Hdims & Hlb & Hdata & Hnull) Hw Hlen.
  pose proof (size_in_range es Hlen) as (Hwrap & Hsize & Hn).
  unfold uplpgsql_rt_native_array_from_datum. rewrite Hd, Hnd, Hlb, Hdims. simpl.
  rewrite ArrayGetNItems_1d by lia.
  destruct (Z.of_nat (length es) =? 0) eqn:E0.
  { apply Z.eqb_eq in E0. destruct es; [|done]. exists None, None, h. split; [done|]. split.
    - repeat split; simpl; try done. by constructor.
    - split; [done|]. split; [|naive_solver]. intros b. naive_solver. }
  rewrite Hwrap. unfold xbind at 1.
  destruct (palloc_ok (Z.of_nat (length es * sz)) h Hsize) as (b & l & -> & Hfree & Hl).
  rewrite Nat2Z.id in Hl. destruct Hdata as [pad Hpad].
  destruct (arr_nullbitmap arr) as [bitmap|].
  - unfold xbind at 1. destruct (palloc_ok (Z.of_nat (length es)) (<[b := (HeapBlock, l)]> h) Hn)
      as (nb & nl & -> & Hnfree & Hnl). rewrite Nat2Z.id in *.
    apply lookup_insert_None in Hnfree as [Hnb Hbn].
    destruct (unpack_ok sz Hsz bitmap b nb (length es) Hbn es [] (arr_data arr)
                (<[nb := (HeapBlock, nl)]> (<[b := (HeapBlock, l)]> h)) l nl pad)
      as (l' & nl' & Hrun & Hll & Hlnl & He & Hf); try done.
    + intros i x Hx. destruct (Hnull i x Hx) as (byte & Hbyte & Ht). by eapply bit_is_null_spec.
    + rewrite lookup_insert_ne by done. by rewrite lookup_insert_eq.
    + by rewrite lookup_insert_eq.
    + simpl in Hrun. unfold xbind. rewrite Hrun. eexists _, _, _. split; [done|].
      split.
      * split; [done|]. split; [simpl; lia|]. split; simpl.
        -- exists l'. rewrite lookup_insert_eq, Hll, Hl. simpl. by rewrite Nat2Z.id.
        -- split; [simpl; congruence|]. exists nl'. rewrite lookup_insert_ne by done.
           rewrite lookup_insert_eq, Hlnl, Hnl. simpl. by rewrite Nat2Z.id.
      * rewrite insert_insert_eq, (insert_insert_ne h nb b) by done. rewrite insert_insert_eq.
        by apply grows_by_two.
  - rewrite Nat2Z.id, Hpad, length_app, length_packed by done.
    replace (length es * sz <=? _)%nat with true by (symmetry; apply Nat.leb_le; lia).
    rewrite take_app_length' by (by rewrite length_packed).
    assert (Hcopy : write_bytes 0 (map Some (packed sz es)) l = Some (map Some (packed sz es))).
    { unfold write_bytes. rewrite length_map, length_packed, Hl by done. simpl.
      rewrite Nat.leb_refl. rewrite drop_ge by lia. by rewrite app_nil_r. }
    unfold xbind. erewrite copy_to_ok; [|by rewrite lookup_insert_eq|exact Hcopy].
    eexists _, _, _. split; [done|]. rewrite insert_insert_eq. split; [|by apply grows_by_one].
    split; [done|]. split; [simpl; lia|]. split; [|done]. exists (map Some (packed sz es)).
    rewrite lookup_insert_eq, length_map, length_packed by done. simpl. rewrite Nat2Z.id. split; [done|].
    split; [done|]. by apply holds_packed.
Qed.
End from_datum.

(** ** From the slots to an array *)
Section to_datum.
Context (sz : nat) (Hsz : elem_width sz).
Context {world : Type} `{PgArraysLaws world}.

Lemma elem_datums_ok b k l es h :
  h !! b = Some (k, l) -> holds_elems sz l es ->
  forall n i, (i + n = length es)%nat ->
  exists ws, elem_datums sz b n i h = Ok ws h
             /\ Forall2 (fun x w => x = Some w \/ x = None) (drop i es) ws.
Proof.
  intros Hb He. induction n as [|n IH]; intros i Hi.
  - exists []. split; [done|]. rewrite drop_ge by lia. constructor.
  - destruct (lookup_lt_is_Some_2 es i) as [x Hx]; [lia|].
    destruct (He i x Hx) as (w & Hw & _ & Hr). destruct (IH (S i)) as (ws & Hws & Hf); [lia|].
    exists (w :: ws). cbn [elem_datums]. unfold xbind. rewrite (read_block_ok b _ k l w) by done.
    rewrite Hws. split; [done|]. erewrite drop_S by done. by constructor.
Qed.

Lemma elem_flags_ok b k l es h :
  h !! b = Some (k, l) -> holds_flags l es ->
  forall n i, (i + n = length es)%nat -> elem_flags b n i h = Ok (map is_null (drop i es)) h.
Proof.
  intros Hb Hf. induction n as [|n IH]; intros i Hi; [by rewrite drop_ge by lia|].
  destruct (lookup_lt_is_Some_2 es i) as [x Hx]; [lia|]. cbn [elem_flags]. unfold xbind.
  rewrite (read_block_ok b _ k l (is_null x)) by (done || by apply Hf).
  rewrite IH by lia. by rewrite (drop_S es x i Hx).
Qed.

Lemma native_array_value_ok ty na es h :
  native_rep sz h na es -> es <> [] -> elem_type ty sz -> in_limits es (na_lb na) ->
  exists arr, native_array_value (na_data na) (na_len na) (na_lb na) (na_nulls na) ty sz h = Ok (Some arr) h
              /\ array_of sz es (na_lb na) arr.
Proof.
  intros (Hlen & Hcap & Hdata & Hnulls) Hne Hty Hlb. unfold native_array_value.
  assert (Hpos : 0 < Z.of_nat (length es)) by (destruct es; [done|simpl; lia]).
  unfold data_rep in Hdata. destruct (na_data na) as [b|]; [|lia].
  destruct Hdata as (l & Hb & _ & He). rewrite Hlen. replace (_ <=? 0) with false by (symmetry; lia).
  rewrite Nat2Z.id. unfold xbind at 1.
  destruct (elem_datums_ok b _ l es h Hb He (length es) 0) as (ws & -> & Hws); [done|].
  rewrite drop_0 in Hws. unfold nulls_rep in Hnulls.
  destruct (na_nulls na) as [nb|].
  - destruct Hnulls as (_ & nl & Hnb & _ & Hf). unfold xbind at 1. unfold xbind at 1.
    rewrite (elem_flags_ok nb _ nl es h Hnb Hf (length es) 0) by done. rewrite drop_0. simpl.
    destruct (construct_md_array_ok sz es ws (Some (map is_null es)) (na_lb na) ty
                (get_typlenbyvalalign ty)) as (arr & -> & Ha); try done; [by apply typlenbyval_elem|].
    by exists arr.
  - unfold xbind at 1. simpl.
    destruct (construct_md_array_ok sz es ws None (na_lb na) ty
                (get_typlenbyvalalign ty)) as (arr & -> & Ha); try done; [by apply typlenbyval_elem|].
    by exists arr.
Qed.
End to_datum.

(** ** Growth *)
Section growth.
Context (sz : nat) (Hsz : elem_width sz).
Context `{PgMemoryLaws}.

Lemma grown_capacity_bounds cap len :
  0 <= cap <= len -> len < max_elements ->
  len < grown_capacity cap len <= max_elements /\ (0 < cap -> Z.min (2 * cap) max_elements <= grown_capacity cap len).
Proof.
  change max_elements with 134217727. intros Hc Hl. unfold grown_capacity.
  change max_elements with 134217727.
  rewrite (wrap32_id (cap * 2)) by (unfold_int32; lia). rewrite (wrap32_id (len + 1)) by (unfold_int32; lia).
  repeat case_match; lia.
Qed.

(** What a copy to a greater block keeps. *)
Lemma holds_elems_prefix (l l' : bytes) es n :
  holds_elems sz l es -> take n l' = take n l -> (length es * sz <= n)%nat ->
  (n <= length l)%nat -> (n <= length l')%nat -> holds_elems sz l' es.
Proof.
  intros He Ht Hn Hl Hl' i x Hi. destruct (He i x Hi) as (w & Hw & Hr). exists w. split; [|done].
  apply lookup_lt_Some in Hi. rewrite <- Hw. eapply load_prefix; [done| |done|done]. nia.
Qed.

Lemma holds_flags_prefix (l l' : bytes) es n :
  holds_flags l es -> take n l' = take n l -> (length es <= n)%nat ->
  (n <= length l)%nat -> (n <= length l')%nat -> holds_flags l' es.
Proof.
  intros He Ht Hn Hl Hl' i x Hi. rewrite <- (He i x Hi). apply lookup_lt_Some in Hi.
  eapply load_flag_prefix; [done| |done|done]. lia.
Qed.

(** The blocks of [h] that [owned] does not name are untouched in [h']; a block that
    [h'] has in addition was free before. *)
Definition others_kept (owned : nat -> Prop) (h h' : heap) : Prop :=
  forall b, is_Some (h !! b) -> ~ owned b -> h' !! b = h !! b.

Lemma size_le_max n : 0 <= n <= max_elements -> 0 <= n * Z.of_nat sz <= MaxAllocSize.
Proof. change max_elements with 134217727. change MaxAllocSize with 1073741823. destruct Hsz as [->| ->]; lia. Qed.

Lemma reserve_data_ok na es newcap h :
  native_rep sz h na es -> na_cap na <= newcap <= max_elements ->
  exists b l h', reserve_data na (na_len na) newcap sz h = Ok b h'
    /\ h' !! b = Some (HeapBlock, l) /\ length l = (Z.to_nat newcap * sz)%nat /\ holds_elems sz l es
    /\ (is_Some (h !! b) -> na_data na = Some b)
    /\ others_kept (fun c => na_data na = Some c) h h'.
Proof.
  intros (Hlen & Hcap & Hdata & _) Hnew. unfold data_rep in Hdata.
  pose proof (size_le_max newcap ltac:(lia)) as Hsize.
  assert (Hz : Z.to_nat (newcap * Z.of_nat sz) = (Z.to_nat newcap * sz)%nat) by lia.
  unfold reserve_data. destruct (na_data na) as [b|].
  - destruct Hdata as (l & Hb & Hl & He). destruct (na_heap na).
    + destruct (repalloc_ok b l _ h Hb Hsize) as (b' & l' & -> & Hfree & Hl' & Ht).
      exists b', l', (<[b' := (HeapBlock, l')]> (delete b h)). rewrite lookup_insert_eq.
      split; [done|]. split; [done|]. split; [lia|].
      rewrite Nat.min_r in Ht by nia. split.
      { eapply holds_elems_prefix; [done|exact Ht|nia|done|nia]. }
      split.
      * intros [v Hv]. apply lookup_delete_None in Hfree as [->|Hfree]; [done|]. congruence.
      * intros c Hc Hown. rewrite lookup_insert_ne, lookup_delete_ne; [done|congruence|].
        intros ->. apply lookup_delete_None in Hfree as [->|Hfree]; [done|].
        rewrite Hfree in Hc. by destruct Hc.
    + unfold xbind at 1. destruct (palloc_ok _ h Hsize) as (b' & l' & -> & Hfree & Hl').
      assert (Hbb : b' <> b) by congruence.
      assert (Hkept : forall l2, others_kept (fun c => Some b = Some c) h (<[b' := (HeapBlock, l2)]> h)).
      { intros l2 c Hc _. apply lookup_insert_ne. intros ->. rewrite Hfree in Hc. by destruct Hc. }
      destruct (0 <? na_len na) eqn:Ez.
      * unfold xbind at 1, block_bytes. rewrite lookup_insert_ne, Hb by done.
        replace (_ <=? length l)%nat with true by (symmetry; apply Nat.leb_le; nia).
        destruct (write_defined 0 (take (Z.to_nat (na_len na) * sz) l) l') as [l2 Hw];
          [rewrite length_take; nia|].
        unfold xbind. erewrite copy_to_ok; [|by rewrite lookup_insert_eq|exact Hw].
        exists b', l2, (<[b' := (HeapBlock, l2)]> h). rewrite insert_insert_eq, lookup_insert_eq.
        pose proof (length_write _ _ _ _ Hw) as Hl2.
        split; [done|]. split; [done|]. split; [lia|]. split; [|split; [|done]].
        -- eapply (holds_elems_prefix l l2 es (Z.to_nat (na_len na) * sz)); [done| |nia|nia|nia].
           unfold write_bytes in Hw. case_match; [|done]. injection Hw as <-. simpl.
           apply take_app_length'. rewrite length_take. nia.
        -- rewrite Hfree. by intros [].
      * exists b', l', (<[b' := (HeapBlock, l')]> h). rewrite lookup_insert_eq.
        split; [done|]. split; [done|]. split; [lia|]. split; [|split; [|done]].
        -- destruct es; [|simpl in *; lia]. by intros i x.
        -- rewrite Hfree. by intros [].
  - assert (Hes : es = []) by (destruct es; [done|simpl in *; lia]). subst es.
    unfold xbind at 1. destruct (palloc_ok _ h Hsize) as (b' & l' & -> & Hfree & Hl').
    exists b', l', (<[b' := (HeapBlock, l')]> h). rewrite lookup_insert_eq.
    split; [done|]. split; [done|]. split; [lia|]. split; [by intros i x|]. split.
    + rewrite Hfree. by intros [].
    + intros c Hc _. apply lookup_insert_ne. intros ->. rewrite Hfree in Hc. by destruct Hc.
Qed.

Lemma others_kept_trans (P Q : nat -> Prop) h1 h2 h3 :
  others_kept P h1 h2 -> others_kept Q h2 h3 -> others_kept (fun c => P c \/ Q c) h1 h3.
Proof.
  intros H12 H23 b Hb Hn. rewrite H23; [apply H12; naive_solver| |naive_solver].
  rewrite H12; naive_solver.
Qed.

Lemma reserve_nulls_ok na es newcap h :
  na_len na = Z.of_nat (length es) -> na_len na <= na_cap na <= newcap -> newcap <= max_elements ->
  nulls_rep h na es ->
  exists p h', reserve_nulls na (na_len na) newcap h = Ok p h'
    /\ match p with
       | None => Forall (fun x => is_null x = false) es
       | Some nb => (is_Some (h !! nb) -> na_nulls na = Some nb)
           /\ exists nl, h' !! nb = Some (HeapBlock, nl) /\ length nl = Z.to_nat newcap /\ holds_flags nl es
       end
    /\ others_kept (fun c => na_nulls na = Some c) h h'.
Proof.
  intros Hlen Hcap Hnew Hn. unfold reserve_nulls, nulls_rep in *. destruct (na_nulls na) as [nb|].
  - destruct Hn as (_ & nl & Hnb & Hnl & Hf). unfold xbind at 1.
    assert (Hsize : 0 <= newcap <= MaxAllocSize).
    { change max_elements with 134217727 in Hnew. change MaxAllocSize with 1073741823. lia. }
    destruct (repalloc_ok nb nl newcap h Hnb Hsize) as (nb' & nl' & -> & Hfree & Hnl' & Ht).
    rewrite Nat.min_r in Ht by lia.
    destruct (write_defined (Z.to_nat (na_len na)) (replicate (Z.to_nat (newcap - na_len na)) (Some 0)) nl')
      as [nl2 Hw]; [rewrite length_replicate; lia|].
    unfold xbind, memset0. erewrite copy_to_ok; [|by rewrite lookup_insert_eq|exact Hw].
    pose proof (length_write _ _ _ _ Hw) as Hl2. rewrite insert_insert_eq.
    exists (Some nb'), (<[nb' := (HeapBlock, nl2)]> (delete nb h)). split; [done|].
    split; [split; [|exists nl2; rewrite lookup_insert_eq]|].
    + intros [v Hv]. apply lookup_delete_None in Hfree as [->|Hfree]; [done|]. congruence.
    + split; [done|]. split; [lia|].
      eapply (holds_flags_prefix nl nl2 es (length es)); [done| |lia|lia|lia].
      transitivity (take (length es) nl').
      * unfold write_bytes in Hw. case_match; [|done]. injection Hw as <-.
        rewrite take_app_le by (rewrite length_take; lia). rewrite take_take. f_equal. lia.
      * replace (length es) with (length es `min` length nl)%nat by lia.
        rewrite <- !take_take, Ht. done.
    + intros c Hc Hown. rewrite lookup_insert_ne, lookup_delete_ne; [done|congruence|].
      intros ->. apply lookup_delete_None in Hfree as [->|Hfree]; [done|].
      rewrite Hfree in Hc. by destruct Hc.
  - exists None, h. split; [done|]. split; [done|]. by intros c.
Qed.

(** A full array grows: the elements are kept. *)
Lemma reserve_ok na es h :
  native_rep sz h na es -> na_cap na <= na_len na < max_elements ->
  exists na' h', uplpgsql_rt_native_array_reserve na (na_len na) sz h = Ok na' h'
    /\ native_rep sz h' na' es /\ na_lb na' = na_lb na
    /\ na_cap na' = grown_capacity (na_cap na) (na_len na) /\ na_heap na' = true
    /\ is_Some (na_data na')
    /\ others_kept (fun c => na_data na = Some c \/ na_nulls na = Some c) h h'
    /\ forall c, na_data na' = Some c \/ na_nulls na' = Some c -> is_Some (h !! c) ->
         na_data na = Some c \/ na_nulls na = Some c.
Proof.
  intros Hrep Hfull. pose proof Hrep as (Hlen & Hcap & Hdata & Hnulls).
  destruct (grown_capacity_bounds (na_cap na) (na_len na)) as [Hg _]; [lia|lia|].
  unfold uplpgsql_rt_native_array_reserve.
  replace (_ <? _) with false by (symmetry; lia). replace (_ <=? _) with false by (symmetry; lia).
  set (nc := grown_capacity (na_cap na) (na_len na)) in *.
  destruct (reserve_data_ok na es nc h Hrep) as (b & l & h1 & Hrun1 & Hb & Hl & He & Hown & Hkept); [lia|].
  assert (Hn1 : nulls_rep h1 na es).
  { unfold nulls_rep in *. destruct (na_nulls na) as [nb|]; [|done].
    destruct Hnulls as (Hne & nl & Hnb & Hr). split; [done|]. exists nl. split; [|done].
    rewrite Hkept; [done| |congruence]. by rewrite Hnb. }
  destruct (reserve_nulls_ok na es nc h1) as (p & h2 & Hrun2 & Hp & Hkept2); [done|lia|lia|done|].
  unfold xbind at 1. rewrite Hrun1. unfold xbind. rewrite Hrun2. eexists _, _. split; [done|].
  assert (Hbn : na_nulls na <> Some b).
  { intros Hbn. unfold nulls_rep in Hnulls. rewrite Hbn in Hnulls.
    destruct Hnulls as (Hne & nl & Hnb & _). apply Hne. symmetry. apply Hown. by rewrite Hnb. }
  assert (Hb2 : h2 !! b = Some (HeapBlock, l)) by (rewrite Hkept2; [done|by rewrite Hb|done]).
  split; [|split; [done|split; [done|split; [done|split; [done|]]]]].
  - split; [done|]. split; [simpl; lia|]. split.
    + exists l. by rewrite Hb2.
    + unfold nulls_rep. simpl. destruct p as [nb|]; [|done]. destruct Hp as (Hown2 & nl & Hnb & Hr).
      split; [|by exists nl]. intros [= ->]. apply Hbn, Hown2. by rewrite Hb.
  - split; [by apply (others_kept_trans _ _ h h1 h2)|].
    intros c [[= <-]|Hc] Hs; [left; by apply Hown|]. simpl in Hc. subst p. destruct Hp as [Hown2 _].
    destruct (decide (na_data na = Some c)) as [|Hne]; [by left|right]. apply Hown2.
    by rewrite Hkept.
Qed.

Lemma release_ok na es h :
  native_rep sz h na es ->
  exists h', uplpgsql_rt_native_array_release (na_data na) (na_nulls na) (na_heap na) h = Ok tt h'
    /\ (forall b, h' !! b = if decide ((na_data na = Some b /\ na_heap na = true) \/ na_nulls na = Some b)
                           then None else h !! b).
Proof.
  intros (_ & _ & Hdata & Hnulls). unfold uplpgsql_rt_native_array_release.
  set (h1 := match na_data na with Some b => if na_heap na then delete b h else h | None => h end).
  assert (H1 : match na_data na with Some b => if na_heap na then pfree b else xret tt | None => xret tt end h
               = Ok tt h1).
  { subst h1. unfold data_rep in Hdata. destruct (na_data na) as [b|]; [|done].
    destruct Hdata as (l & Hb & _). destruct (na_heap na); [|done]. by eapply pfree_ok. }
  unfold xbind. rewrite H1.
  assert (Hh1 : forall b, h1 !! b = if decide (na_data na = Some b /\ na_heap na = true) then None else h !! b).
  { intros b. subst h1. destruct (na_data na) as [c|]; [|by rewrite decide_False by naive_solver].
    destruct (na_heap na); [|by rewrite decide_False by naive_solver].
    destruct (decide (c = b)) as [->|Hne]; [by rewrite lookup_delete_eq, decide_True|].
    rewrite lookup_delete_ne by done. by rewrite decide_False by naive_solver. }
  unfold nulls_rep in Hnulls. destruct (na_nulls na) as [nb|].
  - destruct Hnulls as (Hne & nl & Hnb & _). exists (delete nb h1). split.
    + eapply pfree_ok. rewrite Hh1, decide_False by naive_solver. done.
    + intros b. destruct (decide (nb = b)) as [->|Hnbb].
      * rewrite lookup_delete_eq. by rewrite decide_True by naive_solver.
      * rewrite lookup_delete_ne, Hh1 by done. repeat case_decide; naive_solver.
  - exists h1. split; [done|]. intros b. rewrite Hh1. repeat case_decide; naive_solver.
Qed.
End growth.
