(* ===== verification/NativeStore.v ===== *)
(** * Assignments to elements of native arrays

    The steps the generated code takes for a[i] := v, on the memory and the state of the
    function: the store in place, the store after the last element, and the way round
    through PostgreSQL's array ([uplpgsql_rt_native_array_to_datum],
    [uplpgsql_rt_array_set_element], release and [uplpgsql_rt_native_array_from_datum]).
    Each leaves the slots standing for the array [assign_elem] specifies. *)

From Stdlib Require Import ZArith Lia.
From S2P Require Import Prelude Ast Datums Exec Assign Memory NativeArray.
#[local] Open Scope Z_scope.

(** ** Stores into the flat memory *)
Section store.
Context (sz : nat) (Hsz : elem_width sz).

Definition with_len (na : native_array) (n : Z) : native_array :=
  mk_native (na_data na) n (na_lb na) (na_nulls na) (na_cap na) (na_heap na).

(** [es'] is [es] with [w] at [j], which may be the first free position. *)
Definition updated (es es' : list (option Z)) (j : nat) (w : Z) : Prop :=
  es' !! j = Some (Some w) /\ forall k, k <> j -> es' !! k = es !! k.

Lemma updated_insert es j w : (j < length es)%nat -> updated es (<[j := Some w]> es) j w.
Proof.
  intros Hj. split; [by apply list_lookup_insert_eq|]. intros k Hk. by rewrite list_lookup_insert_ne.
Qed.

Lemma updated_snoc es w : updated es (es ++ [Some w]) (length es) w.
Proof.
  split; [by apply list_lookup_middle|]. intros k Hk. destruct (decide (k < length es)%nat).
  - by apply lookup_app_l.
  - rewrite lookup_ge_None_2 by (rewrite length_app; simpl; lia). by rewrite lookup_ge_None_2 by lia.
Qed.

(** The length of [es'] is that of [es], or one more. *)
Lemma updated_length es es' j w :
  updated es es' j w -> length es' = Nat.max (length es) (S j) /\ (j <= length es)%nat.
Proof.
  intros [Hj Ho].
  assert (Hle : (j <= length es)%nat).
  { destruct (decide (j <= length es)%nat) as [|Hn]; [done|]. exfalso.
    assert (Hs : is_Some (es' !! length es)) by (apply lookup_lt_is_Some; apply lookup_lt_Some in Hj; lia).
    rewrite Ho in Hs by lia. rewrite lookup_ge_None_2 in Hs by lia. by destruct Hs. }
  split; [|done]. apply lookup_lt_Some in Hj as Hlt.
  assert (Hge : (length es <= length es')%nat).
  { destruct (decide (length es <= length es')%nat) as [|Hn]; [done|]. exfalso.
    assert (Hs : is_Some (es !! (length es - 1)%nat)) by (apply lookup_lt_is_Some; lia).
    rewrite <- Ho in Hs by lia. apply lookup_lt_is_Some in Hs. lia. }
  assert (Hup : (length es' <= Nat.max (length es) (S j))%nat).
  { destruct (decide (length es' <= Nat.max (length es) (S j))%nat) as [|Hn]; [done|]. exfalso.
    assert (Hs : is_Some (es' !! (length es' - 1)%nat)) by (apply lookup_lt_is_Some; lia).
    rewrite Ho in Hs by lia. apply lookup_lt_is_Some in Hs. lia. }
  lia.
Qed.

Lemma holds_elems_store (l l' : bytes) es es' j w :
  holds_elems sz l es -> updated es es' j w -> in_word sz w -> store_elem sz j w l = Some l' ->
  holds_elems sz l' es'.
Proof.
  intros He [Hj Ho] Hw Hs k x Hk. destruct (decide (k = j)) as [->|Hne].
  - rewrite Hj in Hk. injection Hk as <-. exists w. split; [by eapply load_store_same|auto].
  - rewrite Ho in Hk by done. destruct (He k x Hk) as (v & Hv & Hr). exists v. split; [|done].
    rewrite <- Hv. eapply load_store_other; [done| |done]. done.
Qed.

Lemma holds_flags_store (l l' : bytes) es es' j w :
  holds_flags l es -> updated es es' j w -> store_flag j false l = Some l' -> holds_flags l' es'.
Proof.
  intros He [Hj Ho] Hs k x Hk. destruct (decide (k = j)) as [->|Hne].
  - rewrite Hj in Hk. injection Hk as <-. by eapply load_store_flag_same.
  - rewrite Ho in Hk by done. rewrite <- (He k x Hk).
    eapply load_store_flag_other; [|done]. done.
Qed.

Lemma no_nulls_updated es es' j w :
  Forall (fun x => is_null x = false) es -> updated es es' j w -> Forall (fun x => is_null x = false) es'.
Proof.
  intros Hes [Hj Ho]. rewrite list.Forall_lookup in *. intros k x Hk.
  destruct (decide (k = j)) as [->|Hne]; [|rewrite Ho in Hk by done; by eapply Hes].
  rewrite Hj in Hk. by injection Hk as <-.
Qed.

(** The heap after the element and, if there are flags, its flag are written. *)
Definition elem_stored (na : native_array) (j : nat) (w : Z) (h h' : heap) : Prop :=
  exists b k l l', na_data na = Some b /\ h !! b = Some (k, l) /\ store_elem sz j w l = Some l'
    /\ match na_nulls na with
       | None => h' = <[b := (k, l')]> h
       | Some nb => exists nl nl', h !! nb = Some (HeapBlock, nl) /\ store_flag j false nl = Some nl'
                    /\ h' = <[nb := (HeapBlock, nl')]> (<[b := (k, l')]> h)
       end.

(** The stores succeed while there is room. *)
Lemma elem_stored_defined na es h j w :
  native_rep sz h na es -> is_Some (na_data na) -> Z.of_nat j < na_cap na -> exists h', elem_stored na j w h h'.
Proof.
  intros (Hlen & Hcap & Hdata & Hnulls) [b Hb] Hj. unfold data_rep in Hdata. rewrite Hb in Hdata.
  destruct Hdata as (l & Hl & Hll & He).
  destruct (store_elem_defined sz j w l) as [l' Hs]; [nia|].
  destruct (na_nulls na) as [nb|] eqn:En.
  - unfold nulls_rep in Hnulls. rewrite En in Hnulls. destruct Hnulls as (Hne & nl & Hnl & Hlnl & Hf).
    destruct (store_flag_defined j false nl) as [nl' Hs']; [lia|].
    eexists. eexists b, _, l, l'. rewrite En. split_and!; [done..|]. by exists nl, nl'.
  - eexists. eexists b, _, l, l'. rewrite En. by split_and!.
Qed.

Lemma elem_stored_ok na es es' h h' j w :
  native_rep sz h na es -> updated es es' j w -> Z.of_nat j < na_cap na -> in_word sz w ->
  elem_stored na j w h h' -> native_rep sz h' (with_len na (Z.of_nat (length es'))) es'.
Proof.
  intros (Hlen & Hcap & Hdata & Hnulls) Hu Hj Hw (b & k & l & l' & Hb & Hl & Hs & Hh).
  destruct (updated_length _ _ _ _ Hu) as [Hlen' _].
  unfold data_rep in Hdata. rewrite Hb in Hdata. destruct Hdata as (l0 & Hl0 & Hll & He).
  rewrite Hl in Hl0. injection Hl0 as -> ->. pose proof (length_write _ _ _ _ Hs) as Hlw.
  split; [done|]. split; [simpl; lia|]. unfold nulls_rep, data_rep in *. simpl. rewrite Hb in *.
  destruct (na_nulls na) as [nb|].
  - destruct Hnulls as (Hne & nl & Hnl & Hlnl & Hf).
    destruct Hh as (nl0 & nl' & Hnl0 & Hs' & ->). rewrite Hnl in Hnl0. injection Hnl0 as <-.
    pose proof (length_write _ _ _ _ Hs') as Hlw'. split.
    + exists l'. rewrite lookup_insert_ne by congruence. rewrite lookup_insert_eq.
      split; [done|]. split; [by rewrite Hlw|]. by eapply holds_elems_store.
    + split; [done|]. exists nl'. rewrite lookup_insert_eq. split; [done|]. split; [by rewrite Hlw'|].
      by eapply holds_flags_store.
  - subst h'. split.
    + exists l'. rewrite lookup_insert_eq. split; [done|]. split; [by rewrite Hlw|]. by eapply holds_elems_store.
    + by eapply no_nulls_updated.
Qed.
End store.

(** ** The assignment, by the place of the subscript *)
Section assign_elem.
Context (es : list (option Z)) (lb i w : Z).

Lemma assign_in_range :
  lb <= i < lb + Z.of_nat (length es) ->
  assign_elem es lb i (Some w) = (<[Z.to_nat (i - lb) := Some w]> es, lb)
  /\ updated es (assign_elem es lb i (Some w)).1 (Z.to_nat (i - lb)) w
  /\ (assign_elem es lb i (Some w)).2 = lb.
Proof.
  intros Hi. unfold assign_elem. destruct es as [|x l]; [simpl in *; lia|].
  replace (i <? lb) with false by (symmetry; lia). replace (i <? _) with true by (symmetry; lia).
  split; [done|]. split; [|done]. apply updated_insert. lia.
Qed.

Lemma assign_append :
  i = lb + Z.of_nat (length es) ->
  updated es (assign_elem es lb i (Some w)).1 (length es) w /\ (assign_elem es lb i (Some w)).2 = lb.
Proof.
  intros ->. unfold assign_elem. destruct es as [|x l].
  - simpl. split; [|lia]. apply (updated_snoc []).
  - rewrite (proj2 (Z.ltb_ge _ _)) by lia. rewrite Z.ltb_irrefl.
    assert (Hz : (Z.to_nat (lb + Z.of_nat (length (x :: l)) - lb) - length (x :: l) = 0)%nat) by lia.
    rewrite Hz. split; [|done]. apply (updated_snoc (x :: l)).
Qed.
End assign_elem.

Lemma assign_elem_cons es lb i x : (assign_elem es lb i x).1 <> [].
Proof.
  unfold assign_elem. destruct es as [|y l]; [done|]. repeat case_match; simpl; try done.
  destruct (Z.to_nat (i - lb)); done.
Qed.

Lemma words_assign sz es lb i x :
  words_ok sz es -> (forall w, x = Some w -> in_word sz w) -> words_ok sz (assign_elem es lb i x).1.
Proof.
  intros Hes Hx. unfold words_ok in *. assert (H1 : if x is Some w then in_word sz w else True)
    by (destruct x; auto).
  assert (Hn : forall n, Forall (fun x : option Z => if x is Some w then in_word sz w else True) (replicate n None))
    by (intros n; by apply Forall_replicate).
  unfold assign_elem. destruct es as [|y l]; [by constructor|].
  destruct (i <? lb); [|destruct (i <? lb + _)]; simpl.
  - constructor; [done|]. apply Forall_app. by split.
  - by apply Forall_insert.
  - inversion Hes; subst. constructor; [done|]. apply Forall_app. split; [done|].
    apply Forall_app. split; [apply Hn|]. by constructor.
Qed.

(** ** The way round *)
Section slow.
Context (sz : nat) (Hsz : elem_width sz).
Context {world : Type} `{PgMemoryLaws} `{PgArraysLaws world}.
Context (dno : nat) (ty : Oid) (Hty : elem_type ty sz).

(** The variable of the array: its value matters when the flat array is empty, because
    an empty array is not written back. *)
Definition var_of (s : execstate world) (v : UPLpgSQL_var) : Prop := es_datums s !! dno = Some (DTYPE_VAR v).
Definition backed (s : execstate world) (es : list (option Z)) : Prop :=
  exists v, var_of s v /\ in_int64 (value v)
    /\ (es = [] -> isnull v = true \/ arr_ndim (DatumGetArrayTypeP (es_world s) (value v)) = 0).
Definition holds_array (s : execstate world) (es : list (option Z)) (lb : Z) : Prop :=
  exists v, var_of s v /\ in_int64 (value v) /\ isnull v = false
    /\ datum_array sz (es_world s) (value v) es lb.

Lemma get_var_ok s v : var_of s v -> get_var dno s = Ok v s.
Proof. intros Hv. unfold get_var, xbind, get_datum, xget. unfold var_of in Hv. cbv [xbind]. by rewrite Hv. Qed.

Lemma assign_simple_var_ok s v d :
  var_of s v -> is_external_non_expanded (es_world s) d = false ->
  exists s', assign_simple_var dno d false true s = Ok tt s'
    /\ var_of s' (store_value d false true v) /\ es_world s' = es_world s.
Proof.
  intros Hv He. unfold assign_simple_var. unfold xbind at 1. rewrite (get_var_ok s v Hv).
  unfold xbind, xget. rewrite He, andb_false_r. unfold put_var, xmodify. eexists. split; [done|].
  split; [|done]. unfold var_of in *. simpl. by rewrite list_lookup_alter_eq, Hv.
Qed.

(** An empty array is not written back. *)
Lemma to_datum_empty na s h :
  native_rep sz h na [] ->
  uplpgsql_rt_native_array_to_datum dno (na_data na) (na_len na) (na_lb na) (na_nulls na) ty sz (s, h) = Ok tt (s, h).
Proof.
  intros (Hlen & _). unfold uplpgsql_rt_native_array_to_datum, xbind, on_memory. simpl.
  assert (Hn : native_array_value (na_data na) (na_len na) (na_lb na) (na_nulls na) ty sz h = Ok None h).
  { unfold native_array_value. rewrite Hlen. by destruct (na_data na). }
  by rewrite Hn.
Qed.

Lemma to_datum_ok na es s h :
  native_rep sz h na es -> backed s es -> in_limits es (na_lb na) ->
  exists s', uplpgsql_rt_native_array_to_datum dno (na_data na) (na_len na) (na_lb na) (na_nulls na) ty sz (s, h)
             = Ok tt (s', h)
    /\ if decide (es = []) then s' = s else holds_array s' es (na_lb na).
Proof.
  intros Hrep (v & Hv & Hword & Hempty) Hlim. unfold uplpgsql_rt_native_array_to_datum.
  destruct (decide (es = [])) as [->|Hne].
  - exists s. split; [by apply to_datum_empty|done].
  - unfold xbind at 1, on_memory at 1. simpl. destruct (native_array_value_ok sz Hsz ty na es h Hrep Hne Hty Hlim) as (arr & -> & Harr).
    destruct (PointerGetDatum_ok arr (es_world s)) as (d & w' & Hd & Hback & Hext & _ & Hd64).
    unfold on_state, xbind at 1, pg_call. simpl. rewrite Hd.
    destruct (assign_simple_var_ok (with_world w' s) v d) as (s' & -> & Hv' & Hw); [done|done|].
    exists s'. split; [done|]. eexists. split; [done|]. split; [done|]. split; [done|]. rewrite Hw. simpl.
    unfold datum_array. destruct es; [done|]. by rewrite Hback.
Qed.

Lemma set_element_ok s es lb i x w typlen elm :
  (if decide (es = []) then backed s es else holds_array s es lb) ->
  elm.1 = (Z.of_nat sz, true) -> x = Some w \/ x = None ->
  in_limits (assign_elem es lb i x).1 (assign_elem es lb i x).2 ->
  exists s', uplpgsql_rt_array_set_element dno i w (is_null x) typlen ty elm s = Ok tt s'
    /\ holds_array s' (assign_elem es lb i x).1 (assign_elem es lb i x).2.
Proof.
  intros Hs Helm Hx Hlim. set (es' := (assign_elem es lb i x).1) in *. set (lb' := (assign_elem es lb i x).2) in *.
  assert (Hold : exists v s1 d, var_of s v /\ var_of s1 v
    /\ (if isnull v then pg_call (PointerGetDatum (construct_empty_array ty)) else xret (value v)) s = Ok d s1
    /\ in_int64 (value v)
    /\ datum_array sz (es_world s1) d es lb
    /\ (isnull v = true -> is_expanded (es_world s1) d = false) /\ (isnull v = false -> d = value v)).
  { assert (Hcase : exists v, var_of s v /\ in_int64 (value v) /\ (isnull v = true /\ es = [] \/ isnull v = false /\ datum_array sz (es_world s) (value v) es lb)).
    { destruct (decide (es = [])) as [->|Hne].
      - destruct Hs as (v & Hv & Hword & Hn). exists v. split; [done|]. split; [done|].
        destruct (isnull v) eqn:En; [by left|right]. split; [done|]. by destruct (Hn eq_refl).
      - destruct Hs as (v & Hv & Hword & Hn & Ha). exists v. auto. }
    destruct Hcase as (v & Hv & Hword & [[Hn ->]|[Hn Ha]]).
    - destruct (PointerGetDatum_ok (construct_empty_array ty) (es_world s)) as (d & w' & Hd & Hback & _ & Hexp & _).
      exists v, (with_world w' s), d. rewrite Hn. unfold pg_call. rewrite Hd. split_and!; try done.
      simpl. by rewrite Hback, construct_empty_array_ok.
    - exists v, s, (value v). rewrite Hn. by split_and!. }
  destruct Hold as (v & s1 & d & Hv & Hv1 & Hold & Hword & Hda & Hnexp & Hsame).
  unfold uplpgsql_rt_array_set_element. unfold xbind at 1. rewrite (get_var_ok s v Hv).
  unfold xbind at 1. rewrite Hold. unfold xbind at 1, pg_call at 1.
  destruct (array_set_element_ok sz (es_world s1) d es lb i x w typlen elm Hsz Hda Helm Hx Hlim)
    as (d' & w' & -> & Hda' & Hneq & Hd').
  destruct (d' =? d) eqn:Ed.
  - apply Z.eqb_eq in Ed. subst d'. exists (with_world w' s1). split; [done|]. exists v.
    split; [done|]. split; [done|]. destruct (isnull v) eqn:En; [by destruct Hneq; auto|]. split; [done|].
    by rewrite <- (Hsame eq_refl).
  - unfold xbind at 1, pg_call. simpl. destruct (expand_array_ok d' w' Hd') as (d2 & w2 & -> & Hback & Hext & Hd64).
    destruct (assign_simple_var_ok (with_world w2 (with_world w' s1)) v d2) as (s' & -> & Hv' & Hw); [done|done|].
    exists s'. split; [done|]. eexists. split; [done|]. split; [done|]. split; [done|]. rewrite Hw. simpl.
    unfold datum_array in *. fold es' lb' in Hda'. rewrite Hback. exact Hda'.
Qed.

(** An array stays what it is as long as its blocks do. *)
Lemma native_rep_kept na es (h h' : heap) :
  (forall b, is_Some (h !! b) -> h' !! b = h !! b) -> native_rep sz h na es -> native_rep sz h' na es.
Proof.
  intros Hk (Hlen & Hcap & Hdata & Hnulls). split; [done|]. split; [done|]. unfold data_rep, nulls_rep in *. split.
  - destruct (na_data na) as [b|]; [|done]. destruct Hdata as (l & Hb & Hl). exists l. by rewrite Hk, Hb.
  - destruct (na_nulls na) as [b|]; [|done]. destruct Hnulls as (Hne & l & Hb & Hl). split; [done|].
    exists l. by rewrite Hk, Hb.
Qed.

(** The native array [uplpgsql_rt_native_array_from_datum] describes. *)
Definition native_of (o : from_datum_out) : native_array :=
  mk_native (fd_data o) (fd_nelems o) (fd_lb o) (fd_nulls o) (fd_nelems o) true.

(** C17: A native array with elements that is written back to its variable and read again
    is the same array: the same elements and NULLs with the same lower bound, in blocks of
    its own.  Writing it back touches no memory and reading it only adds the two new
    blocks; neither reads a byte that was not written.  An empty array is not written
    back: the variable, and the whole state, stay as they were, so that what is read
    again is whatever the variable held. *)
Theorem native_array_roundtrip na es s h v :
  native_rep sz h na es -> words_ok sz es -> in_limits es (na_lb na) ->
  var_of s v -> in_int64 (value v) ->
  exists s',
  uplpgsql_rt_native_array_to_datum dno (na_data na) (na_len na) (na_lb na) (na_nulls na) ty sz (s, h)
    = Ok tt (s', h)
  /\ if decide (es = []) then s' = s else
  exists v' o h',
    var_of s' v' /\ isnull v' = false
    /\ uplpgsql_rt_native_array_from_datum (es_world s') (value v') (isnull v') sz h = Ok o h'
    /\ native_rep sz h' (native_of o) es /\ fd_lb o = na_lb na
    /\ native_rep sz h' na es /\ grows_by h h' (fd_data o) (fd_nulls o).
Proof.
  intros Hrep Hw Hlim Hv Hv64.
  destruct (decide (es = [])) as [->|Hne]; [exists s; split; [by apply to_datum_empty|done]|].
  destruct (to_datum_ok na es s h Hrep) as (s' & Hto & Hs'); [by exists v|done|].
  exists s'. split; [exact Hto|]. rewrite decide_False in Hs' by done. destruct Hs' as (v' & Hv' & _ & Hn & Ha).
  unfold datum_array in Ha. destruct es as [|x es]; [done|].
  destruct (from_datum_ok sz Hsz _ _ _ _ _ h eq_refl Ha Hw) as (data & nulls & h' & Hfrom & Hrep' & Hg).
  { apply Hlim. }
  exists v', (mk_fd data (Z.of_nat (length (x :: es))) (na_lb na) nulls), h'. split; [done|]. split; [done|]. rewrite Hn. split; [exact Hfrom|].
  split; [exact Hrep'|]. split; [done|]. split; [|exact Hg].
  eapply native_rep_kept; [apply Hg|done].
Qed.
End slow.
