(* ===== verification/Call.v ===== *)
(** * Entering and leaving a function

    What [uplpgsql_exec_function], [uplpgsql_exec_trigger] and their [_jit] variants of
    [common/upl_exec.c] do before and after the body runs: the execution state of a
    call, its arguments or the OLD and NEW rows, and the result that goes back to the
    caller.  The variants share this code word for word; file CallPaths adds the body.

    Not part of the state: memory contexts and resource owners, the error context, the
    instrumentation plugin. *)

From Stdlib Require Import ZArith Ascii.
From stdpp Require Import pretty.
From S2P Require Import Prelude Ast Exec Assign.
#[local] Open Scope Z_scope.

(** [FunctionCallInfo]: the arguments with their null flags, and [resultinfo]. *)
Record FunctionCallInfo := mk_fcinfo {
  fc_args : list (Datum * bool);
  fc_resultinfo : option ReturnSetInfo
}.

(** What [get_call_result_type] says of the result. *)
Inductive call_result_type :=
  | TYPEFUNC_COMPOSITE (d : TupleDesc)
  | TYPEFUNC_COMPOSITE_DOMAIN (t : Oid) (d : TupleDesc)
  | TYPEFUNC_RECORD
  | TYPEFUNC_OTHER.

(** What calls need of PostgreSQL beyond class [PgEnv].  [convert_tuples_by_position]
    raises an error if the row types do not fit, and yields no map if rows need no
    conversion; [EOH_flatten_as] flattens an expanded record under another row type;
    [returns_relation_desc] compares the pointers to two row types. *)
Class CallEnv (world : Type) `{PgEnv world} := {
  TransferExpandedObject : Datum -> pg world Datum;
  get_call_result_type : UPLpgSQL_function -> FunctionCallInfo -> pg world call_result_type;
  domain_check : Datum -> Oid -> pg world unit;
  convert_tuples_by_position : TupleDesc -> TupleDesc -> string -> pg world (option (tuple -> tuple));
  SPI_returntuple : tuple -> TupleDesc -> pg world Datum;
  EOH_flatten_as : Datum -> Oid -> Z -> pg world Datum;
  expanded_record_set_field_internal : Datum -> Z -> Datum -> bool -> pg world unit;
  SPI_register_trigger_data : TriggerData -> pg world unit;
  returns_relation_desc : world -> Datum -> TriggerData -> bool
}.

Definition ERRCODE_S_R_E_FUNCTION_EXECUTED_NO_RETURN_STATEMENT : Z := MAKE_SQLSTATE "2" "F" "0" "0" "5".

Section calls.
Context {world : Type} `{CallEnv world}.
Abbreviation M := (exec (execstate world)).
Open Scope exec_scope.

(** ** The state of a call *)
Definition uplpgsql_estate_setup (func : UPLpgSQL_function) (rsi : option ReturnSetInfo) (w : world)
    : execstate world :=
  mk_execstate [] (fn_found_varno func) 0 true InvalidOid (fn_retset func) (fn_retistuple func)
    (fn_rettype func) (fn_is_procedure func) true None None ERRCODE_SUCCESSFUL_COMPLETION 0 None rsi
    (fn_oid func) (fn_print_strict_params func) None None (fn_readonly func) None w.

Definition with_atomic (b : bool) (s : execstate world) : execstate world :=
  mk_execstate (es_datums s) (found_varno s) (retval s) (retisnull s) (rettype s) (retisset s)
    (retistuple s) (es_fn_rettype s) (es_is_procedure s) b (cur_error s) (sqlstate_varno s)
    (sqlerrcode s) (eval_processed s) (tuple_store s) (es_rsi s) (es_fn_oid s)
    (print_strict_params s) (trigdata s) (evtrigdata s) (readonly_func s) (parserSetupArg s)
    (es_world s).
Definition with_trigger (t : option TriggerData) (e : option EventTriggerData) (s : execstate world)
    : execstate world :=
  mk_execstate (es_datums s) (found_varno s) (retval s) (retisnull s) (rettype s) (retisset s)
    (retistuple s) (es_fn_rettype s) (es_is_procedure s) (atomic s) (cur_error s) (sqlstate_varno s)
    (sqlerrcode s) (eval_processed s) (tuple_store s) (es_rsi s) (es_fn_oid s)
    (print_strict_params s) t e (readonly_func s) (parserSetupArg s) (es_world s).

(** [copy_uplpgsql_datums]: every call starts from the datums as they were parsed.
    (File Datums models where the copies lie.) *)
Definition copy_uplpgsql_datums (func : UPLpgSQL_function) : M unit :=
  xmodify (with_datums (fun _ => datums func)).

(** ** Arguments *)

(** An array or other varlena value is taken over, kept or expanded. *)
Definition own_argument (n : nat) : M unit :=
  var <~ get_var n;
  s <~ xget;
  let v := value var in
  if negb (isnull var) && (typlen (var_datatype var) =? -1) then
    if is_expanded_rw (es_world s) v
    then t <~ pg_call (TransferExpandedObject v); assign_simple_var n t false true
    else if is_expanded (es_world s) v then xret tt
    else if typisarray (var_datatype var)
    then e <~ pg_call (expand_array v); assign_simple_var n e false true
    else xret tt
  else xret tt.

Definition store_argument (n : nat) (arg : Datum * bool) : M unit :=
  d <~ get_datum n;
  match d with
  | DTYPE_VAR _ => assign_simple_var n arg.1 arg.2 false ;~ own_argument n
  | DTYPE_REC _ => if arg.2 then exec_move_row n None None else move_datum_rec n arg.1
  | _ => elog ("unrecognized dtype: " +:+ pretty (dtype d))
  end.

(** [fcinfo->args] has [fn_nargs] elements. *)
Fixpoint store_arguments (varnos : list nat) (args : list (Datum * bool)) : M unit :=
  match varnos, args with
  | [], _ => xret tt
  | n :: varnos', arg :: args' => store_argument n arg ;~ store_arguments varnos' args'
  | _ :: _, [] => undefined
  end.

Definition enter_function (func : UPLpgSQL_function) (fcinfo : FunctionCallInfo) : M unit :=
  copy_uplpgsql_datums func ;~
  store_arguments (fn_argvarnos func) (fc_args fcinfo) ;~
  exec_set_found false.

(** ** The result of a function *)

(** What goes back to the caller: the value, [fcinfo->isnull] and, for a set, the rows
    with their type ([rsi->setResult] and [setDesc], NULL if there were none). *)
Record call_result := mk_call_result {
  cr_value : Datum;
  cr_isnull : bool;
  cr_set : option (option (TupleDesc * list tuple))
}.

Definition check_returned (what : string) (returned : bool) : M unit :=
  if returned then xret tt
  else ereport ERRCODE_S_R_E_FUNCTION_EXECUTED_NO_RETURN_STATEMENT
         ("control reached end of " +:+ what +:+ " without RETURN").

Definition mismatch : string := "returned record type does not match expected record type".

Definition coerce_function_result_tuple (v : Datum) (tupdesc : TupleDesc) : M Datum :=
  s <~ xget;
  let w := es_world s in
  if is_expanded w v then
    let erh := DatumGetEOHP w v in
    tupmap <~ pg_call (convert_tuples_by_position (expanded_record_get_tupdesc w erh) tupdesc mismatch);
    match tupmap with
    | Some map =>
        rettup <~ pg_call (expanded_record_get_tuple erh);
        pg_call (SPI_returntuple (map rettup) tupdesc)
    | None =>
        if negb ((tdtypeid tupdesc =? er_decltypeid w erh)
                 || ((tdtypeid tupdesc =? RECORDOID) && negb (ExpandedRecordIsDomain w erh)))
        then pg_call (EOH_flatten_as erh (tdtypeid tupdesc) (tdtypmod tupdesc))
        else pg_call (datumTransfer v false (-1))
    end
  else
    rettup <~ pg_call (composite_datum_tuple v);
    let t := composite_datum_type w v in
    retdesc <~ pg_call (lookup_rowtype_tupdesc t.1 t.2);
    tupmap <~ pg_call (convert_tuples_by_position retdesc tupdesc mismatch);
    pg_call (SPI_returntuple (match tupmap with Some map => map rettup | None => rettup end) tupdesc).

(** A composite result of another type than declared. *)
Definition coerce_result (func : UPLpgSQL_function) (fcinfo : FunctionCallInfo) (v : Datum) : M Datum :=
  t <~ pg_call (get_call_result_type func fcinfo);
  match t with
  | TYPEFUNC_COMPOSITE tupdesc => coerce_function_result_tuple v tupdesc
  | TYPEFUNC_COMPOSITE_DOMAIN type tupdesc =>
      r <~ coerce_function_result_tuple v tupdesc; pg_call (domain_check r type) ;~ xret r
  | TYPEFUNC_RECORD => pg_call (datumTransfer v false (-1))
  | TYPEFUNC_OTHER => elog "return type must be a row type"
  end.

Definition set_result : M call_result :=
  s <~ xget;
  match es_rsi s with
  | None => ereport ERRCODE_FEATURE_NOT_SUPPORTED
              "set-valued function called in context that cannot accept a set"
  | Some rsi =>
      if negb (allow_materialize rsi)
      then ereport ERRCODE_FEATURE_NOT_SUPPORTED
             "materialize mode required, but it is not allowed in this context"
      else xret (mk_call_result 0 true (Some (tuple_store s)))
  end.

Definition process_result (func : UPLpgSQL_function) (fcinfo : FunctionCallInfo) : M call_result :=
  s <~ xget;
  if retisset s then set_result
  else if negb (retisnull s) then
    if retistuple s then
      v <~ (if (fn_rettype func =? rettype s) && negb (fn_rettype func =? RECORDOID)
            then pg_call (datumTransfer (retval s) false (-1))
            else coerce_result func fcinfo (retval s));
      xret (mk_call_result v false None)
    else
      r <~ exec_cast_value (retval s) false (rettype s) (-1) (fn_rettype func) (-1);
      if negb r.2 && negb (fn_retbyval func)
      then v <~ pg_call (datumTransfer r.1 false (fn_rettyplen func)); xret (mk_call_result v false None)
      else xret (mk_call_result r.1 r.2 None)
  else if fn_retisdomain func then
    r <~ exec_cast_value (retval s) true (rettype s) (-1) (fn_rettype func) (-1);
    xret (mk_call_result r.1 r.2 None)
  else xret (mk_call_result (retval s) true None).

(** ** Triggers *)

(** NULL for the stored generated columns, which are not computed yet. *)
Fixpoint clear_generated (erh : Datum) (i : Z) (generated : list bool) : M unit :=
  match generated with
  | [] => xret tt
  | g :: generated' =>
      (if g : bool then pg_call (expanded_record_set_field_internal erh (i + 1) 0 true) else xret tt) ;~
      clear_generated erh (i + 1) generated'
  end.

Definition fill_rows (t : TriggerData) (rec_new rec_old : Datum) : M unit :=
  let ev := tg_event t in
  if negb (TRIGGER_FIRED_FOR_ROW ev) then xret tt
  else if TRIGGER_FIRED_BY_INSERT ev
  then pg_call (expanded_record_set_tuple rec_new (Some (tg_trigtuple t)) false false)
  else if TRIGGER_FIRED_BY_UPDATE ev
  then pg_call (expanded_record_set_tuple rec_new (Some (tg_newtuple t)) false false) ;~
       pg_call (expanded_record_set_tuple rec_old (Some (tg_trigtuple t)) false false) ;~
       if has_generated_stored t && TRIGGER_FIRED_BEFORE ev
       then clear_generated rec_new 0 (generated_stored t)
       else xret tt
  else if TRIGGER_FIRED_BY_DELETE ev
  then pg_call (expanded_record_set_tuple rec_old (Some (tg_trigtuple t)) false false)
  else elog "unrecognized trigger action: not INSERT, DELETE, or UPDATE".

(** The OLD and NEW variables. *)
Definition set_rows (func : UPLpgSQL_function) (t : TriggerData) : M unit :=
  _ <~ get_rec (new_varno func);
  _ <~ get_rec (old_varno func);
  rec_new <~ pg_call (make_expanded_record_from_tupdesc (rd_att t));
  put_rec (new_varno func) (store_erh (Some rec_new)) ;~
  rec_old <~ pg_call (make_expanded_record_from_exprecord rec_new);
  put_rec (old_varno func) (store_erh (Some rec_old)) ;~
  fill_rows t rec_new rec_old.

Definition enter_trigger (func : UPLpgSQL_function) (t : TriggerData) : M unit :=
  copy_uplpgsql_datums func ;~
  set_rows func t ;~
  pg_call (SPI_register_trigger_data t) ;~
  exec_set_found false.

Definition wrong_structure : string :=
  "returned row structure does not match the structure of the triggering table".

Definition fit_relation (t : TriggerData) (retdesc : TupleDesc) (rettup : tuple) : M tuple :=
  tupmap <~ pg_call (convert_tuples_by_position retdesc (rd_att t) wrong_structure);
  xret (match tupmap with Some map => map rettup | None => rettup end).

(** The row a trigger returns, [None] for NULL.  Copying it out of the function's
    memory, which is left out if it is one of the rows that came in, does not change it. *)
Definition trigger_result (t : TriggerData) : M (option tuple) :=
  s <~ xget;
  let w := es_world s in
  if retisset s then ereport ERRCODE_DATATYPE_MISMATCH "trigger procedure cannot return a set"
  else if retisnull s || negb (TRIGGER_FIRED_FOR_ROW (tg_event t)) then xret None
  else if is_expanded w (retval s) then
    let erh := DatumGetEOHP w (retval s) in
    rettup <~ pg_call (expanded_record_get_tuple erh);
    rettup <~ (if returns_relation_desc w erh t then xret rettup
               else fit_relation t (expanded_record_get_tupdesc w erh) rettup);
    xret (Some rettup)
  else
    rettup <~ pg_call (composite_datum_tuple (retval s));
    let ty := composite_datum_type w (retval s) in
    retdesc <~ pg_call (lookup_rowtype_tupdesc ty.1 ty.2);
    rettup <~ fit_relation t retdesc rettup;
    xret (Some rettup).
End calls.
