(* ===== verification/Params.v ===== *)
(** * Parameters of expressions

    How the executor reads the variables of a function while it evaluates an
    expression of [common/upl_exec.c]: [setup_param_list], the hooks
    [uplpgsql_param_fetch] and [uplpgsql_param_compile], the evaluation functions
    [uplpgsql_param_eval_*] that [uplpgsql_param_compile] chooses from, and
    [exec_check_rw_parameter], which decides whether an assignment like
    [x := array_append(x, 1)] may work on [x]'s expanded array itself.

    What the program keeps per expression ([expr_simple_*], [expr_rwopt],
    [expr_rw_param] of [UPLpgSQL_expr]) is a record of type [simple_cell]; the cells
    and the step lists of the executor's expression trees are the [session], a part of
    the world.  Pointers to expressions, trees and plans are numbers. *)

From Stdlib Require Import ZArith Ascii.
From stdpp Require Import gmap pretty.
From S2P Require Import Prelude Ast Expr Exec Assign Call.
#[local] Open Scope Z_scope.

(** ** What is kept per expression *)
Inductive rwopt :=
  | UPLPGSQL_RWOPT_UNKNOWN | UPLPGSQL_RWOPT_NOPE | UPLPGSQL_RWOPT_TRANSFER | UPLPGSQL_RWOPT_INPLACE.
#[export] Instance rwopt_eq_dec : EqDecision rwopt.
Proof. solve_decision. Defined.

Record simple_cell := mk_cell {
  expr_simple_expr : option Expr;
  expr_rwopt : rwopt;
  expr_rw_param : option nat;
  expr_plan : option nat;
  expr_simple_plansource : option nat;
  expr_simple_plan : option nat;
  expr_simple_plan_lxid : Z;
  expr_simple_state : option nat;
  expr_simple_in_use : bool;
  expr_simple_lxid : Z;
  expr_simple_type : Oid;
  expr_simple_typmod : Z;
  expr_simple_mutable : bool
}.

(** A [Param] node of a tree: its address and its fields. *)
Record param_node := mk_pnode { node_addr : nat; pn_kind : param_kind; pn_id : Z; pn_type : Oid }.

(** A step [EEOP_PARAM_CALLBACK] of a tree ([d.cparam]). *)
Inductive param_func :=
  | param_eval_var_check | param_eval_var_transfer | param_eval_var | param_eval_var_ro
  | param_eval_recfield | param_eval_generic | param_eval_generic_ro.
Record cparam := mk_cparam {
  paramfunc : param_func;
  paramarg : UPLpgSQL_expr;
  paramarg2 : param_node;
  cp_paramid : Z;
  cp_paramtype : Oid
}.
Definition with_paramfunc (f : param_func) (op : cparam) : cparam :=
  mk_cparam f (paramarg op) (paramarg2 op) (cp_paramid op) (cp_paramtype op).

(** An entry of [simple_econtext_stack]. *)
Record econtext_entry := mk_entry { stack_econtext : nat; xact_subxid : Z }.

(** What the program keeps in the session: the cells, the trees, and the static
    variables of [upl_exec.c] about expression contexts. *)
Record session := mk_session {
  cells : gmap nat simple_cell;
  trees : gmap nat (list cparam);
  next_tree : nat;
  simple_econtext_stack : list econtext_entry;
  shared_simple_eval_estate : option nat;
  shared_simple_eval_resowner : option nat
}.
Definition with_cells (f : gmap nat simple_cell -> gmap nat simple_cell) (ss : session) : session :=
  mk_session (f (cells ss)) (trees ss) (next_tree ss) (simple_econtext_stack ss)
    (shared_simple_eval_estate ss) (shared_simple_eval_resowner ss).
Definition with_trees (f : gmap nat (list cparam) -> gmap nat (list cparam)) (ss : session) : session :=
  mk_session (cells ss) (f (trees ss)) (next_tree ss) (simple_econtext_stack ss)
    (shared_simple_eval_estate ss) (shared_simple_eval_resowner ss).

(** The request of [exec_check_rw_parameter] to a support function; a missing
    argument is a NULL of the list. *)
Record SupportRequestModifyInPlace := mk_modify_request {
  req_funcid : Oid;
  req_args : list (option Expr);
  req_paramid : Z
}.

(** PostgreSQL's part.  [expression_params] are the [Param] nodes of a tree in the
    order [expression_tree_walker] meets them; [refcontainertype] is that field of a
    [SubscriptingRef]; a support function answers with the address of a [Param]. *)
Class ParamEnv (world : Type) `{CallEnv world} := {
  session_of : world -> session;
  set_session : session -> world -> world;
  session_set ss w : session_of (set_session ss w) = ss;
  expr_addr : UPLpgSQL_expr -> nat;
  expression_params : Expr -> list param_node;
  oid_of : func_oid -> Oid;
  refcontainertype : Expr -> Oid;
  get_typsubscript : Oid -> Oid;
  get_func_support : Oid -> Oid;
  modify_in_place : Oid -> SupportRequestModifyInPlace -> pg world (option nat)
}.

Section params.
Context {world : Type} `{ParamEnv world}.
Abbreviation M := (exec (execstate world)).
Open Scope exec_scope.

(** ** Access to cells *)
Definition session_cell (ss : session) (e : UPLpgSQL_expr) : option simple_cell := cells ss !! expr_addr e.
Definition get_cell (e : UPLpgSQL_expr) : M simple_cell :=
  s <~ xget;
  match session_cell (session_of (es_world s)) e with Some c => xret c | None => undefined end.
Definition update_session (f : session -> session) : M unit :=
  xmodify (fun s => with_world (set_session (f (session_of (es_world s))) (es_world s)) s).
Definition put_cell (e : UPLpgSQL_expr) (f : simple_cell -> simple_cell) : M unit :=
  update_session (with_cells (alter f (expr_addr e))).

Definition with_rw (o : rwopt) (p : option nat) (c : simple_cell) : simple_cell :=
  mk_cell (expr_simple_expr c) o p (expr_plan c) (expr_simple_plansource c) (expr_simple_plan c)
    (expr_simple_plan_lxid c) (expr_simple_state c) (expr_simple_in_use c) (expr_simple_lxid c)
    (expr_simple_type c) (expr_simple_typmod c) (expr_simple_mutable c).

(** ** The read/write optimisation *)

Definition is_extern (k : param_kind) : bool := match k with PARAM_EXTERN => true | PARAM_EXEC => false end.

(** [count_param_references] with its context: the count and [last_param]; "abort the
    tree traversal as soon as we've found two". *)
Fixpoint count_param_references (paramid : Z) (nodes : list param_node) (count : nat) (last : option nat)
    : nat * option nat :=
  match nodes with
  | [] => (count, last)
  | n :: rest =>
      if is_extern (pn_kind n) && (pn_id n =? paramid)
      then if (1 <? S count)%nat then (S count, Some (node_addr n))
           else count_param_references paramid rest (S count) (Some (node_addr n))
      else count_param_references paramid rest count last
  end.

(** The function at the top of an expression, and its arguments. *)
Definition top_function (sexpr : Expr) : option (Oid * list (option Expr)) :=
  match (match sexpr with RelabelType arg => arg | e => e end) with
  | FuncExpr f _ _ args => Some (oid_of f, map Some args)
  | OpExpr f _ _ args => Some (oid_of f, map Some args)
  | SubscriptingRef _ refexpr _ _ refassgnexpr as e =>
      Some (get_typsubscript (refcontainertype e), [Some refexpr; refassgnexpr])
  | _ => None
  end.

Definition check_in_place (e : UPLpgSQL_expr) (sexpr : Expr) (paramid : Z) : M unit :=
  match top_function sexpr with
  | None => xret tt
  | Some (funcid, fargs) =>
      let prosupport := get_func_support funcid in
      if prosupport =? InvalidOid then xret tt
      else
        param <~ pg_call (modify_in_place prosupport (mk_modify_request funcid fargs paramid));
        match param with
        | None => xret tt
        | Some p => put_cell e (with_rw UPLPGSQL_RWOPT_INPLACE (Some p))
        end
  end.

Definition exec_check_rw_parameter (e : UPLpgSQL_expr) (paramid : Z) : M unit :=
  c <~ get_cell e;
  put_cell e (with_rw UPLPGSQL_RWOPT_NOPE None) ;~
  match expr_simple_expr c with
  | None => undefined
  | Some sexpr =>
      let refs := count_param_references paramid (expression_params sexpr) 0 None in
      if target_is_local e && Nat.eqb refs.1 1
      then put_cell e (with_rw UPLPGSQL_RWOPT_TRANSFER refs.2)
      else check_in_place e sexpr paramid
  end.

(** ** The evaluation functions *)

(** [(UPLpgSQL_var * ) estate->datums[dno]] with the assertion on its kind. *)
Definition param_var (dno : nat) : M UPLpgSQL_var :=
  d <~ get_datum dno; match d with DTYPE_VAR v => xret v | _ => undefined end.
Definition dno_of (op : cparam) : nat := Z.to_nat (cp_paramid op - 1).

Definition ERRMSG_TYPE_OF_PARAMETER (paramid : Z) (type paramtype : Oid) : string :=
  "type of parameter " +:+ pretty paramid +:+ " (" +:+ format_type_be type
  +:+ ") does not match that when preparing the plan (" +:+ format_type_be paramtype +:+ ")".
Definition check_param_type (op : cparam) (type : Oid) : M unit :=
  if negb (type =? cp_paramtype op)
  then ereport ERRCODE_DATATYPE_MISMATCH
         (ERRMSG_TYPE_OF_PARAMETER (cp_paramid op) type (cp_paramtype op))
  else xret tt.

Definition uplpgsql_param_eval_var (op : cparam) : M (Datum * bool) :=
  var <~ param_var (dno_of op); xret (value var, isnull var).

Definition uplpgsql_param_eval_var_ro (op : cparam) : M (Datum * bool) :=
  var <~ param_var (dno_of op);
  s <~ xget;
  xret (MakeExpandedObjectReadOnly (es_world s) (value var) (isnull var) (-1), isnull var).

Definition is_rw (w : world) (var : UPLpgSQL_var) : bool :=
  negb (isnull var) && is_expanded_rw w (value var).

(** "Transfer its ownership into the expression execution context, then drop our own
    reference to the value by setting the variable to NULL." *)
Definition uplpgsql_param_eval_var_transfer (op : cparam) : M (Datum * bool) :=
  var <~ param_var (dno_of op);
  s <~ xget;
  if is_rw (es_world s) var
  then v <~ pg_call (TransferExpandedObject (value var));
       put_var (dno_of op) (set_value 0 true false) ;~
       xret (v, false)
  else xret (value var, isnull var).

Definition uplpgsql_param_eval_recfield (op : cparam) : M (Datum * bool) :=
  d <~ get_datum (dno_of op);
  match d with
  | DTYPE_RECFIELD f =>
      tv <~ eval_datum_recfield f;
      check_param_type op (tv_type tv) ;~
      xret (tv_value tv, tv_isnull tv)
  | _ => undefined
  end.

Definition uplpgsql_param_eval_generic (op : cparam) : M (Datum * bool) :=
  tv <~ exec_eval_datum (dno_of op);
  check_param_type op (tv_type tv) ;~
  xret (tv_value tv, tv_isnull tv).

Definition uplpgsql_param_eval_generic_ro (op : cparam) : M (Datum * bool) :=
  tv <~ exec_eval_datum (dno_of op);
  check_param_type op (tv_type tv) ;~
  s <~ xget;
  xret (MakeExpandedObjectReadOnly (es_world s) (tv_value tv) (tv_isnull tv) (-1), tv_isnull tv).

(** The function [uplpgsql_param_eval_var_check] passes off to. *)
Definition chosen_func (c : simple_cell) (node : param_node) : option param_func :=
  match expr_rwopt c with
  | UPLPGSQL_RWOPT_UNKNOWN => None
  | UPLPGSQL_RWOPT_NOPE => Some param_eval_var_ro
  | UPLPGSQL_RWOPT_TRANSFER => Some param_eval_var_transfer
  | UPLPGSQL_RWOPT_INPLACE =>
      if bool_decide (expr_rw_param c = Some (node_addr node))
      then Some param_eval_var else Some param_eval_var_ro
  end.

(** The evaluation functions that do not choose another one. *)
Definition eval_with (f : param_func) (op : cparam) : M (Datum * bool) :=
  match f with
  | param_eval_var_check => undefined
  | param_eval_var_transfer => uplpgsql_param_eval_var_transfer op
  | param_eval_var => uplpgsql_param_eval_var op
  | param_eval_var_ro => uplpgsql_param_eval_var_ro op
  | param_eval_recfield => uplpgsql_param_eval_recfield op
  | param_eval_generic => uplpgsql_param_eval_generic op
  | param_eval_generic_ro => uplpgsql_param_eval_generic_ro op
  end.

(** [op->d.cparam.paramfunc = f], the step being number [i] of the tree. *)
Definition set_paramfunc (tree i : nat) (f : param_func) : M unit :=
  update_session (with_trees (alter (alter (with_paramfunc f) i) tree)).

Definition uplpgsql_param_eval_var_check (tree i : nat) (op : cparam) : M (Datum * bool) :=
  var <~ param_var (dno_of op);
  s <~ xget;
  if is_rw (es_world s) var then
    let e := paramarg op in
    c <~ get_cell e;
    (if bool_decide (expr_rwopt c = UPLPGSQL_RWOPT_UNKNOWN)
     then exec_check_rw_parameter e (cp_paramid op) else xret tt) ;~
    c <~ get_cell e;
    match chosen_func c (paramarg2 op) with
    | None => undefined
    | Some f => set_paramfunc tree i f ;~ eval_with f op
    end
  else xret (value var, isnull var).

(** [op->d.cparam.paramfunc(state, op, econtext)]. *)
Definition param_callback (tree i : nat) : M (Datum * bool) :=
  s <~ xget;
  match trees (session_of (es_world s)) !! tree ≫= (.!! i) with
  | None => undefined
  | Some op =>
      match paramfunc op with
      | param_eval_var_check => uplpgsql_param_eval_var_check tree i op
      | f => eval_with f op
      end
  end.

(** ** The hooks *)

(** [uplpgsql_param_compile]: the step for a parameter. *)
Definition select_func (datum : UPLpgSQL_datum) (dno : Z) (e : UPLpgSQL_expr) (simple : bool) : param_func :=
  match datum with
  | DTYPE_VAR v =>
      let isvarlena := typlen (var_datatype v) =? -1 in
      if isvarlena && (dno =? target_param e) && simple then param_eval_var_check
      else if isvarlena then param_eval_var_ro
      else param_eval_var
  | DTYPE_RECFIELD _ => param_eval_recfield
  | DTYPE_PROMISE v =>
      if typlen (var_datatype v) =? -1 then param_eval_generic_ro else param_eval_generic
  | DTYPE_REC _ => param_eval_generic_ro
  | DTYPE_ROW _ => param_eval_generic
  end.
Definition uplpgsql_param_compile (param : param_node) : M cparam :=
  s <~ xget;
  match parserSetupArg s with
  | None => undefined
  | Some e =>
      c <~ get_cell e;
      datum <~ get_datum (Z.to_nat (pn_id param - 1));
      let f := select_func datum (pn_id param - 1) e (bool_decide (is_Some (expr_simple_expr c))) in
      xret (mk_cparam f e param (pn_id param) (pn_type param))
  end.

(** [setup_param_list]: whether there is a list to pass at all. *)
Definition setup_param_list (e : UPLpgSQL_expr) : M bool :=
  match paramnos e with
  | [] => xret false
  | _ :: _ => xmodify (with_setup_arg (Some e)) ;~ xret true
  end.

(** What [uplpgsql_param_fetch] stores in the caller's [ParamExternData]. *)
Record ParamExternData := mk_prm { prm_val : Datum; prm_null : bool; prm_const : bool; prm_ptype : Oid }.
Definition no_such_parameter : ParamExternData := mk_prm 0 true false InvalidOid.

(** "Check the likely failure cases" of a speculative access. *)
Definition speculative_ok (datum : UPLpgSQL_datum) : M bool :=
  match datum with
  | DTYPE_RECFIELD f =>
      rec <~ get_rec (recparentno f);
      match erh rec with
      | None => xret false
      | Some e =>
          s <~ xget;
          xret (bool_decide (is_Some (expanded_record_lookup_field (es_world s) e (fieldname f))))
      end
  | _ => xret true
  end.

Definition uplpgsql_param_fetch (paramid : Z) (speculative : bool) : M ParamExternData :=
  let dno := Z.to_nat (paramid - 1) in
  s <~ xget;
  match parserSetupArg s with
  | None => undefined
  | Some e =>
      datum <~ get_datum dno;
      ok <~ (if negb (bool_decide (dno ∈ paramnos e)) then xret false
             else if speculative then speculative_ok datum else xret true);
      if negb ok then xret no_such_parameter
      else
        tv <~ exec_eval_datum dno;
        s <~ xget;
        let ro typlen := MakeExpandedObjectReadOnly (es_world s) (tv_value tv) (tv_isnull tv) typlen in
        let v := match datum with
                 | DTYPE_VAR v => ro (typlen (var_datatype v))
                 | DTYPE_REC _ => ro (-1)
                 | _ => tv_value tv
                 end in
        xret (mk_prm v (tv_isnull tv) true (tv_type tv))
  end.
End params.
