(* ===== verification/SimpleExpr.v ===== *)
(** * Simple expressions

    Evaluation of an expression without SPI: [exec_prepare_plan],
    [exec_simple_check_plan], [exec_is_simple_query], [exec_save_simple_expr],
    [exec_eval_simple_expr] and the expression contexts of the session
    ([uplpgsql_create_econtext], [uplpgsql_destroy_econtext], [uplpgsql_xact_cb],
    [uplpgsql_subxact_cb]), all of [common/upl_exec.c].

    An evaluation of a tree by the executor is a program over the callbacks of file
    Params: it may ask for parameters and call functions, which change the world, and
    with it the session. *)

From Stdlib Require Import ZArith Ascii.
From stdpp Require Import gmap pretty.
From S2P Require Import Prelude Ast Expr Exec Assign Call Params.
#[local] Open Scope Z_scope.

(** What the executor does with a tree. *)
Inductive eval_prog (world : Type) :=
  | EvDone (v : Datum * bool)
  | EvRaise (e : ErrorData)
  | EvParam (i : nat) (k : Datum * bool -> eval_prog world)
  | EvCall (op : pg world (Datum * bool)) (k : Datum * bool -> eval_prog world).
Arguments EvDone {world}. Arguments EvRaise {world}. Arguments EvParam {world}. Arguments EvCall {world}.

(** A plan, as far as [exec_save_simple_expr] looks: the expressions of its target
    list and the child below a Gather or a Material node. *)
Inductive Plan :=
  | Result (targetlist : list Expr)
  | Gather (targetlist : list Expr) (lefttree : Plan)
  | Material (targetlist : list Expr) (lefttree : Plan)
  | OtherPlan (nodeTag : Z).

Definition InvalidLocalTransactionId : Z := 0.

(** What the session's events pass to the callbacks ([XactEvent], [SubXactEvent]). *)
Inductive XactEvent :=
  | XACT_EVENT_COMMIT | XACT_EVENT_PARALLEL_COMMIT | XACT_EVENT_PREPARE
  | XACT_EVENT_ABORT | XACT_EVENT_PARALLEL_ABORT
  | XACT_EVENT_PRE_COMMIT | XACT_EVENT_PARALLEL_PRE_COMMIT | XACT_EVENT_PRE_PREPARE.
Inductive SubXactEvent :=
  | SUBXACT_EVENT_START_SUB | SUBXACT_EVENT_COMMIT_SUB | SUBXACT_EVENT_ABORT_SUB
  | SUBXACT_EVENT_PRE_COMMIT_SUB.

(** The plan cache, snapshots, the executor.  [curlxid] is [MyProc->vxid.lxid];
    [SPI_prepare_keep] prepares and keeps a plan and yields its address, or nothing;
    [CachedPlanIsSimplyValid] is told whether to take a reference. *)
Class SimpleEnv (world : Type) `{ParamEnv world} := {
  curlxid : world -> Z;
  SPI_prepare_keep : UPLpgSQL_expr -> Z -> pg world (option nat);
  SPI_plan_get_plan_sources : world -> nat -> list (nat * list Query);
  SPI_plan_get_cached_plan : nat -> pg world nat;
  CachedPlanIsSimplyValid : option nat -> option nat -> bool -> pg world bool;
  CachedPlanAllowsSimpleValidityCheck : option nat -> nat -> pg world bool;
  ReleaseCachedPlan : nat -> bool -> pg world unit;
  planTree : world -> nat -> Plan;
  exprType : Expr -> Oid;
  exprTypmod : Expr -> Z;
  contain_mutable_functions : Expr -> bool;
  EnsurePortalSnapshotExists : pg world unit;
  CommandCounterIncrement : pg world unit;
  PushActiveSnapshot : pg world unit;
  PopActiveSnapshot : pg world unit;
  program : Expr -> eval_prog world;
  CreateExecutorState : pg world nat;
  ResourceOwnerCreate : pg world nat;
  CreateExprContext : nat -> pg world nat;
  FreeExprContext : nat -> bool -> pg world unit;
  FreeExecutorState : nat -> pg world unit;
  ReleaseAllPlanCacheRefsInOwner : nat -> pg world unit;
  SPI_freeplan : nat -> pg world unit;
  GetCurrentSubTransactionId : world -> Z
}.

(** ** Is the query simple? *)

(** [exec_is_simple_query]: the tests of its numbered comments. *)
Definition exec_is_simple_query (sources : list (list Query)) : bool :=
  match sources with
  | [[q]] =>
      q_is_select q && negb (q_rtable q)
      && negb (q_hasAggs q || q_hasWindowFuncs q || q_hasTargetSRFs q || q_hasSubLinks q || q_cteList q
               || q_fromlist q || q_quals q || q_groupClause q || q_groupingSets q || q_havingQual q
               || q_windowClause q || q_distinctClause q || q_sortClause q || q_limitOffset q
               || q_limitCount q || q_setOperations q)
      && Nat.eqb (length (q_targetList q)) 1
  | _ => false
  end.

(** The loop of [exec_save_simple_expr] down to the expression; [inr] is the tag of a
    node it does not know. *)
Fixpoint extract_tlist (p : Plan) : option (Expr + Z) :=
  match p with
  | Result [e] => Some (inl e)
  | Gather [e] child | Material [e] child => if is_const e then Some (inl e) else extract_tlist child
  | OtherPlan tag => Some (inr tag)
  | _ => None
  end.

(** ** Changes of a cell *)

(** "Initialize to not simple, and reset R/W optimizability." *)
Definition cell_not_simple (c : simple_cell) : simple_cell :=
  mk_cell None UPLPGSQL_RWOPT_UNKNOWN None (expr_plan c) (expr_simple_plansource c) (expr_simple_plan c)
    (expr_simple_plan_lxid c) (expr_simple_state c) (expr_simple_in_use c) (expr_simple_lxid c)
    (expr_simple_type c) (expr_simple_typmod c) (expr_simple_mutable c).
Definition cell_set_plan (plan : nat) (c : simple_cell) : simple_cell :=
  mk_cell (expr_simple_expr c) (expr_rwopt c) (expr_rw_param c) (Some plan) (expr_simple_plansource c)
    (expr_simple_plan c) (expr_simple_plan_lxid c) (expr_simple_state c) (expr_simple_in_use c)
    (expr_simple_lxid c) (expr_simple_type c) (expr_simple_typmod c) (expr_simple_mutable c).
Definition cell_no_plan (c : simple_cell) : simple_cell :=
  mk_cell (expr_simple_expr c) (expr_rwopt c) (expr_rw_param c) None (expr_simple_plansource c)
    (expr_simple_plan c) (expr_simple_plan_lxid c) (expr_simple_state c) (expr_simple_in_use c)
    (expr_simple_lxid c) (expr_simple_type c) (expr_simple_typmod c) (expr_simple_mutable c).
Definition cell_cached_plan (source plan : option nat) (lxid : Z) (c : simple_cell) : simple_cell :=
  mk_cell (expr_simple_expr c) (expr_rwopt c) (expr_rw_param c) (expr_plan c) source plan lxid
    (expr_simple_state c) (expr_simple_in_use c) (expr_simple_lxid c)
    (expr_simple_type c) (expr_simple_typmod c) (expr_simple_mutable c).
Definition cell_tree (t : option nat) (lxid : Z) (c : simple_cell) : simple_cell :=
  mk_cell (expr_simple_expr c) (expr_rwopt c) (expr_rw_param c) (expr_plan c) (expr_simple_plansource c)
    (expr_simple_plan c) (expr_simple_plan_lxid c) t false lxid (expr_simple_type c) (expr_simple_typmod c)
    (expr_simple_mutable c).
Definition cell_in_use (b : bool) (c : simple_cell) : simple_cell :=
  mk_cell (expr_simple_expr c) (expr_rwopt c) (expr_rw_param c) (expr_plan c) (expr_simple_plansource c)
    (expr_simple_plan c) (expr_simple_plan_lxid c) (expr_simple_state c) b (expr_simple_lxid c)
    (expr_simple_type c) (expr_simple_typmod c) (expr_simple_mutable c).

Section simple.
Context {world : Type} `{SimpleEnv world}.
Abbreviation M := (exec (execstate world)).
Open Scope exec_scope.

(** The end of [exec_save_simple_expr]. *)
Definition cell_save (e : Expr) (c : simple_cell) : simple_cell :=
  mk_cell (Some e) (expr_rwopt c) (expr_rw_param c) (expr_plan c) (expr_simple_plansource c)
    (expr_simple_plan c) (expr_simple_plan_lxid c) None false InvalidLocalTransactionId (exprType e)
    (exprTypmod e) (contain_mutable_functions e).

Definition exec_save_simple_expr (x : UPLpgSQL_expr) (cplan : nat) : M unit :=
  s <~ xget;
  match extract_tlist (planTree (es_world s) cplan) with
  | Some (inl e) => put_cell x (cell_save e)
  | Some (inr tag) => elog ("unexpected plan node type: " +:+ pretty tag)
  | None => undefined
  end.

Definition the_plan (x : UPLpgSQL_expr) : M nat :=
  c <~ get_cell x; match expr_plan c with Some p => xret p | None => undefined end.
Definition is_simple (x : UPLpgSQL_expr) : M bool :=
  p <~ the_plan x; s <~ xget;
  xret (exec_is_simple_query (map snd (SPI_plan_get_plan_sources (es_world s) p))).

(** [CurrentResourceOwner], not the owner for simple expressions. *)
Definition release_current (cplan : nat) : M unit := pg_call (ReleaseCachedPlan cplan false).

(** ** [exec_simple_check_plan]: before the plan is asked for, and after. *)
Definition check_before (x : UPLpgSQL_expr) : M bool :=
  put_cell x cell_not_simple ;~ is_simple x.
Definition check_after (x : UPLpgSQL_expr) (cplan : nat) : M unit :=
  p <~ the_plan x;
  s <~ xget;
  let source := fst <$> head (SPI_plan_get_plan_sources (es_world s) p) in
  ok <~ pg_call (CachedPlanAllowsSimpleValidityCheck source cplan);
  (if ok : bool
   then s <~ xget;
        put_cell x (cell_cached_plan source (Some cplan) (curlxid (es_world s))) ;~
        exec_save_simple_expr x cplan
   else xret tt) ;~
  release_current cplan.
Definition exec_simple_check_plan (x : UPLpgSQL_expr) : M unit :=
  simple <~ check_before x;
  if simple : bool
  then p <~ the_plan x; cplan <~ pg_call (SPI_plan_get_cached_plan p); check_after x cplan
  else xret tt.

(** [exec_prepare_plan]. *)
Definition prepare_plan (x : UPLpgSQL_expr) (cursorOptions : Z) : M unit :=
  plan <~ pg_call (SPI_prepare_keep x cursorOptions);
  match plan with
  | None =>
      s <~ xget;
      elog ("SPI_prepare_extended failed for " +:+ quoted (query x) +:+ ": "
            +:+ SPI_result_code_string (SPI_result (es_world s)))
  | Some p => put_cell x (cell_set_plan p) ;~ exec_simple_check_plan x
  end.

(** The compiler, where it leaves an assignment or a condition to the interpreter (the
    ends of [uplpgsql_compile_assign] and [uplpgsql_try_compile_bool]): "clear any plan
    created at compile time". *)
Definition jit_free_plan (x : UPLpgSQL_expr) : M unit :=
  c <~ get_cell x;
  match expr_plan c with
  | Some p => pg_call (SPI_freeplan p) ;~ put_cell x cell_no_plan
  | None => xret tt
  end.

(** ** [exec_eval_simple_expr] *)

(** Up to the question whether the plan is still good. *)
Inductive entry := NotSimple | StillValid | Replan.
Definition eval_enter (x : UPLpgSQL_expr) : M entry :=
  c <~ get_cell x;
  s <~ xget;
  match expr_simple_expr c with
  | None => xret NotSimple
  | Some _ =>
      if expr_simple_in_use c && (expr_simple_lxid c =? curlxid (es_world s)) then xret NotSimple
      else
        pg_call EnsurePortalSnapshotExists ;~
        c <~ get_cell x;
        s <~ xget;
        let lxid := curlxid (es_world s) in
        valid <~ pg_call (CachedPlanIsSimplyValid (expr_simple_plansource c) (expr_simple_plan c)
                            (negb (expr_simple_plan_lxid c =? lxid)));
        if valid : bool
        then put_cell x (fun c => cell_cached_plan (expr_simple_plansource c) (expr_simple_plan c) lxid c) ;~
             xret StillValid
        else
          (match expr_simple_plan c with
           | Some p => if expr_simple_plan_lxid c =? lxid
                       then pg_call (ReleaseCachedPlan p true) else xret tt
           | None => xret tt
           end) ;~
          put_cell x (fun c => cell_cached_plan (expr_simple_plansource c) None InvalidLocalTransactionId
                                 (cell_not_simple c)) ;~
          xret Replan
  end.

(** From the new plan on. *)
Definition replan_after (x : UPLpgSQL_expr) (cplan : nat) : M bool :=
  simple <~ is_simple x;
  c <~ get_cell x;
  ok <~ (if simple : bool
         then pg_call (CachedPlanAllowsSimpleValidityCheck (expr_simple_plansource c) cplan)
         else xret false);
  if ok : bool
  then
    s <~ xget;
    put_cell x (fun c => cell_cached_plan (expr_simple_plansource c) (Some cplan) (curlxid (es_world s)) c) ;~
    release_current cplan ;~
    exec_save_simple_expr x cplan ;~
    xret true
  else release_current cplan ;~ xret false.

(** What [ExecInitExprWithParams] of PostgreSQL does with the program's hook: it calls
    [uplpgsql_param_compile] for every external parameter of the tree. *)
Fixpoint compile_params (params : list param_node) : M (list cparam) :=
  match params with
  | [] => xret []
  | p :: rest => op <~ uplpgsql_param_compile p; ops <~ compile_params rest; xret (op :: ops)
  end.
Definition add_tree (ops : list cparam) (ss : session) : session :=
  mk_session (cells ss) (<[next_tree ss := ops]> (trees ss)) (S (next_tree ss)) (simple_econtext_stack ss)
    (shared_simple_eval_estate ss) (shared_simple_eval_resowner ss).
Definition ExecInitExprWithParams (e : Expr) : M nat :=
  ops <~ compile_params (List.filter (fun p => is_extern (pn_kind p)) (expression_params e));
  s <~ xget;
  update_session (add_tree ops) ;~
  xret (next_tree (session_of (es_world s))).

(** What the end of the evaluation needs to know: the tree, whether a snapshot was
    pushed, the saved [parserSetupArg]; and the result's type. *)
Record running := mk_running {
  run_tree : nat;
  run_expr : Expr;
  run_snapshot : bool;
  run_saved : option UPLpgSQL_expr;
  run_type : Oid;
  run_typmod : Z
}.

(** "Prepare the expression for execution, if it's not been done already in the
    current transaction." *)
Definition current_tree (x : UPLpgSQL_expr) (e : Expr) : M nat :=
  c <~ get_cell x;
  s <~ xget;
  let lxid := curlxid (es_world s) in
  if negb (expr_simple_lxid c =? lxid)
  then t <~ ExecInitExprWithParams e; put_cell x (cell_tree (Some t) lxid) ;~ xret t
  else match expr_simple_state c with Some t => xret t | None => undefined end.

(** From the result type to the mark that the tree is busy. *)
Definition eval_start (x : UPLpgSQL_expr) : M running :=
  c <~ get_cell x;
  match expr_simple_expr c with
  | None => undefined
  | Some e =>
      s <~ xget;
      let saved := parserSetupArg s in
      xmodify (with_setup_arg (Some x)) ;~
      t <~ current_tree x e;
      let need_snapshot := expr_simple_mutable c && negb (readonly_func s) in
      (if need_snapshot then pg_call CommandCounterIncrement ;~ pg_call PushActiveSnapshot else xret tt) ;~
      put_cell x (cell_in_use true) ;~
      xret (mk_running t e need_snapshot saved (expr_simple_type c) (expr_simple_typmod c))
  end.

(** [ExecEvalExpr]. *)
Fixpoint run_program (tree : nat) (p : eval_prog world) : M (Datum * bool) :=
  match p with
  | EvDone v => xret v
  | EvRaise e => throw e
  | EvParam i k => v <~ param_callback tree i; run_program tree (k v)
  | EvCall op k => v <~ pg_call op; run_program tree (k v)
  end.
Definition ExecEvalExpr (r : running) : M (Datum * bool) := run_program (run_tree r) (program (run_expr r)).

(** "Assorted cleanup", which an error skips. *)
Definition eval_end (x : UPLpgSQL_expr) (r : running) : M unit :=
  put_cell x (cell_in_use false) ;~
  xmodify (with_setup_arg (run_saved r)) ;~
  if run_snapshot r then pg_call PopActiveSnapshot else xret tt.

Definition eval_tree (x : UPLpgSQL_expr) : M (option typed_value) :=
  r <~ eval_start x;
  v <~ ExecEvalExpr r;
  eval_end x r ;~
  xret (Some (mk_tv v.1 v.2 (run_type r) (run_typmod r))).

Definition replan (x : UPLpgSQL_expr) : M bool :=
  p <~ the_plan x; cplan <~ pg_call (SPI_plan_get_cached_plan p); replan_after x cplan.

Definition eval_simple_expr (x : UPLpgSQL_expr) : M (option typed_value) :=
  entry <~ eval_enter x;
  match entry with
  | NotSimple => xret None
  | StillValid => eval_tree x
  | Replan =>
      ok <~ replan x;
      if ok : bool then eval_tree x else xret None
  end.

(** ** Contexts for evaluation

    The fields of [estate] they set; [None] is NULL. *)
Record eval_contexts := mk_contexts {
  simple_eval_estate : option nat;
  simple_eval_resowner : option nat;
  eval_econtext : option nat
}.
Definition with_stack (f : list econtext_entry -> list econtext_entry) (ss : session) : session :=
  mk_session (cells ss) (trees ss) (next_tree ss) (f (simple_econtext_stack ss))
    (shared_simple_eval_estate ss) (shared_simple_eval_resowner ss).
Definition with_shared (estate resowner : option nat) (ss : session) : session :=
  mk_session (cells ss) (trees ss) (next_tree ss) (simple_econtext_stack ss) estate resowner.
Definition get_session : M session := s <~ xget; xret (session_of (es_world s)).

(** The shared object, made if this is its first use in the transaction. *)
Definition shared_estate : M nat :=
  ss <~ get_session;
  match shared_simple_eval_estate ss with
  | Some e => xret e
  | None =>
      e <~ pg_call CreateExecutorState;
      update_session (fun ss => with_shared (Some e) (shared_simple_eval_resowner ss) ss) ;~ xret e
  end.
Definition shared_resowner : M nat :=
  ss <~ get_session;
  match shared_simple_eval_resowner ss with
  | Some o => xret o
  | None =>
      o <~ pg_call ResourceOwnerCreate;
      update_session (fun ss => with_shared (shared_simple_eval_estate ss) (Some o) ss) ;~ xret o
  end.

Definition uplpgsql_create_econtext (ec : eval_contexts) : M eval_contexts :=
  es <~ match simple_eval_estate ec with Some e => xret e | None => shared_estate end;
  ro <~ match simple_eval_resowner ec with Some o => xret o | None => shared_resowner end;
  c <~ pg_call (CreateExprContext es);
  s <~ xget;
  update_session (with_stack (cons (mk_entry c (GetCurrentSubTransactionId (es_world s))))) ;~
  xret (mk_contexts (Some es) (Some ro) (Some c)).

(** The assertions are that there is an entry and that it is ours. *)
Definition uplpgsql_destroy_econtext (ec : eval_contexts) : M eval_contexts :=
  ss <~ get_session;
  match simple_econtext_stack ss, eval_econtext ec with
  | entry :: _, Some c =>
      if Nat.eqb (stack_econtext entry) c
      then update_session (with_stack tail) ;~
           pg_call (FreeExprContext c true) ;~
           xret (mk_contexts (simple_eval_estate ec) (simple_eval_resowner ec) None)
      else undefined
  | _, _ => undefined
  end.

Definition when_some {A} (o : option A) (f : A -> M unit) : M unit :=
  match o with Some a => f a | None => xret tt end.

Definition uplpgsql_xact_cb (event : XactEvent) : M unit :=
  match event with
  | XACT_EVENT_COMMIT | XACT_EVENT_PARALLEL_COMMIT | XACT_EVENT_PREPARE =>
      update_session (with_stack (fun _ => [])) ;~
      ss <~ get_session;
      when_some (shared_simple_eval_estate ss) (fun e => pg_call (FreeExecutorState e)) ;~
      update_session (fun ss => with_shared None (shared_simple_eval_resowner ss) ss) ;~
      ss <~ get_session;
      when_some (shared_simple_eval_resowner ss) (fun o => pg_call (ReleaseAllPlanCacheRefsInOwner o)) ;~
      update_session (fun ss => with_shared (shared_simple_eval_estate ss) None ss)
  | XACT_EVENT_ABORT | XACT_EVENT_PARALLEL_ABORT =>
      update_session (fun ss => with_shared None None (with_stack (fun _ => []) ss))
  | _ => xret tt
  end.

(** The loop of [uplpgsql_subxact_cb]; it stops at the latest at the end of the stack. *)
Fixpoint free_econtexts (fuel : nat) (mySubid : Z) (isCommit : bool) : M unit :=
  match fuel with
  | O => fun _ => OutOfFuel
  | S fuel' =>
      ss <~ get_session;
      match simple_econtext_stack ss with
      | entry :: _ =>
          if xact_subxid entry =? mySubid
          then pg_call (FreeExprContext (stack_econtext entry) isCommit) ;~
               update_session (with_stack tail) ;~
               free_econtexts fuel' mySubid isCommit
          else xret tt
      | [] => xret tt
      end
  end.
Definition uplpgsql_subxact_cb (event : SubXactEvent) (mySubid : Z) : M unit :=
  match event with
  | SUBXACT_EVENT_COMMIT_SUB | SUBXACT_EVENT_ABORT_SUB =>
      ss <~ get_session;
      free_econtexts (S (length (simple_econtext_stack ss))) mySubid
        (match event with SUBXACT_EVENT_COMMIT_SUB => true | _ => false end)
  | _ => xret tt
  end.
End simple.
