(* ===== verification/Closure.v ===== *)
(** * Properties of all primitives at once

    Every function of files Assign, Raise and SqlStmts is put together from a few
    kinds of step: functions of PostgreSQL, stores into a variable or record,
    evaluation.  A predicate on computations that holds of those steps and is
    closed under sequencing holds of every one of these functions; class [Closed]
    says what that takes, and the lemmas below go through the functions once.
    [possible n d] is what is known of a datum [d] that was read as number [n], and
    [owned n] says that variable [n] may hold a value which has to be freed.
    Files DeclTypes, Fuel and Respect instantiate it. *)

From Stdlib Require Import ZArith Ascii.
From S2P Require Import Prelude Ast Exec Assign Raise SqlStmts Call.

Definition possible_var (possible : nat -> UPLpgSQL_datum -> Prop) (n : nat) (v : UPLpgSQL_var) : Prop :=
  possible n (DTYPE_VAR v) \/ possible n (DTYPE_PROMISE v).

Class Closed {world : Type} `{PgEnv world} (possible : nat -> UPLpgSQL_datum -> Prop) (owned : nat -> Prop)
    (P : forall A, exec (execstate world) A -> Prop) : Prop := {
  cl_ret A (a : A) : P A (xret a);
  cl_bind A B (m : exec (execstate world) A) (k : A -> exec (execstate world) B) :
    P A m -> (forall a, P B (k a)) -> P B (xbind m k);
  cl_get : P _ xget;
  cl_throw A e : P A (throw e);
  cl_undefined A : P A undefined;
  cl_pg A (op : pg world A) : P A (pg_call op);
  cl_read B n (k : UPLpgSQL_datum -> exec (execstate world) B) :
    (forall d, possible n d -> P B (k d)) -> P B (xbind (get_datum n) k);
  cl_read_var B n (k : UPLpgSQL_var -> exec (execstate world) B) :
    (forall v, possible_var possible n v -> P B (k v)) ->
    P B (xbind (get_var n) k);
  cl_read_state B (k : execstate world -> exec (execstate world) B) :
    (forall s, (forall n, sqlstate_varno s = Some n -> owned n) -> P B (k s)) -> P B (xbind xget k);
  cl_owned_byref n v : possible n (DTYPE_VAR v) -> typbyval (var_datatype v) = false -> owned n;
  cl_owned_varlena n v : possible n (DTYPE_VAR v) -> typlen (var_datatype v) = (-1)%Z -> owned n;
  cl_owned_promise n v : possible n (DTYPE_PROMISE v) -> owned n;
  cl_store_value n v b f : (f = true -> owned n) -> P _ (put_var n (store_value v b f));
  cl_disarm n : P _ (put_var n disarm_promise);
  cl_store_erh n e : P _ (put_rec n (store_erh e));
  cl_store_rectypeid n t : P _ (put_rec n (store_rectypeid t));
  cl_set_found b : P _ (exec_set_found b);
  cl_set_ret tv : P _ (set_ret tv);
  cl_processed n : P _ (xmodify (with_eval_processed n));
  cl_sqlerrcode c : P _ (xmodify (with_sqlerrcode c));
  cl_open_store w : P _ (open_tuple_store w);
  cl_put_tuple row : P _ (put_tuple row);
  cl_eval_simple e : P _ (exec_eval_simple_expr e);
  cl_execute_plan e n : P _ (SPI_execute_plan_with_paramlist e n);
  cl_execute_nonatomic e : P _ (SPI_execute_plan_nonatomic e);
  cl_execute_plan_store e : P _ (SPI_execute_plan_into_store e);
  cl_execute_store q ps : P _ (SPI_execute_into_store q ps);
  cl_cursor_open name e : P _ (SPI_cursor_open_with_paramlist name e)
}.

Create HintDb closed discriminated.

(** The continuation of a read, where nothing is known of what was read. *)
Ltac read_anything :=
  intros; match goal with Hk : forall x, _ -> _ |- _ => apply Hk; first [done | by left | by intros] end.

Section closure.
Context {world : Type} `{PgEnv world} {possible : nat -> UPLpgSQL_datum -> Prop} {owned : nat -> Prop}.
Context (P : forall A, exec (execstate world) A -> Prop) `{!Closed possible owned P}.
Open Scope exec_scope.

Lemma cl_ereport A code msg : P A (ereport code msg).
Proof. apply cl_throw. Qed.
Lemma cl_elog A msg : P A (elog msg).
Proof. apply cl_throw. Qed.

(** What follows for a variable that was read. *)
Lemma owned_freeable n v b :
  possible_var possible n v -> negb (typbyval (var_datatype v)) && b = true -> owned n.
Proof.
  intros [Hv|Hv] Hb; [|by eapply cl_owned_promise].
  apply andb_true_iff in Hb as [Hb%negb_true_iff _]. by eapply cl_owned_byref.
Qed.
Lemma owned_varlena n v : possible_var possible n v -> typlen (var_datatype v) = (-1)%Z -> owned n.
Proof. intros [Hv|Hv] Hl; [by eapply cl_owned_varlena|by eapply cl_owned_promise]. Qed.

(** A value that is not to be freed may be stored anywhere. *)
Ltac was_read := first [eassumption | left; eassumption | right; eassumption].
Ltac owned_side :=
  solve [ discriminate | done | auto | intros _; eapply owned_varlena; [was_read|eassumption]
        | intros Hb; eapply owned_freeable; [was_read|exact Hb]
        | intros; eapply cl_owned_promise; eassumption ].

(** The steps themselves. *)
Ltac closed_leaf :=
  lazymatch goal with
  | |- P _ (xret _) => apply cl_ret
  | |- P _ xget => apply cl_get
  | |- P _ (throw _) => apply cl_throw
  | |- P _ (ereport _ _) => apply cl_ereport
  | |- P _ (elog _) => apply cl_elog
  | |- P _ undefined => apply cl_undefined
  | |- P _ (pg_call _) => apply cl_pg
  | |- P _ (put_var _ (store_value _ _ _)) => apply cl_store_value; owned_side
  | |- P _ (put_var _ disarm_promise) => apply cl_disarm
  | |- P _ (put_rec _ (store_erh _)) => apply cl_store_erh
  | |- P _ (put_rec _ (store_rectypeid _)) => apply cl_store_rectypeid
  | |- P _ (exec_set_found _) => apply cl_set_found
  | |- P _ (set_ret _) => apply cl_set_ret
  | |- P _ (xmodify (with_eval_processed _)) => apply cl_processed
  | |- P _ (xmodify (with_sqlerrcode _)) => apply cl_sqlerrcode
  | |- P _ (open_tuple_store _) => apply cl_open_store
  | |- P _ (put_tuple _) => apply cl_put_tuple
  | |- P _ (exec_eval_simple_expr _) => apply cl_eval_simple
  | |- P _ (SPI_execute_plan_with_paramlist _ _) => apply cl_execute_plan
  | |- P _ (SPI_execute_plan_nonatomic _) => apply cl_execute_nonatomic
  | |- P _ (SPI_execute_plan_into_store _) => apply cl_execute_plan_store
  | |- P _ (SPI_execute_into_store _ _) => apply cl_execute_store
  | |- P _ (SPI_cursor_open_with_paramlist _ _) => apply cl_cursor_open
  end.

Ltac closed_step :=
  lazymatch goal with
  | |- forall _, _ => intro
  | |- P _ (xbind (get_datum _) _) => apply cl_read
  | |- P _ (xbind (get_var _) _) => apply cl_read_var
  | |- P _ (xbind _ _) => apply cl_bind
  | |- P _ (if ?b then _ else _) => destruct b
  | |- P _ (match ?x with _ => _ end) => destruct x
  | |- P _ _ => first [closed_leaf | solve [eauto with closed]]
  end.
Ltac closed := repeat (cbv zeta; closed_step).

Lemma cl_get_datum n : P _ (get_datum n).
Proof. unfold get_datum. closed. Qed.
Hint Resolve cl_get_datum : closed.
Lemma cl_get_var n : P _ (get_var n).
Proof. unfold get_var. closed. Qed.
Hint Resolve cl_get_var : closed.
Lemma cl_assign_simple_var n v b e : (e = true -> owned n) -> P _ (assign_simple_var n v b e).
Proof.
  intros He. unfold assign_simple_var. apply cl_read_var. intros var Hv. apply cl_bind; [apply cl_get|]. intros s.
  destruct (_ && _ && (typlen (var_datatype var) =? -1)%Z && _) eqn:E; [|closed].
  assert (Hl : typlen (var_datatype var) = (-1)%Z).
  { apply andb_true_iff in E as [[_ E]%andb_true_iff _]. by apply Z.eqb_eq. }
  closed.
Qed.
Hint Extern 1 (P _ (assign_simple_var _ _ _ _)) => apply cl_assign_simple_var; owned_side : closed.
Lemma cl_cast tv t m : P _ (cast_tv tv t m).
Proof. unfold cast_tv, exec_cast_value. closed. Qed.
Lemma cl_text_var n str : owned n -> P _ (assign_text_var n str).
Proof. intros Hn. unfold assign_text_var. closed. Qed.
Lemma cl_set_sqlstate : P _ uplpgsql_set_sqlstate.
Proof.
  apply cl_read_state. intros s Hs. destruct (sqlstate_varno s) as [n|]; [|apply cl_ret].
  by apply cl_text_var, Hs.
Qed.
Hint Resolve cl_set_sqlstate : closed.
Lemma cl_get_rec n : P _ (get_rec n).
Proof. unfold get_rec. closed. Qed.
Hint Resolve cl_cast cl_text_var cl_get_rec : closed.

Lemma cl_ereport_at l e : P _ (ereport_at l e).
Proof. unfold ereport_at. closed. Qed.
Lemma cl_assign_record n e : P _ (assign_record_var n e).
Proof. unfold assign_record_var. closed. Qed.
Lemma cl_revalidate n : P _ (revalidate_rectypeid n).
Proof. unfold revalidate_rectypeid. closed. Qed.
Hint Resolve cl_ereport_at cl_assign_record cl_revalidate : closed.
Lemma cl_instantiate n : P _ (instantiate_empty_record_variable n).
Proof. unfold instantiate_empty_record_variable. closed. Qed.
Lemma cl_make_record n d e : P _ (make_expanded_record_for_rec n d e).
Proof. unfold make_expanded_record_for_rec. closed. Qed.
Hint Resolve cl_instantiate cl_make_record : closed.

Lemma cl_mismatch l : P _ (field_count_mismatch l).
Proof. unfold field_count_mismatch. closed. Qed.
Hint Resolve cl_mismatch : closed.
Lemma cl_next_column l cols : P _ (next_column l cols).
Proof. unfold next_column. closed. Qed.
Lemma cl_no_columns l cols : P _ (no_columns_left l cols).
Proof. unfold no_columns_left. closed. Qed.
Hint Resolve cl_next_column cl_no_columns : closed.
Lemma cl_coerce l dest : forall cols, P _ (coerce_fields l dest cols).
Proof. induction dest; intros cols; simpl; closed. Qed.
Hint Resolve cl_coerce : closed.

Lemma cl_move_fields_rec n e src : P _ (move_fields_rec n e src).
Proof. unfold move_fields_rec. closed. Qed.
Hint Resolve cl_move_fields_rec : closed.
Lemma cl_move_row_rec n t d : P _ (move_row_rec n t d).
Proof. unfold move_row_rec, clear_rec. closed. Qed.
Hint Resolve cl_move_row_rec : closed.
Lemma cl_copy_expanded n e : P _ (copy_expanded_rec n e).
Proof. unfold copy_expanded_rec. closed. Qed.
Hint Resolve cl_copy_expanded : closed.
Lemma cl_move_datum_rec n v : P _ (move_datum_rec n v).
Proof. unfold move_datum_rec, move_expanded_rec, move_composite_rec. closed. Qed.
Hint Resolve cl_move_datum_rec : closed.

Lemma cl_get_erh n : P _ (get_erh n).
Proof. unfold get_erh. closed. Qed.
Lemma cl_lookup_field n e f : P _ (lookup_field n e f).
Proof. unfold lookup_field. closed. Qed.
Hint Resolve cl_get_erh cl_lookup_field : closed.
Lemma cl_assign_field n tv : P _ (assign_field n tv).
Proof.
  unfold assign_field, assign_value_var, assign_value_rec, assign_value_recfield, own_value,
    null_not_allowed. closed.
Qed.
Hint Resolve cl_assign_field : closed.
Lemma cl_assign_fields l vs : forall cols, P _ (assign_fields l vs cols).
Proof. induction vs; intros cols; simpl; closed. Qed.
Hint Resolve cl_assign_fields : closed.
Lemma cl_move_row_row row t d : P _ (move_row_row row t d).
Proof. unfold move_row_row, move_fields_row. closed. Qed.
Hint Resolve cl_move_row_row : closed.
Lemma cl_move_row n t d : P _ (exec_move_row n t d).
Proof. unfold exec_move_row, unsupported_target. closed. Qed.
Lemma cl_assign_value n tv : P _ (exec_assign_value n tv).
Proof. unfold exec_assign_value, assign_value_row, move_datum_row, move_fields_row. closed. Qed.
Hint Resolve cl_move_row cl_assign_value : closed.

Lemma cl_text_datums l : P _ (text_datums l).
Proof. induction l; simpl; closed. Qed.
Hint Resolve cl_text_datums : closed.
Lemma cl_fulfill n : owned n -> P _ (uplpgsql_fulfill_promise n).
Proof. intros Hn. unfold uplpgsql_fulfill_promise, fulfill_trigger, text_or_error, assign_name. closed. Qed.
Hint Extern 1 (P _ (uplpgsql_fulfill_promise _)) => apply cl_fulfill; owned_side : closed.
Lemma cl_eval_field n : P _ (eval_field n).
Proof. unfold eval_field, eval_datum_var, eval_datum_rec, eval_datum_recfield. closed. Qed.
Hint Resolve cl_eval_field : closed.
Lemma cl_row_values ats : forall vs, P _ (row_values ats vs).
Proof. induction ats; intros [|]; simpl; closed. Qed.
Hint Resolve cl_row_values : closed.
Lemma cl_make_tuple row d : P _ (make_tuple_from_row row d).
Proof. unfold make_tuple_from_row. closed. Qed.
Hint Resolve cl_make_tuple : closed.
Lemma cl_eval_datum n : P _ (exec_eval_datum n).
Proof. unfold exec_eval_datum, eval_datum_row. closed. Qed.
Hint Resolve cl_eval_datum : closed.

Lemma cl_prepare e o : P _ (prepare e o).
Proof. unfold prepare. closed. Qed.
Hint Resolve cl_prepare : closed.
Lemma cl_run_select e n : P _ (exec_run_select e n).
Proof. unfold exec_run_select. closed. Qed.
Hint Resolve cl_run_select : closed.
Lemma cl_eval_expr e : P _ (exec_eval_expr e).
Proof. unfold exec_eval_expr, single_value. closed. Qed.
Hint Resolve cl_eval_expr : closed.
Lemma cl_assign_expr n e : P _ (exec_assign_expr n e).
Proof. unfold exec_assign_expr. closed. Qed.
Hint Resolve cl_assign_expr : closed.
Lemma cl_init_var n : P _ (init_var n).
Proof. unfold init_var. closed. Qed.
Lemma cl_eval_cond e : P _ (eval_cond e).
Proof. unfold eval_cond, exec_eval_boolean. closed. Qed.
Lemma cl_eval_integer e : P _ (exec_eval_integer e).
Proof. unfold exec_eval_integer. closed. Qed.
Hint Resolve cl_eval_cond cl_init_var cl_eval_integer : closed.

(** *** Entering a function *)
Lemma cl_own_argument `{!CallEnv world} n : P _ (own_argument n).
Proof.
  unfold own_argument. apply cl_read_var. intros var Hv. apply cl_bind; [apply cl_get|]. intros s. cbv zeta.
  destruct (negb (isnull var) && (typlen (var_datatype var) =? -1)%Z) eqn:E; [|apply cl_ret].
  apply andb_true_iff in E as [_ E%Z.eqb_eq]. closed.
Qed.
Hint Resolve cl_own_argument : closed.
Lemma cl_store_arguments `{!CallEnv world} vs : forall args, P _ (store_arguments vs args).
Proof. induction vs; intros [|]; simpl; unfold store_argument; closed. Qed.
Lemma cl_clear_generated `{!CallEnv world} e l : forall i, P _ (clear_generated e i l).
Proof. induction l; intros i; simpl; closed. Qed.
Hint Resolve cl_clear_generated : closed.
Lemma cl_fill_rows `{!CallEnv world} t n o : P _ (fill_rows t n o).
Proof. unfold fill_rows. closed. Qed.

(** *** The statements that go through SPI *)
Lemma cl_using ps : P _ (exec_eval_using_params ps).
Proof. induction ps; simpl; unfold using_param; closed. Qed.
Lemma cl_query_string e : P _ (eval_query_string e).
Proof. unfold eval_query_string. closed. Qed.
Lemma cl_value_text v b t : P _ (value_text v b t).
Proof. unfold value_text. closed. Qed.
Hint Resolve cl_using cl_query_string cl_value_text : closed.
Lemma cl_dynquery q ps n o : P _ (exec_dynquery_with_params q ps n o).
Proof. unfold exec_dynquery_with_params. closed. Qed.
Lemma cl_format_params ds : forall first, P _ (format_params first ds).
Proof. induction ds; intros first; simpl; closed. Qed.
Lemma cl_format_using ps : forall i, P _ (format_using i ps).
Proof. induction ps; intros i; simpl; closed. Qed.
Hint Resolve cl_dynquery cl_format_params cl_format_using : closed.
Lemma cl_strict_detail d : P _ d -> P _ (strict_detail d).
Proof. intros Hd. unfold strict_detail. closed. Qed.
Lemma cl_move_result t st l h d n td rows : P _ d -> P _ (move_result t st l h d n td rows).
Proof.
  intros Hd. pose proof (cl_strict_detail d Hd). unfold move_result. closed.
Qed.
Hint Extern 1 (P _ (move_result _ _ _ _ _ _ _ _)) => apply cl_move_result : closed.
Lemma cl_expr_params e : P _ (format_expr_params e).
Proof. unfold format_expr_params. closed. Qed.
Lemma cl_prepared_params ps : P _ (format_preparedparamsdata ps).
Proof. unfold format_preparedparamsdata. closed. Qed.
Hint Resolve cl_expr_params cl_prepared_params : closed.
Lemma cl_execsql s : P _ (exec_stmt_execsql s).
Proof. unfold exec_stmt_execsql, execsql_result, into_without_data, no_destination. closed. Qed.
Hint Resolve cl_execsql : closed.
Lemma cl_check_assignable n : P _ (exec_check_assignable n).
Proof. unfold exec_check_assignable, check_isconst. closed. Qed.
Hint Resolve cl_check_assignable : closed.
Lemma cl_callstmt_varnos args : forall i outargs, P _ (callstmt_varnos i args outargs).
Proof. induction args; intros i outargs; simpl; unfold not_writable; closed. Qed.
Hint Resolve cl_callstmt_varnos : closed.
Lemma cl_call s : P _ (exec_stmt_call s).
Proof. unfold exec_stmt_call, make_callstmt_target, execute_failed. closed. Qed.
Lemma cl_get_diags e items : P _ (get_diags e items).
Proof. induction items; simpl; unfold get_diag, exec_assign_c_string; closed. Qed.
Hint Resolve cl_get_diags : closed.
Lemma cl_put_scalar d tv : P _ (put_scalar d tv).
Proof. unfold put_scalar, wrong_result_type. closed. Qed.
Hint Resolve cl_put_scalar : closed.
Lemma cl_return_next s : P _ (exec_stmt_return_next s).
Proof.
  unfold exec_stmt_return_next, return_next_var, return_next_rec, return_next_expr, non_composite.
  closed.
Qed.
Lemma cl_return_query s : P _ (exec_stmt_return_query s).
Proof. unfold exec_stmt_return_query, execute_failed. closed. Qed.
Lemma cl_open_portal n e : P _ (open_cursor_portal n e).
Proof. unfold open_cursor_portal. closed. Qed.
Lemma cl_cursor_args v q : P _ (set_cursor_args v q).
Proof. unfold set_cursor_args. closed. Qed.
Lemma cl_store_name n c p : owned n -> P _ (store_portal_name n c p).
Proof. intros Hn. unfold store_portal_name. closed. Qed.
Lemma cl_find_cursor n : P _ (find_cursor n).
Proof. unfold find_cursor. closed. Qed.
Hint Resolve cl_open_portal cl_cursor_args cl_store_name cl_find_cursor : closed.
Lemma cl_open s : owned (open_curvar s) -> P _ (exec_stmt_open s).
Proof. intros Hn. pose proof (fun c p => cl_store_name _ c p Hn). unfold exec_stmt_open, check_cursor_unused. closed. Qed.
Lemma cl_fetch s : P _ (exec_stmt_fetch s).
Proof. unfold exec_stmt_fetch, fetch_count, fetch_sqlstate. closed. Qed.
Lemma cl_recognize n b : P _ (uplpgsql_recognize_err_condition n b).
Proof. unfold uplpgsql_recognize_err_condition. closed. Qed.
Hint Resolve cl_recognize : closed.
Lemma cl_format_message params msg : P _ (format_message msg params).
Proof.
  revert params. induction msg as [|rest IH| |c rest Hne IH|c rest Hne IH] using message_ind; intros params.
  1,3: simpl; unfold param_text, bad_length; closed.
  - simpl. closed.
  - destruct params as [|e params]; [cbn; destruct (ascii_dec c "%"); [done|]; apply cl_elog|].
    rewrite (proj1 (proj2 (placeholder_eq c rest Hne))). unfold param_text. closed.
  - cbn. destruct (ascii_dec c "%"); [done|]. closed.
Qed.
Lemma cl_apply_options opts : forall r, P _ (apply_options r opts).
Proof.
  induction opts as [|o opts IH]; intros [code cn msg det hint col con dt tab sch]; simpl;
    unfold apply_option, set_option_text, already_specified; closed.
Qed.
Hint Resolve cl_format_message cl_apply_options : closed.
Lemma cl_raise s : P _ (exec_stmt_raise s).
Proof. unfold exec_stmt_raise, rethrow_current. closed. Qed.

Hint Resolve cl_call cl_return_next cl_return_query cl_fetch cl_raise : closed.
Lemma cl_simple_stmt s :
  (forall h o, s = STMT_OPEN h o -> owned (open_curvar o)) -> P _ (exec_simple_stmt s).
Proof.
  intros Ho. pose proof (fun h o E => cl_open o (Ho h o E)). unfold exec_simple_stmt, exec_stmt_perform, exec_stmt_dynexecute, dynexecute_result,
    into_without_data, exec_stmt_getdiag, exec_stmt_close, exec_stmt_commit, exec_stmt_rollback.
  closed.
Qed.

Lemma cl_return s : P _ (exec_stmt_return s).
Proof. unfold exec_stmt_return, return_variable, return_expr, non_composite. closed. Qed.


Lemma cl_assert s : P _ (exec_assert s).
Proof. unfold exec_assert. closed. Qed.
(** The CASE temporary is retyped. *)
Lemma cl_case_assign_test n e :
  (forall t, P _ (put_var n (store_datatype t))) -> P _ (case_assign_test n e).
Proof. intros Hp. unfold case_assign_test. closed. Qed.
End closure.
