(* ===== verification/Demo.v ===== *)
(** * A small environment

    A concrete instance of the PostgreSQL parameters, on which the theorems about
    execution are exercised: a handful of queries over three variables, no
    casts, and a world that logs the queries SPI ran and the messages reported. *)

From Stdlib Require Import ZArith Ascii.
From stdpp Require Import pretty.
From S2P Require Import Prelude Ast Expr Exec Assign Call.
#[local] Open Scope Z_scope.

Module Demo.

(** Datum 0 is FOUND, 1 is [x], 2 is [i]. *)
Definition int4 : UPLpgSQL_type := mk_type "int4" INT4OID TTYPE_SCALAR 4 true "b"%char false (-1).
Definition boolean : UPLpgSQL_type := mk_type "bool" BOOLOID TTYPE_SCALAR 1 true "b"%char false (-1).
Definition local (n : nat) (name : string) (t : UPLpgSQL_type) (v : Datum) : UPLpgSQL_datum :=
  DTYPE_VAR (mk_var (mk_variable n name false false None) t None (-1) 0 v false false PROMISE_NONE).
Definition variables : list UPLpgSQL_datum :=
  [local 0 "found" boolean 0; local 1 "x" int4 0; local 2 "i" int4 0].

(** The queries SPI has run, and the messages reported. *)
Definition world := list string.
Definition state (ds : list UPLpgSQL_datum) (w : world) : execstate world :=
  mk_execstate ds 0 0 true INT4OID false false INT4OID false true None None 0 0 None None 1 false None None false None w.

Definition var_value (n : nat) (s : execstate world) : Z :=
  match es_datums s !! n with Some (DTYPE_VAR v) => Ast.value v | _ => 0 end.

(** The queries the demonstration functions use. *)
Definition evaluate (q : string) (s : execstate world) : option typed_value :=
  let x := var_value 1 s in
  let i := var_value 2 s in
  let int z := Some (mk_tv z false INT4OID (-1)) in
  let bool (b : bool) := Some (mk_tv (if b then 1 else 0) false BOOLOID (-1)) in
  if String.eqb q "0" then int 0
  else if String.eqb q "1" then int 1
  else if String.eqb q "3" then int 3
  else if String.eqb q "2147483646" then int 2147483646
  else if String.eqb q "2147483647" then int 2147483647
  else if String.eqb q "x" then int x
  else if String.eqb q "x + i" then int (x + i)
  else if String.eqb q "x + 1" then int (x + 1)
  else if String.eqb q "x < 10" then bool (x <? 10)
  else if String.eqb q "x = 9" then bool (x =? 9)
  else if String.eqb q "null" then Some (mk_tv 0 true INT4OID (-1))
  else None.

Definition done {world A} (a : A) : pg world A := fun w => PgOk a w.
Definition nothing {world A} : pg world A :=
  fun w => PgErr (mk_error ERRCODE_FEATURE_NOT_SUPPORTED "no such object") w.

(** Every query SPI runs yields one row with the expression's value. *)
Definition spi_select (e : UPLpgSQL_expr) (s : execstate world) : outcome (execstate world) spi_result :=
  match evaluate (query e) s with
  | Some tv =>
      Ok (mk_spi_result SPI_OK_SELECT 1
            (Some (mk_tupdesc RECORDOID (-1) [mk_attr (tv_type tv) (-1) false 4 "i"%char],
                   [[(tv_value tv, tv_isnull tv)]])))
         (with_world (es_world s ++ [query e]) s)
  | None => Err (mk_error ERRCODE_SYNTAX_ERROR ("syntax error: " +:+ query e)) s
  end.

(** An environment without tables, casts and composite values.  What varies: the
    world, the evaluation of simple expressions and of queries, where messages go, and
    which values are read/write pointers. *)
Definition env_for {world : Type} (simple : UPLpgSQL_expr -> exec (execstate world) (option typed_value))
    (select : UPLpgSQL_expr -> exec (execstate world) spi_result) (log : string -> world -> world)
    (rw : Datum -> bool) (read_only : Datum -> Datum) : PgEnv world := {|
  exec_eval_simple_expr := simple;
  SPI_execute_plan_with_paramlist := fun e _ => select e;
  SPI_execute_plan_nonatomic := select;
  SPI_execute_plan_into_store := fun e => xret SPI_OK_SELECT;
  SPI_execute_into_store := fun _ _ => xret SPI_OK_SELECT;
  portal := unit;
  SPI_cursor_open_with_paramlist := fun _ _ => xret None;
  has_plan := fun _ _ => true;
  exec_prepare_plan := fun _ _ => done tt;
  plan_command_tags := fun _ _ => [CMDTAG_OTHER];
  get_callstmt := fun _ => nothing;
  get_func_arg_info := fun _ => nothing;
  SPI_execute_extended := fun _ _ => nothing;
  SPI_result := fun _ => SPI_ERROR_OTHER 0;
  SPI_result_code_string := fun _ => "?";
  SPI_cursor_parse_open := fun _ _ _ _ => done None;
  SPI_cursor_find := fun _ _ => None;
  portal_name := fun _ => "p";
  SPI_cursor_fetch := fun _ _ => done (mk_tupdesc RECORDOID (-1) [], []);
  SPI_scroll_cursor_fetch := fun _ _ _ => nothing;
  SPI_scroll_cursor_move := fun _ _ _ => nothing;
  SPI_cursor_close := fun _ => done tt;
  PinPortal := fun _ => done tt;
  UnpinPortal := fun _ => done tt;
  SPI_commit := fun _ => done tt;
  SPI_rollback := fun _ => done tt;
  BeginInternalSubTransaction := done tt;
  ReleaseCurrentSubTransaction := done tt;
  RollbackAndReleaseCurrentSubTransaction := done tt;
  FunctionCallInvoke := fun _ _ _ => nothing;
  do_cast_value := fun _ _ _ _ _ _ => nothing;
  uplpgsql_build_datatype := fun t m => done (mk_type "?" t TTYPE_SCALAR 4 true "b"%char false m);
  type_is_rowtype := fun _ => false;
  get_element_type := fun _ => InvalidOid;
  format_type_be := fun _ => "?";
  get_typlenbyval := fun _ => (4, true);
  convert_value_to_string := fun v _ => done (pretty v);
  CStringGetTextDatum := fun _ => done 0;
  DatumGetCString := fun _ _ => "?";
  TextDatumGetCString := fun _ _ => "?";
  namein := fun _ => nothing;
  get_namespace_name := fun _ => nothing;
  is_external_non_expanded := fun _ _ => false;
  is_expanded := fun _ v => rw v;
  is_expanded_rw := fun _ v => rw v;
  MakeExpandedObjectReadOnly := fun _ v null l => if negb null && (l =? -1) then read_only v else v;
  detoast_external_attr := fun v => done v;
  expand_array := fun v => done v;
  datumTransfer := fun v _ _ => done v;
  datumCopy := fun v _ _ => done v;
  DatumGetEOHP := fun _ v => v;
  make_expanded_record_from_typeid := fun _ _ => nothing;
  make_expanded_record_from_tupdesc := fun _ => nothing;
  make_expanded_record_from_exprecord := fun _ => nothing;
  expanded_record_set_tuple := fun _ _ _ _ => nothing;
  expanded_record_set_fields := fun _ _ _ => nothing;
  expanded_record_set_field := fun _ _ _ _ _ => nothing;
  deconstruct_expanded_record := fun _ => nothing;
  DeleteExpandedObject := fun _ => nothing;
  expanded_record_get_tupdesc := fun _ _ => mk_tupdesc RECORDOID (-1) [];
  expanded_record_fvalue := fun _ _ => None;
  expanded_record_get_tuple := fun _ => nothing;
  expanded_record_fields := fun _ _ => [];
  expanded_record_lookup_field := fun _ _ _ => None;
  expanded_record_get_field := fun _ _ _ => (0, true);
  ExpandedRecordIsEmpty := fun _ _ => true;
  ExpandedRecordIsDomain := fun _ _ => false;
  er_decltypeid := fun _ _ => InvalidOid;
  er_type := fun _ _ => (InvalidOid, -1);
  er_tupdesc_id := fun _ _ => 0;
  current_rectypeid := fun r => done (rectypeid r);
  composite_datum_type := fun _ _ => (InvalidOid, -1);
  composite_datum_tuple := fun _ => nothing;
  lookup_rowtype_tupdesc := fun _ _ => nothing;
  convert_tuple_by_position := fun _ _ _ t => done t;
  HeapTupleGetDatum := fun _ _ => nothing;
  ARR_NDIM := fun _ _ => 0;
  ARR_ELEMTYPE := fun _ _ => InvalidOid;
  array_iterate := fun _ _ _ => [];
  construct_text_array := fun _ _ => nothing;
  errcode := fun m => Z.of_nat (String.length m);
  unpack_sql_state := fun _ => "?";
  string_quoted := fun t => t;
  report_message := fun _ e w => PgOk tt (log (err_message e) w);
  error_context := fun _ _ => None;
  GetErrorContextStack := done "?";
  uplpgsql_check_asserts := true;
  uplpgsql_extra_errors := 0;
  uplpgsql_extra_warnings := 0
|}.
Definition env_with (simple : UPLpgSQL_expr -> exec (execstate world) (option typed_value)) : PgEnv world :=
  env_for simple spi_select (fun m w => w ++ [m]) (fun _ => false) (fun v => v).
#[export] Instance env : PgEnv world := env_with (fun e s => Ok (evaluate (query e) s) s).

(** Results are scalars. *)
Definition call_env_for {world} (E : PgEnv world) : @CallEnv world E := {|
  TransferExpandedObject := fun v => done v;
  get_call_result_type := fun _ _ => done TYPEFUNC_OTHER;
  domain_check := fun _ _ => done tt;
  convert_tuples_by_position := fun _ _ _ => done None;
  SPI_returntuple := fun _ _ => nothing;
  EOH_flatten_as := fun _ _ _ => nothing;
  expanded_record_set_field_internal := fun _ _ _ _ => done tt;
  SPI_register_trigger_data := fun _ => done tt;
  returns_relation_desc := fun _ _ _ => true
|}.
#[export] Instance call_env simple : @CallEnv world (env_with simple) := call_env_for (env_with simple).

Definition e (q : string) : UPLpgSQL_expr := mk_expr q (-1) false false [].
Definition h : stmt_head := mk_head 1 1.
Definition set_x (q : string) : UPLpgSQL_stmt := STMT_ASSIGN h (mk_assign 1 (e q)).
Definition perform (q : string) : UPLpgSQL_stmt := STMT_PERFORM h (mk_perform (e q)).
Definition func (body : list UPLpgSQL_stmt) : UPLpgSQL_function :=
  scalar_function 1 "f()" INT4OID false [] 0 variables (mk_block None body [1%nat; 2%nat] None None).

(** A FOR loop, a WHILE loop that is left by EXIT WHEN, a call into SPI, and
    RETURN from within a loop. *)
Definition sum : UPLpgSQL_function :=
  func [set_x "0";
        STMT_FORI h (mk_fori None 2 (e "1") (e "3") (Some (e "1")) false [set_x "x + i"]);
        STMT_WHILE h (mk_while (Some "w") (e "x < 10")
          [set_x "x + 1"; STMT_EXIT h (mk_exit true (Some "w") (Some (e "x = 9")))] true);
        perform "x";
        STMT_LOOP h (mk_loop None
          [STMT_IF h (mk_if (e "x < 10") [STMT_RETURN h (mk_return (Some (e "x")) None)] [] [])])].
End Demo.
