(* ===== verification/ExprDemo.v ===== *)
(** * A small compile-time environment

    A concrete instance of what the expression compiler gets from outside, with the
    variables of file Demo and the trees of its queries. *)

From Stdlib Require Import ZArith.
From S2P Require Import Prelude Ast Escape Expr Float IR CoreEmit StmtEmit ExprEmit Demo.
#[local] Open Scope Z_scope.

Module ExprDemo.

Definition int4_param (id : Z) : Expr := Param PARAM_EXTERN id INT4OID.
Definition int4_const (v : Z) : Expr := Const INT4OID true v false.
Definition op (f : func_oid) (l r : Expr) : Expr := OpExpr f InvalidOid InvalidOid [l; r].

(** [x] and [i] are parameters 2 and 3. *)
Definition x : Expr := int4_param 2.
Definition i : Expr := int4_param 3.

Definition tree (q : string) : option Expr :=
  if String.eqb q "x" then Some x
  else if String.eqb q "1" then Some (int4_const 1)
  else if String.eqb q "x + i" then Some (op F_INT4PL x i)
  else if String.eqb q "x + 1" then Some (op F_INT4PL x (int4_const 1))
  else if String.eqb q "x < 10" then Some (op F_INT4LT x (int4_const 10))
  else if String.eqb q "x = 9" then Some (op F_INT4EQ x (int4_const 9))
  else None.

Definition select (e : Expr) : Query :=
  mk_query true false false false false false false false false false false false
    false false false false false false [e].

(** The OIDs of [fmgroids.h] do not matter here. *)
#[export] Instance env : CompileEnv := {|
  ce_datums := Demo.variables;
  ce_plan_sources := fun e => option_map (fun t => [[select t]]) (tree (query e));
  ce_result_desc := fun _ => None;
  ce_lookup_field := fun _ _ => None;
  ce_get_element_type := fun _ => InvalidOid;
  ce_get_typlenbyvalalign := fun _ => (4, true, 4);
  ce_get_typbyval := fun _ => true;
  ce_oid_of := fun f => match f with F_OTHER oid => oid | _ => 1 end;
  ce_numeric_float8 := fun v => v;
  ce_datumCopy := fun v => v;
  ce_has_polymorphic := fun _ => false;
  ce_fn_strict := fun _ => true;
  ce_get_func_name := fun f => match f with F_OTHER 1193 => Some "array_fill"%string | _ => None end
|}.
End ExprDemo.
