(* ===== verification/SqlProps.v ===== *)
(** * What SQL statements do to variables

    INTO: a row of a query result moves into the target variables column by
    column, and STRICT admits exactly one row. *)

From Stdlib Require Import ZArith Lia Ascii.
From S2P Require Import Prelude Ast Exec Assign Errcodes Raise SqlStmts Demo.
#[local] Open Scope Z_scope.

Section into.
Context {world : Type} `{PgEnv world}.
Abbreviation M := (exec (execstate world)).

(** ** Rows into variables *)

(** A by-value variable that takes a column as it is, without a cast. *)
Definition takes (a : pg_attribute) (v : UPLpgSQL_var) : Prop :=
  typoid (var_datatype v) = att_typid a
  /\ (atttypmod (var_datatype v) = att_typmod a \/ atttypmod (var_datatype v) = -1)
  /\ typbyval (var_datatype v) = true /\ typlen (var_datatype v) <> -1
  /\ notnull (var_head v) = false.

Definition takes_at (s : execstate world) (n : nat) (a : pg_attribute) : Prop :=
  exists v, es_datums s !! n = Some (DTYPE_VAR v) /\ takes a v.

(** The variable holds the column's value. *)
Definition holds_at (s : execstate world) (n : nat) (c : Datum * bool) : Prop :=
  exists v, es_datums s !! n = Some (DTYPE_VAR v) /\ value v = c.1 /\ isnull v = c.2.

(** Only datum [n] may differ. *)
Definition differs_at (n : nat) (s s' : execstate world) : Prop :=
  forall m, m <> n -> es_datums s' !! m = es_datums s !! m.

Lemma put_var_at n g v s :
  es_datums s !! n = Some (DTYPE_VAR v) ->
  exists s', put_var n g s = Ok tt s' /\ es_datums s' !! n = Some (DTYPE_VAR (g v))
    /\ differs_at n s s' /\ es_world s' = es_world s.
Proof.
  intros Hv. exists (with_datums (alter (update_var g) n) s). split_and!; [done| |..|done]; simpl.
  - by rewrite list_lookup_alter_eq, Hv.
  - intros m Hm. simpl. by rewrite list_lookup_alter_ne.
Qed.

Lemma get_datum_at n d (s : execstate world) : es_datums s !! n = Some d -> get_datum n s = Ok d s.
Proof. intros Hd. unfold get_datum, xbind, xget. by rewrite Hd. Qed.

Lemma cast_same tv t m s :
  tv_type tv = t -> (m = tv_typmod tv \/ m = -1) -> cast_tv tv t m s = Ok (tv_value tv, tv_isnull tv) s.
Proof.
  intros <- Hm. unfold cast_tv, exec_cast_value. rewrite Z.eqb_refl. simpl.
  destruct Hm as [-> | ->]; rewrite ?Z.eqb_refl, ?andb_false_r; [|done]. done.
Qed.

Lemma assign_field_takes s n a c :
  takes_at s n a ->
  exists s', assign_field n (mk_tv c.1 c.2 (att_typid a) (att_typmod a)) s = Ok tt s'
    /\ holds_at s' n c /\ differs_at n s s' /\ es_world s' = es_world s.
Proof.
  intros (v & Hv & Ht & Hm & Hbv & Hlen & Hnn). unfold assign_field, xbind at 1.
  rewrite (get_datum_at _ _ _ Hv). cbv beta iota. unfold assign_value_var, xbind at 1.
  rewrite cast_same by done. cbn [tv_value tv_isnull fst snd]. rewrite Hnn, andb_false_r.
  unfold own_value, xbind, xget. rewrite Hbv. cbn.
  destruct (negb (value v =? c.1) || isnull v || c.2) eqn:Eq.
  - unfold assign_simple_var, get_var, xbind, xget. rewrite (get_datum_at _ _ _ Hv). cbn.
    destruct (Z.eqb_spec (typlen (var_datatype v)) (-1)); [done|]. rewrite !andb_false_r. cbn.
    destruct (put_var_at n (store_value c.1 c.2 false) v s Hv) as (s' & -> & Hs' & Hd & Hw).
    exists s'. split_and!; [done| |done|done]. by eexists.
  - apply orb_false_iff in Eq as [[Eq En]%orb_false_iff Ec]. apply negb_false_iff, Z.eqb_eq in Eq.
    destruct (put_var_at n disarm_promise v s Hv) as (s' & -> & Hs' & Hd & Hw).
    exists s'. split_and!; [done| |done|done]. eexists. split; [done|]. simpl. split; congruence.
Qed.

Lemma takes_at_differs n s s' m a : differs_at n s s' -> m <> n -> takes_at s m a -> takes_at s' m a.
Proof. intros Hd Hne (v & Hv & Ht). exists v. by rewrite Hd. Qed.

Lemma assign_fields_takes vs : forall (cols : list (pg_attribute * (Datum * bool))) s,
  NoDup vs -> (length vs <= length cols)%nat ->
  Forall (fun c => attisdropped c.1 = false) cols ->
  (forall i n c, vs !! i = Some n -> cols !! i = Some c -> takes_at s n c.1) ->
  exists s', assign_fields 0 vs cols s = Ok (drop (length vs) cols) s'
    /\ (forall i n c, vs !! i = Some n -> cols !! i = Some c -> holds_at s' n c.2)
    /\ (forall n, n ∉ vs -> es_datums s' !! n = es_datums s !! n) /\ es_world s' = es_world s.
Proof.
  induction vs as [|n vs IH]; intros cols s Hnd Hlen Hdr Ht; simpl.
  { exists s. by split_and!. }
  destruct cols as [|c cols]; simpl in Hlen; [lia|].
  apply list.NoDup_cons in Hnd as [Hn Hnd]. apply list.Forall_cons in Hdr as [Hc Hdr].
  unfold next_column. simpl. rewrite Hc. cbn.
  destruct (assign_field_takes s n c.1 c.2 (Ht 0%nat n c eq_refl eq_refl)) as (s1 & E1 & Hh1 & Hd1 & Hw1).
  unfold xbind, xret. cbn. rewrite E1.
  destruct (IH cols s1 Hnd ltac:(lia) Hdr) as (s2 & E2 & Hh2 & Hd2 & Hw2).
  { intros i m d Hi Hci. eapply takes_at_differs; [done| |by apply (Ht (S i))].
    intros ->. apply Hn. by eapply list_elem_of_lookup_2. }
  exists s2. split_and!; [done| | |congruence].
  - intros [|i] m d Hi Hci; simpl in *; [|by eauto]. simplify_eq.
    destruct Hh1 as (v & Hv & Hv1). exists v. by rewrite Hd2.
  - intros m [Hm Hm']%not_elem_of_cons. rewrite Hd2 by done. by apply Hd1.
Qed.

(** C28: INTO a list of distinct variables whose types are passed by value, none
    of them declared NOT NULL, when every column has the type of its variable (no casts
    take place), the row has no dropped columns and at least as many columns as there are
    variables, and [strict_multi_assignment] is off: each variable gets the value and null
    flag of its column, extra columns of the row are ignored, and no other datum
    changes. *)
Theorem move_row_assigns_columns row d tup s :
  extra_check_level UPLPGSQL_XCHECK_STRICTMULTIASSIGNMENT = 0 ->
  NoDup (varnos row) -> (length (varnos row) <= natts d)%nat -> length tup = natts d ->
  Forall (fun a => attisdropped a = false) (attrs d) ->
  (forall i n a, varnos row !! i = Some n -> attrs d !! i = Some a -> takes_at s n a) ->
  exists s', move_row_row row (Some tup) (Some d) s = Ok tt s'
    /\ (forall i n c, varnos row !! i = Some n -> tup !! i = Some c -> holds_at s' n c)
    /\ (forall n, n ∉ varnos row -> es_datums s' !! n = es_datums s !! n).
Proof.
  intros Hlevel Hnd Hlen Htup Hdr Ht. unfold move_row_row, move_fields_row, columns_of.
  cbv beta iota zeta. rewrite Hlevel. cbn [fst snd].
  unfold natts in *.
  destruct (assign_fields_takes (varnos row) (zip (attrs d) tup) s) as (s' & E & Hh & Hd & Hw); [done|..].
  - rewrite length_zip_with. lia.
  - apply list.Forall_forall. intros [a c] Hin%elem_of_zip_l. simpl. rewrite list.Forall_forall in Hdr. auto.
  - intros i n [a c] Hn Hc. apply lookup_zip_with_Some in Hc as (? & ? & [= -> ->] & Ha & Hc). eauto.
  - exists s'. unfold xbind. rewrite E. split_and!; [|..|done].
    + unfold no_columns_left, field_count_mismatch. by destruct (skip_dropped _).
    + intros i n c Hn Hc. assert (Hi : (i < length (attrs d))%nat) by (apply lookup_lt_Some in Hc; lia).
      destruct (lookup_lt_is_Some_2 _ _ Hi) as [a Ha]. apply (Hh i n (a, c)); [done|].
      apply lookup_zip_with_Some. eauto.
Qed.

(** ** STRICT *)

(** C27: SELECT INTO STRICT admits exactly one row.  Once the query has run, no
    rows raise NO_DATA_FOUND, more than one row raises TOO_MANY_ROWS, both before
    the target is touched, and exactly one row is moved into the target; FOUND and
    the row count are set in each case. *)
Theorem into_strict_one_row stmt target s v r s1 d rows :
  sql_into stmt = true -> sql_strict stmt = true -> sql_target stmt = Some target ->
  has_plan (es_world s) (sqlstmt stmt) = true ->
  SPI_execute_plan_with_paramlist (sqlstmt stmt) 2 s = Ok r s1 ->
  spi_rc r = SPI_OK_SELECT -> SPI_tuptable r = Some (d, rows) ->
  get_var (found_varno s1) s1 = Ok v s1 -> print_strict_params s1 = false ->
  let s2 := with_eval_processed (Z.of_nat (SPI_processed r))
              (set_found (negb (Nat.eqb (SPI_processed r) 0)) s1) in
  exec_stmt_execsql stmt s =
    match SPI_processed r with
    | O => Err (no_rows_error None) s2
    | S O => match rows with
             | row :: _ => exec_move_row target (Some row) (Some d) s2
             | [] => Stuck
             end
    | _ => Err (with_hint "Make sure the query returns a single row, or use LIMIT 1."
                  (too_many_rows_error None)) s2
    end.
Proof.
  intros Hinto Hstrict Htgt Hplan Hspi Hrc Htab Hfound Hpsp s2.
  unfold exec_stmt_execsql, prepare, execsql_result, xbind, xget.
  rewrite Hinto, Hstrict, Hplan. cbn -[exec_move_row]. rewrite Hspi, Hrc. cbn -[exec_move_row].
  unfold exec_set_found, xbind, xget. rewrite Hfound. cbn -[exec_move_row]. rewrite Htab, Htgt.
  unfold move_result, strict_detail, xbind, xget. unfold s2.
  destruct (SPI_processed r) as [|[|n]]; cbn -[exec_move_row]; rewrite ?Hpsp; cbn -[exec_move_row];
    [done| |done].
  by destruct rows.
Qed.
End into.

Module SqlExamples.
Import Demo.

Definition two_ints : TupleDesc :=
  mk_tupdesc RECORDOID (-1) [mk_attr INT4OID (-1) false 4 "i"%char; mk_attr INT4OID (-1) false 4 "i"%char].
Definition x_and_i : UPLpgSQL_row := mk_row (mk_variable 3 "r" false false None) None ["x"; "i"] [1%nat; 2%nat].

(** [INTO x, i] with the row (5, NULL). *)
Lemma move_row_assigns_columns_witness :
  exists s', move_row_row x_and_i (Some [(5, false); (0, true)]) (Some two_ints) (state variables []) = Ok tt s'
    /\ holds_at s' 1 (5, false) /\ holds_at s' 2 (0, true) /\ es_datums s' !! 0%nat = variables !! 0%nat.
Proof.
  destruct (move_row_assigns_columns x_and_i two_ints [(5, false); (0, true)] (state variables []))
    as (s' & E & Hh & Hd).
  - reflexivity.
  - apply (bool_decide_unpack (NoDup [1%nat; 2%nat])). reflexivity.
  - vm_compute. lia.
  - reflexivity.
  - repeat constructor.
  - intros [|[|i]] n a Hn Ha; simpl in Hn, Ha; try discriminate; injection Hn as <-; injection Ha as <-;
      eexists; (split; [reflexivity|]); repeat split; simpl; auto; discriminate.
  - exists s'. split; [exact E|]. split; [exact (Hh 0%nat _ _ eq_refl eq_refl)|].
    split; [exact (Hh 1%nat _ _ eq_refl eq_refl)|].
    apply Hd. apply (bool_decide_unpack (0%nat ∉ [1%nat; 2%nat])). reflexivity.
Defined.

Definition record_x : list UPLpgSQL_datum :=
  variables ++ [DTYPE_ROW (mk_row (mk_variable 3 "r" false false None) None ["x"] [1%nat])].

(** [SELECT 3 INTO STRICT x]. *)
Lemma into_strict_one_row_witness :
  exists s', exec_stmt_execsql (mk_execsql (e "3") true true (Some 3%nat)) (state record_x []) = Ok tt s'
    /\ var_value 1 s' = 3.
Proof.
  eexists. split; [|shelve].
  rewrite (@into_strict_one_row world env (mk_execsql (e "3") true true (Some 3%nat)) 3 (state record_x [])
    _ _ _ _ _ eq_refl eq_refl eq_refl eq_refl eq_refl eq_refl eq_refl eq_refl eq_refl).
  vm_compute. reflexivity.
  Unshelve. reflexivity.
Defined.

Lemma sqlstate_roundtrip_witness :
  exists code, sqlstate_code "22012" = Some code /\ sqlstate_text code = "22012".
Proof. eexists. split; [reflexivity|]. apply (sqlstate_roundtrip "22012"). reflexivity. Defined.

(** Class 22 catches division by zero (22012), not a unique violation (23505). *)
Lemma class_condition_matches_witness :
  condition_matches (MAKE_SQLSTATE "2" "2" "0" "1" "2")
    (mk_condition (MAKE_SQLSTATE "2" "2" "0" "0" "0") "data_exception") = true
  /\ condition_matches (MAKE_SQLSTATE "2" "3" "5" "0" "5")
    (mk_condition (MAKE_SQLSTATE "2" "2" "0" "0" "0") "data_exception") <> true.
Proof.
  split.
  - apply class_condition_matches; [reflexivity..|]. split; reflexivity.
  - intros Hm. apply class_condition_matches in Hm; [|reflexivity..]. destruct Hm as [_ Hm]. discriminate Hm.
Defined.

(** [RAISE EXCEPTION 'x is %, 100%%', x]. *)
Definition raise_x : UPLpgSQL_stmt_raise := mk_raise ERROR None (Some "x is %, 100%%") [e "x"] [].
Lemma raise_format_substitutes_witness :
  check_raise_parameters raise_x = Success tt
  /\ format_message "x is %, 100%%" (raise_params raise_x) (state variables [])
     = Ok "x is 0, 100%" (state variables []).
Proof.
  split; [reflexivity|].
  rewrite (@raise_format_substitutes world env raise_x "x is %, 100%%" (state variables []) eq_refl eq_refl).
  vm_compute. reflexivity.
Defined.

(** "null_value_not_allowed" stands for two codes. *)
Lemma raise_caught_by_name_witness :
  exists err conds,
    exec_stmt_raise (mk_raise ERROR (Some "null_value_not_allowed") None [] []) (state variables [])
      = Err err (state variables [])
    /\ uplpgsql_parse_err_condition "null_value_not_allowed" = Success conds
    /\ exception_matches_conditions err conds = true.
Proof.
  apply (raise_caught_by_name "null_value_not_allowed" "ERRCODE_NULL_VALUE_NOT_ALLOWED").
  - assert (Hall : forallb (fun p => negb (errcode (PgEnv := env) p.2 =? 0)) exception_labels = true)
      by (vm_compute; reflexivity).
    intros p Hp. rewrite List.forallb_forall in Hall. specialize (Hall p (proj1 (list_elem_of_In _ _) Hp)).
    apply negb_true_iff, Z.eqb_neq in Hall. exact Hall.
  - apply (bool_decide_unpack (("null_value_not_allowed", "ERRCODE_NULL_VALUE_NOT_ALLOWED") ∈ exception_labels)).
    vm_compute. exact I.
  - unfold ERROR. lia.
Defined.
End SqlExamples.
