(* ===== verification/Interp.v ===== *)
(** * The interpreter

    [exec_stmts] and the [exec_stmt_*] functions of [common/upl_exec.c]: the
    reference semantics of the language, which compiled code has to agree with.

    [exitlabel] is the only state the statement level has of its own.  A
    statement returns one of the four codes of [UPLpgSQL_rc]; EXIT and CONTINUE
    travel outwards as codes until a loop or block recognises their label
    ([LOOP_RC_PROCESSING]), whereas compiled code branches straight to the
    target.  That the two come to the same is the subject of file Simulation.

    The C functions call [exec_stmts] recursively on their bodies; here they take
    that function as the argument [run], and the fuelled [exec_stmts] ties the
    knot.  Fuel counts nesting and loop iterations; more fuel never changes a
    result (theorem [exec_stmts_mono]). *)

From Stdlib Require Import ZArith.
From stdpp Require Import pretty.
From S2P Require Import Prelude Ast Exec Assign SqlStmts.
#[local] Open Scope Z_scope.
Open Scope exec_scope.

(** ** State and return codes *)
Inductive exec_rc := RC_OK | RC_EXIT | RC_RETURN | RC_CONTINUE.

#[export] Instance exec_rc_eq_dec : EqDecision exec_rc.
Proof. solve_decision. Defined.

Record xstate (world : Type) := mk_xstate {
  exitlabel : option string;
  core : execstate world
}.
Arguments mk_xstate {world}. Arguments exitlabel {world}. Arguments core {world}.

(** Run a primitive on the core state. *)
Definition lift {world A} (m : exec (execstate world) A) : exec (xstate world) A :=
  fun s => match m (core s) with
           | Ok a c => Ok a (mk_xstate (exitlabel s) c)
           | Err e c => Err e (mk_xstate (exitlabel s) c)
           | Stuck => Stuck
           | OutOfFuel => OutOfFuel
           end.

Definition set_exitlabel {world} (l : option string) : exec (xstate world) unit :=
  xmodify (fun s => mk_xstate l (core s)).

Definition label_eqb (a b : option string) : bool :=
  match a, b with Some x, Some y => String.eqb x y | _, _ => false end.

Section interpreter.
Context {world : Type} `{PgEnv world}.
Abbreviation X := (exec (xstate world)).

(** [LOOP_RC_PROCESSING(looplabel, exit_action)]: the new [rc], and whether the
    exit action is taken. *)
Definition LOOP_RC_PROCESSING (looplabel : option string) (rc : exec_rc) : X (exec_rc * bool) :=
  s <~ xget;
  match rc with
  | RC_OK => xret (RC_OK, false)
  | RC_RETURN => xret (RC_RETURN, true)
  | RC_EXIT =>
      match exitlabel s with
      | None => xret (RC_OK, true)
      | Some _ =>
          if label_eqb looplabel (exitlabel s)
          then set_exitlabel None ;~ xret (RC_OK, true)
          else xret (RC_EXIT, true)
      end
  | RC_CONTINUE =>
      match exitlabel s with
      | None => xret (RC_OK, false)
      | Some _ =>
          if label_eqb looplabel (exitlabel s)
          then set_exitlabel None ;~ xret (RC_OK, false)
          else xret (RC_CONTINUE, true)
      end
  end.

Section statements.
(** [exec_stmts], and the bound on loop iterations. *)
Context (run : list UPLpgSQL_stmt -> X exec_rc) (fuel : nat).

Definition exec_stmt_assign (s : UPLpgSQL_stmt_assign) : X exec_rc :=
  lift (exec_assign_expr (assign_varno s) (assign_expr s)) ;~ xret RC_OK.

Fixpoint exec_elsifs (l : list (UPLpgSQL_if_elsif UPLpgSQL_stmt)) (else_body : list UPLpgSQL_stmt)
    : X exec_rc :=
  match l with
  | [] => run else_body
  | elif :: l' =>
      v <~ lift (eval_cond (elsif_cond elif));
      if v : bool then run (elsif_stmts elif) else exec_elsifs l' else_body
  end.

Definition exec_stmt_if (s : UPLpgSQL_stmt_if UPLpgSQL_stmt) : X exec_rc :=
  v <~ lift (eval_cond (if_cond s));
  if v : bool then run (then_body s) else exec_elsifs (elsif_list s) (else_body s).

(** "We can now discard any value we had for the temp variable". *)
Definition discard_test (s : UPLpgSQL_stmt_case UPLpgSQL_stmt) : X unit :=
  match t_expr s with
  | Some _ => lift (assign_simple_var (t_varno s) 0 true false)
  | None => xret tt
  end.

Fixpoint exec_whens (s : UPLpgSQL_stmt_case UPLpgSQL_stmt)
    (l : list (UPLpgSQL_case_when UPLpgSQL_stmt)) : X exec_rc :=
  match l with
  | [] =>
      discard_test s ;~
      if have_else s then run (else_stmts s)
      else throw case_not_found
  | cwt :: l' =>
      v <~ lift (eval_cond (when_expr cwt));
      if v : bool then discard_test s ;~ run (when_stmts cwt) else exec_whens s l'
  end.

Definition exec_stmt_case (s : UPLpgSQL_stmt_case UPLpgSQL_stmt) : X exec_rc :=
  match t_expr s with
  | Some e => lift (case_assign_test (t_varno s) e)
  | None => xret tt
  end ;~
  exec_whens s (case_when_list s).

Fixpoint loop_forever (n : nat) (label : option string) (body : list UPLpgSQL_stmt) : X exec_rc :=
  match n with
  | O => fun _ => OutOfFuel
  | S n' =>
      rc <~ run body;
      p <~ LOOP_RC_PROCESSING label rc;
      if p.2 : bool then xret p.1 else loop_forever n' label body
  end.

Definition exec_stmt_loop (s : UPLpgSQL_stmt_loop UPLpgSQL_stmt) : X exec_rc :=
  loop_forever fuel (loop_label s) (loop_body s).

Fixpoint loop_while (n : nat) (s : UPLpgSQL_stmt_while UPLpgSQL_stmt) : X exec_rc :=
  match n with
  | O => fun _ => OutOfFuel
  | S n' =>
      go <~ (if test_at_top s then lift (eval_cond (while_cond s)) else xret true);
      if negb go then xret RC_OK
      else
        rc <~ run (while_body s);
        p <~ LOOP_RC_PROCESSING (while_label s) rc;
        if p.2 : bool then xret p.1
        else
          stop <~ (if test_at_top s then xret false else lift (eval_cond (while_cond s)));
          if stop : bool then xret p.1 else loop_while n' s
  end.

Definition exec_stmt_while (s : UPLpgSQL_stmt_while UPLpgSQL_stmt) : X exec_rc := loop_while fuel s.

(** ** FOR over integers *)

(** A bound, cast to the loop variable's type. *)
Definition fori_bound (t : UPLpgSQL_type) (e : UPLpgSQL_expr) (what : string) : X Z :=
  tv <~ lift (exec_eval_expr e);
  cast <~ lift (cast_tv tv (typoid t) (atttypmod t));
  if cast.2 : bool
  then ereport ERRCODE_NULL_VALUE_NOT_ALLOWED (what +:+ " of FOR loop cannot be null")
  else xret (DatumGetInt32 cast.1).

Definition by_value_message : string := "BY value of FOR loop must be greater than zero".

Definition fori_step_value (t : UPLpgSQL_type) (step : option UPLpgSQL_expr) : X Z :=
  match step with
  | Some e =>
      step_value <~ fori_bound t e "BY value";
      if step_value <=? 0 then ereport ERRCODE_INVALID_PARAMETER_VALUE by_value_message
      else xret step_value
  | None => xret 1
  end.

(** The overflow test is made on the unwrapped operands. *)
Definition fori_next (reverse : bool) (loop_value step_value : Z) : option Z :=
  if reverse
  then if loop_value <? PG_INT32_MIN + step_value then None else Some (loop_value - step_value)
  else if loop_value >? PG_INT32_MAX - step_value then None else Some (loop_value + step_value).

(** The loop proper: the final code, and [found]. *)
Fixpoint loop_fori (n : nat) (s : UPLpgSQL_stmt_fori UPLpgSQL_stmt) (end_value step_value : Z)
    (loop_value : Z) (found : bool) : X (exec_rc * bool) :=
  match n with
  | O => fun _ => OutOfFuel
  | S n' =>
      if (if fori_reverse s then loop_value <? end_value else loop_value >? end_value)
      then xret (RC_OK, found)
      else
        lift (assign_simple_var (fori_var s) (Int32GetDatum loop_value) false false) ;~
        rc <~ run (fori_body s);
        p <~ LOOP_RC_PROCESSING (fori_label s) rc;
        if p.2 : bool then xret (p.1, true)
        else
          match fori_next (fori_reverse s) loop_value step_value with
          | None => xret (p.1, true)
          | Some next => loop_fori n' s end_value step_value next true
          end
  end.

Definition exec_stmt_fori (s : UPLpgSQL_stmt_fori UPLpgSQL_stmt) : X exec_rc :=
  var <~ lift (get_var (fori_var s));
  let t := var_datatype var in
  loop_value <~ fori_bound t (fori_lower s) "lower bound";
  end_value <~ fori_bound t (fori_upper s) "upper bound";
  step_value <~ fori_step_value t (fori_step s);
  r <~ loop_fori fuel s end_value step_value loop_value false;
  lift (exec_set_found r.2) ;~
  xret r.1.

(** ** FOR over rows *)

(** What [exec_for_query] remembers between rows to "optimize away repeated
    creations of expanded records": the descriptor of the record it filled last
    ([previous_id]) and whether rows fit it as they are ([tupdescs_match]). *)
Record row_cache := mk_row_cache { previous_id : option Z; tupdescs_match : bool }.

(** Whether physical assignment is OK next time. *)
Definition rows_fit (w : world) (rec : UPLpgSQL_rec) (e : Datum) (d : TupleDesc) : bool :=
  (rectypeid rec =? RECORDOID) || (rectypeid rec =? tdtypeid d)
  || compatible_tupdescs d (expanded_record_get_tupdesc w e).

Definition move_loop_row_rec (n : nat) (d : TupleDesc) (row : tuple) (c : row_cache)
    : exec (execstate world) row_cache :=
  s <~ xget;
  rec <~ get_rec n;
  let reuse := match erh rec, previous_id c with
               | Some e, Some id => (er_tupdesc_id (es_world s) e =? id) && tupdescs_match c
               | _, _ => false
               end in
  match erh rec, reuse with
  | Some e, true =>
      pg_call (expanded_record_set_tuple e (Some row) true (negb (atomic s))) ;~ xret c
  | _, _ =>
      exec_move_row n (Some row) (Some d) ;~
      s <~ xget;
      rec <~ get_rec n;
      match erh rec with
      | None => undefined
      | Some e =>
          xret (mk_row_cache (Some (er_tupdesc_id (es_world s) e))
                  (tupdescs_match c && rows_fit (es_world s) rec e d))
      end
  end.

(** One row goes into the loop variable. *)
Definition move_loop_row (n : nat) (d : TupleDesc) (row : tuple) (c : row_cache)
    : exec (execstate world) row_cache :=
  target <~ get_datum n;
  match target with
  | DTYPE_REC _ => move_loop_row_rec n d row c
  | _ => exec_move_row n (Some row) (Some d) ;~ xret c
  end.

(** The rows of one batch: the final code when [LOOP_RC_PROCESSING] leaves the
    loop. *)
Fixpoint run_batch (q : UPLpgSQL_stmt_forq UPLpgSQL_stmt) (d : TupleDesc) (rows : list tuple)
    (c : row_cache) : X (row_cache + exec_rc) :=
  match rows with
  | [] => xret (inl c)
  | row :: rows' =>
      c' <~ lift (move_loop_row (forq_var q) d row c);
      rc <~ run (forq_body q);
      p <~ LOOP_RC_PROCESSING (forq_label q) rc;
      if p.2 : bool then xret (inr p.1) else run_batch q d rows' c'
  end.

Fixpoint loop_rows (n : nat) (q : UPLpgSQL_stmt_forq UPLpgSQL_stmt) (portal : portal)
    (prefetch_ok : bool) (tuptab : TupleDesc * list tuple) (c : row_cache) : X exec_rc :=
  match n with
  | O => fun _ => OutOfFuel
  | S n' =>
      match tuptab.2 with
      | [] => xret RC_OK
      | _ =>
          r <~ run_batch q tuptab.1 tuptab.2 c;
          match r with
          | inr rc => xret rc
          | inl c' =>
              more <~ lift (pg_call (SPI_cursor_fetch portal (if prefetch_ok then 50 else 1)%nat));
              loop_rows n' q portal prefetch_ok more c'
          end
      end
  end.

Definition exec_for_query (q : UPLpgSQL_stmt_forq UPLpgSQL_stmt) (portal : portal)
    (prefetch_ok : bool) : X exec_rc :=
  lift (pg_call (PinPortal portal)) ;~
  s <~ xget;
  let prefetch_ok := prefetch_ok && atomic (core s) in
  tuptab <~ lift (pg_call (SPI_cursor_fetch portal (if prefetch_ok then 10 else 1)%nat));
  (match tuptab.2 with
   | [] => lift (exec_move_row (forq_var q) None (Some tuptab.1))
   | _ => xret tt
   end) ;~
  rc <~ loop_rows fuel q portal prefetch_ok tuptab (mk_row_cache None true);
  lift (pg_call (UnpinPortal portal)) ;~
  lift (exec_set_found (match tuptab.2 with [] => false | _ => true end)) ;~
  xret rc.

Definition exec_stmt_fors (s : UPLpgSQL_stmt_fors UPLpgSQL_stmt) : X exec_rc :=
  portal <~ lift (open_query_portal (fors_query s));
  rc <~ exec_for_query (fors_q s) portal true;
  lift (pg_call (SPI_cursor_close portal)) ;~
  xret rc.

Definition exec_stmt_dynfors (s : UPLpgSQL_stmt_dynfors UPLpgSQL_stmt) : X exec_rc :=
  portal <~ lift (exec_dynquery_with_params (dynfors_query s) (dynfors_params s) None CURSOR_OPT_NO_SCROLL);
  rc <~ exec_for_query (dynfors_q s) portal true;
  lift (pg_call (SPI_cursor_close portal)) ;~
  xret rc.

(** [exec_open_forc_cursor], and the same lines of [exec_stmt_forc]: the portal,
    and whether the cursor variable was NULL.  The portal is not pinned yet. *)
Definition open_forc (s : UPLpgSQL_stmt_forc UPLpgSQL_stmt)
    : exec (execstate world) (portal * bool) :=
  curvar <~ get_var (forc_curvar s);
  st <~ xget;
  let curname := cursor_name curvar st in
  check_cursor_unused curname ;~
  set_cursor_args curvar (forc_argquery s) ;~
  match cursor_explicit_expr curvar with
  | None => undefined
  | Some query =>
      prepare query (cursor_options curvar) ;~
      portal <~ open_cursor_portal curname query;
      store_portal_name (forc_curvar s) curname portal ;~
      xret (portal, match curname with None => true | Some _ => false end)
  end.

Definition exec_stmt_forc (s : UPLpgSQL_stmt_forc UPLpgSQL_stmt) : X exec_rc :=
  p <~ lift (open_forc s);
  rc <~ exec_for_query (forc_q s) p.1 false;
  lift (pg_call (SPI_cursor_close p.1)) ;~
  (if p.2 : bool then lift (assign_simple_var (forc_curvar s) 0 true false) else xret tt) ;~
  xret rc.

(** ** FOREACH *)

(** [uplpgsql_exec_get_datum_type]. *)
Definition exec_get_datum_type (n : nat) : exec (execstate world) Oid :=
  d <~ get_datum n;
  st <~ xget;
  match d with
  | DTYPE_VAR v | DTYPE_PROMISE v => xret (typoid (var_datatype v))
  | DTYPE_REC r =>
      match erh r with
      | Some e => xret (if rectypeid r =? RECORDOID then (er_type (es_world st) e).1
                        else rectypeid r)
      | None => xret (rectypeid r)
      end
  | DTYPE_RECFIELD f =>
      e <~ get_erh (recparentno f);
      finfo <~ lookup_field (recparentno f) e (fieldname f);
      xret (ftypeid finfo)
  | DTYPE_ROW _ => elog ("unrecognized dtype: " +:+ pretty (dtype d))
  end.

Definition loop_var_elem_type (n : nat) : exec (execstate world) Oid :=
  d <~ get_datum n;
  match d with
  | DTYPE_REC _ | DTYPE_ROW _ => xret InvalidOid
  | _ => t <~ exec_get_datum_type n; xret (get_element_type t)
  end.

Fixpoint loop_elements (s : UPLpgSQL_stmt_foreach_a UPLpgSQL_stmt) (type : Oid) (typmod : Z)
    (elems : list (Datum * bool)) (found : bool) : X (exec_rc * bool) :=
  match elems with
  | [] => xret (RC_OK, found)
  | v :: elems' =>
      lift (exec_assign_value (foreach_varno s) (mk_tv v.1 v.2 type typmod)) ;~
      rc <~ run (foreach_body s);
      p <~ LOOP_RC_PROCESSING (foreach_label s) rc;
      if p.2 : bool then xret (p.1, true) else loop_elements s type typmod elems' true
  end.

Definition check_foreach (s : UPLpgSQL_stmt_foreach_a UPLpgSQL_stmt) (tv : typed_value)
    : exec (execstate world) unit :=
  st <~ xget;
  if tv_isnull tv
  then ereport ERRCODE_NULL_VALUE_NOT_ALLOWED "FOREACH expression must not be null"
  else if get_element_type (tv_type tv) =? InvalidOid
  then ereport ERRCODE_DATATYPE_MISMATCH
         ("FOREACH expression must yield an array, not type " +:+ format_type_be (tv_type tv))
  else if (foreach_slice s <? 0) || (ARR_NDIM (es_world st) (tv_value tv) <? foreach_slice s)
  then ereport ERRCODE_ARRAY_SUBSCRIPT_ERROR
         ("slice dimension (" +:+ pretty (foreach_slice s) +:+ ") is out of the valid range 0.."
          +:+ pretty (ARR_NDIM (es_world st) (tv_value tv)))
  else
    elem_type <~ loop_var_elem_type (foreach_varno s);
    if (0 <? foreach_slice s) && (elem_type =? InvalidOid)
    then ereport ERRCODE_DATATYPE_MISMATCH "FOREACH ... SLICE loop variable must be of an array type"
    else if (foreach_slice s =? 0) && negb (elem_type =? InvalidOid)
    then ereport ERRCODE_DATATYPE_MISMATCH "FOREACH loop variable must not be of an array type"
    else xret tt.

Definition exec_stmt_foreach_a (s : UPLpgSQL_stmt_foreach_a UPLpgSQL_stmt) : X exec_rc :=
  tv <~ lift (exec_eval_expr (foreach_expr s));
  lift (check_foreach s tv) ;~
  st <~ xget;
  let w := es_world (core st) in
  let type := if 0 <? foreach_slice s then tv_type tv else ARR_ELEMTYPE w (tv_value tv) in
  r <~ loop_elements s type (tv_typmod tv) (array_iterate w (tv_value tv) (foreach_slice s)) false;
  lift (exec_set_found r.2) ;~
  xret r.1.

(** ** EXIT and CONTINUE *)

Definition exec_stmt_exit (s : UPLpgSQL_stmt_exit) : X exec_rc :=
  go <~ (match exit_cond s with Some e => lift (eval_cond e) | None => xret true end);
  if go : bool
  then set_exitlabel (exit_label s) ;~ xret (if is_exit s then RC_EXIT else RC_CONTINUE)
  else xret RC_OK.

(** ** Blocks *)

Fixpoint init_vars (l : list nat) : exec (execstate world) unit :=
  match l with
  | [] => xret tt
  | n :: l' => init_var n ;~ init_vars l'
  end.

(** "If this block declares a SQLSTATE variable, activate it". *)
Definition activate_sqlstate (v : option nat) : exec (execstate world) unit :=
  s <~ xget;
  match v with
  | Some n =>
      if decide (sqlstate_varno s = Some n) then xret tt
      else xmodify (with_sqlstate_varno (Some n)) ;~
           xmodify (with_sqlerrcode ERRCODE_SUCCESSFUL_COMPLETION) ;~
           uplpgsql_set_sqlstate
  | None => xret tt
  end.

(** The value of a RETURN leaves the subtransaction. *)
Definition transfer_retval : exec (execstate world) unit :=
  s <~ xget;
  if negb (retisset s) && negb (retisnull s)
  then v <~ pg_call (datumTransfer (retval s) (get_typlenbyval (rettype s)).2
                       (get_typlenbyval (rettype s)).1);
       xmodify (with_ret v (retisnull s) (rettype s))
  else xret tt.

(** The body of PG_TRY. *)
Definition try_body (b : UPLpgSQL_stmt_block UPLpgSQL_stmt) : X exec_rc :=
  rc <~ run (blk_body b);
  (if decide (rc = RC_RETURN) then lift transfer_retval else xret tt) ;~
  lift (pg_call ReleaseCurrentSubTransaction) ;~
  xret rc.

(** What the handler sees of the error. *)
Definition set_handler_vars (ex : UPLpgSQL_exception_block UPLpgSQL_stmt) (edata : ErrorData)
    : exec (execstate world) unit :=
  assign_text_var (exc_sqlstate_varno ex) (unpack_sql_state (err_sqlerrcode edata)) ;~
  assign_text_var (exc_sqlerrm_varno ex) (err_message edata) ;~
  xmodify (with_cur_error (Some edata)) ;~
  s <~ xget;
  match sqlstate_varno s with
  | Some _ => xmodify (with_sqlerrcode (err_sqlerrcode edata)) ;~ uplpgsql_set_sqlstate
  | None => xret tt
  end.

Definition find_handler (ex : UPLpgSQL_exception_block UPLpgSQL_stmt) (edata : ErrorData)
    : option (UPLpgSQL_exception UPLpgSQL_stmt) :=
  List.find (fun x => exception_matches_conditions edata (conditions x)) (exc_list ex).

(** The body of PG_CATCH. *)
Definition catch_body (ex : UPLpgSQL_exception_block UPLpgSQL_stmt) (edata : ErrorData)
    (save_cur_error : option ErrorData) : X exec_rc :=
  lift (pg_call RollbackAndReleaseCurrentSubTransaction) ;~
  match find_handler ex edata with
  | Some exception =>
      lift (set_handler_vars ex edata) ;~
      rc <~ run (action exception);
      lift (xmodify (with_cur_error save_cur_error)) ;~
      xret rc
  | None =>
      lift (xmodify (with_cur_error save_cur_error)) ;~
      throw edata
  end.

(** PG_TRY ... PG_CATCH. *)
Definition try_catch {A} (m : X A) (handler : ErrorData -> X A) : X A :=
  fun s => match m s with Err e s' => handler e s' | r => r end.

Definition block_body (b : UPLpgSQL_stmt_block UPLpgSQL_stmt) : X exec_rc :=
  match exceptions b with
  | Some ex =>
      s <~ xget;
      lift (pg_call BeginInternalSubTransaction) ;~
      try_catch (try_body b) (fun edata => catch_body ex edata (cur_error (core s)))
  | None => run (blk_body b)
  end.

(** "CONTINUE never matches a block, and EXIT matches a block only if there is a
    label match." *)
Definition block_rc (label : option string) (rc : exec_rc) : X exec_rc :=
  s <~ xget;
  match rc with
  | RC_EXIT =>
      if label_eqb label (exitlabel s) then set_exitlabel None ;~ xret RC_OK else xret RC_EXIT
  | _ => xret rc
  end.

Definition exec_stmt_block (b : UPLpgSQL_stmt_block UPLpgSQL_stmt) : X exec_rc :=
  s <~ xget;
  lift (init_vars (initvarnos b)) ;~
  lift (activate_sqlstate (blk_sqlstate_varno b)) ;~
  rc <~ block_body b;
  lift (xmodify (with_sqlstate_varno (sqlstate_varno (core s)))) ;~
  block_rc (blk_label b) rc.

(** The dispatch of [exec_stmts]. *)
Definition exec_stmt (stmt : UPLpgSQL_stmt) : X exec_rc :=
  match stmt with
  | STMT_BLOCK _ b => exec_stmt_block b
  | STMT_ASSIGN _ s => exec_stmt_assign s
  | STMT_IF _ s => exec_stmt_if s
  | STMT_CASE _ s => exec_stmt_case s
  | STMT_LOOP _ s => exec_stmt_loop s
  | STMT_WHILE _ s => exec_stmt_while s
  | STMT_FORI _ s => exec_stmt_fori s
  | STMT_FORS _ s => exec_stmt_fors s
  | STMT_FORC _ s => exec_stmt_forc s
  | STMT_DYNFORS _ s => exec_stmt_dynfors s
  | STMT_FOREACH_A _ s => exec_stmt_foreach_a s
  | STMT_EXIT _ s => exec_stmt_exit s
  | STMT_RETURN _ s => lift (exec_stmt_return s) ;~ xret RC_RETURN
  | STMT_ASSERT _ s => lift (exec_assert s) ;~ xret RC_OK
  | STMT_PERFORM _ _ | STMT_CALL _ _ | STMT_GETDIAG _ _ | STMT_RETURN_NEXT _ _
  | STMT_RETURN_QUERY _ _ | STMT_RAISE _ _ | STMT_EXECSQL _ _ | STMT_DYNEXECUTE _ _
  | STMT_OPEN _ _ | STMT_FETCH _ _ | STMT_CLOSE _ _ | STMT_COMMIT _ _ | STMT_ROLLBACK _ _ =>
      lift (exec_simple_stmt stmt) ;~ xret RC_OK
  end.

(** The loop of [exec_stmts]: "as long as their return code is OK". *)
Fixpoint exec_list (f : UPLpgSQL_stmt -> X exec_rc) (stmts : list UPLpgSQL_stmt) : X exec_rc :=
  match stmts with
  | [] => xret RC_OK
  | stmt :: rest =>
      rc <~ f stmt;
      if decide (rc = RC_OK) then exec_list f rest else xret rc
  end.
End statements.

Fixpoint exec_stmts (fuel : nat) (stmts : list UPLpgSQL_stmt) : X exec_rc :=
  match fuel with
  | O => fun _ => OutOfFuel
  | S n => exec_list (exec_stmt (exec_stmts n) n) stmts
  end.

(** [exec_toplevel_block]. *)
Definition exec_toplevel_block (fuel : nat) (b : UPLpgSQL_stmt_block UPLpgSQL_stmt) : X exec_rc :=
  exec_stmt_block (exec_stmts fuel) b.
End interpreter.
