(* ===== verification/Scoping.v ===== *)
(** * EXIT and CONTINUE find their target

    The grammar rejects an EXIT or CONTINUE whose target does not exist, by looking
    its label up in the namespace (file Namespace).  Two components rely on that
    check and on nothing else: the statement compiler, which resolves the same label
    on its own stack of loops and fails if it finds none, and the interpreter, which
    passes a code outwards and expects some loop or block to recognise it.

    The namespace holds one label more than they do: the function's own name. *)

From Stdlib Require Import ZArith Lia.
From S2P Require Import Prelude Ast Namespace Exec Assign SqlStmts Interp IR CoreEmit StmtEmit.
From S2P Require Import Escape Demo.

#[local] Opaque bind.

(** ** The grammar's check *)

Definition no_label_message (l : string) : string :=
  "there is no label " +:+ quoted l +:+ " attached to any block or loop enclosing this statement".

(** The action of the rule [stmt_exit]. *)
Definition check_exit (ns_top : chain) (s : UPLpgSQL_stmt_exit) : result unit :=
  match exit_label s with
  | Some l =>
      match ns_lookup_label ns_top l with
      | None => Failure (no_label_message l)
      | Some label =>
          if negb (Z.eqb (itemno label) (label_type_code LABEL_LOOP)) && negb (is_exit s)
          then Failure ("block label " +:+ quoted l +:+ " cannot be used in CONTINUE")
          else Success tt
      end
  | None =>
      match ns_find_nearest_loop ns_top with
      | None => Failure (if is_exit s then "EXIT cannot be used outside a loop, unless it has a label"
                         else "CONTINUE cannot be used outside a loop")
      | Some _ => Success tt
      end
  end.

(** An identifier is never empty (the scanner rejects zero-length delimited
    identifiers); the empty name stands for unlabelled scopes. *)
Definition identifier (l : option string) : bool :=
  match l with Some l => negb (String.eqb l "") | None => true end.

Definition exit_accepted (ns_top : chain) (s : UPLpgSQL_stmt_exit) : bool :=
  identifier (exit_label s) && match check_exit ns_top s with Success _ => true | Failure _ => false end.

(** The statements the parser accepts as far as EXIT and CONTINUE go: blocks and
    loops open a scope with their label ([opt_block_label], [opt_loop_label]) and
    [ns_pop] closes it.  Variables declared in between do not matter
    ([lookup_label_vars], [nearest_loop_vars]). *)
Fixpoint exits_accepted (ns_top : chain) (stmt : UPLpgSQL_stmt) : bool :=
  let all ns l := forallb (exits_accepted ns) l in
  let in_loop label body := all (ns_push ns_top label LABEL_LOOP) body in
  match stmt with
  | STMT_BLOCK _ b =>
      let ns := ns_push ns_top (blk_label b) LABEL_BLOCK in
      all ns (blk_body b)
      && match exceptions b with
         | Some ex => forallb (fun x => all ns (action x)) (exc_list ex)
         | None => true
         end
  | STMT_IF _ s =>
      all ns_top (then_body s) && forallb (fun e => all ns_top (elsif_stmts e)) (elsif_list s)
      && all ns_top (else_body s)
  | STMT_CASE _ s =>
      forallb (fun w => all ns_top (when_stmts w)) (case_when_list s) && all ns_top (else_stmts s)
  | STMT_LOOP _ s => in_loop (loop_label s) (loop_body s)
  | STMT_WHILE _ s => in_loop (while_label s) (while_body s)
  | STMT_FORI _ s => in_loop (fori_label s) (fori_body s)
  | STMT_FORS _ s => in_loop (forq_label (fors_q s)) (forq_body (fors_q s))
  | STMT_FORC _ s => in_loop (forq_label (forc_q s)) (forq_body (forc_q s))
  | STMT_DYNFORS _ s => in_loop (forq_label (dynfors_q s)) (forq_body (dynfors_q s))
  | STMT_FOREACH_A _ s => in_loop (foreach_label s) (foreach_body s)
  | STMT_EXIT _ s => exit_accepted ns_top s
  | _ => true
  end.

(** The namespace a function's body is parsed in: its name is the outermost
    label. *)
Definition function_ns (proname : string) : chain := ns_push ns_init (Some proname) LABEL_BLOCK.

Lemma lookup_label_vars vars ns l :
  Forall (fun i => is_label i = false) vars -> ns_lookup_label (vars ++ ns) l = ns_lookup_label ns l.
Proof. induction 1 as [|i vars Hi Hv IH]; [done|]. simpl. by rewrite Hi. Qed.

Lemma nearest_loop_vars vars ns :
  Forall (fun i => is_label i = false) vars ->
  ns_find_nearest_loop (vars ++ ns) = ns_find_nearest_loop ns.
Proof. induction 1 as [|i vars Hi Hv IH]; [done|]. simpl. by rewrite Hi. Qed.

(** ** What may leave a statement *)

(** A code that leaves a statement in scope [ns] has a target there. *)
Definition has_target (ns : chain) (rc : exec_rc) (label : option string) : Prop :=
  match rc, label with
  | RC_OK, _ | RC_RETURN, _ => True
  | RC_EXIT, None | RC_CONTINUE, None => is_Some (ns_find_nearest_loop ns)
  | RC_EXIT, Some l => l <> "" /\ is_Some (ns_lookup_label ns l)
  | RC_CONTINUE, Some l =>
      l <> "" /\ exists i, ns_lookup_label ns l = Some i /\ itemno i = label_type_code LABEL_LOOP
  end.

Lemma lookup_label_push ns label t l :
  ns_lookup_label (ns_push ns label t) l
  = if String.eqb (default "" label) l
    then Some (mk_nsitem NSTYPE_LABEL (label_type_code t) (default "" label))
    else ns_lookup_label ns l.
Proof. done. Qed.

Lemma lookup_label_inside ns label t l :
  l <> "" -> label_eqb label (Some l) = false ->
  ns_lookup_label (ns_push ns label t) l = ns_lookup_label ns l.
Proof.
  intros Hne Hl. rewrite lookup_label_push.
  assert (Hf : String.eqb (default "" label) l = false); [|by rewrite Hf].
  destruct label as [x|]; simpl in *; [done|by destruct l].
Qed.

Lemma exit_accepted_target ns s :
  exit_accepted ns s = true -> has_target ns (if is_exit s then RC_EXIT else RC_CONTINUE) (exit_label s).
Proof.
  unfold exit_accepted, check_exit, identifier. intros (Hid & Hc)%andb_prop.
  destruct (exit_label s) as [l|].
  - destruct (ns_lookup_label ns l) as [i|] eqn:Hl; [|done].
    apply negb_true_iff, String.eqb_neq in Hid.
    destruct (is_exit s); simpl; [rewrite Hl; eauto|].
    cbn [negb] in Hc. rewrite andb_true_r in Hc.
    destruct (Z.eqb_spec (itemno i) (label_type_code LABEL_LOOP)); [|done]. eauto.
  - destruct (ns_find_nearest_loop ns) eqn:Hl; [|done]. destruct (is_exit s); simpl; rewrite Hl; eauto.
Qed.

(** ** The interpreter *)

Section interpreter.
Context {world : Type} `{PgEnv world}.
Abbreviation X := (exec (xstate world)).
Open Scope exec_scope.

(** Partial correctness of a computation that returns; an error or no result is
    of no concern here. *)
Definition triple {A} (P : xstate world -> Prop) (m : X A) (Q : A -> xstate world -> Prop) : Prop :=
  forall s a s', P s -> m s = Ok a s' -> Q a s'.

Abbreviation yields ns m := (triple (fun _ => True) m (fun rc s => has_target ns rc (exitlabel s))).

Lemma triple_bind {A B} P Q R (m : X A) (k : A -> X B) :
  triple P m Q -> (forall a, triple (Q a) (k a) R) -> triple P (xbind m k) R.
Proof.
  intros Hm Hk s b s' HP. unfold xbind. destruct (m s) as [a s1| | |] eqn:E; try discriminate.
  intros Hr. by eapply Hk, Hr; eapply Hm, E.
Qed.

(** Whatever came before. *)
Lemma triple_then {A B} R (m : X A) (k : A -> X B) :
  (forall a, triple (fun _ => True) (k a) R) -> triple (fun _ => True) (xbind m k) R.
Proof. intros Hk. eapply triple_bind; [|exact Hk]. by intros ?????. Qed.

Lemma triple_ret {A} (P : xstate world -> Prop) (a : A) Q :
  (forall s, P s -> Q a s) -> triple P (xret a) Q.
Proof. intros HQ s a' s' HP [= <- <-]. auto. Qed.

Lemma triple_any {A} (P : xstate world -> Prop) (m : X A) Q :
  triple (fun _ => True) m Q -> triple P m Q.
Proof. intros Hm s a s' Hs. by apply Hm. Qed.

Lemma triple_lift {A} (P : option string -> Prop) (m : exec (execstate world) A) :
  triple (fun s => P (exitlabel s)) (lift m) (fun _ s => P (exitlabel s)).
Proof. intros s a s' HP. unfold lift. destruct (m (core s)); intros [= <- <-]. done. Qed.

Lemma triple_fuel {A} P Q : triple P (fun _ => @OutOfFuel (xstate world) A) Q.
Proof. by intros ?????. Qed.

(** A code kept while a primitive runs. *)
Lemma triple_keep {A B} ns rc (m : exec (execstate world) A) (k : A -> X B) Q :
  (forall a, triple (fun s => has_target ns rc (exitlabel s)) (k a) Q) ->
  triple (fun s => has_target ns rc (exitlabel s)) (xbind (lift m) k) Q.
Proof. intros Hk. eapply triple_bind; [apply (triple_lift (has_target ns rc))|exact Hk]. Qed.

(** [LOOP_RC_PROCESSING] takes a code that leaves the body to one that leaves the
    loop. *)
Lemma loop_rc_target ns label rc :
  triple (fun s => has_target (ns_push ns label LABEL_LOOP) rc (exitlabel s))
    (LOOP_RC_PROCESSING label rc) (fun p s => has_target ns p.1 (exitlabel s)).
Proof.
  intros s p s' Hs. unfold LOOP_RC_PROCESSING, xbind, xget, set_exitlabel, xmodify, xret.
  destruct rc; [by intros [= <- <-]| |by intros [= <- <-]|];
    (destruct (exitlabel s) as [l|] eqn:El; [|by intros [= <- <-]]);
    (destruct (label_eqb label (Some l)) eqn:Eq; [by intros [= <- <-]|]);
    intros [= <- <-]; cbn [has_target fst] in *; rewrite El; destruct Hs as (Hne & Hl);
    by rewrite lookup_label_inside in Hl.
Qed.

Lemma block_rc_target ns label rc :
  triple (fun s => has_target (ns_push ns label LABEL_BLOCK) rc (exitlabel s))
    (block_rc label rc) (fun rc s => has_target ns rc (exitlabel s)).
Proof.
  intros s rc' s' Hs. unfold block_rc, xbind, xget, set_exitlabel, xmodify, xret.
  destruct rc; [by intros [= <- <-]| |by intros [= <- <-]|].
  - destruct (label_eqb label (exitlabel s)) eqn:Eq; intros [= <- <-]; [done|].
    destruct (exitlabel s) as [l|] eqn:El; cbn [has_target] in *; [|done].
    destruct Hs as (Hne & Hl). by rewrite lookup_label_inside in Hl.
  - intros [= <- <-]. destruct (exitlabel s) as [l|] eqn:El; cbn [has_target] in *; [|done].
    destruct Hs as (Hne & i & Hl & Hi). split; [done|]. exists i. rewrite lookup_label_push in Hl.
    destruct (String.eqb (default "" label) l); [|done]. injection Hl as <-. done.
Qed.

Section statements.
Context (run : list UPLpgSQL_stmt -> X exec_rc) (fuel : nat).
Context (Hrun : forall ns l, forallb (exits_accepted ns) l = true -> yields ns (run l)).

(** An iteration of any loop: run the body, process its code. *)
Lemma iteration_target {B} ns label body (k : exec_rc * bool -> X B) Q :
  forallb (exits_accepted (ns_push ns label LABEL_LOOP)) body = true ->
  (forall p, triple (fun s => has_target ns p.1 (exitlabel s)) (k p) Q) ->
  triple (fun _ => True) (rc <~ run body; p <~ LOOP_RC_PROCESSING label rc; k p) Q.
Proof.
  intros Hb Hk. eapply triple_bind; [by apply Hrun|]. intros rc.
  eapply triple_bind; [apply loop_rc_target|exact Hk].
Qed.

Lemma elsifs_target ns l els :
  forallb (fun e => forallb (exits_accepted ns) (elsif_stmts e)) l = true ->
  forallb (exits_accepted ns) els = true -> yields ns (exec_elsifs run l els).
Proof.
  intros Hl He. induction l as [|e l IH]; simpl in *; [by apply Hrun|].
  apply andb_prop in Hl as [Hh Ht]. apply triple_then. intros []; [by apply Hrun|by apply IH].
Qed.

Lemma whens_target ns s l :
  forallb (fun w => forallb (exits_accepted ns) (when_stmts w)) l = true ->
  forallb (exits_accepted ns) (else_stmts s) = true -> yields ns (exec_whens run s l).
Proof.
  intros Hl He. induction l as [|w l IH]; simpl in *.
  - apply triple_then. intros []. destruct (have_else s); [by apply Hrun|]. by intros ?????.
  - apply andb_prop in Hl as [Hh Ht]. apply triple_then.
    intros []; [|by apply IH]. apply triple_then. intros []. by apply Hrun.
Qed.

Lemma loop_forever_target ns n label body :
  forallb (exits_accepted (ns_push ns label LABEL_LOOP)) body = true ->
  yields ns (loop_forever run n label body).
Proof.
  intros Hb. induction n as [|n IH]; [apply triple_fuel|]. apply (iteration_target ns); [done|].
  intros [rc []]; [by apply triple_ret|]. by apply triple_any, IH.
Qed.

Lemma loop_while_target ns n s :
  forallb (exits_accepted (ns_push ns (while_label s) LABEL_LOOP)) (while_body s) = true ->
  yields ns (loop_while run n s).
Proof.
  intros Hb. induction n as [|n IH]; [apply triple_fuel|]. cbn [loop_while]. apply triple_then.
  intros []; [|by apply triple_ret]. apply (iteration_target ns); [done|].
  intros [rc []]; [by apply triple_ret|]. simpl. eapply triple_bind with (Q := fun _ s => has_target ns rc (exitlabel s)).
  - destruct (test_at_top s); [by apply triple_ret|apply (triple_lift (has_target ns rc))].
  - intros []; [by apply triple_ret|]. by apply triple_any, IH.
Qed.

Lemma loop_fori_target ns n s e st v found :
  forallb (exits_accepted (ns_push ns (fori_label s) LABEL_LOOP)) (fori_body s) = true ->
  triple (fun _ => True) (loop_fori run n s e st v found) (fun r x => has_target ns r.1 (exitlabel x)).
Proof.
  intros Hb. revert v found. induction n as [|n IH]; intros v found; [apply triple_fuel|].
  cbn [loop_fori]. destruct (if fori_reverse s then _ else _); [by apply triple_ret|].
  apply triple_then. intros []. apply (iteration_target ns); [done|].
  intros [rc []]; [by apply triple_ret|]. simpl.
  destruct (fori_next _ v st); [|by apply triple_ret]. by apply triple_any, IH.
Qed.

Lemma run_batch_target ns q d rows c :
  forallb (exits_accepted (ns_push ns (forq_label q) LABEL_LOOP)) (forq_body q) = true ->
  triple (fun _ => True) (run_batch run q d rows c)
    (fun r x => match r with inr rc => has_target ns rc (exitlabel x) | inl _ => True end).
Proof.
  intros Hb. revert c. induction rows as [|row rows IH]; intros c; [by apply triple_ret|].
  cbn [run_batch]. apply triple_then. intros c'. apply (iteration_target ns); [done|].
  intros [rc []]; [by apply triple_ret|]. by apply triple_any, IH.
Qed.

Lemma loop_rows_target ns n q p pre tt c :
  forallb (exits_accepted (ns_push ns (forq_label q) LABEL_LOOP)) (forq_body q) = true ->
  yields ns (loop_rows run n q p pre tt c).
Proof.
  intros Hb. revert tt c. induction n as [|n IH]; intros tt c; [apply triple_fuel|].
  cbn [loop_rows]. destruct tt.2; [by apply triple_ret|].
  eapply triple_bind; [by apply run_batch_target|]. intros [c'|rc]; [|by apply triple_ret].
  apply triple_then. intros more. apply IH.
Qed.

Lemma for_query_target ns q p pre :
  forallb (exits_accepted (ns_push ns (forq_label q) LABEL_LOOP)) (forq_body q) = true ->
  yields ns (exec_for_query run fuel q p pre).
Proof.
  intros Hb. unfold exec_for_query. apply triple_then. intros _. apply triple_then. intros st.
  apply triple_then. intros tuptab. apply triple_then. intros _.
  eapply triple_bind; [by apply loop_rows_target|]. intros rc.
  apply triple_keep. intros _. apply triple_keep. intros _. by apply triple_ret.
Qed.

Lemma elements_target ns s t tm l found :
  forallb (exits_accepted (ns_push ns (foreach_label s) LABEL_LOOP)) (foreach_body s) = true ->
  triple (fun _ => True) (loop_elements run s t tm l found) (fun r x => has_target ns r.1 (exitlabel x)).
Proof.
  intros Hb. revert found. induction l as [|v l IH]; intros found; [by apply triple_ret|].
  cbn [loop_elements]. apply triple_then. intros []. apply (iteration_target ns); [done|].
  intros [rc []]; [by apply triple_ret|]. by apply triple_any, IH.
Qed.

Lemma try_catch_target ns (m : X exec_rc) handler :
  yields ns m -> (forall e, yields ns (handler e)) -> yields ns (try_catch m handler).
Proof.
  intros Hm Hh s rc s' _. unfold try_catch. destruct (m s) as [? ?|e s1| |] eqn:E; try discriminate.
  - intros [= <- <-]. by eapply Hm, E.
  - intros Hr. by eapply Hh, Hr.
Qed.

Lemma block_body_target ns b :
  forallb (exits_accepted ns) (blk_body b) = true ->
  match exceptions b with
  | Some ex => forallb (fun x => forallb (exits_accepted ns) (action x)) (exc_list ex)
  | None => true
  end = true ->
  yields ns (block_body run b).
Proof.
  intros Hb Hx. unfold block_body. destruct (exceptions b) as [ex|]; [|by apply Hrun].
  apply triple_then. intros st. apply triple_then. intros _. apply try_catch_target.
  - eapply triple_bind; [by apply Hrun|]. intros rc.
    eapply triple_bind with (Q := fun _ s => has_target ns rc (exitlabel s)).
    + destruct (decide (rc = RC_RETURN)); [apply (triple_lift (has_target ns rc))|by apply triple_ret].
    + intros _. apply triple_keep. intros _. by apply triple_ret.
  - intros e. apply triple_then. intros _. destruct (find_handler ex e) as [x|] eqn:Ef.
    + apply triple_then. intros _. apply find_some in Ef as [Hin _].
      rewrite List.forallb_forall in Hx.
      eapply triple_bind; [apply Hrun, Hx, Hin|]. intros rc. apply triple_keep. intros _. by apply triple_ret.
    + apply triple_then. intros _. by intros ?????.
Qed.

Lemma stmt_block_target ns h b :
  exits_accepted ns (STMT_BLOCK h b) = true -> yields ns (exec_stmt_block run b).
Proof.
  simpl. intros (Hb & Hx)%andb_prop. unfold exec_stmt_block.
  apply triple_then. intros st. apply triple_then. intros _. apply triple_then. intros _.
  eapply triple_bind; [by apply block_body_target|]. intros rc.
  apply triple_keep. intros _. apply block_rc_target.
Qed.

Lemma stmt_target ns stmt : exits_accepted ns stmt = true -> yields ns (exec_stmt run fuel stmt).
Proof.
  destruct stmt as [h b|h s|h s|h s|h s|h s|h s|h s|h s|h s|h s|h s| | | | | | |h s| | | | | | | |];
    intros Hacc; cbn [exec_stmt]; try (apply triple_then; intros _; by apply triple_ret).
  - by eapply stmt_block_target.
  - simpl in Hacc. apply andb_prop in Hacc as [(Ht & Hl)%andb_prop He]. apply triple_then.
    intros []; [by apply Hrun|by apply elsifs_target].
  - simpl in Hacc. apply andb_prop in Hacc as [Hl He]. apply triple_then. intros _. by apply whens_target.
  - by apply loop_forever_target.
  - by apply loop_while_target.
  - unfold exec_stmt_fori. apply triple_then. intros var. do 3 (apply triple_then; intros ?).
    eapply triple_bind; [by apply loop_fori_target|]. intros r. apply triple_keep. intros _. by apply triple_ret.
  - apply triple_then. intros p. eapply triple_bind; [by apply for_query_target|].
    intros rc. apply triple_keep. intros _. by apply triple_ret.
  - apply triple_then. intros p. eapply triple_bind; [by apply for_query_target|].
    intros rc. apply triple_keep. intros _.
    eapply triple_bind with (Q := fun _ s => has_target ns rc (exitlabel s)); [|by intros _; apply triple_ret].
    destruct p.2; [apply (triple_lift (has_target ns rc))|by apply triple_ret].
  - apply triple_then. intros tv. apply triple_then. intros _. apply triple_then. intros st.
    eapply triple_bind; [by apply elements_target|]. intros r. apply triple_keep. intros _. by apply triple_ret.
  - apply triple_then. intros []; [|by apply triple_ret].
    intros st rc st' _ [= <- <-]. by apply exit_accepted_target.
  - apply triple_then. intros p. eapply triple_bind; [by apply for_query_target|].
    intros rc. apply triple_keep. intros _. by apply triple_ret.
Qed.

Lemma exec_list_target ns l :
  forallb (exits_accepted ns) l = true -> yields ns (exec_list (exec_stmt run fuel) l).
Proof.
  induction l as [|stmt l IH]; simpl; [by intros _; apply triple_ret|]. intros (Hs & Hl)%andb_prop.
  eapply triple_bind; [by apply stmt_target|]. intros rc.
  destruct (decide (rc = RC_OK)); [|by apply triple_ret]. by apply triple_any, IH.
Qed.
End statements.

Lemma exec_stmts_target fuel ns l :
  forallb (exits_accepted ns) l = true -> yields ns (exec_stmts fuel l).
Proof.
  revert ns l. induction fuel as [|fuel IH]; intros ns l Hl; [apply triple_fuel|].
  by apply exec_list_target.
Qed.

(** The only target in the function's own scope is the function. *)
Lemma function_target proname rc l :
  has_target (function_ns proname) rc l ->
  rc = RC_OK \/ rc = RC_RETURN \/ rc = RC_EXIT /\ l = Some proname.
Proof.
  intros Ht. destruct rc; auto; destruct l as [l|]; simpl in Ht; [| |destruct Ht as (_ & i & Hi & Hc)|].
  - destruct Ht as (_ & Hl). right. right. split; [done|].
    destruct (String.eqb_spec proname l); [by subst|by destruct Hl].
  - by destruct Ht.
  - destruct (String.eqb proname l); [|done]. by injection Hi as <-.
  - by destruct Ht.
Qed.

(** C10. In a function the parser accepted, no EXIT or CONTINUE goes astray: the
    function's block never ends with a CONTINUE, and with an EXIT only if that names
    the function itself.  Every other one was caught by its loop or block, whatever
    handlers and row loops it passed on the way. *)
Theorem exits_are_caught fuel h b proname s rc s' :
  exits_accepted (function_ns proname) (STMT_BLOCK h b) = true ->
  exec_toplevel_block fuel b s = Ok rc s' ->
  rc = RC_OK \/ rc = RC_RETURN \/ rc = RC_EXIT /\ exitlabel s' = Some proname.
Proof.
  intros Hacc Hrun. apply function_target.
  exact (stmt_block_target _ (exec_stmts_target fuel) _ _ _ Hacc s rc s' I Hrun).
Qed.

(** ** The dummy RETURN *)

Definition is_return (s : UPLpgSQL_stmt) : bool := match s with STMT_RETURN _ _ => true | _ => false end.

(** [add_dummy_return]: a function that may end without RETURN gets one; the block
    and the number of statements. *)
Definition add_dummy_return (out_param_varno : option nat) (action : UPLpgSQL_stmt_block UPLpgSQL_stmt)
    (h : stmt_head) (nstatements : nat) : UPLpgSQL_stmt_block UPLpgSQL_stmt * nat :=
  let (action, n) :=
    match exceptions action, blk_label action with
    | None, None => (action, nstatements)
    | _, _ => (mk_block None [STMT_BLOCK h action] [] None None, S nstatements)
    end in
  if match list.last (blk_body action) with Some s => is_return s | None => false end
  then (action, n)
  else (mk_block (blk_label action)
          (blk_body action ++ [STMT_RETURN (mk_head 0 (S n)) (mk_return None out_param_varno)])
          (initvarnos action) (exceptions action) (blk_sqlstate_varno action), S n).

Lemma exec_list_return (f : UPLpgSQL_stmt -> X exec_rc) l stmt :
  triple (fun _ => True) (f stmt) (fun rc _ => rc <> RC_OK) ->
  triple (fun _ => True) (exec_list f (l ++ [stmt])) (fun rc _ => rc <> RC_OK).
Proof.
  intros Hf. induction l as [|x l IH]; simpl.
  - eapply triple_bind; [exact Hf|]. intros rc s rc' s' Hrc. destruct (decide (rc = RC_OK)); [done|].
    by intros [= <- <-].
  - apply triple_then. intros rc. destruct (decide (rc = RC_OK)); [apply triple_any, IH|by apply triple_ret].
Qed.

(** A block without label and handlers is as good as its body. *)
Lemma plain_block (run : list UPLpgSQL_stmt -> X exec_rc) b Q :
  blk_label b = None -> exceptions b = None ->
  triple (fun _ => True) (run (blk_body b)) (fun rc s => Q rc (exitlabel s)) ->
  triple (fun _ => True) (exec_stmt_block run b) (fun rc s => Q rc (exitlabel s)).
Proof.
  intros Hl Hx Hb. unfold exec_stmt_block. do 3 (apply triple_then; intros ?).
  eapply triple_bind with (Q := fun rc s => Q rc (exitlabel s)).
  { unfold block_body. by rewrite Hx. }
  intros rc. eapply triple_bind; [apply (triple_lift (Q rc))|]. intros _ s rc' s' Hs.
  unfold block_rc, xbind, xget, xret. rewrite Hl. by destruct rc; intros [= <- <-].
Qed.

Lemma return_last fuel l stmt :
  is_return stmt = true -> triple (fun _ => True) (exec_stmts fuel (l ++ [stmt])) (fun rc _ => rc <> RC_OK).
Proof.
  intros Hs. destruct fuel as [|fuel]; [apply triple_fuel|]. apply exec_list_return.
  destruct stmt; try discriminate. apply triple_then. intros _. by apply triple_ret.
Qed.

(** What [add_dummy_return] leaves ends with RETURN, is unlabelled and has no
    handlers. *)
Lemma dummy_return_shape ov b h n :
  let b' := (add_dummy_return ov b h n).1 in
  blk_label b' = None /\ exceptions b' = None /\
  exists l r, blk_body b' = l ++ [r] /\ is_return r = true.
Proof.
  unfold add_dummy_return.
  set (w := match exceptions b with None => _ | Some _ => _ end).
  assert (Hw : blk_label w.1 = None /\ exceptions w.1 = None).
  { subst w. destruct (exceptions b) eqn:Hx; [done|]. by destruct (blk_label b) eqn:Hl. }
  destruct w as [a k]. simpl in *. destruct Hw as [Hl Hx].
  destruct (list.last (blk_body a)) as [r|] eqn:El; [destruct (is_return r) eqn:Hr|]; simpl; split_and!; try done.
  - apply last_Some in El as [l ->]. by exists l, r.
  - by eexists _, _.
  - by eexists _, _.
Qed.

(** The statements of its body are those of the function, or the function's block
    itself, and RETURN. *)
Lemma dummy_return_accepted ns ov b h n :
  exits_accepted ns (STMT_BLOCK h b) = true ->
  exists ns', (ns' = ns \/ ns' = ns_push ns None LABEL_BLOCK) /\
    forallb (exits_accepted ns') (blk_body (add_dummy_return ov b h n).1) = true.
Proof.
  intros Hacc. unfold add_dummy_return.
  assert (Hw : exists ns', (ns' = ns \/ ns' = ns_push ns None LABEL_BLOCK) /\
    forallb (exits_accepted ns') (blk_body (match exceptions b, blk_label b with
      | None, None => (b, n)
      | _, _ => (mk_block None [STMT_BLOCK h b] [] None None, S n) end).1) = true).
  { destruct (exceptions b) eqn:Hx; [|destruct (blk_label b) eqn:Hl].
    - exists ns. split; [by left|]. cbn [fst blk_body forallb]. by rewrite Hacc.
    - exists ns. split; [by left|]. cbn [fst blk_body forallb]. by rewrite Hacc.
    - exists (ns_push ns None LABEL_BLOCK). split; [by right|]. simpl in Hacc. rewrite Hl in Hacc.
      by apply andb_prop in Hacc as [Hb _]. }
  destruct Hw as (ns' & Hns & Hb). exists ns'. split; [done|].
  destruct (match exceptions b with None => _ | Some _ => _ end) as [a k]. simpl in Hb.
  destruct (match list.last (blk_body a) with Some _ => _ | None => _ end); simpl; [done|].
  rewrite forallb_app, Hb. done.
Qed.

(** An unlabelled block adds no target. *)
Lemma has_target_unlabelled ns rc l : has_target (ns_push ns None LABEL_BLOCK) rc l -> has_target ns rc l.
Proof.
  destruct rc, l as [l|]; try done; simpl; intros (Hne & Hl); (split; [done|]); by destruct l.
Qed.

(** C20. A function that may end without RETURN (it returns VOID or a set, or has OUT
    parameters) does not fall off its end: whatever label or handlers its block has, and
    whatever the body does, if the block the compiler makes of it ends without an error,
    then with RETURN, or by an EXIT that names the function.  That EXIT is the one way to
    reach the end without RETURN ([exit_from_function]). *)
Theorem dummy_return_suffices fuel ov b h n proname s rc s' :
  exits_accepted (function_ns proname) (STMT_BLOCK h b) = true ->
  exec_toplevel_block fuel (add_dummy_return ov b h n).1 s = Ok rc s' ->
  rc = RC_RETURN \/ rc = RC_EXIT /\ exitlabel s' = Some proname.
Proof.
  intros Hacc Hrun.
  destruct (dummy_return_shape ov b h n) as (Hl & Hx & l & r & Hbody & Hr).
  destruct (dummy_return_accepted _ ov b h n Hacc) as (ns' & Hns & Hb).
  assert (Hok : rc <> RC_OK).
  { eapply (plain_block (exec_stmts fuel) _ (fun rc _ => rc <> RC_OK)); [done|done| |done|exact Hrun].
    rewrite Hbody. by apply return_last. }
  assert (Ht : has_target (function_ns proname) rc (exitlabel s')).
  { eapply (plain_block (exec_stmts fuel) _ (has_target (function_ns proname))); [done|done| |done|exact Hrun].
    intros st rc' st' HI Hst. pose proof (exec_stmts_target fuel ns' _ Hb st rc' st' HI Hst) as Ht.
    destruct Hns as [-> | ->]; [done|]. by apply has_target_unlabelled. }
  apply function_target in Ht. tauto.
Qed.
End interpreter.

Module ScopingExamples.
Import Demo.

(** <<outer>> LOOP  BEGIN PERFORM oops; EXCEPTION WHEN others THEN EXIT outer; END;  END LOOP *)
Definition handler_exits (l : string) : UPLpgSQL_stmt_block UPLpgSQL_stmt :=
  mk_block None
    [STMT_LOOP h (mk_loop (Some "outer")
      [STMT_BLOCK h (mk_block None [perform "oops"] []
        (Some (mk_exception_block 1 2
          [mk_exception 1 [mk_condition UPLPGSQL_OTHERS "others"]
             [STMT_EXIT h (mk_exit true (Some l) None)]])) None)])] [] None None.

Lemma exits_are_caught_witness :
  match exec_toplevel_block 6 (handler_exits "outer") (mk_xstate None (state variables [])) with
  | Ok rc s' => rc = RC_OK \/ rc = RC_RETURN \/ rc = RC_EXIT /\ exitlabel s' = Some "f"
  | _ => False
  end.
Proof.
  destruct (exec_toplevel_block 6 (handler_exits "outer") (mk_xstate None (state variables [])))
    as [rc s'|e s'| |] eqn:E; [|vm_compute in E; discriminate..].
  exact (exits_are_caught 6 h (handler_exits "outer") "f" _ rc s' eq_refl E).
Defined.

(** A body that falls off its end, under a label. *)
Lemma dummy_return_suffices_witness :
  let b := mk_block (Some "blk") [STMT_EXIT h (mk_exit true (Some "blk") None)] [] None None in
  match exec_toplevel_block 6 (add_dummy_return None b h 2).1 (mk_xstate None (state variables [])) with
  | Ok rc s' => rc = RC_RETURN \/ rc = RC_EXIT /\ exitlabel s' = Some "f"
  | _ => False
  end.
Proof.
  intros b.
  destruct (exec_toplevel_block 6 (add_dummy_return None b h 2).1 (mk_xstate None (state variables [])))
    as [rc s'|e s'| |] eqn:E; [|vm_compute in E; discriminate..].
  exact (dummy_return_suffices 6 None b h 2 "f" _ rc s' eq_refl E).
Defined.

(** An EXIT that names the function leaves its block as a code, with which
    [uplpgsql_exec_function] reports that control reached the end. *)
Example exit_from_function :
  exits_accepted (function_ns "f") (STMT_BLOCK h (handler_exits "f")) = true /\
  match exec_toplevel_block 6 (handler_exits "f") (mk_xstate None (state variables [])) with
  | Ok rc s' => rc = RC_EXIT /\ exitlabel s' = Some "f"
  | _ => False
  end.
Proof. vm_compute. auto. Qed.
End ScopingExamples.
