(* ===== verification/CompileTotal.v ===== *)
(** * Compilation of a parsed function succeeds

    The statement compiler itself raises an error in three places, all of them about EXIT
    and CONTINUE: the target is unknown, or a CONTINUE names a block, or the target
    block is missing.  For a function the parser accepted none of them is reached,
    unless an EXIT names the function itself, a label the compiler does not have on
    its stack (the handler then falls back to the interpreter).  The expression compiler
    raises errors of its own; a class says for which conditions and assignments it is
    known not to, and file ExprTotal proves it of the real one.

    [succeeds sc m sc'] says that the emission [m] raises no error if started with
    the labels [sc] on the loop stack, and leaves [sc'] there. *)

From Stdlib Require Import ZArith Lia.
From S2P Require Import Prelude Ast Namespace Escape Interp IR CoreEmit StmtEmit Scoping.

(** The labels on a loop stack, and whether they are a loop's; a loop has a block
    to continue with. *)
Abbreviation labels := (list (option string * bool)).
Definition entry_is (li : UPL_loop_info) (x : option string * bool) : Prop :=
  li_label li = x.1 /\ li_is_loop li = x.2 /\ (x.2 = true -> is_Some (li_continue_bb li)).
Definition stack_is (e : cenv) (sc : labels) : Prop := Forall2 entry_is (loop_stack e) sc.

Definition succeeds {A} (sc : labels) (m : emit A) (sc' : labels) : Prop :=
  forall c, stack_is (env c) sc -> exists a c', m c = Success (a, c') /\ stack_is (env c') sc'.

(** The conditions and assignments in question, and the promise that for these the
    expression compiler raises no error and leaves the stack alone. *)
Class ExprDomain := {
  domain_cond : UPLpgSQL_expr -> bool;
  domain_assign : UPLpgSQL_stmt_assign -> bool
}.
Class ExprCompilerTotal `{ExprCompiler} `{ExprDomain} : Prop := {
  bool_succeeds ls e : domain_cond e = true -> succeeds ls (try_compile_bool e) ls;
  assign_succeeds ls s : domain_assign s = true -> succeeds ls (try_compile_assign s) ls
}.

Lemma succeeds_bind {A B} ls1 ls2 ls3 (m : emit A) (k : A -> emit B) :
  succeeds ls1 m ls2 -> (forall a, succeeds ls2 (k a) ls3) -> succeeds ls1 (bind m k) ls3.
Proof.
  intros Hm Hk c Hc. destruct (Hm c Hc) as (a & c1 & E & Hc1).
  destruct (Hk a c1 Hc1) as (b & c2 & E2 & Hc2). exists b, c2. split; [|done].
  unfold bind. by rewrite E.
Qed.

Lemma succeeds_ret {A} ls (a : A) : succeeds ls (ret a) ls.
Proof. intros c Hc. by exists a, c. Qed.
Lemma succeeds_bld ls f : succeeds ls (set_bld f) ls.
Proof. intros c Hc. by eexists _, _. Qed.
Lemma succeeds_env ls ls' f : (forall e, stack_is e ls -> stack_is (f e) ls') -> succeeds ls (set_env f) ls'.
Proof. intros Hf c Hc. eexists _, _. split; [done|]. by apply Hf. Qed.
Lemma succeeds_push_loop ls label cb eb : succeeds ls (upl_push_loop label cb eb) ((label, true) :: ls).
Proof. apply succeeds_env. intros e He. constructor; [|done]. split_and!; [done..|]. by eexists. Qed.
Lemma succeeds_push_block ls label eb : succeeds ls (upl_push_block_label label eb) ((label, false) :: ls).
Proof. apply succeeds_env. intros e He. constructor; [|done]. by split_and!. Qed.
Lemma succeeds_pop ls x : succeeds (x :: ls) upl_pop_loop ls.
Proof. apply succeeds_env. unfold stack_is. simpl. intros e He. by inversion He. Qed.
Lemma succeeds_get_env ls : succeeds ls get_env ls.
Proof. intros c Hc. by eexists _, _. Qed.
Lemma succeeds_append ls name : succeeds ls (append_block name) ls.
Proof. intros c Hc. by eexists _, _. Qed.
Lemma succeeds_reg ls : succeeds ls fresh_reg ls.
Proof. intros c Hc. by eexists _, _. Qed.
Lemma succeeds_slot ls : succeeds ls fresh_slot ls.
Proof. intros c Hc. by eexists _, _. Qed.
Lemma succeeds_switch ls v d : succeeds ls (build_switch v d) ls.
Proof. intros c Hc. by eexists _, _. Qed.
Lemma succeeds_br_if_open ls t : succeeds ls (build_br_if_open t) ls.
Proof.
  intros c Hc. unfold build_br_if_open. destruct (has_terminator c); [by eexists _, _|].
  by apply succeeds_bld.
Qed.

Lemma succeeds_for_each {A} ls (f : A -> emit unit) l :
  (forall x, x ∈ l -> succeeds ls (f x) ls) -> succeeds ls (for_each f l) ls.
Proof.
  induction l as [|x l IH]; intros Hf; [apply succeeds_ret|].
  eapply succeeds_bind; [apply Hf; left|]. intros _. apply IH. intros y Hy. apply Hf. by right.
Qed.

Create HintDb succ.
#[local] Hint Resolve succeeds_ret succeeds_bld succeeds_get_env succeeds_append succeeds_reg
  succeeds_slot succeeds_switch succeeds_br_if_open succeeds_push_loop succeeds_push_block succeeds_pop : succ.

Lemma loop_exit_eq cb label is_exit cond c li :
  find_loop (loop_stack (env c)) label = Some li -> is_exit || li_is_loop li = true ->
  upl_emit_loop_exit cb label is_exit cond c
  = match (if is_exit then Some (li_exit_bb li) else li_continue_bb li) with
    | Some t => emit_jump cb is_exit cond li t c
    | None => Failure "upl: NULL branch target"
    end.
Proof.
  intros Hl Hx. unfold upl_emit_loop_exit, upl_find_loop, get_env, bind, ret. rewrite Hl.
  destruct is_exit; simpl in *; [done|]. rewrite Hx. simpl. by destruct (li_continue_bb li).
Qed.

#[local] Opaque bind.

(** Go through a sequence of emissions that leave the stack alone. *)
Ltac run_emission :=
  repeat match goal with
  | |- succeeds _ (bind _ _) _ => eapply succeeds_bind; [|intros ?]
  | |- succeeds _ (match ?x with _ => _ end) _ => destruct x
  | |- succeeds _ (build _) _ => apply succeeds_bld
  | |- succeeds _ (position _) _ => apply succeeds_bld
  | |- succeeds _ (build_value _) _ => unfold build_value
  | |- succeeds _ (build_call _ _) _ => unfold build_call
  | |- succeeds _ (build_call_void _ _) _ => unfold build_call_void
  | |- succeeds _ build_alloca _ => unfold build_alloca
  | |- succeeds _ build_entry_alloca _ => unfold build_entry_alloca
  | |- succeeds _ ctx_plstate _ => unfold ctx_plstate
  | |- succeeds _ mark_has_exceptions _ => apply succeeds_bld
  | |- succeeds _ (set_defer_cond_plan _) _ => apply succeeds_bld
  | |- succeeds _ (add_case _ _) _ => apply succeeds_bld
  | |- succeeds _ (upl_emit_rt_call _ _) _ => unfold upl_emit_rt_call
  | |- succeeds _ (upl_emit_rt_call_void _ _) _ => unfold upl_emit_rt_call_void
  | |- succeeds _ (for_each _ _) _ => apply succeeds_for_each; intros ? ?
  | |- succeeds _ (set_return_bb _) _ => apply succeeds_env; by intros
  | |- succeeds _ (upl_push_cleanup _ _) _ => apply succeeds_env; by intros
  | |- succeeds _ upl_pop_cleanup _ => apply succeeds_env; by intros
  | |- succeeds _ _ _ => solve [eauto with succ]
  end.

Lemma succeeds_sync_one ls na : succeeds ls (emit_sync_native_array na) ls.
Proof. unfold emit_sync_native_array. run_emission. Qed.
#[local] Hint Resolve succeeds_sync_one : succ.
Lemma succeeds_sync ls : succeeds ls sync_native_arrays ls.
Proof. unfold sync_native_arrays. run_emission. Qed.
#[local] Hint Resolve succeeds_sync : succ.
Lemma succeeds_sync_for_expr ls e : succeeds ls (sync_native_arrays_for_expr e) ls.
Proof. unfold sync_native_arrays_for_expr. run_emission. Qed.
Lemma succeeds_refresh ls n : succeeds ls (refresh_dno n) ls.
Proof. unfold refresh_dno, emit_refresh_native_array. run_emission. Qed.
#[local] Hint Resolve succeeds_sync_for_expr succeeds_refresh : succ.
Lemma succeeds_init_vars ls l : succeeds ls (emit_init_vars l) ls.
Proof. unfold emit_init_vars. run_emission. Qed.
Lemma succeeds_call_exec ls f args : succeeds ls (call_exec f args) ls.
Proof. unfold call_exec. run_emission. Qed.
Lemma succeeds_call_exec_void ls f args : succeeds ls (call_exec_void f args) ls.
Proof. unfold call_exec_void, call_exec_nosync_void. run_emission. Qed.
#[local] Hint Resolve succeeds_init_vars succeeds_call_exec succeeds_call_exec_void : succ.
Lemma succeeds_by_call ls f stmt : succeeds ls (compile_by_call f stmt) ls.
Proof. unfold compile_by_call. run_emission. Qed.
Lemma succeeds_by_call_void ls f stmt : succeeds ls (compile_by_call_void f stmt) ls.
Proof. unfold compile_by_call_void. run_emission. Qed.
Lemma succeeds_unwind ls d : succeeds ls (upl_emit_cleanup_unwind d) ls.
Proof.
  unfold upl_emit_cleanup_unwind. eapply succeeds_bind; [apply succeeds_get_env|]. intros e.
  generalize (cleanup_depth e - d). generalize (cleanup_stack e).
  intros l n. revert l. induction n as [|n IH]; intros [|cl l]; simpl; run_emission; apply IH.
Qed.
#[local] Hint Resolve succeeds_by_call succeeds_by_call_void succeeds_unwind : succ.

(** ** Finding the target *)

Fixpoint find_label (sc : labels) (label : option string) : option (option string * bool) :=
  match sc with
  | [] => None
  | x :: next =>
      match label with
      | None => if x.2 then Some x else find_label next label
      | Some l =>
          match x.1 with
          | Some l' => if String.eqb l' l then Some x else find_label next label
          | None => find_label next label
          end
      end
  end.

Lemma find_loop_entry ls sc label x :
  Forall2 entry_is ls sc -> find_label sc label = Some x ->
  exists li, find_loop ls label = Some li /\ entry_is li x.
Proof.
  induction 1 as [|li y ls sc Hy Hs IH]; [done|]. pose proof Hy as (Hl & Hi & _). simpl.
  rewrite Hl, Hi. destruct label as [l|].
  - destruct y.1 as [l'|]; [|done]. destruct (String.eqb l' l); [|done]. intros [= <-]. by exists li.
  - destruct y.2; [|done]. intros [= <-]. by exists li.
Qed.

(** Every target the namespace knows, other than the function [p] itself, is on
    the stack, and a loop is a loop there too. *)
Record resolves_like (p : string) (ns : chain) (sc : labels) : Prop := {
  res_label l i : l <> "" -> l <> p -> ns_lookup_label ns l = Some i ->
    exists x, find_label sc (Some l) = Some x /\ (itemno i = label_type_code LABEL_LOOP -> x.2 = true);
  res_loop i : ns_find_nearest_loop ns = Some i ->
    exists x, find_label sc None = Some x /\ x.2 = true
}.

Lemma resolves_function p : resolves_like p (function_ns p) [].
Proof.
  split; [|done]. intros l i Hne Hp. unfold function_ns. rewrite lookup_label_push. simpl.
  destruct (String.eqb_spec p l); by subst.
Qed.

Lemma resolves_in_loop p ns sc label :
  resolves_like p ns sc -> resolves_like p (ns_push ns label LABEL_LOOP) ((label, true) :: sc).
Proof.
  intros [HL HN]. split; [|by eexists]. intros l i Hne Hp. rewrite lookup_label_push. simpl.
  destruct label as [x|]; simpl.
  - destruct (String.eqb x l); [|by apply HL]. intros [= <-]. by eexists.
  - destruct l; [done|by apply HL].
Qed.

Lemma resolves_in_block p ns sc label :
  resolves_like p ns sc ->
  resolves_like p (ns_push ns label LABEL_BLOCK)
    (match label with Some _ => [(label, false)] | None => [] end ++ sc).
Proof.
  intros [HL HN]. split; [|intros i Hi; destruct label; by apply (HN i)].
  intros l i Hne Hp. rewrite lookup_label_push. destruct label as [x|]; simpl.
  - destruct (String.eqb x l); [|by apply HL]. intros [= <-]. by eexists.
  - destruct l; [done|by apply HL].
Qed.

(** Some EXIT in the statement names [p]. *)
Definition names_label (p : string) : UPLpgSQL_stmt -> bool :=
  exists_stmt (fun s => match s with STMT_EXIT _ e => label_eqb (Some p) (exit_label e) | _ => false end).

(** The conditions a statement hands to the expression compiler. *)
Definition conditions (s : UPLpgSQL_stmt) : list UPLpgSQL_expr :=
  match s with
  | STMT_IF _ i => if_cond i :: map elsif_cond (elsif_list i)
  | STMT_CASE _ c => map when_expr (case_when_list c)
  | STMT_WHILE _ w => [while_cond w]
  | STMT_EXIT _ e => opt_list (exit_cond e)
  | STMT_ASSERT _ a => [assert_cond a]
  | _ => []
  end.
(** All conditions and assignments of the statement are in the domain. *)
Definition outside_here `{ExprDomain} (s : UPLpgSQL_stmt) : bool :=
  negb (forallb domain_cond (conditions s))
  || match s with STMT_ASSIGN _ a => negb (domain_assign a) | _ => false end.
Definition in_domain `{ExprDomain} (s : UPLpgSQL_stmt) : bool := negb (exists_stmt outside_here s).

(** The two things that can go wrong. *)
Definition rejected_here `{ExprDomain} (p : string) (s : UPLpgSQL_stmt) : bool :=
  outside_here s
  || match s with STMT_EXIT _ e => label_eqb (Some p) (exit_label e) | _ => false end.
Definition rejected `{ExprDomain} (p : string) : UPLpgSQL_stmt -> bool := exists_stmt (rejected_here p).

Lemma exists_stmt_mono (p q : UPLpgSQL_stmt -> bool) s :
  (forall t, p t = true -> q t = true) -> exists_stmt p s = true -> exists_stmt q s = true.
Proof.
  intros Hpq Hp. assert (Hl : existsb (exists_stmt p) [s] = true) by (simpl; by rewrite Hp).
  apply exists_stmt_spec in Hl as (t & Ht & Hp'). assert (Hq : existsb (exists_stmt q) [s] = true).
  { apply exists_stmt_spec. eauto. }
  simpl in Hq. by rewrite orb_false_r in Hq.
Qed.

Lemma not_rejected `{ExprDomain} p s :
  names_label p s = false -> in_domain s = true -> rejected p s = false.
Proof.
  intros Hn Hd%negb_true_iff. apply not_true_iff_false. intros Hr.
  assert (Hl : existsb (exists_stmt (rejected_here p)) [s] = true) by (simpl; by setoid_rewrite Hr).
  apply exists_stmt_spec in Hl as (t & Ht & [Ho|Hx]%orb_true_iff).
  - assert (Hs : existsb (exists_stmt outside_here) [s] = true) by (apply exists_stmt_spec; eauto).
    simpl in Hs. rewrite orb_false_r in Hs. congruence.
  - assert (Hs : existsb (names_label p) [s] = true) by (apply exists_stmt_spec; eauto).
    simpl in Hs. rewrite orb_false_r in Hs. congruence.
Qed.

Section compile.
Context `{EC : ExprCompiler, ED : ExprDomain, !ExprCompilerTotal} (func_datums : list UPLpgSQL_datum).

Lemma succeeds_eval_bool sc e : domain_cond e = true -> succeeds sc (upl_eval_bool callbacks e) sc.
Proof. intros He. unfold upl_eval_bool. simpl. pose proof (bool_succeeds sc e He). run_emission. Qed.
#[local] Hint Resolve succeeds_eval_bool : succ.

(** The conditions of a statement that is not rejected. *)
Lemma not_rejected_conditions p stmt e :
  rejected p stmt = false -> e ∈ conditions stmt -> domain_cond e = true.
Proof.
  unfold rejected. rewrite exists_stmt_eq. intros [[[Hc%negb_false_iff _]%orb_false_iff _]%orb_false_iff _]%orb_false_iff.
  by apply (forallb_elem _ _ _ Hc).
Qed.

Lemma succeeds_exit sc label is_exit cond x :
  find_label sc label = Some x -> is_exit || x.2 = true -> (forall e, cond = Some e -> domain_cond e = true) ->
  succeeds sc (upl_emit_loop_exit callbacks label is_exit cond) sc.
Proof.
  intros Hf Hx Hcond c Hc. destruct (find_loop_entry _ _ _ _ Hc Hf) as (li & Hl & (_ & Hi & Hb)).
  pose proof (loop_exit_eq callbacks label is_exit cond c li Hl) as E. rewrite Hi in E. specialize (E Hx).
  assert (Ht : exists t, (if is_exit then Some (li_exit_bb li) else li_continue_bb li) = Some t).
  { destruct is_exit; [by eexists|]. simpl in Hx. destruct (Hb Hx) as [t Ht]. by exists t. }
  destruct Ht as [t Ht]. rewrite E, Ht. clear E Hl. revert c Hc.
  change (succeeds sc (emit_jump callbacks is_exit cond li t) sc). unfold emit_jump.
  destruct cond as [e|]; [specialize (Hcond e eq_refl)|]; run_emission.
Qed.

Lemma succeeds_accepted_exit p ns sc s :
  resolves_like p ns sc -> exit_accepted ns s = true -> label_eqb (Some p) (exit_label s) = false ->
  (forall e, exit_cond s = Some e -> domain_cond e = true) ->
  succeeds sc (upl_emit_loop_exit callbacks (exit_label s) (is_exit s) (exit_cond s)) sc.
Proof.
  intros [HL HN] Ha Hp Hcond. apply exit_accepted_target in Ha.
  assert (Hx : exists x, find_label sc (exit_label s) = Some x /\ is_exit s || x.2 = true).
  { destruct (exit_label s) as [l|].
    - simpl in Hp. apply String.eqb_neq in Hp. destruct (is_exit s); simpl in Ha; destruct Ha as (Hne & Hl).
      + destruct Hl as [i Hl]. destruct (HL l i) as (x & Hx & _); [done..|]. by exists x.
      + destruct Hl as (i & Hl & Hi). destruct (HL l i) as (x & Hx & Hlp); [done..|]. exists x. auto.
    - assert (Hn : is_Some (ns_find_nearest_loop ns)) by (by destruct (is_exit s)). destruct Hn as [i Hn].
      destruct (HN i Hn) as (x & Hx & Hlp). exists x. rewrite Hlp. by destruct (is_exit s). }
  destruct Hx as (x & Hf & Hx). by eapply succeeds_exit.
Qed.

(** ** Statements *)

Lemma succeeds_if sc e th el els :
  domain_cond e = true ->
  succeeds sc th sc -> Forall (fun x => domain_cond x.1 = true /\ succeeds sc x.2 sc) el ->
  (forall m, els = Some m -> succeeds sc m sc) ->
  succeeds sc (upl_emit_if callbacks e th el els) sc.
Proof.
  intros Hd Ht Hl He. rewrite list.Forall_forall in Hl. unfold upl_emit_if, emit_elsif.
  run_emission; try (by apply succeeds_eval_bool, Hl); try (by apply Hl); auto.
Qed.

Lemma succeeds_case sc t v ws b els ln :
  Forall (fun x => domain_cond x.1 = true /\ succeeds sc x.2 sc) ws -> succeeds sc els sc ->
  succeeds sc (upl_emit_case callbacks t v ws b els ln) sc.
Proof.
  intros Hw He. unfold upl_emit_case. rewrite list.Forall_forall in Hw.
  simpl. unfold cb_assign_expr_impl, emit_when.
  run_emission; try (by apply succeeds_eval_bool, Hw); try (by apply Hw); auto.
Qed.

Lemma succeeds_cond_loop sc label e top m :
  domain_cond e = true ->
  succeeds ((label, true) :: sc) m ((label, true) :: sc) ->
  succeeds sc (upl_emit_cond_loop callbacks label e top m) sc.
Proof. intros Hd Hm. unfold upl_emit_cond_loop. run_emission. Qed.

Lemma succeeds_emit_loop sc label m :
  succeeds ((label, true) :: sc) m ((label, true) :: sc) -> succeeds sc (upl_emit_loop label m) sc.
Proof. intros Hm. unfold upl_emit_loop. run_emission. Qed.

Lemma succeeds_fori sc label v lo up st rev m :
  succeeds ((label, true) :: sc) m ((label, true) :: sc) ->
  succeeds sc (upl_emit_fori callbacks label v lo up st rev m) sc.
Proof.
  intros Hm. unfold upl_emit_fori, emit_fori_bounds, upl_eval_int, emit_fori_cond, emit_fori_step.
  run_emission.
Qed.

Lemma succeeds_row_loop sc pre opf oa cf ca label t m :
  succeeds ((label, true) :: sc) m ((label, true) :: sc) ->
  succeeds sc (compile_row_loop pre opf oa cf ca label t m) sc.
Proof. intros Hm. unfold compile_row_loop. run_emission. Qed.
Lemma succeeds_temporary_record sc ds d q m :
  succeeds sc m sc -> succeeds sc (with_temporary_record ds d q m) sc.
Proof.
  intros Hm. assert (forall l, succeeds sc (with_record_shapes l) sc) as Hs
    by (intros l; apply succeeds_env; by intros).
  unfold with_temporary_record. run_emission; eauto.
Qed.

(** The labels inside a block. *)
Definition in_block (b : UPLpgSQL_stmt_block UPLpgSQL_stmt) (sc : labels) : labels :=
  match blk_label b with Some _ => [(blk_label b, false)] | None => [] end ++ sc.

Lemma succeeds_own_label {A} sc b bb (m : emit A) :
  succeeds (in_block b sc) m (in_block b sc) ->
  succeeds sc (push_own_label b bb) (in_block b sc) /\ succeeds (in_block b sc) (pop_own_label b) sc.
Proof. unfold in_block, push_own_label, pop_own_label. destruct (blk_label b); split; simpl; run_emission. Qed.

Lemma succeeds_handlers sc b fr sw ab hb i hs :
  Forall (fun m => succeeds (in_block b sc) m (in_block b sc)) hs ->
  succeeds sc (emit_handlers b fr sw ab hb i hs) sc.
Proof.
  intros Hh. revert i. induction Hh as [|m hs Hm Hh IH]; intros i; [apply succeeds_ret|].
  cbn [emit_handlers]. destruct (succeeds_own_label sc b hb m Hm).
  run_emission.
Qed.

Lemma succeeds_block sc b m hs :
  succeeds (in_block b sc) m (in_block b sc) ->
  Forall (fun m => succeeds (in_block b sc) m (in_block b sc)) hs ->
  succeeds sc (compile_block b m hs) sc.
Proof.
  intros Hm Hh. unfold compile_block, upl_emit_block. destruct (exceptions b) as [ex|].
  - unfold compile_block_exceptions, emit_try, emit_catch.
    run_emission; [apply (succeeds_own_label sc b _ m Hm)|apply (succeeds_own_label sc b 0 m Hm)|].
    by apply succeeds_handlers.
  - unfold in_block in *. destruct (blk_label b); simpl in *; run_emission.
Qed.

(** What the induction carries. *)
Abbreviation compiles p stmt :=
  (forall ns sc, resolves_like p ns sc -> exits_accepted ns stmt = true -> rejected p stmt = false ->
     succeeds sc (compile_stmt func_datums stmt) sc).

Lemma body_compiles p stmt ns sc body :
  (forall b, b ∈ sub_bodies stmt -> forall t, t ∈ b -> compiles p t) -> rejected p stmt = false ->
  body ∈ sub_bodies stmt -> resolves_like p ns sc -> forallb (exits_accepted ns) body = true ->
  succeeds sc (for_each (compile_stmt func_datums) body) sc.
Proof.
  intros Hc Hn Hb Hr Ha. apply succeeds_for_each. intros t Ht. eapply (Hc body Hb t Ht); [done|..].
  - by apply (forallb_elem _ body).
  - unfold rejected in Hn. rewrite exists_stmt_eq in Hn. apply orb_false_iff in Hn as [_ Hn].
    apply not_true_iff_false. intros Hx. apply not_true_iff_false in Hn. apply Hn.
    apply existsb_elem. exists body. split; [done|]. apply existsb_elem. eauto.
Qed.

Lemma block_compiles p h b ns sc :
  (forall l, l ∈ sub_bodies (STMT_BLOCK h b) -> forall t, t ∈ l -> compiles p t) ->
  resolves_like p ns sc -> exits_accepted ns (STMT_BLOCK h b) = true ->
  rejected p (STMT_BLOCK h b) = false -> succeeds sc (compile_body func_datums b) sc.
Proof.
  intros IH Hr (Hbody & Hx)%andb_prop Hn. pose proof (resolves_in_block _ _ _ (blk_label b) Hr) as Hr'.
  apply succeeds_block; [eapply body_compiles; [done|done|left|exact Hr'|done]|].
  destruct (exceptions b) as [ex|] eqn:Ex; [|constructor]. apply Forall_map, list.Forall_forall.
  intros x Hin. eapply body_compiles; [done|done| |exact Hr'|exact (forallb_elem _ _ x Hx Hin)].
  simpl. rewrite Ex. right. apply elem_of_map. eauto.
Qed.

Lemma stmt_compiles p stmt : compiles p stmt.
Proof.
  induction stmt as [stmt IH] using elem_ind. intros ns sc Hr Ha Hn.
  pose proof (fun ns' sc' b => body_compiles p stmt ns' sc' b IH Hn) as Hb.
  pose proof (fun e => not_rejected_conditions p stmt e Hn) as Hd.
  assert (Hloop : forall label b, b ∈ sub_bodies stmt ->
    forallb (exits_accepted (ns_push ns label LABEL_LOOP)) b = true ->
    succeeds ((label, true) :: sc) (for_each (compile_stmt func_datums) b) ((label, true) :: sc)).
  { intros label b Hin Hacc. eapply Hb; [done| |done]. by apply resolves_in_loop. }
  destruct stmt as [h b|h s|h s|h s|h s|h s|h s|h s|h s|h s|h s|h s|h s|h s|h s|h s|h s|h s|h s
    |h s|h s|h s|h s|h s|h s|h s|h s]; cbn [compile_stmt]; (eapply succeeds_bind; [apply succeeds_bld|intros _]);
    try solve [eauto with succ]; simpl in Ha.
  - by eapply (block_compiles p h b).
  - unfold rejected in Hn. rewrite exists_stmt_eq in Hn.
    apply orb_false_iff in Hn as [[[_ Hda%negb_false_iff]%orb_false_iff _]%orb_false_iff _].
    pose proof (assign_succeeds sc s Hda). unfold compile_assign, call_exec_nosync_void. run_emission.
  - apply andb_prop in Ha as [(Ht & Hl)%andb_prop He]. apply succeeds_if.
    + apply Hd. left.
    + eapply Hb; [left|done..].
    + apply Forall_map, list.Forall_forall. intros x Hin.
      split; [apply Hd; right; apply elem_of_map; eauto|]. eapply Hb; [|done|exact (forallb_elem _ _ x Hl Hin)].
      simpl. right. apply elem_of_app. left. apply elem_of_map. eauto.
    + intros m Hm. assert (m = for_each (compile_stmt func_datums) (else_body s)) as ->
        by (destruct (else_body s); congruence).
      eapply Hb; [|done..]. simpl. right. apply elem_of_app. right. by left.
  - apply andb_prop in Ha as [Hl He]. apply succeeds_case.
    + apply Forall_map, list.Forall_forall. intros x Hin.
      split; [apply Hd, elem_of_map; eauto|]. eapply Hb; [|done|exact (forallb_elem _ _ x Hl Hin)].
      simpl. apply elem_of_app. left. apply elem_of_map. eauto.
    + eapply Hb; [|done..]. simpl. apply elem_of_app. right. by left.
  - apply succeeds_emit_loop, Hloop; [left|done].
  - apply succeeds_cond_loop, Hloop; [apply Hd; left|left|done].
  - apply succeeds_fori, Hloop; [left|done].
  - apply succeeds_row_loop, succeeds_temporary_record, Hloop; [left|done].
  - apply succeeds_row_loop, Hloop; [left|done].
  - eapply succeeds_accepted_exit; [done..| |].
    + unfold rejected in Hn. rewrite exists_stmt_eq in Hn. by apply orb_false_iff in Hn as [[_ Hn]%orb_false_iff _].
    + intros e He. apply Hd. simpl. rewrite He. left.
  - unfold compile_return, upl_emit_return. run_emission.
  - pose proof (Hd _ ltac:(left)). unfold compile_assert. run_emission.
  - unfold compile_execsql. run_emission.
  - apply succeeds_row_loop, Hloop; [left|done].
Qed.

Lemma succeeds_setup sc nas : succeeds sc (setup_native_arrays nas) sc.
Proof.
  induction nas as [|na nas IH]; [apply succeeds_ret|]. simpl. unfold setup_native_array, alloca_init.
  run_emission.
Qed.

End compile.


Module CompileTotalExamples.

#[local] Existing Instance no_inlining.

Definition exit_to (l : option string) : UPLpgSQL_stmt := STMT_EXIT (mk_head 3 3) (mk_exit true l None).

(** <<outer>> LOOP BEGIN LOOP EXIT outer; END LOOP; END; END LOOP *)
Definition nested (l : option string) : UPLpgSQL_function :=
  scalar_function 1 "f()" VOIDOID false [] 0 []
    (mk_block None
      [STMT_LOOP (mk_head 1 1) (mk_loop (Some "outer")
        [STMT_BLOCK (mk_head 2 2) (mk_block None
          [STMT_LOOP (mk_head 2 2) (mk_loop None [exit_to l])] [] None None)])] [] None None).

(** The parser also accepts [EXIT f]; the compiler does not. *)
Example exit_from_function_not_compiled :
  exits_accepted (function_ns "f") (STMT_BLOCK (mk_head 1 1) (fn_action (nested (Some "f")))) = true /\
  compile_function (fun _ => 0%Z) (nested (Some "f")) = Failure "upl: EXIT/CONTINUE outside of a loop".
Proof. split; vm_compute; reflexivity. Qed.
End CompileTotalExamples.
