(* ===== verification/Fuel.v ===== *)
(** * Fuel and termination of the interpreter

    The interpreter of file Interp recurses with fuel, which counts the nesting
    of statement lists and the iterations of loops.  Here: more fuel never
    changes a result, and a statement list whose only loops are integer FOR
    loops and FOREACH always has enough of it, whatever the state, because a
    32-bit counter that only moves one way stops. *)

From Stdlib Require Import ZArith Lia.
From S2P Require Import Prelude Ast Exec Assign SqlStmts Closure Interp Demo.
#[local] Open Scope Z_scope.
#[local] Open Scope exec_scope.

(** ** The order on computations *)

(** [m'] does what [m] does wherever [m] does not run out of fuel. *)
Definition le_exec {S A} (m m' : exec S A) : Prop := forall s, m s = OutOfFuel \/ m s = m' s.

#[export] Instance le_exec_refl {S A} : Reflexive (@le_exec S A).
Proof. intros m s. by right. Qed.

#[export] Instance le_exec_trans {S A} : Transitive (@le_exec S A).
Proof. intros m1 m2 m3 H12 H23 s. destruct (H12 s), (H23 s); intuition congruence. Qed.

Lemma le_exec_out {S A} (m : exec S A) : le_exec (fun _ => OutOfFuel) m.
Proof. intros s. by left. Qed.

Lemma le_exec_bind {S A B} (m m' : exec S A) (k k' : A -> exec S B) :
  le_exec m m' -> (forall a, le_exec (k a) (k' a)) -> le_exec (xbind m k) (xbind m' k').
Proof.
  intros Hm Hk s. unfold xbind. destruct (Hm s) as [->| <-]; [by left|].
  destruct (m s); auto. apply Hk.
Qed.

Lemma le_exec_try {world A} (m m' : exec (xstate world) A) h h' :
  le_exec m m' -> (forall e, le_exec (h e) (h' e)) ->
  le_exec (try_catch m h) (try_catch m' h').
Proof.
  intros Hm Hh s. unfold try_catch. destruct (Hm s) as [->| <-]; [by left|].
  destruct (m s); auto. apply Hh.
Qed.

Create HintDb fuel discriminated.
#[export] Hint Resolve le_exec_refl le_exec_out : fuel.

(** Follow the common structure of two computations. *)
Ltac mono :=
  repeat first
    [ assumption
    | apply le_exec_refl
    | apply le_exec_out
    | apply le_exec_bind; [|intros ?]
    | apply le_exec_try; [|intros ?]
    | solve [auto with fuel]
    | match goal with |- le_exec (match ?x with _ => _ end) _ => destruct x end ].

Section monotone.
Context {world : Type} `{PgEnv world}.
Abbreviation X := (exec (xstate world)).
Context (run run' : list UPLpgSQL_stmt -> X exec_rc).
Context (run_le : forall l, le_exec (run l) (run' l)).
#[local] Hint Resolve run_le : fuel.

Lemma exec_elsifs_mono l els : le_exec (exec_elsifs run l els) (exec_elsifs run' l els).
Proof. induction l; simpl; mono. Qed.

Lemma exec_whens_mono s l : le_exec (exec_whens run s l) (exec_whens run' s l).
Proof. induction l; simpl; mono. Qed.

Lemma loop_forever_mono n n' label body :
  (n <= n')%nat -> le_exec (loop_forever run n label body) (loop_forever run' n' label body).
Proof.
  revert n'. induction n as [|n IH]; intros [|n'] Hn; simpl; [mono..|lia|].
  assert (n <= n')%nat by lia. specialize (IH n'). mono.
Qed.

Lemma loop_while_mono n n' s : (n <= n')%nat -> le_exec (loop_while run n s) (loop_while run' n' s).
Proof.
  revert n'. induction n as [|n IH]; intros [|n'] Hn; simpl; [mono..|lia|].
  assert (n <= n')%nat by lia. specialize (IH n'). mono.
Qed.

Lemma loop_fori_mono n n' s e st :
  (n <= n')%nat -> forall v found, le_exec (loop_fori run n s e st v found) (loop_fori run' n' s e st v found).
Proof.
  revert n'. induction n as [|n IH]; intros [|n'] Hn v found; simpl; [mono..|lia|].
  assert (n <= n')%nat by lia. specialize (IH n').
  mono.
Qed.

Lemma run_batch_mono q d rows : forall c, le_exec (run_batch run q d rows c) (run_batch run' q d rows c).
Proof. induction rows; intros c; simpl; mono. Qed.
#[local] Hint Resolve run_batch_mono : fuel.

Lemma loop_rows_mono n n' q p ok :
  (n <= n')%nat -> forall rows c, le_exec (loop_rows run n q p ok rows c) (loop_rows run' n' q p ok rows c).
Proof.
  revert n'. induction n as [|n IH]; intros [|n'] Hn rows c; simpl; [mono..|lia|].
  assert (n <= n')%nat by lia. specialize (IH n'). mono.
Qed.

Lemma loop_elements_mono s t tm elems :
  forall found, le_exec (loop_elements run s t tm elems found) (loop_elements run' s t tm elems found).
Proof. induction elems; intros found; simpl; mono. Qed.

#[local] Hint Resolve exec_elsifs_mono exec_whens_mono loop_forever_mono loop_while_mono
  loop_fori_mono loop_rows_mono loop_elements_mono : fuel.

Lemma exec_for_query_mono n n' q p ok :
  (n <= n')%nat -> le_exec (exec_for_query run n q p ok) (exec_for_query run' n' q p ok).
Proof. intros Hn. unfold exec_for_query. mono. Qed.
#[local] Hint Resolve exec_for_query_mono : fuel.

Lemma block_body_mono b : le_exec (block_body run b) (block_body run' b).
Proof. unfold block_body, try_body, catch_body. mono. Qed.
#[local] Hint Resolve block_body_mono : fuel.

Lemma exec_stmt_block_mono b : le_exec (exec_stmt_block run b) (exec_stmt_block run' b).
Proof. unfold exec_stmt_block. mono. Qed.
#[local] Hint Resolve exec_stmt_block_mono : fuel.

Lemma exec_stmt_mono n n' s :
  (n <= n')%nat -> le_exec (exec_stmt run n s) (exec_stmt run' n' s).
Proof.
  intros Hn. destruct s; simpl; mono;
    unfold exec_stmt_if, exec_stmt_case, exec_stmt_loop, exec_stmt_while, exec_stmt_fori,
      exec_stmt_fors, exec_stmt_dynfors, exec_stmt_forc, exec_stmt_foreach_a; mono.
Qed.
End monotone.

Section library.
Context {world : Type} `{PgEnv world}.

Lemma exec_list_mono (f f' : UPLpgSQL_stmt -> exec (xstate world) exec_rc) l :
  (forall s, le_exec (f s) (f' s)) -> le_exec (exec_list f l) (exec_list f' l).
Proof. intros Hf. induction l; simpl; mono. Qed.

Lemma exec_stmts_le n n' l : (n <= n')%nat -> le_exec (exec_stmts n l) (exec_stmts n' l).
Proof.
  revert n' l. induction n as [|n IH]; intros [|n'] l Hn; simpl; [mono..|lia|].
  apply exec_list_mono. intros s. apply exec_stmt_mono; [|lia]. intros l'. apply IH. lia.
Qed.

(** More fuel never changes what a statement list does: a result reached
    with [n] is the result for every larger amount, so that the fuel is no more
    than a bound on how long one is prepared to wait. *)
Theorem exec_stmts_mono n n' l s r :
  (n <= n')%nat -> exec_stmts n l s = r -> r <> OutOfFuel -> exec_stmts n' l s = r.
Proof. intros Hn Hr Hout. destruct (exec_stmts_le n n' l Hn s); congruence. Qed.
End library.

(** ** Termination *)

Definition never {S A} (m : exec S A) : Prop := forall s, m s <> OutOfFuel.

Create HintDb total discriminated.

Lemma never_ret {S A} (a : A) : never (@xret S A a). Proof. discriminate. Qed.
Lemma never_ereport {S A} c msg : never (@ereport S A c msg). Proof. discriminate. Qed.
Lemma never_elog {S A} msg : never (@elog S A msg). Proof. discriminate. Qed.
Lemma never_undefined {S A} : never (@undefined S A). Proof. discriminate. Qed.
Lemma never_get {S} : never (@xget S). Proof. discriminate. Qed.
Lemma never_modify {S} (f : S -> S) : never (xmodify f). Proof. discriminate. Qed.
#[export] Hint Resolve never_ret never_ereport never_elog never_undefined never_get never_modify : total.

Lemma never_bind {S A B} (m : exec S A) (k : A -> exec S B) :
  never m -> (forall a, never (k a)) -> never (xbind m k).
Proof. intros Hm Hk s. unfold xbind. specialize (Hm s). destruct (m s); try done. apply Hk. Qed.

Lemma never_lift {world A} (m : exec (execstate world) A) : never m -> never (lift m).
Proof. intros Hm s. unfold lift. specialize (Hm (core s)). by destruct (m (core s)). Qed.

Lemma never_try {world A} (m : exec (xstate world) A) h :
  never m -> (forall e, never (h e)) -> never (try_catch m h).
Proof. intros Hm Hh s. unfold try_catch. specialize (Hm s). destruct (m s); try done. apply Hh. Qed.

(** Every normal result of [m] has the property [P]. *)
Definition yields {S A} (P : A -> Prop) (m : exec S A) : Prop :=
  forall s a s', m s = Ok a s' -> P a.

Lemma yields_ret {S A} (P : A -> Prop) a : P a -> yields P (@xret S A a).
Proof. intros Ha s b s' [= <- <-]. done. Qed.
Lemma yields_ereport {S A} (P : A -> Prop) c msg : yields P (@ereport S A c msg).
Proof. discriminate. Qed.
Lemma yields_bind {S A B} (P : B -> Prop) (m : exec S A) k :
  (forall a, yields P (k a)) -> yields P (xbind m k).
Proof. intros Hk s b s'. unfold xbind. destruct (m s); try done. apply Hk. Qed.
Lemma never_bind_yields {S A B} (P : A -> Prop) (m : exec S A) (k : A -> exec S B) :
  never m -> yields P m -> (forall a, P a -> never (k a)) -> never (xbind m k).
Proof.
  intros Hm Hy Hk s. unfold xbind. specialize (Hm s). specialize (Hy s).
  destruct (m s); try done. eapply Hk, Hy. done.
Qed.

Ltac total :=
  repeat first
    [ assumption
    | solve [auto with total]
    | match goal with
      | |- never (xbind _ _) => apply never_bind; [|intros ?]
      | |- never (lift _) => apply never_lift
      | |- never (try_catch _ _) => apply never_try; [|intros ?]
      | |- never (match ?x with _ => _ end) => destruct x
      end
    | progress cbv zeta ].

(** What the C code relies on: evaluation comes back.  (The other functions of
    PostgreSQL do by their type.) *)
Class PgEnvTotal (world : Type) `{PgEnv world} : Prop := {
  eval_simple_expr_total e : never (exec_eval_simple_expr e);
  execute_plan_total e n : never (SPI_execute_plan_with_paramlist e n);
  execute_nonatomic_total e : never (SPI_execute_plan_nonatomic e);
  execute_plan_store_total e : never (SPI_execute_plan_into_store e);
  execute_store_total q ps : never (SPI_execute_into_store q ps);
  cursor_open_total n e : never (SPI_cursor_open_with_paramlist n e)
}.

Lemma never_pg {world A} (op : pg world A) : never (pg_call op).
Proof. intros s. unfold pg_call. by destruct (op (es_world s)). Qed.
Lemma never_throw {S A} e : never (@throw S A e). Proof. discriminate. Qed.

#[export] Hint Resolve eval_simple_expr_total execute_plan_total execute_nonatomic_total
  execute_plan_store_total execute_store_total cursor_open_total never_pg never_throw : total.

(** The statements that iterate without a bound known beforehand. *)
Definition unbounded (s : UPLpgSQL_stmt) : bool :=
  match s with
  | STMT_LOOP _ _ | STMT_WHILE _ _ | STMT_FORS _ _ | STMT_FORC _ _ | STMT_DYNFORS _ _ => true
  | _ => false
  end.

(** Nesting of statement lists below a statement. *)
Definition height : UPLpgSQL_stmt -> nat :=
  fold_stmt (fun _ bodies => list_max (map (fun b => S (list_max b)) bodies)).

(** Enough iterations for any FOR loop, and one level per nesting. *)
Definition INT32_VALUES : nat := Z.to_nat 4294967296.

Lemma INT32_VALUES_Z : Z.of_nat INT32_VALUES = 4294967296.
Proof. unfold INT32_VALUES. by rewrite Z2Nat.id. Qed.

Definition fuel_for (l : list UPLpgSQL_stmt) : nat := INT32_VALUES + S (list_max (map height l)).

Lemma list_max_elem x (l : list nat) : x ∈ l -> (x <= list_max l)%nat.
Proof.
  intros Hx. assert (Hl : Forall (fun k => k <= list_max l)%nat l) by by apply list_max_le.
  rewrite list.Forall_forall in Hl. by apply Hl.
Qed.

Lemma height_body s b : b ∈ sub_bodies s -> (S (list_max (map height b)) <= height s)%nat.
Proof.
  intros Hb. unfold height at 2. rewrite fold_stmt_eq. apply list_max_elem.
  apply elem_of_map. exists (map height b). split; [|done].
  apply elem_of_map. by exists b.
Qed.

Section termination.
Context {world : Type} `{PgEnvTotal world}.
Abbreviation M := (exec (execstate world)).

Definition never_m (A : Type) (m : M A) : Prop := never m.

#[export] Instance never_closed : Closed (fun _ _ => True) (fun _ => True) never_m.
Proof.
  split; intros;
    first [ done | discriminate | by apply never_bind | apply never_pg
          | apply never_bind; [solve [unfold get_var, get_datum; total]|solve [read_anything]]
          | apply eval_simple_expr_total | apply execute_plan_total | apply execute_nonatomic_total
          | apply execute_plan_store_total | apply execute_store_total | apply cursor_open_total
          | unfold never_m, exec_set_found, open_tuple_store, exec_init_tuple_store, not_setof,
              get_var, get_datum; total ].
Qed.

(** Every primitive comes back. *)
Ltac prim := intros; match goal with |- never ?m => change (never_m _ m) end.
Lemma never_get_datum n : never (get_datum n : M _). Proof. prim. apply (cl_get_datum never_m). Qed.
Lemma never_get_var n : never (get_var n : M _). Proof. prim. apply (cl_get_var never_m). Qed.
Lemma never_assign_simple_var n v null f : never (assign_simple_var n v null f).
Proof. prim. by apply (cl_assign_simple_var never_m). Qed.
Lemma never_set_found b : never (exec_set_found b : M _). Proof. prim. apply cl_set_found. Qed.
Lemma never_set_sqlstate : never (uplpgsql_set_sqlstate : M _). Proof. prim. apply (cl_set_sqlstate never_m). Qed.
Lemma never_text_var n t : never (assign_text_var n t). Proof. prim. by apply (cl_text_var never_m). Qed.
Lemma never_cast tv t tm : never (cast_tv tv t tm). Proof. prim. apply (cl_cast never_m). Qed.
Lemma never_assign_value n tv : never (exec_assign_value n tv). Proof. prim. apply (cl_assign_value never_m). Qed.
Lemma never_eval_expr e : never (exec_eval_expr e). Proof. prim. apply (cl_eval_expr never_m). Qed.
Lemma never_eval_cond e : never (eval_cond e). Proof. prim. apply (cl_eval_cond never_m). Qed.
Lemma never_assign_expr n e : never (exec_assign_expr n e). Proof. prim. apply (cl_assign_expr never_m). Qed.
Lemma never_init_var n : never (init_var n). Proof. prim. apply (cl_init_var never_m). Qed.
Lemma never_case_test n e : never (case_assign_test n e).
Proof. prim. apply (cl_case_assign_test never_m). discriminate. Qed.
Lemma never_assert s : never (exec_assert s). Proof. prim. apply (cl_assert never_m). Qed.
Lemma never_return s : never (exec_stmt_return s). Proof. prim. apply (cl_return never_m). Qed.
Lemma never_simple_stmt s : never (exec_simple_stmt s). Proof. prim. by apply (cl_simple_stmt never_m). Qed.
Lemma never_get_erh n : never (get_erh n). Proof. prim. apply (cl_get_erh never_m). Qed.
Lemma never_lookup_field n e f : never (lookup_field n e f). Proof. prim. apply (cl_lookup_field never_m). Qed.
#[local] Hint Resolve never_get_datum never_get_var never_assign_simple_var never_set_found
  never_set_sqlstate never_text_var never_cast never_assign_value never_eval_expr never_eval_cond
  never_assign_expr never_init_var never_case_test never_assert never_return never_simple_stmt
  never_get_erh never_lookup_field : total.

Lemma never_init_vars l : never (init_vars l).
Proof. induction l; simpl; total. Qed.
Lemma never_check_foreach s tv : never (check_foreach s tv).
Proof. unfold check_foreach, loop_var_elem_type, exec_get_datum_type. total. Qed.
#[local] Hint Resolve never_init_vars never_check_foreach : total.

Abbreviation X := (exec (xstate world)).
Context (run : list UPLpgSQL_stmt -> X exec_rc).

Lemma never_loop_rc l rc : never (LOOP_RC_PROCESSING l rc : X _).
Proof. unfold LOOP_RC_PROCESSING, set_exitlabel. total. Qed.
#[local] Hint Resolve never_loop_rc : total.

(** Each iteration moves the counter by at least one towards the end of the
    32-bit range, and [fori_next] stops there. *)
Definition left_over (reverse : bool) (v : Z) : Z :=
  if reverse then v - PG_INT32_MIN else PG_INT32_MAX - v.

Lemma fori_next_progress reverse v step v' :
  in_int32 v -> 1 <= step -> fori_next reverse v step = Some v' ->
  in_int32 v' /\ left_over reverse v' < left_over reverse v.
Proof.
  unfold fori_next, left_over. unfold_int32. intros Hv Hs.
  destruct reverse;
    match goal with |- (if ?c then _ else _) = _ -> _ => destruct c eqn:E end;
    intros [= <-]; lia.
Qed.

Lemma never_loop_fori n s e step v found :
  never (run (fori_body s)) -> in_int32 v -> 1 <= step ->
  left_over (fori_reverse s) v < Z.of_nat n ->
  never (loop_fori run n s e step v found).
Proof.
  intros Hb. revert v found. induction n as [|n IH]; intros v found Hv Hs Hn.
  - unfold left_over in Hn. unfold_int32. destruct (fori_reverse s); lia.
  - simpl. destruct (fori_next (fori_reverse s) v step) as [v'|] eqn:E; [|total].
    destruct (fori_next_progress _ _ _ _ Hv Hs E).
    assert (Hnext : forall found', never (loop_fori run n s e step v' found'))
      by (intros; apply IH; auto; lia).
    total.
Qed.

(** What the bounds evaluate to, when they evaluate. *)
Lemma fori_bound_int32 t e what : yields in_int32 (fori_bound t e what : X Z).
Proof.
  unfold fori_bound. do 2 (apply yields_bind; intros ?).
  destruct (_.2); [apply yields_ereport | apply yields_ret, wrap32_range].
Qed.

Lemma fori_step_positive t step : yields (fun z => 1 <= z) (fori_step_value t step : X Z).
Proof.
  unfold fori_step_value. destruct step as [e|]; [|by apply yields_ret].
  apply yields_bind. intros z. destruct (Z.leb_spec z 0); [apply yields_ereport | apply yields_ret].
  lia.
Qed.

Lemma never_fori_bound t e what : never (fori_bound t e what : X Z).
Proof. unfold fori_bound. total. Qed.
#[local] Hint Resolve never_fori_bound : total.

Lemma never_fori fuel s :
  (INT32_VALUES <= fuel)%nat -> never (run (fori_body s)) -> never (exec_stmt_fori run fuel s).
Proof.
  intros Hf Hb. unfold exec_stmt_fori. apply never_bind; [total|]. intros var.
  eapply never_bind_yields; [total | apply fori_bound_int32|]. intros v Hv.
  apply never_bind; [total|]. intros e.
  eapply never_bind_yields; [unfold fori_step_value; total | apply fori_step_positive|].
  intros step Hs. apply never_bind; [|intros ?; total].
  apply never_loop_fori; auto.
  apply Nat2Z.inj_le in Hf. rewrite INT32_VALUES_Z in Hf.
  unfold left_over. unfold_int32. destruct (fori_reverse s); lia.
Qed.

Lemma never_elsifs l els :
  Forall (fun x => never (run (elsif_stmts x))) l -> never (run els) -> never (exec_elsifs run l els).
Proof. intros Hl Hels. induction Hl; simpl; total. Qed.

Lemma never_whens s l :
  Forall (fun x => never (run (when_stmts x))) l -> never (run (else_stmts s)) ->
  never (exec_whens run s l).
Proof. intros Hl Hels. unfold discard_test. induction Hl; simpl; unfold discard_test; total. Qed.

Lemma never_elements s t tm elems :
  never (run (foreach_body s)) -> forall found, never (loop_elements run s t tm elems found).
Proof. intros Hb. induction elems; intros found; simpl; total. Qed.

Lemma find_handler_elem ex e x : find_handler ex e = Some x -> x ∈ exc_list ex.
Proof. intros (Hx & _)%find_some. by apply list_elem_of_In. Qed.

Lemma never_catch ex e saved :
  (forall x, x ∈ exc_list ex -> never (run (action x))) -> never (catch_body run ex e saved).
Proof.
  intros Hex. unfold catch_body. destruct (find_handler ex e) as [x|] eqn:E.
  - specialize (Hex x (find_handler_elem _ _ _ E)).
    unfold set_handler_vars, assign_text_var. total.
  - total.
Qed.

Lemma never_block b :
  never (run (blk_body b)) ->
  (forall ex x, exceptions b = Some ex -> x ∈ exc_list ex -> never (run (action x))) ->
  never (exec_stmt_block run b).
Proof.
  intros Hb Hex.
  assert (Hbody : never (block_body run b)).
  { unfold block_body. destruct (exceptions b) as [ex|] eqn:E; [|done].
    assert (never (try_body run b)) by (unfold try_body, transfer_retval; total).
    assert (forall e saved, never (catch_body run ex e saved)) by (intros; apply never_catch; eauto).
    total. }
  unfold exec_stmt_block, activate_sqlstate, block_rc, set_exitlabel. total.
Qed.

Lemma never_stmt fuel s :
  (INT32_VALUES <= fuel)%nat -> unbounded s = false ->
  (forall b, b ∈ sub_bodies s -> never (run b)) -> never (exec_stmt run fuel s).
Proof.
  intros Hf Hu Hb. destruct s as [h b|h b|h b|h b|h b|h b|h b|h b|h b|h b|h b| | | | | | | | | | | | | | | |];
    try discriminate Hu; cbn [exec_stmt sub_bodies] in Hb |- *; total.
  - apply never_block; [apply Hb; left|]. intros ex x Eex Hx. apply Hb. rewrite Eex. right.
    apply elem_of_map. eauto.
  - unfold exec_stmt_assign. total.
  - assert (never (run (then_body b))) by (apply Hb; left).
    assert (never (exec_elsifs run (elsif_list b) (else_body b))).
    { apply never_elsifs; [apply list.Forall_forall; intros x Hx|]; apply Hb; right;
        apply elem_of_app; [left; apply elem_of_map; eauto | right; by apply list_elem_of_singleton]. }
    unfold exec_stmt_if. total.
  - assert (never (exec_whens run b (case_when_list b))).
    { apply never_whens; [apply list.Forall_forall; intros x Hx|]; apply Hb;
        apply elem_of_app; [left; apply elem_of_map; eauto | right; by apply list_elem_of_singleton]. }
    unfold exec_stmt_case. total.
  - apply never_fori; [done|]. apply Hb. left.
  - assert (forall t tm elems found, never (loop_elements run b t tm elems found))
      by (intros; apply never_elements, Hb; left).
    unfold exec_stmt_foreach_a. total.
  - unfold exec_stmt_exit, set_exitlabel. total.
Qed.
End termination.

Section theorem.
Context {world : Type} `{PgEnvTotal world}.

Lemma never_list (f : UPLpgSQL_stmt -> exec (xstate world) exec_rc) l :
  (forall s, s ∈ l -> never (f s)) -> never (exec_list f l).
Proof.
  induction l as [|s l IH]; intros Hf; simpl; [total|].
  assert (never (f s)) by (apply Hf; left).
  assert (never (exec_list f l)) by (apply IH; intros t Ht; apply Hf; by right). total.
Qed.

Lemma exec_stmts_total k n l :
  (INT32_VALUES <= k)%nat -> (k + S (list_max (map height l)) <= n)%nat ->
  existsb (exists_stmt unbounded) l = false -> never (exec_stmts n l).
Proof.
  intros Hk. revert l. induction n as [|n IH]; intros l Hn Hl; [lia|].
  simpl. apply never_list. intros s Hs.
  assert (Hu : exists_stmt unbounded s = false).
  { destruct (exists_stmt unbounded s) eqn:E; [|done].
    enough (existsb (exists_stmt unbounded) l = true) by congruence. apply existsb_elem. eauto. }
  rewrite exists_stmt_eq in Hu. apply orb_false_iff in Hu as [Hu Hsub].
  assert (Hh : (height s <= list_max (map height l))%nat)
    by (apply list_max_elem, elem_of_map; eauto).
  apply never_stmt; [etrans; [exact Hk | lia] | done|]. intros b Hb. apply IH.
  - pose proof (height_body s b Hb). lia.
  - destruct (existsb (exists_stmt unbounded) b) eqn:E; [|done].
    enough (existsb (existsb (exists_stmt unbounded)) (sub_bodies s) = true) by congruence.
    apply existsb_elem. eauto.
Qed.

(** C8: Termination.  A statement list in which no LOOP, WHILE or row loop
    occurs at any depth comes to an end, with one amount of fuel for all states:
    nested integer FOR loops stop because their counter cannot pass the 32-bit
    range, whatever the body does to the loop variable. *)
Theorem exec_stmts_terminates l :
  (forall s, occurs_in s l -> unbounded s = false) ->
  forall s, exec_stmts (fuel_for l) l s <> OutOfFuel.
Proof.
  intros Hl. unfold fuel_for. apply (exec_stmts_total INT32_VALUES); [reflexivity..|].
  destruct (existsb (exists_stmt unbounded) l) eqn:E; [|done].
  apply exists_stmt_spec in E as (s & Hin & Hs). by rewrite Hl in Hs.
Qed.
End theorem.

Module FuelExamples.
Import Demo.

#[export] Instance env_total : PgEnvTotal world.
Proof.
  split; intros; try discriminate; intros s; cbn; unfold spi_select; by destruct (evaluate _ _).
Qed.

(** A FOR loop that counts to the end of the 32-bit range. *)
Definition count_up : list UPLpgSQL_stmt :=
  [STMT_FORI h (mk_fori None 2 (e "2147483646") (e "2147483647") None false [set_x "x + 1"])].

Lemma exec_stmts_mono_witness :
  exists r, exec_stmts 5 count_up (mk_xstate None (state variables [])) = r
            /\ exec_stmts 100 count_up (mk_xstate None (state variables [])) = r
            /\ r <> OutOfFuel.
Proof.
  eexists. split; [vm_compute; reflexivity|]. split; [|discriminate].
  apply (exec_stmts_mono 5); [lia | vm_compute; reflexivity | discriminate].
Defined.

Lemma exec_stmts_terminates_witness :
  exec_stmts (fuel_for count_up) count_up (mk_xstate None (state variables [])) <> OutOfFuel.
Proof.
  apply exec_stmts_terminates. intros s Hs.
  destruct (unbounded s) eqn:E; [|reflexivity].
  assert (Hex : existsb (exists_stmt unbounded) count_up = true) by (apply exists_stmt_spec; eauto).
  discriminate Hex.
Defined.
End FuelExamples.
