(* ===== verification/Respect.v ===== *)
(** * Relations that execution respects

    [respects R m]: whatever [m] does, whether it returns or raises, takes the
    state to one that [R] relates it to.  For a preorder [R] that the elementary
    steps respect (class [StateOrder]), so does the execution of any statement list,
    caught exceptions included.  Two such preorders:

    - the rows a set-returning function has returned only become more
      ([rows_extend]);
    - the datum array keeps its shape: no datum appears or disappears, changes
      its kind or its declaration ([same_shape]). *)

From Stdlib Require Import ZArith Lia Ascii.
From S2P Require Import Prelude Ast Exec Assign SqlStmts Closure Interp Demo.
#[local] Open Scope exec_scope.

Section respects.
Context {world : Type} `{PgEnv world}.
Abbreviation M := (exec (execstate world)).
Abbreviation X := (exec (xstate world)).
Context (R : execstate world -> execstate world -> Prop).

Definition respects {A} (m : M A) : Prop :=
  forall s, match m s with Ok _ s' | Err _ s' => R s s' | Stuck | OutOfFuel => True end.
Definition respects_x {A} (m : X A) : Prop :=
  forall s, match m s with Ok _ s' | Err _ s' => R (core s) (core s') | Stuck | OutOfFuel => True end.

(** The elementary steps of execution. *)
Class StateOrder : Prop := {
  so_preorder : PreOrder R;
  so_world s w : R s (with_world w s);
  so_store_value s n v b f : R s (with_datums (alter (update_var (store_value v b f)) n) s);
  so_disarm s n : R s (with_datums (alter (update_var disarm_promise) n) s);
  so_store_datatype s n t : R s (with_datums (alter (update_var (store_datatype t)) n) s);
  so_store_erh s n e : R s (with_datums (alter (update_rec (store_erh e)) n) s);
  so_store_rectypeid s n t : R s (with_datums (alter (update_rec (store_rectypeid t)) n) s);
  so_ret s v b t : R s (with_ret v b t s);
  so_cur_error s e : R s (with_cur_error e s);
  so_sqlstate_varno s v : R s (with_sqlstate_varno v s);
  so_sqlerrcode s c : R s (with_sqlerrcode c s);
  so_processed s n : R s (with_eval_processed n s);
  so_open_store s d : tuple_store s = None -> R s (with_tuple_store (Some (d, [])) s);
  so_put_tuple s row :
    R s (with_tuple_store ((fun t => (t.1, t.2 ++ [row])) <$> tuple_store s) s);
  so_eval_simple e : respects (exec_eval_simple_expr e);
  so_execute_plan e n : respects (SPI_execute_plan_with_paramlist e n);
  so_execute_nonatomic e : respects (SPI_execute_plan_nonatomic e);
  so_execute_plan_store e : respects (SPI_execute_plan_into_store e);
  so_execute_store q ps : respects (SPI_execute_into_store q ps);
  so_cursor_open name e : respects (SPI_cursor_open_with_paramlist name e)
}.

Context `{SO : StateOrder}.
#[local] Existing Instance so_preorder.

(** ** Primitives *)
Definition respects_p (A : Type) (m : M A) : Prop := respects m.

Lemma respects_modify f : (forall s, R s (f s)) -> respects (xmodify f).
Proof. intros Hf s. apply Hf. Qed.

Lemma respects_bind {A B} (m : M A) (k : A -> M B) :
  respects m -> (forall a, respects (k a)) -> respects (xbind m k).
Proof.
  intros Hm Hk s. unfold xbind. specialize (Hm s). destruct (m s) as [a s1|e s1| |]; try done.
  specialize (Hk a s1). destruct (k a s1); try done; by etrans.
Qed.

Lemma respects_get_var n : respects (get_var n).
Proof.
  intros s. unfold get_var, get_datum, xbind, xget. destruct (es_datums s !! n) as [d|]; [|done].
  destruct d; simpl; reflexivity || done.
Qed.

Lemma respects_open_store w : respects (open_tuple_store w).
Proof.
  intros s. unfold open_tuple_store, exec_init_tuple_store, not_setof, xbind, xget.
  destruct (retisset s); simpl; [|reflexivity].
  destruct (tuple_store s) as [t|] eqn:E; simpl; [rewrite E; simpl; reflexivity|].
  destruct (es_rsi s) as [[am [d|]]|]; simpl; [destruct am|destruct am|]; simpl; try reflexivity.
  by apply so_open_store.
Qed.

Lemma respects_get_datum n : respects (get_datum n).
Proof. intros s. unfold get_datum, xbind, xget. destruct (es_datums s !! n); simpl; [reflexivity|done]. Qed.

(** Nothing is assumed of what is read, and nothing asked of what is stored. *)
#[local] Instance respects_closed : Closed (fun _ _ => True) (fun _ => True) respects_p.
Proof.
  split; intros; unfold respects_p in *;
    first [ done | by intros s; simpl; reflexivity || done | by apply respects_bind
          | apply respects_bind; [apply respects_get_datum|read_anything]
          | apply respects_bind; [apply respects_get_var|read_anything]
          | apply respects_bind; [by intros s; simpl; reflexivity|read_anything] | apply respects_open_store
          | apply so_eval_simple | apply so_execute_plan | apply so_execute_nonatomic
          | apply so_execute_plan_store | apply so_execute_store | apply so_cursor_open
          | apply respects_modify; intros s;
            first [ apply so_store_value | apply so_disarm | apply so_store_erh | apply so_store_rectypeid
                  | apply so_ret | apply so_processed | apply so_sqlerrcode | apply so_put_tuple ]
          | idtac ].
  - intros s. unfold pg_call. destruct (op (es_world s)); apply so_world.
  - apply respects_bind; [by intros s; simpl; reflexivity|]. intros s.
    apply respects_bind; [apply respects_get_var|].
    intros _. apply respects_modify. intros s'. apply so_store_value.
Qed.

(** ** Statements *)
Lemma rx_ret {A} (a : A) : respects_x (xret a).
Proof. intros s. simpl. reflexivity. Qed.
Lemma rx_get : respects_x xget.
Proof. intros s. simpl. reflexivity. Qed.
Lemma rx_throw {A} e : respects_x (A := A) (throw e).
Proof. intros s. simpl. reflexivity. Qed.
Lemma rx_ereport {A} c msg : respects_x (A := A) (ereport c msg).
Proof. apply rx_throw. Qed.
Lemma rx_undefined {A} : respects_x (A := A) undefined.
Proof. by intros s. Qed.
Lemma rx_out {A} : respects_x (A := A) (fun _ => OutOfFuel).
Proof. by intros s. Qed.
Lemma rx_exitlabel l : respects_x (set_exitlabel l).
Proof. intros s. simpl. reflexivity. Qed.
Lemma rx_lift {A} (m : M A) : respects_p A m -> respects_x (lift m).
Proof. intros Hm s. specialize (Hm (core s)). unfold lift. by destruct (m (core s)). Qed.
Lemma rx_bind {A B} (m : X A) (k : A -> X B) :
  respects_x m -> (forall a, respects_x (k a)) -> respects_x (xbind m k).
Proof.
  intros Hm Hk s. unfold xbind. specialize (Hm s). destruct (m s) as [a s1|e s1| |]; try done.
  specialize (Hk a s1). destruct (k a s1); try done; by etrans.
Qed.
Lemma rx_try {A} (m : X A) h :
  respects_x m -> (forall e, respects_x (h e)) -> respects_x (try_catch m h).
Proof.
  intros Hm Hh s. unfold try_catch. specialize (Hm s). destruct (m s) as [a s1|e s1| |]; try done.
  specialize (Hh e s1). destruct (h e s1); try done; by etrans.
Qed.

Lemma rp_cur_error e : respects_p _ (xmodify (with_cur_error e)).
Proof. apply respects_modify. intros s. apply so_cur_error. Qed.
Lemma rp_sqlstate_varno v : respects_p _ (xmodify (with_sqlstate_varno v)).
Proof. apply respects_modify. intros s. apply so_sqlstate_varno. Qed.
Lemma rp_with_ret v b t : respects_p _ (xmodify (with_ret v b t)).
Proof. apply respects_modify. intros s. apply so_ret. Qed.
Lemma rp_case_test n e : respects_p _ (case_assign_test n e).
Proof.
  apply (cl_case_assign_test respects_p). intros t. apply respects_modify. intros s.
  apply so_store_datatype.
Qed.
Lemma rp_init_vars l : respects_p _ (init_vars l).
Proof.
  induction l as [|n l IH]; simpl; [apply cl_ret|].
  apply cl_bind; [apply (cl_init_var respects_p)|]. done.
Qed.

(** Primitives put together in the interpreter. *)
Ltac prim :=
  repeat lazymatch goal with
  | |- forall _, _ => intro
  | |- respects_p _ (xbind _ _) => apply cl_bind
  | |- respects_p _ (match ?x with _ => _ end) => destruct x
  | |- respects_p _ (xmodify (with_cur_error _)) => apply rp_cur_error
  | |- respects_p _ (xmodify (with_sqlstate_varno _)) => apply rp_sqlstate_varno
  | |- respects_p _ (xmodify (with_ret _ _ _)) => apply rp_with_ret
  | |- respects_p _ (case_assign_test _ _) => apply rp_case_test
  | |- respects_p _ (init_vars _) => apply rp_init_vars
  | |- respects_p _ _ =>
      first [ apply cl_ret | apply cl_get | apply cl_throw | apply cl_ereport | apply cl_elog
            | apply cl_undefined | apply cl_pg | apply cl_set_found | apply cl_sqlerrcode
            | by apply (cl_assign_simple_var respects_p) | by apply (cl_text_var respects_p)
            | apply (cl_assign_expr respects_p) | apply (cl_eval_cond respects_p)
            | apply (cl_eval_expr respects_p) | apply (cl_cast respects_p)
            | apply (cl_get_var respects_p) | apply (cl_get_rec respects_p)
            | apply (cl_get_datum respects_p) | apply (cl_move_row respects_p)
            | apply (cl_assign_value respects_p) | apply (cl_set_sqlstate respects_p)
            | apply (cl_return respects_p) | apply (cl_assert respects_p)
            | by apply (cl_simple_stmt respects_p) | apply (cl_dynquery respects_p)
            | apply (cl_prepare respects_p) | apply (cl_open_portal respects_p)
            | apply (cl_cursor_args respects_p) | by apply (cl_store_name respects_p)
            | apply (cl_get_erh respects_p) | apply (cl_lookup_field respects_p)
            | apply cl_cursor_open ]
  end.

Lemma rp_transfer_retval : respects_p _ transfer_retval.
Proof. unfold transfer_retval. prim. Qed.
Lemma rp_handler_vars ex e : respects_p _ (set_handler_vars ex e).
Proof. unfold set_handler_vars. prim. Qed.
Lemma rp_activate v : respects_p _ (activate_sqlstate v).
Proof. unfold activate_sqlstate. prim. Qed.
Lemma rp_check_foreach s tv : respects_p _ (check_foreach s tv).
Proof. unfold check_foreach, loop_var_elem_type, exec_get_datum_type. prim. Qed.
Lemma rp_loop_row n d row c : respects_p _ (move_loop_row n d row c).
Proof. unfold move_loop_row, move_loop_row_rec. prim. Qed.
Lemma rp_open_query e : respects_p _ (open_query_portal e).
Proof. unfold open_query_portal. prim. Qed.
Lemma rp_open_forc s : respects_p _ (open_forc s).
Proof. unfold open_forc, check_cursor_unused. prim. Qed.

Ltac resp :=
  repeat first
    [ assumption
    | lazymatch goal with
      | |- respects_x (xbind _ _) => apply rx_bind; [|intros ?]
      | |- respects_x (try_catch _ _) => apply rx_try; [|intros ?]
      | |- respects_x (xret _) => apply rx_ret
      | |- respects_x xget => apply rx_get
      | |- respects_x (throw _) => apply rx_throw
      | |- respects_x (ereport _ _) => apply rx_ereport
      | |- respects_x (fun _ => OutOfFuel) => apply rx_out
      | |- respects_x (set_exitlabel _) => apply rx_exitlabel
      | |- respects_x (lift _) =>
          apply rx_lift;
          first [ apply rp_transfer_retval | apply rp_handler_vars | apply rp_activate
                | apply rp_check_foreach | apply rp_loop_row | apply rp_open_query
                | apply rp_open_forc | prim ]
      | |- respects_x (match ?x with _ => _ end) => destruct x
      end
    | solve [auto] ].

Section statements.
Context (run : list UPLpgSQL_stmt -> X exec_rc) (Hrun : forall l, respects_x (run l)) (fuel : nat).

Lemma rx_loop_rc l rc : respects_x (LOOP_RC_PROCESSING l rc).
Proof. unfold LOOP_RC_PROCESSING. resp. Qed.
#[local] Hint Resolve rx_loop_rc : core.

Lemma rx_elsifs l els : respects_x (exec_elsifs run l els).
Proof. induction l; simpl; resp. Qed.
Lemma rx_whens s l : respects_x (exec_whens run s l).
Proof. induction l; simpl; unfold discard_test; resp. Qed.
Lemma rx_forever n l b : respects_x (loop_forever run n l b).
Proof. induction n; simpl; resp. Qed.
Lemma rx_while n s : respects_x (loop_while run n s).
Proof. induction n; simpl; resp. Qed.
Lemma rx_fori_bound t e what : respects_x (fori_bound t e what).
Proof. unfold fori_bound. resp. Qed.
#[local] Hint Resolve rx_elsifs rx_whens rx_forever rx_while rx_fori_bound : core.
Lemma rx_loop_fori n s e st : forall v found, respects_x (loop_fori run n s e st v found).
Proof. induction n; intros v found; simpl; resp. Qed.
Lemma rx_batch q d rows : forall c, respects_x (run_batch run q d rows c).
Proof. induction rows; intros c; simpl; resp. Qed.
#[local] Hint Resolve rx_loop_fori rx_batch : core.
Lemma rx_rows n q p ok : forall rows c, respects_x (loop_rows run n q p ok rows c).
Proof. induction n; intros rows c; simpl; resp. Qed.
Lemma rx_elements s t tm elems : forall found, respects_x (loop_elements run s t tm elems found).
Proof. induction elems; intros found; simpl; resp. Qed.
#[local] Hint Resolve rx_rows rx_elements : core.
Lemma rx_for_query q p ok : respects_x (exec_for_query run fuel q p ok).
Proof. unfold exec_for_query. resp. Qed.
#[local] Hint Resolve rx_for_query : core.
Lemma rx_block b : respects_x (exec_stmt_block run b).
Proof.
  unfold exec_stmt_block, block_body, try_body, catch_body, block_rc. resp.
Qed.
#[local] Hint Resolve rx_block : core.
Lemma rx_stmt s : respects_x (exec_stmt run fuel s).
Proof.
  destruct s; cbn [exec_stmt];
    unfold exec_stmt_assign, exec_stmt_if, exec_stmt_case, exec_stmt_loop, exec_stmt_while,
      exec_stmt_fori, fori_step_value, exec_stmt_fors, exec_stmt_dynfors, exec_stmt_forc,
      exec_stmt_foreach_a, exec_stmt_exit; resp.
Qed.
End statements.

Lemma exec_stmts_respects fuel : forall l, respects_x (exec_stmts fuel l).
Proof.
  induction fuel as [|n IH]; intros l; simpl; [apply rx_out|].
  induction l as [|s l IHl]; simpl; [apply rx_ret|].
  apply rx_bind; [by apply rx_stmt|]. intros rc. destruct (decide _); [done|apply rx_ret].
Qed.
End respects.

(** ** Returned rows *)
Section rows.
Context {world : Type}.

(** The rows in the tuple store, in order, stay in front. *)
Definition rows_extend (s s' : execstate world) : Prop :=
  forall d rows, tuple_store s = Some (d, rows) -> exists more, tuple_store s' = Some (d, rows ++ more).

#[export] Instance rows_extend_preorder : PreOrder rows_extend.
Proof.
  split.
  - intros s d rows Hs. exists []. by rewrite app_nil_r.
  - intros s1 s2 s3 H12 H23 d rows H1. destruct (H12 _ _ H1) as [m1 H2].
    destruct (H23 _ _ H2) as [m2 H3]. exists (m1 ++ m2). by rewrite app_assoc.
Qed.

Lemma rows_extend_same s s' : tuple_store s' = tuple_store s -> rows_extend s s'.
Proof. intros Ht d rows Hs. exists []. rewrite app_nil_r. congruence. Qed.
End rows.

(** The executor appends to the tuple store it is given, and to no other. *)
Class PgEnvRows (world : Type) `{PgEnv world} : Prop := {
  pr_eval_simple e : respects rows_extend (exec_eval_simple_expr e);
  pr_execute_plan e n : respects rows_extend (SPI_execute_plan_with_paramlist e n);
  pr_execute_nonatomic e : respects rows_extend (SPI_execute_plan_nonatomic e);
  pr_execute_plan_store e : respects rows_extend (SPI_execute_plan_into_store e);
  pr_execute_store q ps : respects rows_extend (SPI_execute_into_store q ps);
  pr_cursor_open name e : respects rows_extend (SPI_cursor_open_with_paramlist name e)
}.

#[export] Instance rows_order {world} `{PgEnvRows world} : StateOrder rows_extend.
Proof.
  split; try apply rows_extend_preorder;
    try (intros; apply rows_extend_same; reflexivity); intros.
  - intros d' rows' Hs. congruence.
  - intros d rows Hs. exists [row]. simpl. by rewrite Hs.
  - apply pr_eval_simple.
  - apply pr_execute_plan.
  - apply pr_execute_nonatomic.
  - apply pr_execute_plan_store.
  - apply pr_execute_store.
  - apply pr_cursor_open.
Qed.

(** ** The shape of the datum array *)
Inductive datum_shape :=
  | SHAPE_VAR (h : UPLpgSQL_variable) (cursor : option UPLpgSQL_expr) (argrow options : Z)
  | SHAPE_PROMISE (h : UPLpgSQL_variable) (cursor : option UPLpgSQL_expr) (argrow options : Z)
  | SHAPE_ROW (r : UPLpgSQL_row)
  | SHAPE_REC (h : UPLpgSQL_variable) (t : option UPLpgSQL_type) (firstfield : Z)
  | SHAPE_RECFIELD (f : UPLpgSQL_recfield).

(** Everything of a datum but its value and its current type. *)
Definition shape (d : UPLpgSQL_datum) : datum_shape :=
  match d with
  | DTYPE_VAR v => SHAPE_VAR (var_head v) (cursor_explicit_expr v) (cursor_explicit_argrow v) (cursor_options v)
  | DTYPE_PROMISE v => SHAPE_PROMISE (var_head v) (cursor_explicit_expr v) (cursor_explicit_argrow v) (cursor_options v)
  | DTYPE_ROW r => SHAPE_ROW r
  | DTYPE_REC r => SHAPE_REC (rec_head r) (rec_datatype r) (firstfield r)
  | DTYPE_RECFIELD f => SHAPE_RECFIELD f
  end.

Section shapes.
Context {world : Type}.

(** The datums' shapes, and what a call fixes once and for all. *)
Record same_shape (s s' : execstate world) : Prop := {
  ss_datums : map shape (es_datums s') = map shape (es_datums s);
  ss_found : found_varno s' = found_varno s;
  ss_retisset : retisset s' = retisset s;
  ss_retistuple : retistuple s' = retistuple s;
  ss_rettype : es_fn_rettype s' = es_fn_rettype s;
  ss_atomic : atomic s' = atomic s;
  ss_rsi : es_rsi s' = es_rsi s
}.

#[export] Instance same_shape_preorder : PreOrder same_shape.
Proof.
  split; [by split|]. intros s1 s2 s3 [] []. split; congruence.
Qed.

Lemma shape_alter g n (l : list UPLpgSQL_datum) :
  (forall d, shape (g d) = shape d) -> map shape (alter g n l) = map shape l.
Proof.
  intros Hg. apply list_eq. intros i. rewrite !list_lookup_fmap.
  destruct (decide (i = n)) as [->|Hne].
  - rewrite list_lookup_alter_eq. destruct (l !! n); simpl; [by rewrite Hg|done].
  - by rewrite list_lookup_alter_ne.
Qed.

Lemma same_shape_alter g n s :
  (forall d, shape (g d) = shape d) -> same_shape s (with_datums (alter g n) s).
Proof. intros Hg. split; try done. by apply shape_alter. Qed.
End shapes.

Class PgEnvShape (world : Type) `{PgEnv world} : Prop := {
  ps_eval_simple e : respects same_shape (exec_eval_simple_expr e);
  ps_execute_plan e n : respects same_shape (SPI_execute_plan_with_paramlist e n);
  ps_execute_nonatomic e : respects same_shape (SPI_execute_plan_nonatomic e);
  ps_execute_plan_store e : respects same_shape (SPI_execute_plan_into_store e);
  ps_execute_store q ps : respects same_shape (SPI_execute_into_store q ps);
  ps_cursor_open name e : respects same_shape (SPI_cursor_open_with_paramlist name e)
}.

#[export] Instance shape_order {world} `{PgEnvShape world} : StateOrder same_shape.
Proof.
  split; try apply same_shape_preorder; intros;
    try (apply same_shape_alter; by intros []); try (by split).
  - apply ps_eval_simple.
  - apply ps_execute_plan.
  - apply ps_execute_nonatomic.
  - apply ps_execute_plan_store.
  - apply ps_execute_store.
  - apply ps_cursor_open.
Qed.

Section theorems.
Context {world : Type} `{PgEnv world}.

(** C7: The rows a set-returning function has returned are never lost: whatever
    statements it goes on to execute, whether they end normally, by EXIT, CONTINUE
    or RETURN, or by an error, and whatever exception handlers run in between, the
    rows returned so far stay, in order, in front of the new ones. *)
Theorem returned_rows_kept `{!PgEnvRows world} fuel stmts s d rows :
  tuple_store (core s) = Some (d, rows) ->
  match exec_stmts fuel stmts s with
  | Ok _ s' | Err _ s' => exists more, tuple_store (core s') = Some (d, rows ++ more)
  | Stuck | OutOfFuel => True
  end.
Proof.
  intros Hs. pose proof (exec_stmts_respects rows_extend fuel stmts s) as Hr.
  destruct (exec_stmts fuel stmts s); try done; by apply Hr.
Qed.

(** C29: Executing statements never changes the shape of the datum array: its
    length, the kind of each datum and its declaration (name, CONSTANT, NOT NULL,
    default, cursor query), nor the settings of the call. *)
Theorem datum_shapes_kept `{!PgEnvShape world} fuel stmts s :
  match exec_stmts fuel stmts s with
  | Ok _ s' | Err _ s' => same_shape (core s) (core s')
  | Stuck | OutOfFuel => True
  end.
Proof. exact (exec_stmts_respects same_shape fuel stmts s). Qed.
End theorems.

Module RespectExamples.
Import Demo.

#[export] Instance env_rows : PgEnvRows world.
Proof.
  assert (Hsel : forall e, respects rows_extend (spi_select e)).
  { intros e s. unfold spi_select. by destruct (evaluate _ _); apply rows_extend_same. }
  split; intros; try apply Hsel; intros s; by apply rows_extend_same.
Qed.

#[export] Instance env_shape : PgEnvShape world.
Proof.
  assert (Hsel : forall e, respects same_shape (spi_select e)).
  { intros e s. unfold spi_select. by destruct (evaluate _ _). }
  split; intros; try apply Hsel; by intros s.
Qed.

(** A call that collects one integer column, with one row returned already. *)
Definition one_int : TupleDesc := mk_tupdesc RECORDOID (-1) [mk_attr INT4OID (-1) false 4 "i"%char].
Definition srf_state : execstate world :=
  mk_execstate variables 0 0 true INT4OID true false INT4OID false true None None 0 0
    (Some (one_int, [[(7%Z, false)]])) (Some (mk_rsi true (Some one_int))) 1 false None None false None [].
Definition return_next_x : UPLpgSQL_stmt := STMT_RETURN_NEXT h (mk_return_next None (Some 1)).

(** An error in a block whose handler returns a further row. *)
Definition with_handler : list UPLpgSQL_stmt :=
  [return_next_x;
   STMT_BLOCK h (mk_block None [return_next_x; perform "oops"] []
     (Some (mk_exception_block 1 2 [mk_exception 1 [mk_condition UPLPGSQL_OTHERS "others"] [return_next_x]]))
     None)].

Lemma returned_rows_kept_witness :
  match exec_stmts 5 with_handler (mk_xstate None srf_state) with
  | Ok _ s' => exists more, tuple_store (core s') = Some (one_int, [(7%Z, false)] :: more) /\ length more = 3%nat
  | _ => False
  end.
Proof.
  pose proof (returned_rows_kept 5 with_handler (mk_xstate None srf_state) one_int [[(7%Z, false)]] eq_refl) as Hr.
  destruct (exec_stmts 5 with_handler (mk_xstate None srf_state)) as [rc s'|e s'| |] eqn:E;
    [|vm_compute in E; discriminate..].
  destruct Hr as [more Hm]. exists more. split; [exact Hm|].
  vm_compute in E. injection E as <- <-. vm_compute in Hm. injection Hm as <-. reflexivity.
Defined.

Lemma datum_shapes_kept_witness :
  match exec_stmts 5 with_handler (mk_xstate None srf_state) with
  | Ok _ s' => map shape (es_datums (core s')) = map shape variables
  | _ => False
  end.
Proof.
  pose proof (datum_shapes_kept 5 with_handler (mk_xstate None srf_state)) as Hr.
  destruct (exec_stmts 5 with_handler (mk_xstate None srf_state)) as [rc s'|e s'| |] eqn:E;
    [|vm_compute in E; discriminate..].
  destruct Hr. assumption.
Defined.
End RespectExamples.
