(* ===== verification/Machine.v ===== *)
(** * Running compiled code

    A machine for the code of file IR: registers, stack slots, and the
    instructions left to run in the current block.  A call runs the C function
    it names on the execution state; those functions are the [uplpgsql_rt_*]
    helpers of [common/upl_runtime.c] below and the interpreter functions the
    compiler embeds by address.

    Not executed by the machine, and therefore [MStuck]: [sigsetjmp] and the
    exception frames, the cursor contexts of row loops, native arrays, the direct
    access to record fields, mathematical functions.  The error-context field [err_stmt] is not part of the state. *)

From Stdlib Require Import ZArith Ascii SpecFloat.
From S2P Require Import Prelude Ast Float Expr Exec Assign SqlStmts Interp IR CoreEmit StmtEmit.
#[local] Open Scope Z_scope.

(** ** The runtime helpers *)
Section runtime.
Context {world : Type} `{PgEnv world}.
Abbreviation M := (exec (execstate world)).
Open Scope exec_scope.

(** "NULL is treated as false." *)
Definition uplpgsql_rt_eval_bool (e : UPLpgSQL_expr) : M bool :=
  r <~ exec_eval_boolean e; xret (if r.2 : bool then false else r.1).

Definition null_int_message : string := "NULL value not allowed for integer expression".

Definition uplpgsql_rt_eval_int (e : UPLpgSQL_expr) : M Z :=
  r <~ exec_eval_integer e;
  if r.2 : bool then ereport ERRCODE_NULL_VALUE_NOT_ALLOWED null_int_message else xret r.1.

Definition uplpgsql_rt_init_var (dno : nat) : M unit := init_var dno.
Definition uplpgsql_rt_set_found (v : bool) : M unit := exec_set_found v.
Definition uplpgsql_rt_assign_int (dno : nat) (v : Z) : M unit :=
  assign_simple_var dno (Int32GetDatum v) false false.
Definition uplpgsql_rt_assign_null (dno : nat) : M unit := assign_simple_var dno 0 true false.
Definition uplpgsql_rt_case_error (lineno : Z) : M unit := throw case_not_found.
Definition uplpgsql_rt_exec_assert (s : UPLpgSQL_stmt_assert) : M unit := exec_assert s.

(** [uplpgsql_rt_exec_return]; its copy of the result into the JIT's own state
    is never read. *)
Definition uplpgsql_rt_exec_return (s : UPLpgSQL_stmt_return) : M Z :=
  exec_stmt_return s ;~ xret UPLPGSQL_RC_RETURN.

(** The function by which the interpreter executes a statement. *)
Definition simple_stmt_fn (stmt : UPLpgSQL_stmt) : option exec_fn :=
  match stmt with
  | STMT_PERFORM _ _ => Some FN_exec_stmt_perform
  | STMT_EXECSQL _ _ => Some FN_exec_stmt_execsql
  | STMT_RAISE _ _ => Some FN_exec_stmt_raise
  | STMT_OPEN _ _ => Some FN_exec_stmt_open
  | STMT_FETCH _ _ => Some FN_exec_stmt_fetch
  | STMT_CLOSE _ _ => Some FN_exec_stmt_close
  | STMT_DYNEXECUTE _ _ => Some FN_exec_stmt_dynexecute
  | STMT_RETURN_NEXT _ _ => Some FN_exec_stmt_return_next
  | STMT_RETURN_QUERY _ _ => Some FN_exec_stmt_return_query
  | STMT_CALL _ _ => Some FN_exec_stmt_call
  | STMT_GETDIAG _ _ => Some FN_exec_stmt_getdiag
  | STMT_COMMIT _ _ => Some FN_exec_stmt_commit
  | STMT_ROLLBACK _ _ => Some FN_exec_stmt_rollback
  | _ => None
  end.

#[local] Instance exec_fn_eq_dec : EqDecision exec_fn.
Proof. solve_decision. Defined.

Definition z_of_bool (b : bool) : Z := if b then 1 else 0.
Definition bool_of_z (z : Z) : bool := negb (z =? 0).

Definition void (m : M unit) : M (option value) := m ;~ xret None.

Definition call_rt (f : UPLpgSQL_rt_func) (args : list value) : M (option value) :=
  match f, args with
  | RT_EVAL_BOOL, [VEstate; VExpr e] => b <~ uplpgsql_rt_eval_bool e; xret (Some (VInt (z_of_bool b)))
  | RT_EVAL_INT, [VEstate; VExpr e] => z <~ uplpgsql_rt_eval_int e; xret (Some (VInt z))
  | RT_INIT_VAR, [VEstate; VInt n] => void (uplpgsql_rt_init_var (Z.to_nat n))
  | RT_SET_FOUND, [VEstate; VInt b] => void (uplpgsql_rt_set_found (bool_of_z b))
  | RT_ASSIGN_INT, [VEstate; VInt n; VInt v] => void (uplpgsql_rt_assign_int (Z.to_nat n) v)
  | RT_ASSIGN_NULL, [VEstate; VInt n] => void (uplpgsql_rt_assign_null (Z.to_nat n))
  | RT_CASE_ERROR, [VEstate; VInt n] => void (uplpgsql_rt_case_error n)
  | RT_EXEC_ASSERT_FAIL, [VEstate; VStmt (STMT_ASSERT _ s)] => void (uplpgsql_rt_exec_assert s)
  | RT_EXEC_RETURN, [VEstate; VStmt (STMT_RETURN _ s)] =>
      rc <~ uplpgsql_rt_exec_return s; xret (Some (VInt rc))
  | _, _ => undefined
  end.

Definition call_direct (f : exec_fn) (args : list value) : M (option value) :=
  match f, args with
  | FN_exec_assign_expr, [VPlstate; VDatum n; VExpr e] => void (exec_assign_expr n e)
  | FN_exec_set_found, [VPlstate; VInt b] => void (exec_set_found (bool_of_z b))
  | FN_rt_case_assign_test, [VEstate; VInt n; VExpr e] => void (case_assign_test (Z.to_nat n) e)
  | _, [VPlstate; VStmt stmt] =>
      if decide (simple_stmt_fn stmt = Some f)
      then exec_simple_stmt stmt ;~ xret (Some (VInt UPLPGSQL_RC_OK))
      else undefined
  | _, _ => undefined
  end.

(** The functions that only raise: [uplpgsql_rt_int_overflow],
    [uplpgsql_rt_div_zero] and [uplpgsql_rt_array_subscript_null]; the float errors
    are PostgreSQL's. *)
Definition ERRCODE_NUMERIC_VALUE_OUT_OF_RANGE : Z := MAKE_SQLSTATE "2" "2" "0" "0" "3".
Definition ERRCODE_DIVISION_BY_ZERO : Z := MAKE_SQLSTATE "2" "2" "0" "1" "2".

Definition raise_error (f : err_fn) : ErrorData :=
  match f with
  | ERR_rt_int_overflow => mk_error ERRCODE_NUMERIC_VALUE_OUT_OF_RANGE "integer out of range"
  | ERR_rt_div_zero => mk_error ERRCODE_DIVISION_BY_ZERO "division by zero"
  | ERR_rt_array_subscript_null =>
      mk_error ERRCODE_NULL_VALUE_NOT_ALLOWED "array subscript in assignment must not be null"
  | ERR_float_overflow_error =>
      mk_error ERRCODE_NUMERIC_VALUE_OUT_OF_RANGE "value out of range: overflow"
  | ERR_float_underflow_error =>
      mk_error ERRCODE_NUMERIC_VALUE_OUT_OF_RANGE "value out of range: underflow"
  | ERR_float_zero_divide_error => mk_error ERRCODE_DIVISION_BY_ZERO "division by zero"
  end.

Definition call (f : callee) (args : list value) : M (option value) :=
  match f with
  | RT f => call_rt f args
  | DIRECT f => call_direct f args
  | ERROR f => throw (raise_error f)
  end.
End runtime.

(** ** The machine *)
Record mstate (world : Type) := mk_mstate {
  todo : list instr;
  mcore : execstate world;
  regs : gmap nat value;
  slots : gmap nat value
}.
Arguments mk_mstate {world}. Arguments todo {world}. Arguments mcore {world}.
Arguments regs {world}. Arguments slots {world}.

Inductive mresult (world : Type) :=
  | MNext (m : mstate world)
  | MReturn (v : value) (s : execstate world)
  | MRaise (e : ErrorData) (s : execstate world)
  | MStuck.
Arguments MNext {world}. Arguments MReturn {world}. Arguments MRaise {world}. Arguments MStuck {world}.

Section machine.
Context {world : Type} `{PgEnv world}.
Context (f : ir_function).

Definition block (b : nat) : list instr := default [] (ir_code f !! b).

Definition operand_value (r : gmap nat value) (o : operand) : option value :=
  match o with OReg n => r !! n | OConst v => Some v end.

Definition operand_int (r : gmap nat value) (o : operand) : option Z :=
  match operand_value r o with Some (VInt z) => Some z | _ => None end.

Definition icmp (p : icmp_pred) (a b : Z) : bool :=
  match p with
  | EQ => a =? b | NE => negb (a =? b)
  | SLT => a <? b | SLE => a <=? b | SGT => a >? b | SGE => a >=? b
  end.

(** Flags, the values of type [i1]. *)
Lemma land_flags a b : Z.land (z_of_bool a) (z_of_bool b) = z_of_bool (a && b).
Proof. by destruct a, b. Qed.
Lemma lor_flags a b : Z.lor (z_of_bool a) (z_of_bool b) = z_of_bool (a || b).
Proof. by destruct a, b. Qed.
Lemma not_flag a : (1 - z_of_bool a)%Z = z_of_bool (negb a).
Proof. by destruct a. Qed.

(** [fcmp]: LLVM's ordered predicates are false on NaN. *)
Definition fcmp (p : fcmp_pred) (a b : double) : bool :=
  match p with
  | UNO => fcmp_uno a b
  | OEQ => fcmp_oeq a b
  | ONE => fcmp_one a b
  | OLT => fcmp_olt a b
  | OLE => fcmp_ole a b
  | OGT => fcmp_olt b a
  | OGE => fcmp_ole b a
  end.

Definition wrap (w : int_width) : Z -> Z := match w with I32 => wrap32 | I64 => wrap64 end.
Definition int_min (w : int_width) : Z := match w with I32 => PG_INT32_MIN | I64 => PG_INT64_MIN end.
Definition arith (op : arith_op) (a b : Z) : Z :=
  match op with ADD => a + b | SUB => a - b | MUL => a * b end.

(** What an instruction computes; [None] where LLVM leaves the behaviour undefined
    (division by zero, the quotient or remainder of the least integer by -1), and
    for mathematical functions, which the machine does not compute. *)
Definition eval_op (op : llvm_op) (args : list value) : option value :=
  match op, args with
  | OpMove, [v] => Some v
  | OpSelect, [VInt c; a; b] => Some (if bool_of_z c then a else b)
  | OpTrunc32, [VInt z] => Some (VInt (wrap32 z))
  | OpTrunc1, [VInt z] => Some (VInt (z mod 2))
  | OpSExt, [VInt z] | OpZExt, [VInt z] => Some (VInt z)
  | OpICmp p, [VInt a; VInt b] => Some (VInt (z_of_bool (icmp p a b)))
  | OpArith op w, [VInt a; VInt b] => Some (VInt (wrap w (arith op a b)))
  | OpOverflow op w, [VInt a; VInt b] =>
      Some (VInt (z_of_bool (negb (wrap w (arith op a b) =? arith op a b))))
  | OpSDiv w, [VInt a; VInt b] =>
      if (b =? 0) || ((a =? int_min w) && (b =? -1)) then None else Some (VInt (Z.quot a b))
  | OpSRem w, [VInt a; VInt b] =>
      if (b =? 0) || ((a =? int_min w) && (b =? -1)) then None else Some (VInt (Z.rem a b))
  | OpNeg w, [VInt a] => Some (VInt (wrap w (- a)))
  | OpAnd, [VInt a; VInt b] => Some (VInt (Z.land a b))
  | OpOr, [VInt a; VInt b] => Some (VInt (Z.lor a b))
  | OpNot, [VInt a] => Some (VInt (1 - a))
  | OpBitsToDouble, [VInt z] => Some (VDouble (double_of_bits z))
  | OpDoubleToBits, [VDouble d] => Some (VInt (bits_of_double d))
  | OpSIToFP, [VInt z] => Some (VDouble (double_of_int z))
  | OpFPExt, [VDouble d] => Some (VDouble d)
  | OpFAdd, [VDouble a; VDouble b] => Some (VDouble (fadd a b))
  | OpFSub, [VDouble a; VDouble b] => Some (VDouble (fsub a b))
  | OpFMul, [VDouble a; VDouble b] => Some (VDouble (fmul a b))
  | OpFDiv, [VDouble a; VDouble b] => Some (VDouble (fdiv a b))
  | OpFNeg, [VDouble a] => Some (VDouble (SFopp a))
  | OpFCmp p, [VDouble a; VDouble b] => Some (VInt (z_of_bool (fcmp p a b)))
  | _, _ => None
  end.

Definition set_reg (m : mstate world) (more : list instr) (dst : nat) (v : value) : mresult world :=
  MNext (mk_mstate more (mcore m) (<[dst := v]> (regs m)) (slots m)).
Definition jump (m : mstate world) (b : nat) : mresult world :=
  MNext (mk_mstate (block b) (mcore m) (regs m) (slots m)).

(** The values of a call's arguments, if all are defined. *)
Definition arg_values (r : gmap nat value) (args : list operand) : option (list value) :=
  mapM (operand_value r) args.

Definition step_call (m : mstate world) (more : list instr) (dst : option nat) (g : callee)
    (args : list operand) : mresult world :=
  match arg_values (regs m) args with
  | None => MStuck
  | Some vs =>
      match call g vs (mcore m), dst with
      | Ok (Some v) s, Some r => MNext (mk_mstate more s (<[r := v]> (regs m)) (slots m))
      | Ok _ s, None => MNext (mk_mstate more s (regs m) (slots m))
      | Err e s, _ => MRaise e s
      | _, _ => MStuck
      end
  end.

Definition step_binop (m : mstate world) (more : list instr) (dst : nat) (op : Z -> Z -> Z)
    (a b : operand) : mresult world :=
  match operand_int (regs m) a, operand_int (regs m) b with
  | Some x, Some y => set_reg m more dst (VInt (op x y))
  | _, _ => MStuck
  end.

Definition datum_arg (r : gmap nat value) (a : operand * operand) : option (Datum * bool) :=
  match operand_int r a.1, operand_int r a.2 with
  | Some d, Some null => Some (d, bool_of_z null)
  | _, _ => None
  end.

(** A PostgreSQL function called through its address. *)
Definition step_fmgr (m : mstate world) (more : list instr) (dst dst_null : nat) (g : func_oid)
    (coll : Oid) (args : list (operand * operand)) : mresult world :=
  match mapM (datum_arg (regs m)) args with
  | None => MStuck
  | Some vs =>
      match pg_call (FunctionCallInvoke g coll vs) (mcore m) with
      | Ok (d, null) s =>
          MNext (mk_mstate more s (<[dst_null := VInt (z_of_bool null)]> (<[dst := VInt d]> (regs m)))
                   (slots m))
      | Err e s => MRaise e s
      | _ => MStuck
      end
  end.

Definition step (m : mstate world) : mresult world :=
  match todo m with
  | [] => MStuck
  | i :: more =>
      let next := MNext (mk_mstate more (mcore m) (regs m) (slots m)) in
      match i with
      | ICall dst g args => step_call m more dst g args
      | ISigsetjmp _ _ => MStuck
      | IAlloca s => MNext (mk_mstate more (mcore m) (regs m) (delete s (slots m)))
      | IStore v s =>
          match operand_value (regs m) v with
          | Some x => MNext (mk_mstate more (mcore m) (regs m) (<[s := x]> (slots m)))
          | None => MStuck
          end
      | ILoad dst s => match slots m !! s with Some x => set_reg m more dst x | None => MStuck end
      | IICmp dst p a b => step_binop m more dst (fun x y => z_of_bool (icmp p x y)) a b
      | IAdd dst a b => step_binop m more dst (fun x y => wrap32 (x + y)) a b
      | ISub dst a b => step_binop m more dst (fun x y => wrap32 (x - y)) a b
      | IZExt dst a =>
          match operand_int (regs m) a with Some x => set_reg m more dst (VInt x) | None => MStuck end
      | IStoreErrStmt _ => next
      | ILoadPlstate dst => set_reg m more dst VPlstate
      | ILoadDatumPtr dst n => set_reg m more dst (VDatum n)
      | ILoadVarDatum dst n =>
          match es_datums (mcore m) !! n with
          | Some (DTYPE_VAR v | DTYPE_PROMISE v) => set_reg m more dst (VInt (wrap64 (Ast.value v)))
          | _ => MStuck
          end
      | ILoadVarIsnull dst n =>
          match es_datums (mcore m) !! n with
          | Some (DTYPE_VAR v | DTYPE_PROMISE v) => set_reg m more dst (VInt (z_of_bool (isnull v)))
          | _ => MStuck
          end
      | IStoreVar n d null =>
          match es_datums (mcore m) !! n, operand_int (regs m) d, operand_int (regs m) null with
          | Some (DTYPE_VAR _ | DTYPE_PROMISE _), Some z, Some b =>
              MNext (mk_mstate more
                (with_datums (alter (update_var (set_value z (bool_of_z b) false)) n) (mcore m))
                (regs m) (slots m))
          | _, _, _ => MStuck
          end
      | ILoadErh _ _ | ILoadErhDvaluesValid _ _ | ILoadDvalue _ _ _ | ILoadNullFlag _ _ _
      | ILoadElem _ _ _ _ | IStoreElem _ _ _ _ | IStoreAt _ _ _ _ | IStoreNullFlag _ _ _
      | IArrayAlloca _ _ | IMemSetZero _ _ => MStuck
      | IOp dst op args =>
          match arg_values (regs m) args with
          | Some vs => match eval_op op vs with Some v => set_reg m more dst v | None => MStuck end
          | None => MStuck
          end
      | ICallFmgr dst dst_null g coll args => step_fmgr m more dst dst_null g coll args
      | IBr t => jump m t
      | ICondBr c t e =>
          match operand_int (regs m) c with
          | Some z => jump m (if bool_of_z z then t else e)
          | None => MStuck
          end
      | ISwitch v d sw =>
          match operand_int (regs m) v with
          | Some z =>
              jump m (if z <? 0 then d
                      else default d (default [] (ir_switches f !! sw) !! Z.to_nat z))
          | None => MStuck
          end
      | IRet v => match operand_value (regs m) v with Some x => MReturn x (mcore m) | None => MStuck end
      | IUnreachable => MStuck
      end
  end.

(** Run for at most [n] steps; [None] when they did not suffice. *)
Fixpoint run (n : nat) (m : mstate world) : option (mresult world) :=
  match n with
  | O => None
  | S n' => match step m with MNext m' => run n' m' | r => Some r end
  end.

(** The call of the compiled function: control enters the first block. *)
Definition start (s : execstate world) : mstate world := mk_mstate (block 0) s ∅ ∅.

(** ** Sequences of steps *)
Definition steps : mstate world -> mstate world -> Prop := rtc (fun m m' => step m = MNext m').

Lemma steps_run m m' r :
  steps m m' -> step m' = r -> (forall k, r <> MNext k) -> exists n, run n m = Some r.
Proof.
  intros Hs Hr Hn. induction Hs as [m|m m1 m2 H1 Hs IH].
  - exists 1%nat. simpl. rewrite Hr. destruct r; [by destruct (Hn m0)|done..].
  - destruct (IH Hr) as [n Hrun]. exists (S n). simpl. by rewrite H1.
Qed.

Lemma steps_one m m' : step m = MNext m' -> steps m m'.
Proof. intros Hs. by apply rtc_once. Qed.

Lemma steps_trans m1 m2 m3 : steps m1 m2 -> steps m2 m3 -> steps m1 m3.
Proof. intros. by etrans. Qed.
End machine.

(** Operations on flags. *)
Ltac flags := repeat first [rewrite land_flags in * | rewrite lor_flags in * | rewrite not_flag in *].
