(* ===== verification/FlatMachine.v ===== *)
(** * The machine with flat memory

    The machine of file Machine together with the memory of file Memory: it runs the
    instructions on native arrays, where the former is stuck, and the calls of their
    runtime helpers.  The blocks an [alloca] of variable size makes are stack blocks. *)

From Stdlib Require Import ZArith Lia SpecFloat.
From S2P Require Import Prelude Ast Escape Float Exec Assign IR CoreEmit StmtEmit Machine Memory NativeArray.
#[local] Open Scope Z_scope.

(** ** Values *)
Definition value_of_pointer (p : pointer) : value := match p with Some b => VBuf b | None => VNull end.
Definition pointer_of_value (v : value) : option pointer :=
  match v with VBuf b => Some (Some b) | VNull => Some None | _ => None end.

(** The word that stands for a value of an element, and back. *)
Definition value_word (v : value) : option Z :=
  match v with VInt z => Some z | VDouble d => Some (bits_of_double d) | _ => None end.
Definition word_value (ty : Oid) (w : Z) : value :=
  if ty =? FLOAT8OID then VDouble (double_of_bits w) else VInt w.
Definition elem_bytes (ty : Oid) : nat := if ty =? INT4OID then 4 else 8.

(** The slots of a native array. *)
Definition slot_int (sl : gmap nat value) (n : nat) : option Z :=
  match sl !! n with Some (VInt z) => Some z | _ => None end.
Definition slot_pointer (sl : gmap nat value) (n : nat) : option pointer :=
  match sl !! n with Some v => pointer_of_value v | None => None end.

(** The machine's state with the memory. *)
Definition fstate (world : Type) : Type := mstate world * heap.

Inductive fresult (world : Type) :=
  | FNext (m : fstate world)
  | FReturn (v : value) (s : execstate world)
  | FRaise (e : ErrorData) (s : execstate world)
  | FStuck.
Arguments FNext {world}. Arguments FReturn {world}. Arguments FRaise {world}. Arguments FStuck {world}.

Section flat.
Context {world : Type} `{PgEnv world} `{PgMemory} `{PgArrays world}.
Context (f : ir_function).

(** ** Accesses *)
Definition operand_block (r : gmap nat value) (o : operand) : option nat :=
  match operand_value r o with Some (VBuf b) => Some b | _ => None end.
Definition operand_word (r : gmap nat value) (o : operand) : option Z :=
  match operand_value r o with Some v => value_word v | None => None end.
(** A subscript; a negative one points in front of the block. *)
Definition operand_index (r : gmap nat value) (o : operand) : option nat :=
  match operand_int r o with Some z => if z <? 0 then None else Some (Z.to_nat z) | None => None end.

Definition continue (m : mstate world) (more : list instr) (h : heap) : fresult world :=
  FNext (mk_mstate more (mcore m) (regs m) (slots m), h).

Definition define (m : mstate world) (more : list instr) (dst : nat) (v : value) (h : heap) : fresult world :=
  FNext (mk_mstate more (mcore m) (<[dst := v]> (regs m)) (slots m), h).

Definition write (m : mstate world) (more : list instr) (b : nat) (g : bytes -> option bytes) (h : heap)
    : fresult world :=
  match update_block b g h with Ok _ h' => continue m more h' | _ => FStuck end.

(** ** Calls of the helpers *)

Definition with_slots (m : mstate world) (more : list instr) (sl : gmap nat value) (s : execstate world)
    : mstate world := mk_mstate more s (regs m) sl.

(** A call of a helper: the new slots, and the value for the destination. *)
Definition finish_call {A} (m : mstate world) (more : list instr) (o : outcome (execstate world * heap) A)
    (k : A -> mstate world -> mstate world) : fresult world :=
  match o with
  | Ok a (s, h) => FNext (k a (mk_mstate more s (regs m) (slots m)), h)
  | Err e (s, _) => FRaise e s
  | _ => FStuck
  end.

Definition set_dst (dst : option nat) (v : value) (m : mstate world) : mstate world :=
  match dst with
  | Some r => mk_mstate (todo m) (mcore m) (<[r := v]> (regs m)) (slots m)
  | None => m
  end.
Definition set_slots (l : list (nat * value)) (m : mstate world) : mstate world :=
  mk_mstate (todo m) (mcore m) (regs m) (foldr (fun p sl => <[p.1 := p.2]> sl) (slots m) l).

(** The slots whose addresses [uplpgsql_rt_native_array_reserve] gets. *)
Definition reserve_slots (sl : gmap nat value) (d n hp c : nat) (len : Z) : option native_array :=
  match slot_pointer sl d, slot_pointer sl n, slot_int sl hp, slot_int sl c with
  | Some data, Some nulls, Some is_heap, Some cap =>
      Some (mk_native data len 0 nulls cap (bool_of_z is_heap))
  | _, _, _, _ => None
  end.

Definition call_native (m : mstate world) (more : list instr) (dst : option nat) (g : UPLpgSQL_rt_func)
    (args : list value) (h : heap) : fresult world :=
  let st := (mcore m, h) in
  match g, args with
  | RT_NATIVE_ARRAY_ALLOC, [VEstate; VInt n] =>
      finish_call m more (on_memory (uplpgsql_rt_native_array_alloc n) st) (fun b => set_dst dst (VBuf b))
  | RT_NATIVE_ARRAY_TO_DATUM, [VEstate; VInt varno; data; VInt len; VInt lb; nulls; VInt ty; VInt sz] =>
      match pointer_of_value data, pointer_of_value nulls with
      | Some d, Some n =>
          finish_call m more
            (uplpgsql_rt_native_array_to_datum (Z.to_nat varno) d len lb n ty (Z.to_nat sz) st)
            (fun _ => id)
      | _, _ => FStuck
      end
  | RT_NATIVE_ARRAY_FROM_DATUM, [VEstate; VInt d; VInt isnull; VInt sz; VSlot n; VSlot lb; VSlot nl] =>
      finish_call m more
        (on_memory (uplpgsql_rt_native_array_from_datum (es_world (mcore m)) d (bool_of_z isnull) (Z.to_nat sz)) st)
        (fun o mm => set_dst dst (value_of_pointer (fd_data o))
           (set_slots [(n, VInt (fd_nelems o)); (lb, VInt (fd_lb o)); (nl, value_of_pointer (fd_nulls o))] mm))
  | RT_NATIVE_ARRAY_RELEASE, [data; nulls; VInt is_heap] =>
      match pointer_of_value data, pointer_of_value nulls with
      | Some d, Some n =>
          finish_call m more (on_memory (uplpgsql_rt_native_array_release d n (bool_of_z is_heap)) st)
            (fun _ => id)
      | _, _ => FStuck
      end
  | RT_NATIVE_ARRAY_RESERVE, [VEstate; VSlot d; VSlot n; VSlot hp; VSlot c; VInt len; VInt sz] =>
      match reserve_slots (slots m) d n hp c len with
      | Some na =>
          finish_call m more (on_memory (uplpgsql_rt_native_array_reserve na len (Z.to_nat sz)) st)
            (fun na' => set_slots [(d, value_of_pointer (na_data na')); (n, value_of_pointer (na_nulls na'));
                                   (hp, VInt (z_of_bool (na_heap na'))); (c, VInt (na_cap na'))])
      | None => FStuck
      end
  | RT_ARRAY_SET_ELEMENT,
      [VEstate; VInt dno; VInt i; VInt d; VInt null; VInt typlen; VInt ty; VInt elmlen; VInt byval; VInt align] =>
      finish_call m more
        (on_state (uplpgsql_rt_array_set_element (Z.to_nat dno) i d (bool_of_z null) typlen ty
                     (elmlen, bool_of_z byval, align)) st)
        (fun _ => id)
  | _, _ => FStuck
  end.

(** ** Steps *)

(** A fresh stack block of [n] bytes; a negative number is a huge unsigned one. *)
Definition step_alloca (m : mstate world) (more : list instr) (dst : nat) (n : Z) (h : heap) : fresult world :=
  if n <? 0 then FStuck
  else let b := fresh (dom h) in
       define m more dst (VBuf b) (<[b := (StackBlock, replicate (Z.to_nat n) None)]> h).

Definition flat_step (m : mstate world) (h : heap) : fresult world :=
  match todo m with
  | ILoadElem dst ty data idx :: more =>
      match operand_block (regs m) data, operand_index (regs m) idx with
      | Some b, Some i =>
          match read_block b (load_elem (elem_bytes ty) i) h with
          | Ok w _ => define m more dst (word_value ty w) h
          | _ => FStuck
          end
      | _, _ => FStuck
      end
  | IStoreElem ty v data idx :: more =>
      match operand_word (regs m) v, operand_block (regs m) data, operand_index (regs m) idx with
      | Some w, Some b, Some i => write m more b (store_elem (elem_bytes ty) i w) h
      | _, _, _ => FStuck
      end
  | IStoreAt ty v data off :: more =>
      match operand_word (regs m) v, operand_block (regs m) data, operand_index (regs m) off with
      | Some w, Some b, Some i => write m more b (write_bytes i (map Some (word_bytes (elem_bytes ty) w))) h
      | _, _, _ => FStuck
      end
  | ILoadNullFlag dst nulls idx :: more =>
      match operand_block (regs m) nulls, operand_index (regs m) idx with
      | Some b, Some i =>
          match read_block b (load_flag i) h with
          | Ok fl _ => define m more dst (VInt (z_of_bool fl)) h
          | _ => FStuck
          end
      | _, _ => FStuck
      end
  | IStoreNullFlag v nulls idx :: more =>
      match operand_int (regs m) v, operand_block (regs m) nulls, operand_index (regs m) idx with
      | Some z, Some b, Some i => write m more b (store_flag i (bool_of_z z)) h
      | _, _, _ => FStuck
      end
  | IArrayAlloca dst n :: more =>
      match operand_int (regs m) n with Some z => step_alloca m more dst z h | None => FStuck end
  | IMemSetZero ptr n :: more =>
      match operand_block (regs m) ptr, operand_index (regs m) n with
      | Some b, Some i => write m more b (write_bytes 0 (replicate i (Some 0))) h
      | _, _ => FStuck
      end
  | IOp dst OpIsNotNull [v] :: more =>
      match operand_value (regs m) v with
      | Some x =>
          match pointer_of_value x with
          | Some p => define m more dst (VInt (z_of_bool (match p with Some _ => true | None => false end))) h
          | None => FStuck
          end
      | None => FStuck
      end
  | ICall dst (RT g) args :: more =>
      match arg_values (regs m) args with
      | Some vs => call_native m more dst g vs h
      | None => FStuck
      end
  | _ => FStuck
  end.

Definition fstep (m : fstate world) : fresult world :=
  match step f m.1 with
  | MNext m' => FNext (m', m.2)
  | MReturn v s => FReturn v s
  | MRaise e s => FRaise e s
  | MStuck => flat_step m.1 m.2
  end.

Definition fsteps : fstate world -> fstate world -> Prop := rtc (fun a b => fstep a = FNext b).

Lemma fsteps_trans a b c : fsteps a b -> fsteps b c -> fsteps a c.
Proof. intros. by etrans. Qed.

(** What the first machine does, this one does. *)
Lemma fsteps_lift m m' h : steps f m m' -> fsteps (m, h) (m', h).
Proof.
  induction 1 as [m|m m1 m2 Hm1 _ IH]; [apply rtc_refl|]. eapply rtc_l; [|exact IH].
  unfold fstep. simpl. by rewrite Hm1.
Qed.

Lemma fsteps_flat m h b : step f m = MStuck -> flat_step m h = FNext b -> fsteps (m, h) b.
Proof. intros Hs Hf. apply rtc_once. unfold fstep. simpl. by rewrite Hs. Qed.
End flat.
