(* ===== verification/Growth.v ===== *)
(** * Emission only adds code

    Whatever the compiler does, the instructions already emitted into a block
    stay where they are, and register and slot numbers are never reused.  A
    point in the middle of compilation can therefore be recognised in the
    finished function: [ext c f] says that [f] extends what was built at [c], and
    [rest f c] is the code of the current block that is still to come. *)

From Stdlib Require Import ZArith Lia.
From S2P Require Import Prelude Ast Escape IR CoreEmit StmtEmit Wellformed Machine.

(** ** The order on contexts *)
Record le_ctx (c c' : UPL_compile_ctx) : Prop := {
  le_code : forall b, codeb c b `prefix_of` codeb c' b;
  le_reg : next_reg (bld c) <= next_reg (bld c');
  le_slot : next_slot (bld c) <= next_slot (bld c')
}.

#[export] Instance le_ctx_preorder : PreOrder le_ctx.
Proof.
  split.
  - intros c. by split.
  - intros c1 c2 c3 [H1 H2 H3] [H1' H2' H3']. split; [|lia|lia]. intros b. etrans; [apply H1|apply H1'].
Qed.

Definition grows {A} (m : emit A) : Prop :=
  forall c a c', m c = Success (a, c') -> le_ctx c c'.

Lemma grows_ret {A} (a : A) : grows (ret a).
Proof. intros c a' c' [= <- <-]. done. Qed.

Lemma grows_error {A} msg : grows (@elog_error A msg).
Proof. intros c a c' H. discriminate. Qed.

Lemma grows_bind {A B} (m : emit A) (k : A -> emit B) :
  grows m -> (forall a, grows (k a)) -> grows (bind m k).
Proof.
  intros Hm Hk c b c' (a & c1 & H1 & H2)%bind_Success. etrans; [by eapply Hm|by eapply Hk].
Qed.

(** Steps that do not touch the code. *)
Lemma grows_quiet {A} (m : emit A) :
  (forall c a c', m c = Success (a, c') ->
     block_code (bld c') = block_code (bld c) /\ next_reg (bld c) <= next_reg (bld c')
     /\ next_slot (bld c) <= next_slot (bld c')) ->
  grows m.
Proof.
  intros Hm c a c' H. destruct (Hm _ _ _ H) as (Hc & ? & ?). split; [|done|done].
  intros b. unfold codeb, code_of. by rewrite Hc.
Qed.

Lemma grows_build i : grows (build i).
Proof.
  intros c a c' H. split.
  - intros b. rewrite (codeb_build _ _ _ _ b H). case_decide; [by apply prefix_app_r|done].
  - by injection H as <- <-.
  - by injection H as <- <-.
Qed.

Create HintDb grows discriminated.
#[export] Hint Resolve grows_ret grows_error grows_build : grows.
Lemma grows_get_env : grows get_env.
Proof. apply grows_quiet. intros ? ? ? [= <- <-]; done. Qed.
Lemma grows_set_env g : grows (set_env g).
Proof. apply grows_quiet. intros ? ? ? [= <- <-]; done. Qed.
Lemma grows_append_block name : grows (append_block name).
Proof. apply grows_quiet. intros ? ? ? [= <- <-]; done. Qed.
Lemma grows_position n : grows (position n).
Proof. apply grows_quiet. intros ? ? ? [= <- <-]; done. Qed.
Lemma grows_fresh_reg : grows fresh_reg.
Proof. apply grows_quiet. intros ? ? ? [= <- <-]; simpl; split; [done|lia]. Qed.
Lemma grows_fresh_slot : grows fresh_slot.
Proof. apply grows_quiet. intros ? ? ? [= <- <-]; simpl; split; [done|lia]. Qed.
Lemma grows_mark_has_exceptions : grows mark_has_exceptions.
Proof. apply grows_quiet. intros ? ? ? [= <- <-]; done. Qed.
Lemma grows_set_defer_cond_plan d : grows (set_defer_cond_plan d).
Proof. apply grows_quiet. intros ? ? ? [= <- <-]; done. Qed.
Lemma grows_add_case sw b : grows (add_case sw b).
Proof. apply grows_quiet. intros ? ? ? [= <- <-]; done. Qed.
#[export] Hint Resolve grows_get_env grows_set_env grows_append_block grows_position grows_fresh_reg
  grows_fresh_slot grows_mark_has_exceptions grows_set_defer_cond_plan grows_add_case : grows.
#[export] Hint Extern 1 (grows (set_bld _)) =>
  apply grows_quiet; intros ? ? ? [= <- <-]; done : grows.

Lemma grows_entry_alloca : grows build_entry_alloca.
Proof. apply grows_quiet. intros c a c' [= <- <-]. simpl. split; [done|lia]. Qed.

Lemma grows_for_each {A} (g : A -> emit unit) l :
  (forall x, x ∈ l -> grows (g x)) -> grows (for_each g l).
Proof.
  induction l as [|x l IH]; intros H; simpl; [apply grows_ret|].
  apply grows_bind; [apply H; set_solver|]. intros _. apply IH. intros y Hy. apply H. set_solver.
Qed.

#[export] Hint Resolve grows_entry_alloca : grows.

Ltac grows_step :=
  lazymatch goal with
  | |- forall _, _ => intro
  | |- grows (bind _ _) => apply grows_bind
  | |- grows (for_each _ _) => apply grows_for_each; intros ? ?
  | |- grows (if ?b then _ else _) => destruct b
  | |- grows (match ?x with _ => _ end) => destruct x
  | |- grows (let _ := _ in _) => cbv zeta
  | |- grows ?m => solve [eauto with grows]
  end.
Ltac grows_auto := repeat grows_step.

#[local] Opaque bind.

Lemma grows_build_value mk : grows (build_value mk).
Proof. unfold build_value. grows_auto. Qed.
Lemma grows_build_call g args : grows (build_call g args).
Proof. apply grows_build_value. Qed.
Lemma grows_build_call_void g args : grows (build_call_void g args).
Proof. apply grows_build. Qed.
Lemma grows_build_alloca : grows build_alloca.
Proof. unfold build_alloca. grows_auto. Qed.
Lemma grows_build_switch v d : grows (build_switch v d).
Proof.
  intros c a c' H. unfold build_switch in H. revert H.
  match goal with |- ?m c = _ -> _ => assert (Hm : grows m) by grows_auto end. apply Hm.
Qed.
Lemma grows_rt_call g args : grows (upl_emit_rt_call g args).
Proof. apply grows_build_value. Qed.
Lemma grows_rt_call_void g args : grows (upl_emit_rt_call_void g args).
Proof. apply grows_build. Qed.
Lemma grows_call_exec_nosync_void g args : grows (call_exec_nosync_void g args).
Proof. apply grows_build. Qed.
#[export] Hint Resolve grows_build_value grows_build_call grows_build_call_void grows_build_alloca
  grows_build_switch grows_rt_call grows_rt_call_void grows_call_exec_nosync_void : grows.

(** ** Native arrays, loop and cleanup stacks *)
Lemma grows_refresh_native_array na : grows (emit_refresh_native_array na).
Proof. unfold emit_refresh_native_array. grows_auto. Qed.
Lemma grows_refresh_dno n : grows (refresh_dno n).
Proof. pose proof grows_refresh_native_array. unfold refresh_dno. grows_auto. Qed.
Lemma grows_sync_native_array na : grows (emit_sync_native_array na).
Proof. unfold emit_sync_native_array. grows_auto. Qed.
#[export] Hint Resolve grows_refresh_dno grows_sync_native_array : grows.
Lemma grows_sync_native_arrays : grows sync_native_arrays.
Proof. unfold sync_native_arrays. grows_auto. Qed.
#[export] Hint Resolve grows_sync_native_arrays : grows.
Lemma grows_sync_for_expr e : grows (sync_native_arrays_for_expr e).
Proof. unfold sync_native_arrays_for_expr. grows_auto. Qed.
Lemma grows_push_loop l a b : grows (upl_push_loop l a b).
Proof. unfold upl_push_loop. grows_auto. Qed.
Lemma grows_push_block_label l a : grows (upl_push_block_label l a).
Proof. unfold upl_push_block_label. grows_auto. Qed.
Lemma grows_pop_loop : grows upl_pop_loop.
Proof. unfold upl_pop_loop. grows_auto. Qed.
Lemma grows_push_cleanup fn args : grows (upl_push_cleanup fn args).
Proof. unfold upl_push_cleanup. grows_auto. Qed.
Lemma grows_pop_cleanup : grows upl_pop_cleanup.
Proof. unfold upl_pop_cleanup. grows_auto. Qed.
Lemma grows_set_return_bb b : grows (set_return_bb b).
Proof. unfold set_return_bb. grows_auto. Qed.
Lemma grows_ctx_plstate : grows ctx_plstate.
Proof. unfold ctx_plstate. grows_auto. Qed.
#[export] Hint Resolve grows_sync_for_expr grows_push_loop grows_push_block_label grows_pop_loop
  grows_push_cleanup grows_pop_cleanup grows_set_return_bb grows_ctx_plstate : grows.

Lemma grows_unwind n l : grows (emit_unwind n l).
Proof. revert l. induction n as [|n IH]; intros [|x l]; simpl; grows_auto. Qed.
#[export] Hint Resolve grows_unwind : grows.

Tactic Notation "grows_unfold" reference(m) := unfold m; grows_auto.

Lemma grows_cleanup_unwind d : grows (upl_emit_cleanup_unwind d).
Proof. grows_unfold upl_emit_cleanup_unwind. Qed.
Lemma grows_find_loop l : grows (upl_find_loop l).
Proof. grows_unfold upl_find_loop. Qed.
Lemma grows_call_exec g args : grows (call_exec g args).
Proof. grows_unfold call_exec. Qed.
Lemma grows_call_exec_void g args : grows (call_exec_void g args).
Proof. grows_unfold call_exec_void. Qed.
#[export] Hint Resolve grows_cleanup_unwind grows_find_loop grows_call_exec grows_call_exec_void : grows.
Lemma grows_compile_by_call g s : grows (compile_by_call g s).
Proof. grows_unfold compile_by_call. Qed.
Lemma grows_compile_by_call_void g s : grows (compile_by_call_void g s).
Proof. grows_unfold compile_by_call_void. Qed.
Lemma grows_init_vars l : grows (emit_init_vars l).
Proof. grows_unfold emit_init_vars. Qed.
Lemma grows_cb_assign_expr n e : grows (cb_assign_expr_impl n e).
Proof. grows_unfold cb_assign_expr_impl. Qed.
#[export] Hint Resolve grows_compile_by_call grows_compile_by_call_void grows_init_vars
  grows_cb_assign_expr : grows.

(** What is asked of expression inlining. *)
Class ExprCompilerGrows `{ExprCompiler} : Prop := {
  try_bool_grows : forall e, grows (try_compile_bool e);
  try_assign_grows : forall s, grows (try_compile_assign s)
}.

(** ** Statements *)
Section grows.
Context `{ExprCompilerGrows}.

Lemma grows_eval_bool e : grows (upl_eval_bool callbacks e).
Proof.
  unfold upl_eval_bool. apply grows_bind; [apply try_bool_grows|]. intros [v|]; grows_auto.
Qed.
Lemma grows_eval_int e : grows (upl_eval_int callbacks e).
Proof. apply grows_rt_call. Qed.
#[local] Hint Resolve grows_eval_bool grows_eval_int : grows.

Lemma grows_elsif bb clause : grows clause.2 -> grows (emit_elsif callbacks bb clause).
Proof. intros Hb. grows_unfold emit_elsif. Qed.

Lemma grows_if e th elsifs el :
  grows th -> Forall (fun clause => grows clause.2) elsifs ->
  (forall x, el = Some x -> grows x) -> grows (upl_emit_if callbacks e th elsifs el).
Proof.
  intros Hth Hel Hels. unfold upl_emit_if. rewrite list.Forall_forall in Hel.
  pose proof (fun b x Hx => grows_elsif b x (Hel x Hx)) as Hels'.
  assert (grows (match el with Some x => x | None => ret tt end)).
  { destruct el; [by apply Hels|apply grows_ret]. }
  grows_auto.
Qed.

Lemma grows_cond_loop l e top body : grows body -> grows (upl_emit_cond_loop callbacks l e top body).
Proof. intros Hb. grows_unfold upl_emit_cond_loop. Qed.
Lemma grows_loop l body : grows body -> grows (upl_emit_loop l body).
Proof. intros Hb. grows_unfold upl_emit_loop. Qed.
Lemma grows_fori_bounds lo up st : grows (emit_fori_bounds callbacks lo up st).
Proof. grows_unfold emit_fori_bounds. Qed.
Lemma grows_fori_cond r p u x b : grows (emit_fori_cond r p u x b).
Proof. grows_unfold emit_fori_cond. Qed.
Lemma grows_fori_step r p s x b : grows (emit_fori_step r p s x b).
Proof. grows_unfold emit_fori_step. Qed.
#[local] Hint Resolve grows_fori_bounds grows_fori_cond grows_fori_step : grows.
Lemma grows_fori l v lo up st r body : grows body -> grows (upl_emit_fori callbacks l v lo up st r body).
Proof. intros Hb. grows_unfold upl_emit_fori. Qed.
Lemma grows_jump ex cd lp t : grows (emit_jump callbacks ex cd lp t).
Proof. grows_unfold emit_jump. Qed.
#[local] Hint Resolve grows_jump : grows.
Lemma grows_loop_exit l ex cd : grows (upl_emit_loop_exit callbacks l ex cd).
Proof. grows_unfold upl_emit_loop_exit. Qed.
Lemma grows_when tst v bb clause : grows clause.2 -> grows (emit_when callbacks tst v bb clause).
Proof. intros Hb. grows_unfold emit_when. Qed.
Lemma grows_case t v whens he el ln :
  Forall (fun clause => grows clause.2) whens -> grows el ->
  grows (upl_emit_case callbacks t v whens he el ln).
Proof.
  intros Hw He. rewrite list.Forall_forall in Hw.
  pose proof (fun tst v' b x Hx => grows_when tst v' b x (Hw x Hx)). grows_unfold upl_emit_case.
Qed.
Lemma grows_return fn s : grows (upl_emit_return fn s).
Proof. grows_unfold upl_emit_return. Qed.
#[local] Hint Resolve grows_return : grows.
Lemma grows_compile_return s : grows (compile_return s).
Proof. grows_unfold compile_return. Qed.

Lemma grows_assign s : grows (compile_assign s).
Proof.
  unfold compile_assign. apply grows_bind; [apply try_assign_grows|]. intros []; grows_auto.
Qed.
Lemma grows_execsql ds stmt s : grows (compile_execsql ds stmt s).
Proof. grows_unfold compile_execsql. Qed.
Lemma grows_assert stmt s : grows (compile_assert stmt s).
Proof. grows_unfold compile_assert. Qed.
Lemma grows_row_loop p ofn oa cf ca l d body :
  grows body -> grows (compile_row_loop p ofn oa cf ca l d body).
Proof. intros Hb. grows_unfold compile_row_loop. Qed.

Lemma grows_temporary_record ds d q body : grows body -> grows (with_temporary_record ds d q body).
Proof. intros Hb. grows_unfold with_temporary_record. Qed.

Lemma grows_own_label b x : grows (push_own_label b x).
Proof. grows_unfold push_own_label. Qed.
Lemma grows_pop_label b : grows (pop_own_label b).
Proof. grows_unfold pop_own_label. Qed.
#[local] Hint Resolve grows_own_label grows_pop_label : grows.
Lemma grows_handlers b fp sw ab hb i hs :
  Forall grows hs -> grows (emit_handlers b fp sw ab hb i hs).
Proof. intros Hh. revert i. induction Hh as [|h hs Hx Hh IH]; intros i; simpl; grows_auto. Qed.
Lemma grows_try b body t1 t2 t3 t4 t5 : grows body -> grows (emit_try b body t1 t2 t3 t4 t5).
Proof. intros Hb. grows_unfold emit_try. Qed.
Lemma grows_catch b hs fp t1 t2 t3 t4 t5 : Forall grows hs -> grows (emit_catch b hs fp t1 t2 t3 t4 t5).
Proof.
  intros Hb. pose proof (fun sw ab hb i => grows_handlers b fp sw ab hb i hs Hb). grows_unfold emit_catch.
Qed.
Lemma grows_block_exceptions b body hs :
  grows body -> Forall grows hs -> grows (compile_block_exceptions b body hs).
Proof.
  intros Hb Hh. pose proof (fun t1 t2 t3 t4 t5 => grows_try b body t1 t2 t3 t4 t5 Hb).
  pose proof (fun fp t1 t2 t3 t4 t5 => grows_catch b hs fp t1 t2 t3 t4 t5 Hh).
  grows_unfold compile_block_exceptions.
Qed.
Lemma grows_br_if_open t : grows (build_br_if_open t).
Proof.
  intros c u c' Hc. unfold build_br_if_open in Hc.
  destruct (has_terminator c); [by injection Hc as <- <-|by eapply grows_build].
Qed.
#[local] Hint Resolve grows_br_if_open : grows.
Lemma grows_block b body hs : grows body -> Forall grows hs -> grows (compile_block b body hs).
Proof.
  intros Hb Hh. pose proof (grows_block_exceptions b body hs Hb Hh).
  unfold compile_block, upl_emit_block. grows_auto.
Qed.

Context (datums : list UPLpgSQL_datum).
(** The code of a statement after the instruction that records it. *)
Lemma grows_stmt_code s :
  (forall b, b ∈ sub_bodies s -> forall x, x ∈ b -> grows (compile_stmt datums x)) ->
  exists m, compile_stmt datums s = bind (build (IStoreErrStmt s)) (fun _ => m) /\ grows m.
Proof.
  intros IH.
  assert (Hb : forall b, b ∈ sub_bodies s -> grows (for_each (compile_stmt datums) b)).
  { intros b Hb. apply grows_for_each. eauto. }
  assert (Hm : forall A (g : A -> list UPLpgSQL_stmt) (l : list A), (forall x, x ∈ l -> g x ∈ sub_bodies s) ->
            Forall grows (map (fun x => for_each (compile_stmt datums) (g x)) l)).
  { intros A g l Hl. apply list.Forall_forall. intros m (x & Hx & <-)%elem_of_map. auto. }
  assert (Hp : forall A (e : A -> UPLpgSQL_expr) (g : A -> list UPLpgSQL_stmt) (l : list A),
            (forall x, x ∈ l -> g x ∈ sub_bodies s) ->
            Forall (fun clause => grows clause.2)
              (map (fun x => (e x, for_each (compile_stmt datums) (g x))) l)).
  { intros A e g l Hl. apply list.Forall_forall. intros m (x & Hx & <-)%elem_of_map. simpl. auto. }
  clear IH. destruct s as [h b|h a|h i|h k|h l|h w|h g|h g|h g|h g|h x|h r|h r|h r|h r|h a|h q|h q|h g
                          |h g|h o|h g|h k|h p|h k|h k|h k];
    cbn [compile_stmt sub_bodies] in *; (eexists; split; [reflexivity|]); try solve [eauto with grows].
  - apply grows_block; [apply Hb; set_solver|]. destruct (exceptions b); [|constructor].
    apply Hm. intros x Hx. right. apply elem_of_map. eauto.
  - apply grows_assign.
  - apply grows_if; [apply Hb; set_solver| |].
    + apply Hp. intros x Hx. right. apply elem_of_app. left. apply elem_of_map. eauto.
    + intros m Hm'. destruct (else_body i) eqn:E; [discriminate|]. injection Hm' as <-.
      change (grows (for_each (compile_stmt datums) (u :: l))). apply Hb. set_solver.
  - apply grows_case; [apply Hp; intros x Hx; apply elem_of_app; left; apply elem_of_map; eauto|].
    apply Hb. set_solver.
  - apply grows_loop, Hb. set_solver.
  - apply grows_cond_loop, Hb. set_solver.
  - apply grows_fori, Hb. set_solver.
  - apply grows_row_loop, grows_temporary_record, Hb. set_solver.
  - apply grows_row_loop, Hb. set_solver.
  - apply grows_loop_exit.
  - apply grows_compile_return.
  - apply grows_assert.
  - apply grows_execsql.
  - apply grows_row_loop, Hb. set_solver.
Qed.

Lemma grows_stmt s : grows (compile_stmt datums s).
Proof.
  induction s as [s IH] using elem_ind. destruct (grows_stmt_code s IH) as (m & -> & Hm).
  apply grows_bind; [apply grows_build|done].
Qed.

Lemma grows_after s c u c1 u' c' :
  build (IStoreErrStmt s) c = Success (u, c1) -> compile_stmt datums s c = Success (u', c') -> le_ctx c1 c'.
Proof.
  destruct (grows_stmt_code s) as (m & -> & Hm); [intros; apply grows_stmt|].
  intros R1 (u2 & c2 & R2 & R3)%bind_Success. rewrite R1 in R2. injection R2 as <- <-. by eapply Hm.
Qed.

Lemma grows_stmts l : grows (compile_stmts datums l).
Proof. apply grows_for_each. intros. apply grows_stmt. Qed.
End grows.

(** ** Points of the finished function *)
Definition ext (c : UPL_compile_ctx) (f : ir_function) : Prop :=
  forall b, codeb c b `prefix_of` block f b.

Definition rest (f : ir_function) (c : UPL_compile_ctx) : list instr :=
  drop (length (codeb c (cur (bld c)))) (block f (cur (bld c))).

Lemma ext_le c c' f : le_ctx c c' -> ext c' f -> ext c f.
Proof. intros [Hle _ _] He b. etrans; [apply Hle|apply He]. Qed.

Lemma rest_build i c u c' f :
  build i c = Success (u, c') -> ext c' f -> rest f c = i :: rest f c'.
Proof.
  intros H He. pose proof (codeb_build _ _ _ _ (cur (bld c)) H) as Hc.
  rewrite decide_True in Hc by done.
  assert (Hcu : cur (bld c') = cur (bld c)) by (by injection H as <- <-).
  unfold rest. rewrite Hcu, Hc. destruct (He (cur (bld c))) as [k ->]. rewrite Hc.
  rewrite <- (assoc_L (++)), length_app. simpl.
  rewrite drop_app_length. rewrite Nat.add_1_r, drop_app_ge by lia.
  replace (S (length (codeb c (cur (bld c)))) - length (codeb c (cur (bld c)))) with 1 by lia. done.
Qed.

(** A step that stays in the current block and emits nothing. *)
Lemma rest_quiet c c' f :
  cur (bld c') = cur (bld c) -> block_code (bld c') = block_code (bld c) -> rest f c' = rest f c.
Proof. intros Hc Hb. unfold rest, codeb, code_of. by rewrite Hc, Hb. Qed.

Lemma rest_position n c u c' f :
  position n c = Success (u, c') -> codeb c n = [] -> rest f c' = block f n.
Proof.
  intros [= <- <-] He. unfold rest, codeb, code_of in *. simpl. by rewrite He.
Qed.
