(* ===== verification/ExprWf.v ===== *)
(** * The expression compiler emits complete blocks

    What files Wellformed and Growth ask of expression inlining holds of the expression
    compiler (file ExprEmit): the blocks it opens are closed, the calls agree with their
    declarations, the code emitted before stays.

    PostgreSQL coerces array subscripts to integers; an expression that
    [ok_subscripts] rejects never leaves its parser. *)

From Stdlib Require Import ZArith Lia.
From S2P Require Import Prelude Ast Escape Expr Float IR RtSig CoreEmit StmtEmit ExprEmit Wellformed Growth.
#[local] Open Scope nat_scope.
#[local] Opaque bind.

(** The expressions that become a constant of type double. *)
Fixpoint is_double_const (e : Expr) : bool :=
  match e with
  | Const _ _ _ _ => class_is (uplpgsql_classify_expr e) EXPR_TYPE_FLOAT8
  | FuncExpr F_FLOAT8_NUMERIC _ _ _ => true
  | RelabelType a => is_double_const a
  | _ => false
  end.

Fixpoint ok_subscripts (e : Expr) : bool :=
  match e with
  | SubscriptingRef _ r u l a =>
      ok_subscripts r && forallb (fun i => negb (is_double_const i) && ok_subscripts i) u
      && forallb ok_subscripts l && match a with Some x => ok_subscripts x | None => true end
  | OpExpr _ _ _ args | FuncExpr _ _ _ args | BoolExpr _ args | ArrayExpr args =>
      forallb ok_subscripts args
  | RelabelType a => ok_subscripts a
  | Const _ _ _ _ | Param _ _ _ | OtherExpr => true
  end.

(** An operand of integer type. *)
Definition int_operand (o : operand) : Prop := is_reg o \/ exists z, o = OConst (VInt z).

Lemma reg_int_operand o : is_reg o -> int_operand o.
Proof. by left. Qed.
#[local] Hint Resolve reg_int_operand : emits.

Section expr.
Context `{CompileEnv}.

Lemma emits_build_op op args : emits is_reg (build_op op args).
Proof. unfold build_op. emits_auto. Qed.
Lemma emits_incoming r v : emits any (incoming r v).
Proof. unfold incoming. emits_auto. Qed.
#[local] Hint Resolve emits_build_op emits_incoming : emits.

Ltac expr_step :=
  first [ emits_step
        | match goal with
          | |- emits _ (if ?b then _ else _) => destruct b
          | |- emits _ (match ?x with _ => _ end) => destruct x
          | |- emits _ (let '(_, _) := ?x in _) => destruct x
          end ].
Ltac expr_auto := repeat expr_step.

(** A value whose only property of interest is that it is there. *)
Lemma emits_any {A} (Q : A -> Prop) m : emits Q m -> emits any m.
Proof. intros Hm. by eapply emits_weaken. Qed.

Lemma emits_get_recfield n : emits is_reg (emit_get_recfield n).
Proof. unfold emit_get_recfield. emits_auto. Qed.
#[local] Hint Resolve emits_get_recfield : emits.

Lemma is_reg_OReg r : is_reg (OReg r).
Proof. by exists r. Qed.
#[local] Hint Resolve is_reg_OReg : emits.

(** Run the steps of an action, then restore what it must restore. *)
Ltac expr_finish :=
  match goal with
  | I : inv ?c ?P |- (inv ?c ?Q /\ _ /\ _) /\ _ =>
      split; [split; [apply (inv_proper _ _ _ I); set_same | split; [try env_back|lia]]
             | try solve [exact Logic.I | eassumption | eauto with emits]]
  end.
Ltac expr_control := intros ? ? ? ? Hrun Hinv; unbind; repeat wf_step; expr_finish.

Lemma emits_recfield_fast n rec field : emits is_reg (emit_recfield_fast n rec field).
Proof. unfold emit_recfield_fast. expr_control. Qed.
#[local] Hint Resolve emits_recfield_fast : emits.

Lemma emits_sync_if_native n : emits any (sync_if_native n).
Proof. unfold sync_if_native. expr_auto. Qed.
#[local] Hint Resolve emits_sync_if_native : emits.

Lemma emits_load_param_datum n : emits is_reg (emit_load_param_datum n).
Proof. unfold emit_load_param_datum, emit_load_var_datum. expr_auto. Qed.
#[local] Hint Resolve emits_load_param_datum : emits.

Lemma emits_load_param_isnull n : emits int_operand (emit_load_param_isnull n).
Proof.
  unfold emit_load_param_isnull.
  assert (Hm : emits int_operand (sync_if_native n ;;; isnull_raw <-- build_value (fun r => ILoadVarIsnull r n);
                 build_op OpTrunc1 [isnull_raw])).
  { eapply emits_weaken; [|apply reg_int_operand]. expr_auto. }
  repeat case_match; try exact Hm; apply emits_ret; right; by eexists.
Qed.
#[local] Hint Resolve emits_load_param_isnull : emits.

Lemma emits_elem_isnull na i : emits is_reg (emit_native_array_elem_isnull na i).
Proof. unfold emit_native_array_elem_isnull. expr_control. Qed.
#[local] Hint Resolve emits_elem_isnull : emits.

(** ** Errors *)
Lemma emits_error_if cond fn tag ok_tag : emits any (emit_error_if cond fn tag ok_tag).
Proof. unfold emit_error_if, emit_error_branch, emit_error_call. expr_control. Qed.
#[local] Hint Resolve emits_error_if : emits.

Lemma emits_float_error_if cond fn tag : emits any (emit_float_error_if cond fn tag).
Proof. apply emits_error_if. Qed.
#[local] Hint Resolve emits_float_error_if : emits.

Lemma emits_min_check w a t t' : emits any (emit_int_min_check w a t t').
Proof. unfold emit_int_min_check, emit_error_branch, emit_error_call. expr_control. Qed.
#[local] Hint Resolve emits_min_check : emits.

(** ** Floats and integers *)
Lemma emits_float_isinf v : emits is_reg (emit_float_isinf v).
Proof. unfold emit_float_isinf. expr_auto. Qed.
Lemma emits_float_isnan v : emits is_reg (emit_float_isnan v).
Proof. unfold emit_float_isnan. expr_auto. Qed.
Lemma emits_float_iszero v : emits is_reg (emit_float_iszero v).
Proof. unfold emit_float_iszero. expr_auto. Qed.
#[local] Hint Resolve emits_float_isinf emits_float_isnan emits_float_iszero : emits.

Lemma emits_and_neither t r a b : (forall v, emits is_reg (t v)) -> emits is_reg (emit_and_neither t r a b).
Proof. intros Ht. unfold emit_and_neither. expr_auto. Qed.
#[local] Hint Extern 1 (emits _ (emit_and_neither _ _ _ _)) =>
  apply emits_and_neither; intros; auto with emits : emits.

Lemma emits_float_addsub a b d : emits is_reg (emit_float_addsub a b d).
Proof. unfold emit_float_addsub. expr_auto. Qed.
Lemma emits_float_mul a b : emits is_reg (emit_float_mul a b).
Proof. unfold emit_float_mul. expr_auto. Qed.
Lemma emits_float_div a b : emits is_reg (emit_float_div a b).
Proof. unfold emit_float_div. expr_auto. Qed.
Lemma emits_float_cmp f a b : emits is_reg (emit_float_cmp f a b).
Proof. unfold emit_float_cmp. expr_auto. Qed.
#[local] Hint Resolve emits_float_addsub emits_float_mul emits_float_div emits_float_cmp : emits.

Lemma emits_int_arith op w a b : emits is_reg (emit_int_arith_checked op w a b).
Proof. unfold emit_int_arith_checked. expr_auto. Qed.
Lemma emits_int_div w a b : emits is_reg (emit_int_div w a b).
Proof. unfold emit_int_div, emit_error_branch, emit_error_call. expr_control. Qed.
Lemma emits_int_mod w a b : emits is_reg (emit_int_mod w a b).
Proof. unfold emit_int_mod. expr_auto. Qed.
#[local] Hint Resolve emits_int_arith emits_int_div emits_int_mod : emits.

Lemma emits_int_divmod w d a b : emits is_reg (emit_int_divmod w d a b).
Proof.
  unfold emit_int_divmod, emit_error_branch, emit_error_call.
  assert (Hd : emits is_reg (if d then emit_int_div w a b else emit_int_mod w a b))
    by (destruct d; auto with emits).
  expr_control.
Qed.
Lemma emits_int_negate w a : emits is_reg (emit_int_negate w a).
Proof. unfold emit_int_negate. expr_auto. Qed.
Lemma emits_int_abs w a : emits is_reg (emit_int_abs w a).
Proof. unfold emit_int_abs. expr_auto. Qed.
#[local] Hint Resolve emits_int_divmod emits_int_negate emits_int_abs : emits.

(** ** Values *)
Lemma emits_datum_value d c msg : is_reg d -> emits is_reg (datum_value d c msg).
Proof. intros Hd. unfold datum_value. expr_auto. Qed.
Lemma emits_native_to_datum v c : int_operand v \/ c <> EXPR_TYPE_INT8 -> emits int_operand (native_to_datum v c).
Proof.
  intros Hv. assert (Ho : forall op l, emits int_operand (build_op op l)).
  { intros op l. eapply emits_weaken; [apply emits_build_op|apply reg_int_operand]. }
  unfold native_to_datum. destruct c; expr_auto. by destruct Hv.
Qed.
Lemma emits_widen v c : emits any (widen v c).
Proof.
  unfold widen. destruct c; try (by apply emits_ret). apply (emits_any is_reg). auto with emits.
Qed.
#[local] Hint Resolve emits_datum_value emits_widen : emits.

Lemma emits_binop f a b l r : emits is_reg (compile_binop f a b l r).
Proof. unfold compile_binop, cross_arith. expr_auto. Qed.
Lemma emits_unop f a : emits is_reg (compile_unop f a).
Proof. unfold compile_unop. expr_auto. Qed.
Lemma emits_func1 f a : emits is_reg (compile_func1 f a).
Proof. unfold compile_func1. destruct f; expr_auto. Qed.
#[local] Hint Resolve emits_binop emits_unop emits_func1 : emits.

(** The constants that describe an array type. *)
Definition type_info (i : ArrayTypeInfo) : Prop :=
  exists a t b c d, i = mk_ati (const_int32 a) (const_int32 t) (const_int32 b) (OConst (VInt c)) (const_int32 d).
Lemma emits_type_info n : emits type_info (resolve_array_type_info n).
Proof.
  unfold resolve_array_type_info. repeat case_match; try apply emits_error;
    apply emits_ret; do 5 eexists; reflexivity.
Qed.
#[local] Hint Resolve emits_type_info : emits.

Lemma emits_get_element n idx :
  int_operand idx -> emits (fun p => is_reg p.1) (emit_array_get_element n idx).
Proof.
  intros Hi. unfold emit_array_get_element.
  eapply emits_bind; [apply emits_entry_alloca|]. intros s _.
  eapply emits_bind; [apply emits_type_info|]. intros l (a & t & b & c & d & ->).
  eapply emits_bind; [apply emits_build_call|intros o Ho; apply emits_ret, Ho].
  destruct Hi as [[r ->]|[z ->]]; reflexivity.
Qed.

Lemma emits_native_elem na i : emits is_reg (emit_native_elem na i).
Proof. unfold emit_native_elem. expr_auto. Qed.
#[local] Hint Resolve emits_get_element emits_native_elem : emits.

Lemma emits_element n idx c : int_operand idx -> emits is_reg (compile_element n idx c).
Proof.
  intros Hi. unfold compile_element, array_element_value. expr_auto.
Qed.
#[local] Hint Resolve emits_element : emits.

(** The value of an expression is an integer operand unless it is a constant double. *)
Definition value_ok (e : Expr) (p : operand * ExprTypeClass) : Prop :=
  is_double_const e = false -> int_operand p.1.

Lemma emits_typed e m c : emits is_reg m -> emits (value_ok e) (v <-- m; ret (v, c)).
Proof.
  intros Hm. eapply emits_bind; [exact Hm|]. intros v Hv. apply emits_ret. intros _. by left.
Qed.

Lemma const_value_ok t b v n :
  emits (value_ok (Const t b v n)) (uplpgsql_compile_expr_datum (Const t b v n)).
Proof.
  cbn [uplpgsql_compile_expr_datum].
  destruct (uplpgsql_classify_expr (Const t b v n)) eqn:E; [| | |apply emits_error..]; apply emits_ret; intros Hd.
  - right. by eexists.
  - right. by eexists.
  - unfold is_double_const in Hd. by rewrite E in Hd.
Qed.

Lemma emits_compile_datum e : ok_subscripts e = true -> emits (value_ok e) (uplpgsql_compile_expr_datum e).
Proof.
  induction e as [t b v n|k i t|f r c l IH|f r c l IH|a IH|o l IH|t r u l a _ IH _|? _|] using expr_ind'; intros Hok;
    try apply emits_error.
  - apply const_value_ok.
  - cbn [uplpgsql_compile_expr_datum]. eapply emits_bind; [apply emits_load_param_datum|]. intros d Hd.
    apply emits_typed. auto with emits.
  - assert (Hsub : forall x, x ∈ l -> emits (value_ok x) (uplpgsql_compile_expr_datum x)).
    { intros x Hx. apply IH; [done|]. exact (forallb_elem _ _ _ Hok Hx). }
    cbn [uplpgsql_compile_expr_datum]. destruct l as [|x [|y [|z l]]]; try apply emits_error.
    + eapply emits_bind; [apply Hsub; set_solver|]. intros p _. apply emits_typed. auto with emits.
    + eapply emits_bind; [apply Hsub; set_solver|]. intros p _.
      eapply emits_bind; [apply Hsub; set_solver|]. intros q _. apply emits_typed. auto with emits.
  - assert (Hsub : forall x, x ∈ l -> emits (value_ok x) (uplpgsql_compile_expr_datum x)).
    { intros x Hx. apply IH; [done|]. exact (forallb_elem _ _ _ Hok Hx). }
    assert (H1 : forall x, x ∈ l -> emits (value_ok (FuncExpr f r c l))
       (a <-- uplpgsql_compile_expr_datum x;
        v <-- compile_func1 f a.1; ret (v, uplpgsql_classify_expr (FuncExpr f r c l)))).
    { intros x Hx. eapply emits_bind; [by apply Hsub|]. intros p _. apply emits_typed. auto with emits. }
    assert (H2 : forall x y, x ∈ l -> y ∈ l -> emits (value_ok (FuncExpr f r c l))
       (a <-- uplpgsql_compile_expr_datum x; b <-- uplpgsql_compile_expr_datum y;
        v <-- build_op (OpMath POW) [a.1; b.1]; ret (v, uplpgsql_classify_expr (FuncExpr f r c l)))).
    { intros x y Hx Hy. eapply emits_bind; [by apply Hsub|]. intros p _.
      eapply emits_bind; [by apply Hsub|]. intros q _. apply emits_typed. auto with emits. }
    cbn [uplpgsql_compile_expr_datum]. destruct (numeric_const f l) as [[v n]|] eqn:En.
    + apply emits_ret. intros Hd. unfold numeric_const in En. destruct f; discriminate.
    + destruct l as [|x [|y l]]; [apply emits_error|apply H1; set_solver|].
      destruct (is_pow f); [apply H2; set_solver|apply H1; set_solver].
  - exact (IH Hok).
  - cbn [uplpgsql_compile_expr_datum].
    destruct r; try apply emits_error. destruct u as [|idx u]; [apply emits_error|].
    cbn in Hok. rewrite !andb_true_iff, negb_true_iff in Hok. destruct Hok as ((((Hd & Hi) & _) & _) & _).
    eapply emits_bind; [apply IH; [set_solver|done]|]. intros p Hp. apply emits_typed. auto with emits.
Qed.

(** ** Conditions *)
Lemma emits_value e : ok_subscripts e = true -> emits any (uplpgsql_compile_expr_datum e).
Proof. intros Hok. eapply emits_any. by apply emits_compile_datum. Qed.

Lemma emits_int_cmp p cross l r : emits is_reg (compile_int_cmp p cross l r).
Proof. unfold compile_int_cmp. expr_auto. Qed.
#[local] Hint Resolve emits_int_cmp : emits.

Lemma emits_fold_bool (f : Expr -> emit operand) op l acc :
  (forall x, x ∈ l -> emits any (f x)) -> emits any (fold_bool f op acc l).
Proof.
  revert acc. induction l as [|x l IH]; intros acc Hf; simpl; [by apply emits_ret|].
  eapply emits_bind; [apply Hf; set_solver|]. intros v _.
  eapply emits_bind; [apply emits_build_op|]. intros w _. apply IH. set_solver.
Qed.

Lemma emits_compile_bool e : ok_subscripts e = true -> emits any (uplpgsql_compile_expr_bool e).
Proof.
  assert (Hop : forall op l, emits any (build_op op l)).
  { intros op l. eapply emits_any, emits_build_op. }
  induction e as [t b v n|k i t|f r c l IH|f r c l IH|a IH|o l IH|t r u l a _ IH _|? _|] using expr_ind'; intros Hok;
    try apply emits_error.
  - by apply emits_ret.
  - cbn. eapply emits_bind; [apply emits_load_param_datum|]. intros d _. apply Hop.
  - assert (Hsub : forall x, x ∈ l -> ok_subscripts x = true) by (intros x; by apply forallb_elem).
    cbn. destruct l as [|x [|y l]]; try apply emits_error. set (xs := x :: y :: l) in *.
    assert (Hx : x ∈ xs) by set_solver. assert (Hy : y ∈ xs) by set_solver.
    assert (Hd : forall K : operand * ExprTypeClass -> operand * ExprTypeClass -> emit operand,
      (forall p q, emits any (K p q)) ->
      emits any (l <-- uplpgsql_compile_expr_datum x; r <-- uplpgsql_compile_expr_datum y; K l r)).
    { intros K HK. eapply emits_bind; [by apply emits_value, Hsub|]. intros p _.
      eapply emits_bind; [by apply emits_value, Hsub|]. intros q _. apply HK. }
    destruct (is_float_cmp f); [apply Hd; intros; eapply emits_any, emits_float_cmp|].
    destruct (int_predicate f) as [[p cross]|]; [|apply emits_error].
    destruct (is_bool_cmp f); [|apply Hd; intros; eapply emits_any, emits_int_cmp].
    eapply emits_bind; [by apply IH; [|apply Hsub]|]. intros v _.
    eapply emits_bind; [by apply IH; [|apply Hsub]|]. intros w _. apply Hop.
  - assert (Hsub : forall x, x ∈ l -> emits any (uplpgsql_compile_expr_bool x)).
    { intros x Hx. apply IH; [done|]. exact (forallb_elem _ _ _ Hok Hx). }
    destruct o; cbn; [by apply emits_fold_bool|by apply emits_fold_bool|].
    destruct l as [|x l]; [apply emits_error|].
    eapply emits_bind; [apply Hsub; set_solver|]. intros v _. apply Hop.
Qed.

(** ** NULL *)
Definition some_ok {A} (Q : A -> Prop) (r : option A) : Prop := match r with Some a => Q a | None => True end.

Lemma emits_or_flag a v :
  some_ok int_operand a -> some_ok int_operand v -> emits (some_ok int_operand) (or_flag a v).
Proof.
  intros Ha Hv. unfold or_flag. destruct a as [a|], v as [v|]; try by apply emits_ret.
  eapply emits_bind; [apply emits_build_op|]. intros o Ho. apply emits_ret. by left.
Qed.

Lemma emits_or_flag_any a v : emits any (or_flag a v).
Proof. unfold or_flag. destruct a, v; expr_auto. Qed.

Lemma emits_fold_null (f : Expr -> emit (option operand)) l acc :
  some_ok int_operand acc -> (forall x, x ∈ l -> emits (some_ok int_operand) (f x)) ->
  emits (some_ok int_operand) (fold_null f acc l).
Proof.
  revert acc. induction l as [|x l IH]; intros acc Ha Hf; simpl; [by apply emits_ret|].
  eapply emits_bind; [apply Hf; set_solver|]. intros v Hv.
  eapply emits_bind; [by apply emits_or_flag|]. intros w Hw. apply IH; [done|]. set_solver.
Qed.

Lemma emits_subscript e :
  ok_subscripts e = true -> is_double_const e = false -> emits int_operand (compile_subscript e).
Proof.
  intros Hok Hd. unfold compile_subscript.
  eapply emits_bind; [by apply emits_compile_datum|]. intros [o c] Ho. specialize (Ho Hd). simpl in *.
  assert (Hr : emits int_operand (ret o)) by by apply emits_ret.
  destruct c; try exact Hr. eapply emits_weaken; [apply emits_build_op|apply reg_int_operand].
Qed.

Lemma emits_native_null na e :
  ok_subscripts e = true -> is_double_const e = false -> emits is_reg (native_elem_null na e).
Proof. intros Hok Hd. pose proof (emits_subscript e Hok Hd). unfold native_elem_null. expr_auto. Qed.

Lemma emits_elem_null n e :
  ok_subscripts e = true -> is_double_const e = false -> emits is_reg (array_elem_null n e).
Proof.
  intros Hok Hd. pose proof (emits_subscript e Hok Hd). unfold array_elem_null. expr_auto.
Qed.

Lemma emits_any_null_flag e : ok_subscripts e = true -> emits (some_ok int_operand) (tier1_expr_any_null e).
Proof.
  assert (Hfold : forall l, (forall x, x ∈ l -> ok_subscripts x = true -> emits (some_ok int_operand) (tier1_expr_any_null x)) ->
     forallb ok_subscripts l = true -> emits (some_ok int_operand) (fold_null tier1_expr_any_null None l)).
  { intros l IH Hl. apply emits_fold_null; [done|]. intros x Hx. apply IH; [done|]. exact (forallb_elem _ _ _ Hl Hx). }
  assert (Htrue : emits (some_ok int_operand) (ret (Some const_true))).
  { apply emits_ret. right. by eexists. }
  induction e as [t b v n|k i t|f r c l IH|f r c l IH|a IH|o l IH|t r u l a IHr IH _|? _|] using expr_ind'; intros Hok;
    try exact Htrue.
  - by apply emits_ret.
  - cbn. eapply emits_bind; [apply emits_load_param_isnull|]. intros v Hv. by apply emits_ret.
  - by apply Hfold.
  - by apply Hfold.
  - exact (IH Hok).
  - cbn in Hok. rewrite !andb_true_iff in Hok. destruct Hok as (((Hr & Hu) & Hl) & _).
    assert (Hui : forall x, x ∈ u -> is_double_const x = false /\ ok_subscripts x = true).
    { intros x Hx. pose proof (forallb_elem _ _ _ Hu Hx) as Hi. rewrite andb_true_iff, negb_true_iff in Hi. done. }
    cbn. eapply emits_bind; [apply emits_get_env|]. intros e _.
    eapply (emits_bind (some_ok int_operand)). { repeat case_match; first [by apply emits_ret|by apply IHr]. }
    intros acc Hacc.
    eapply emits_bind. { apply emits_fold_null; [done|]. intros x Hx. apply IH; [done|]. by apply Hui. }
    intros acc' Hacc'.
    destruct (single_element r u) as [[n idx]|] eqn:Es; [|by apply emits_ret].
    assert (Hidx : idx ∈ u).
    { destruct r; try discriminate. destruct u as [|x [|y u]]; try discriminate. injection Es as <- <-. set_solver. }
    destruct (Hui _ Hidx) as [Hd Hi].
    destruct (find_native_slots _ _).
    + eapply emits_bind; [by apply emits_native_null|]. intros v Hv. apply emits_or_flag; [done|by left].
    + destruct l; [|by apply emits_ret].
      eapply emits_bind; [by apply emits_elem_null|]. intros v Hv. apply emits_or_flag; [done|by left].
Qed.

Lemma emits_any_null e : ok_subscripts e = true -> emits any (tier1_expr_any_null e).
Proof. intros Hok. eapply emits_any. by apply emits_any_null_flag. Qed.

(** ** Tier 2 *)
Definition datum_ok (d : operand * operand) : Prop := int_operand d.1 /\ int_operand d.2.

Lemma const_int_operand z : int_operand (OConst (VInt z)).
Proof. right. by eexists. Qed.
Lemma const_bool_operand b : int_operand (const_bool b).
Proof. destruct b; apply const_int_operand. Qed.
#[local] Hint Resolve const_int_operand const_bool_operand : emits.

Lemma emits_fmgr_instr r raw f coll args : emits any (build (ICallFmgr r raw f coll args)).
Proof. apply emits_build. done. Qed.
#[local] Hint Resolve emits_fmgr_instr : emits.

Lemma emits_fmgr_call f coll args : emits datum_ok (emit_fmgr_call f coll args).
Proof.
  unfold emit_fmgr_call. eapply emits_bind; [apply emits_fresh_reg|]. intros r _.
  eapply emits_bind; [apply emits_fresh_reg|]. intros raw _.
  eapply emits_bind; [apply emits_fmgr_instr|]. intros _ _.
  eapply emits_bind; [apply emits_build_op|]. intros n Hn. apply emits_ret.
  split; simpl; auto with emits.
Qed.
#[local] Hint Resolve emits_fmgr_call : emits.

Lemma emits_or_all l acc : emits any (or_all acc l).
Proof. revert acc. induction l as [|x l IH]; intros acc; simpl; expr_auto. Qed.
#[local] Hint Resolve emits_or_all : emits.

Lemma datum_ok_regs r n : datum_ok (OReg r, OReg n).
Proof. split; left; by eexists. Qed.
#[local] Hint Resolve datum_ok_regs : emits.

Lemma emits_strict_call f coll args : emits datum_ok (emit_strict_call f coll args).
Proof. unfold emit_strict_call. expr_control. Qed.
#[local] Hint Resolve emits_strict_call : emits.

Lemma emits_fmgr_args (f : Expr -> emit (option (operand * operand))) l :
  (forall x, x ∈ l -> emits (some_ok datum_ok) (f x)) -> emits any (compile_fmgr_args f l).
Proof.
  induction l as [|x l IH]; intros Hf; simpl; [by apply emits_ret|].
  eapply emits_bind; [apply Hf; set_solver|]. intros [a|] _; [|by apply emits_ret].
  eapply emits_bind; [apply IH; set_solver|]. intros r _. by apply emits_ret.
Qed.

Lemma emits_compile_fmgr_call f coll m :
  emits any m -> emits (some_ok datum_ok) (compile_fmgr_call f coll m).
Proof.
  intros Hm. unfold compile_fmgr_call. destruct (ce_has_polymorphic f); [by apply emits_ret|].
  eapply emits_bind; [apply emits_entry_alloca|]. intros _ _.
  eapply emits_bind; [exact Hm|]. intros [args|] _; [|by apply emits_ret].
  eapply (emits_bind datum_ok); [destruct (_ && _); auto with emits|]. intros r Hr. by apply emits_ret.
Qed.

Lemma emits_fold_3vl (f : Expr -> emit (option (operand * operand))) b l r n d :
  (forall x, x ∈ l -> emits (some_ok datum_ok) (f x)) -> emits any (fold_3vl f b r n d l).
Proof.
  revert r n d. induction l as [|x l IH]; intros r n d Hf; simpl; [by apply emits_ret|].
  eapply emits_bind; [apply Hf; set_solver|]. intros [[v w]|] _; [|by apply emits_ret].
  assert (forall r n d, emits any (fold_3vl f b r n d l)) by (intros; apply IH; set_solver).
  expr_auto.
Qed.

Lemma emits_fmgr_full e : emits (some_ok datum_ok) (uplpgsql_compile_expr_fmgr_full e).
Proof.
  induction e as [t b v n|k i t|f r c l IH|f r c l IH|a IH|o l IH|t r u l a _ _ _|? _|] using expr_ind';
    try apply emits_error.
  - apply emits_ret. split; simpl; [|apply const_bool_operand].
    unfold const_datum. destruct n; [|destruct b]; apply const_int_operand.
  - cbn. eapply emits_bind; [apply emits_load_param_isnull|]. intros n Hn.
    eapply emits_bind; [apply emits_load_param_datum|]. intros d Hd. apply emits_ret.
    split; [by left|done].
  - cbn. by apply emits_compile_fmgr_call, emits_fmgr_args.
  - cbn. destruct (numeric_const f l) as [[v n]|].
    + apply emits_ret. split; simpl; [|apply const_bool_operand]. destruct n; apply const_int_operand.
    + by apply emits_compile_fmgr_call, emits_fmgr_args.
  - exact IH.
  - assert (Hd : forall (r : operand * operand * operand), emits (some_ok datum_ok)
        (undec <-- build_op OpNot [r.2]; isnull <-- build_op OpAnd [r.1.2; undec];
         d <-- build_op OpZExt [r.1.1]; ret (Some (d, isnull)))).
    { intros r. eapply emits_bind; [apply emits_build_op|]. intros u _.
      eapply emits_bind; [apply emits_build_op|]. intros n Hn.
      eapply emits_bind; [apply emits_build_op|]. intros d Hd. apply emits_ret. split; by left. }
    cbn. destruct o.
    1,2: eapply emits_bind; [by apply emits_fold_3vl|]; intros [r|] _; [|by apply emits_ret];
      destruct r as [[v n] d]; exact (Hd (v, n, d)).
    destruct l as [|x l]; [apply emits_error|]. eapply emits_bind; [apply IH; set_solver|].
    intros [[v n]|] Hr; [|by apply emits_ret]. destruct Hr as [_ Hn].
    eapply emits_bind; [apply emits_build_op|]. intros b1 _.
    eapply emits_bind; [apply emits_build_op|]. intros nv _.
    eapply emits_bind; [apply emits_build_op|]. intros d Hd'. apply emits_ret. split; [by left|done].
Qed.

(** ** Entry points *)

(** The register of an allocation scope. *)
Definition scope_ok (old : option operand) : Prop := some_ok is_reg old.

Lemma emits_scope_enter b : emits scope_ok (scope_enter b).
Proof.
  unfold scope_enter. destruct b; [|by apply emits_ret].
  eapply emits_bind; [apply emits_build_call; reflexivity|]. intros o Ho. by apply emits_ret.
Qed.
Lemma emits_scope_exit old : scope_ok old -> emits any (scope_exit old).
Proof.
  intros Ho. unfold scope_exit. destruct old as [o|]; [|by apply emits_ret]. simpl in Ho. emits_auto.
Qed.
Lemma emits_wants_scope e : emits any (wants_alloc_scope e).
Proof. unfold wants_alloc_scope. expr_auto. Qed.
#[local] Hint Resolve emits_scope_enter emits_scope_exit emits_wants_scope : emits.

Lemma emits_store n d : emits any (emit_store_var_datum n d).
Proof. apply emits_build. done. Qed.
Lemma emits_store_isnull n d b : emits any (emit_store_var_datum_isnull n d b).
Proof. unfold emit_store_var_datum_isnull. expr_auto. Qed.
Lemma emits_store_null n : emits any (emit_store_var_null n).
Proof. apply emits_build. done. Qed.
#[local] Hint Resolve emits_store emits_store_isnull emits_store_null : emits.

Lemma emits_tier1_store n e : ok_subscripts e = true -> emits any (tier1_store n e).
Proof.
  intros Hok. unfold tier1_store. eapply emits_bind; [by apply emits_value|]. intros [v c] _.
  eapply (emits_bind any); [|auto with emits]. simpl. unfold native_to_datum.
  destruct c; first [apply emits_error|by apply emits_ret|eapply emits_any, emits_build_op].
Qed.

Lemma emits_tier1_assign n e : ok_subscripts e = true -> emits any (tier1_assign n e).
Proof.
  intros Hok. unfold tier1_assign. eapply emits_bind; [by apply emits_any_null|].
  intros [flag|] _; [|by apply emits_tier1_store]. pose proof (emits_tier1_store n e Hok). expr_control.
Qed.

Lemma emits_tier2_byval n e : emits any (tier2_assign_byval n e).
Proof.
  unfold tier2_assign_byval. eapply emits_bind; [apply emits_wants_scope|]. intros b _.
  eapply emits_bind; [apply emits_scope_enter|]. intros old Ho.
  eapply emits_bind; [apply emits_fmgr_full|]. intros [[d i]|] _; expr_auto.
Qed.

Lemma emits_tier2_byref n e : emits any (tier2_assign_byref n e).
Proof.
  unfold tier2_assign_byref. eapply emits_bind; [apply emits_wants_scope|]. intros b _.
  eapply emits_bind; [apply emits_scope_enter|]. intros old Ho.
  eapply emits_bind; [apply emits_fmgr_full|]. intros [[d i]|] Hr; [|expr_auto].
  destruct Hr as [Hd _]. simpl in Hd. eapply emits_bind; [apply emits_build_op|]. intros i8 Hi8.
  eapply (emits_bind any).
  - destruct Hi8 as [r ->]. destruct old as [o|]; apply emits_build_call_void.
    + simpl in Ho. destruct Ho as [o' ->]. by destruct Hd as [[x ->]|[z ->]].
    + by destruct Hd as [[x ->]|[z ->]].
  - intros _ _. eapply emits_bind; [apply emits_refresh_dno|]. intros _ _. by apply emits_ret.
Qed.

Lemma emits_tier2_assign n b e : emits any (tier2_assign n b e).
Proof.
  unfold tier2_assign. destruct (uplpgsql_can_fmgr_compile _ _); [|by apply emits_ret].
  destruct b; [apply emits_tier2_byval|apply emits_tier2_byref].
Qed.

Lemma emits_tier1_bool e : ok_subscripts e = true -> emits any (tier1_bool e).
Proof.
  intros Hok. unfold tier1_bool. eapply emits_bind; [by apply emits_any_null|].
  intros [flag|] _; [|by apply emits_compile_bool]. pose proof (emits_compile_bool e Hok). expr_control.
Qed.

Lemma emits_tier2_bool e : emits any (tier2_bool e).
Proof.
  unfold tier2_bool. destruct (uplpgsql_can_fmgr_compile _ _); [|by apply emits_ret].
  eapply emits_bind; [apply emits_wants_scope|]. intros b _.
  eapply emits_bind; [apply emits_scope_enter|]. intros old Ho.
  eapply emits_bind; [apply emits_fmgr_full|]. intros [[d i]|] _; expr_auto.
Qed.

(** ** Assignments to arrays *)

(** A value that is no integer operand is a double. *)
Definition class_ok (p : operand * ExprTypeClass) : Prop := int_operand p.1 \/ p.2 <> EXPR_TYPE_INT8.

Lemma double_const_class e :
  ok_subscripts e = true -> is_double_const e = true -> emits class_ok (uplpgsql_compile_expr_datum e).
Proof.
  induction e as [t b v n|k i t|f r c l IH|f r c l IH|a IH|o l IH|t r u l a _ IH _|? _|] using expr_ind'; intros Hok Hd;
    try (simpl in Hd; discriminate Hd); [| |exact (IH Hok Hd)].
  - cbn [uplpgsql_compile_expr_datum]. cbn [is_double_const] in Hd.
    destruct (uplpgsql_classify_expr (Const t b v n)); first [discriminate Hd|apply emits_ret; by right].
  - simpl in Hd. destruct f; try discriminate Hd.
    assert (Hc : uplpgsql_classify_expr (FuncExpr F_FLOAT8_NUMERIC r c l) <> EXPR_TYPE_INT8).
    { cbn. destruct l as [|x [|y [|]]]; simpl; try done. by destruct (is_const x). }
    set (e := FuncExpr F_FLOAT8_NUMERIC r c l) in *.
    assert (Ht : forall (m : emit operand), emits any m ->
      emits class_ok (v <-- m; ret (v, uplpgsql_classify_expr e))).
    { intros m Hm. eapply emits_bind; [exact Hm|]. intros v _. apply emits_ret. by right. }
    assert (Hsub : forall x, x ∈ l -> emits any (uplpgsql_compile_expr_datum x)).
    { intros x Hx. apply emits_value. exact (forallb_elem _ _ _ Hok Hx). }
    subst e. cbn [uplpgsql_compile_expr_datum]. destruct (numeric_const _ _) as [[v n]|].
    + apply emits_ret. by right.
    + destruct l as [|x [|y l]]; [apply emits_error|..];
        (eapply emits_bind; [apply Hsub; set_solver|]; intros p _; apply Ht;
         eapply emits_any, emits_func1).
Qed.

Lemma emits_class_ok e : ok_subscripts e = true -> emits class_ok (uplpgsql_compile_expr_datum e).
Proof.
  intros Hok. destruct (is_double_const e) eqn:Hd; [by apply double_const_class|].
  eapply emits_weaken; [by apply emits_compile_datum|]. intros p Hp. left. by apply Hp.
Qed.

Lemma emits_index e :
  ok_subscripts e = true -> uplpgsql_classify_expr e = EXPR_TYPE_INT4 ->
  emits (fun p => int_operand p.1) (uplpgsql_compile_expr_datum e).
Proof.
  intros Hok Hc. eapply emits_weaken; [by apply emits_compile_datum|]. intros p Hp. apply Hp.
  clear -Hc. induction e as [t b v n|k i t|f r c l IH|f r c l IH|a IH|o l IH|t r u l a _ IH _|? _|] using expr_ind';
    try done; [| |exact (IH Hc)]; simpl.
  - unfold uplpgsql_classify_expr in Hc. by rewrite Hc.
  - destruct f; try done. exfalso. cbn in Hc.
    destruct l as [|x [|y [|]]]; simpl in Hc; try discriminate Hc. by destruct (is_const x).
Qed.

Definition guarded_ok (r : operand * ExprTypeClass * option operand) : Prop :=
  class_ok r.1 /\ some_ok int_operand r.2.

Lemma emits_guarded e c : ok_subscripts e = true -> emits guarded_ok (tier1_compile_value_guarded e c).
Proof.
  intros Hok. unfold tier1_compile_value_guarded.
  eapply emits_bind; [by apply emits_any_null_flag|]. intros [fl|] Hf; simpl in Hf.
  - pose proof (emits_class_ok e Hok) as Hv. expr_control. split; [left; simpl; left; by eexists|done].
  - eapply emits_bind; [by apply emits_class_ok|]. intros v Hv. by apply emits_ret.
Qed.

Lemma emits_null_check e : ok_subscripts e = true -> emits any (emit_set_subscript_null_check e).
Proof.
  intros Hok. unfold emit_set_subscript_null_check. eapply emits_bind; [by apply emits_any_null|].
  intros [fl|] _; [auto with emits|by apply emits_ret].
Qed.
#[local] Hint Resolve emits_null_check emits_guarded emits_class_ok emits_index : emits.

Lemma emits_set_element n idx d fl :
  int_operand idx -> int_operand d -> int_operand fl -> emits any (emit_array_set_element n idx d fl).
Proof.
  intros Hi Hd Hf. unfold emit_array_set_element.
  eapply emits_bind; [apply emits_type_info|]. intros l (a & t & b & c & x & ->).
  apply emits_build_call_void. by destruct Hi as [[? ->]|[? ->]], Hd as [[? ->]|[? ->]], Hf as [[? ->]|[? ->]].
Qed.

Lemma flag_or_false_ok fl : some_ok int_operand fl -> int_operand (flag_or_false fl).
Proof. destruct fl as [o|]; [done|]. intros _. right. by eexists. Qed.
#[local] Hint Resolve flag_or_false_ok : emits.

Lemma emits_clear_null na i t t' : emits any (emit_clear_null na i t t').
Proof. unfold emit_clear_null. expr_control. Qed.

Lemma emits_and_not c fl : is_reg c -> emits is_reg (and_not c fl).
Proof. intros Hc. unfold and_not. destruct fl; [expr_auto|by apply emits_ret]. Qed.
#[local] Hint Resolve emits_set_element emits_clear_null emits_and_not : emits.

Lemma emits_in_range a b i fl : emits is_reg (emit_in_range a b i fl).
Proof. unfold emit_in_range. expr_auto. Qed.
Lemma emits_is_append a b i fl : emits is_reg (emit_is_append a b i fl).
Proof. unfold emit_is_append. expr_auto. Qed.
#[local] Hint Resolve emits_in_range emits_is_append : emits.

Lemma emits_set_fast na i l v : emits any (emit_set_fast na i l v).
Proof. unfold emit_set_fast. expr_auto. Qed.
Lemma emits_set_grow na l : int_operand l -> emits any (emit_set_grow na l).
Proof. intros Hl. apply emits_build_call_void. by destruct Hl as [[? ->]|[? ->]]. Qed.
Lemma emits_set_append na l v : emits any (emit_set_append na l v).
Proof. unfold emit_set_append. expr_auto. Qed.
Lemma emits_set_slow na n idx val c fl :
  int_operand idx -> class_ok (val, c) -> some_ok int_operand fl ->
  emits any (emit_set_slow na n idx val c fl).
Proof.
  intros Hi Hv Hf. pose proof (flag_or_false_ok _ Hf) as Hfl.
  assert (Hd : emits int_operand (native_to_datum val c)) by by apply emits_native_to_datum.
  unfold emit_set_slow. expr_auto.
Qed.
#[local] Hint Resolve emits_set_fast emits_set_grow emits_set_append emits_set_slow : emits.

Lemma emits_native_store na n idx val c fl :
  int_operand idx -> class_ok (val, c) -> some_ok int_operand fl ->
  emits any (emit_native_set na n idx val c fl).
Proof. intros Hi Hv Hf. unfold emit_native_set. expr_control. Qed.

#[local] Hint Resolve emits_native_store : emits.

Lemma emits_standard_set n i e :
  ok_subscripts i = true -> ok_subscripts e = true -> uplpgsql_classify_expr i = EXPR_TYPE_INT4 ->
  emits any (standard_set n i e).
Proof.
  intros Hi He Hc. unfold standard_set. destruct (class_is _ _); [by apply emits_ret|].
  eapply emits_bind; [by apply emits_null_check|]. intros _ _.
  eapply emits_bind; [by apply emits_index|]. intros idx Hidx.
  eapply emits_bind; [by apply emits_guarded|]. intros [[v c] fl] [Hv Hf]. simpl in *.
  eapply emits_bind; [by apply emits_native_to_datum|]. intros d Hd.
  eapply emits_bind; [apply emits_set_element; auto with emits|]. intros _ _. by apply emits_ret.
Qed.

Lemma emits_native_set na n i e :
  ok_subscripts i = true -> ok_subscripts e = true -> uplpgsql_classify_expr i = EXPR_TYPE_INT4 ->
  emits any (native_set na n i e).
Proof.
  intros Hi He Hc. pose proof (emits_standard_set n i e Hi He Hc) as Hstd. unfold native_set.
  destruct (negb _).
  - eapply emits_bind; [by apply emits_null_check|]. intros _ _.
    eapply emits_bind; [by apply emits_index|]. intros idx Hidx.
    eapply emits_bind; [by apply emits_guarded|]. intros [[v c] fl] [Hv Hf]. simpl in *.
    eapply emits_bind; [by apply emits_native_store|]. intros _ _. by apply emits_ret.
  - destruct (uplpgsql_can_fmgr_compile _ _); [|exact Hstd]. destruct (class_is _ _); [exact Hstd|].
    eapply emits_bind; [by apply emits_null_check|]. intros _ _.
    eapply emits_bind; [by apply emits_index|]. intros idx Hidx.
    eapply emits_bind; [apply emits_wants_scope|]. intros b _.
    eapply emits_bind; [apply emits_scope_enter|]. intros old Ho.
    eapply emits_bind; [apply emits_fmgr_full|]. intros [[d fl]|] Hr.
    + destruct Hr as [Hd Hf]. simpl in Hd, Hf.
      eapply (emits_bind int_operand).
      { unfold datum_to_native. destruct (elemtype_to_class _); simpl;
          first [by apply emits_ret|eapply emits_weaken; [apply emits_build_op|apply reg_int_operand]|apply emits_error]. }
      intros v Hv. eapply emits_bind; [by apply emits_scope_exit|]. intros _ _.
      eapply emits_bind; [apply emits_native_store; [done|by left|done]|]. intros _ _. by apply emits_ret.
    + eapply emits_bind; [by apply emits_scope_exit|]. intros _ _. exact Hstd.
Qed.

(** Code that may branch to the block for NULL first. *)
Ltac null_control :=
  intros ? ? ? ? Hrun Hinv; unbind;
  repeat (match goal with Hx : (match ?o with _ => _ end) _ = Success _ |- _ =>
            is_var o; destruct o; try discriminate Hx end; unbind;
          repeat match goal with Hx : ret None _ = Success (None, _) |- _ => injection Hx as <- end);
  repeat wf_step; expr_finish.

Lemma emits_native_get na v i : ok_subscripts i = true -> emits any (native_get na v i).
Proof.
  intros Hi. pose proof (emits_any_null i Hi). pose proof (emits_value i Hi).
  unfold native_get, emit_null_subscript.
  destruct (_ =? _)%Z; [|destruct (_ =? _)%Z]; null_control.
Qed.

Lemma emits_standard_get n v i :
  ok_subscripts i = true -> uplpgsql_classify_expr i = EXPR_TYPE_INT4 -> emits any (standard_get n v i).
Proof.
  intros Hi Hc. pose proof (emits_any_null i Hi). pose proof (emits_index i Hi Hc).
  unfold standard_get. null_control.
Qed.

Lemma emits_subscript_assign v e : ok_subscripts e = true -> emits any (subscript_assign v e).
Proof.
  intros Hok. unfold subscript_assign.
  destruct e as [| | | | | |t r u l a| |]; try by apply emits_ret.
  destruct r as [|[] id ?| | | | | | |]; try by apply emits_ret.
  destruct u as [|i [|]]; try by apply emits_ret. destruct l; try by apply emits_ret.
  destruct (bool_decide _) eqn:Hc; [apply bool_decide_eq_true in Hc|by apply emits_ret].
  cbn in Hok. rewrite !andb_true_iff in Hok. destruct Hok as ((((_ & Hi) & _) & _) & Ha).
  eapply emits_bind; [apply emits_get_env|]. intros e _.
  destruct (find_native_slots _ _) as [na|], a as [x|].
  - by apply emits_native_set.
  - by apply emits_native_get.
  - by apply emits_standard_set.
  - by apply emits_standard_get.
Qed.

Lemma emits_native_alloc na n : emits any (emit_native_alloc na n).
Proof. unfold emit_native_alloc. expr_control. Qed.
Lemma emits_fill_loop na d n v : emits any (emit_fill_loop na d n v).
Proof. unfold emit_fill_loop. expr_control. Qed.
Lemma emits_fill_cast v c t : emits any (fill_cast v c t).
Proof. unfold fill_cast. repeat case_match; first [by apply emits_ret|eapply emits_any, emits_build_op]. Qed.
Lemma emits_fill_operand ok e : ok_subscripts e = true -> emits any (fill_operand ok e).
Proof.
  intros He. unfold fill_operand. destruct (_ || _); [|by apply emits_ret].
  eapply emits_bind; [by apply emits_value|]. intros v _. by apply emits_ret.
Qed.
#[local] Hint Resolve emits_native_alloc emits_fill_loop emits_fill_cast : emits.

Lemma array_fill_args_ok e v n :
  array_fill_args e = Some (v, n) -> ok_subscripts e = true ->
  ok_subscripts v = true /\ ok_subscripts n = true.
Proof.
  unfold array_fill_args. intros Ha Hok. repeat case_match; try discriminate Ha. injection Ha as -> ->.
  cbn in Hok. rewrite !andb_true_iff in Hok. tauto.
Qed.

Lemma emits_native_init na e : ok_subscripts e = true -> emits any (native_init na e).
Proof.
  intros Hok. unfold native_init. destruct (array_fill_args e) as [[v n]|] eqn:Ea; [|by apply emits_ret].
  destruct (array_fill_args_ok _ _ _ Ea Hok) as [Hv Hn].
  eapply emits_bind; [by apply emits_fill_operand|]. intros [[nv nc]|] _; [|by apply emits_ret].
  eapply emits_bind; [by apply emits_fill_operand|]. intros [[fv fc]|] _; [|by apply emits_ret].
  expr_auto.
Qed.

Lemma emits_native_assign s e : ok_subscripts e = true -> emits any (native_assign s e).
Proof.
  intros Hok. unfold native_assign. eapply emits_bind; [apply emits_get_env|]. intros c _.
  eapply (emits_bind any).
  { destruct (find_native_slots _ _); [|by apply emits_ret].
    destruct (is_subscripting e); [by apply emits_ret|by apply emits_native_init]. }
  intros [] _; [by apply emits_ret|by apply emits_subscript_assign].
Qed.

(** What PostgreSQL's parser is asked for. *)
Class ExprInputOk : Prop := {
  subscripts_are_int e x : prepared e = Some x -> ok_subscripts x = true
}.

#[export] Instance expr_compiler_ok : ExprInputOk -> @ExprCompilerOk expr_compiler.
Proof.
  intros Hin. split.
  - intros e. cbn. unfold uplpgsql_try_compile_bool.
    eapply (emits_bind any). { apply emits_quiet. by intros c a c' [= <- <-]. }
    intros [] _; [by apply emits_ret|]. destruct (prepared e) as [x|] eqn:E; [|by apply emits_ret].
    case_bool_decide.
    + eapply emits_bind; [by eapply emits_tier1_bool, subscripts_are_int|]. intros v _. by apply emits_ret.
    + eapply emits_bind; [apply emits_tier2_bool|]. intros [v|] _; expr_auto.
  - intros s. cbn. unfold uplpgsql_try_compile_assign. destruct (ce_datums !! _) as [[v| | | |]|];
      try by apply emits_ret.
    destruct (prepared (assign_expr s)) as [x|] eqn:E; [|by apply emits_ret].
    destruct (tier1_class _ _).
    + eapply emits_bind; [by eapply emits_tier1_assign, subscripts_are_int|]. intros _ _. by apply emits_ret.
    + eapply emits_bind; [apply emits_tier2_assign|]. intros [] _; [by apply emits_ret|by eapply emits_native_assign, subscripts_are_int].
Qed.
End expr.

(** ** Code already emitted stays *)
Section grows.
Context `{CompileEnv}.

Lemma grows_build_op op args : grows (build_op op args).
Proof. grows_unfold build_op. Qed.
Lemma grows_incoming r v : grows (incoming r v).
Proof. grows_unfold incoming. Qed.
Lemma grows_get_recfield n : grows (emit_get_recfield n).
Proof. grows_unfold emit_get_recfield. Qed.
#[local] Hint Resolve grows_build_op grows_incoming grows_get_recfield : grows.
Lemma grows_recfield_fast n r i : grows (emit_recfield_fast n r i).
Proof. grows_unfold emit_recfield_fast. Qed.
Lemma grows_sync_if_native n : grows (sync_if_native n).
Proof. grows_unfold sync_if_native. Qed.
#[local] Hint Resolve grows_recfield_fast grows_sync_if_native : grows.
Lemma grows_load_param_datum n : grows (emit_load_param_datum n).
Proof. unfold emit_load_param_datum, emit_load_var_datum. grows_auto. Qed.
Lemma grows_load_param_isnull n : grows (emit_load_param_isnull n).
Proof. grows_unfold emit_load_param_isnull. Qed.
Lemma grows_elem_isnull na i : grows (emit_native_array_elem_isnull na i).
Proof. grows_unfold emit_native_array_elem_isnull. Qed.
Lemma grows_error_if c f t t' : grows (emit_error_if c f t t').
Proof. unfold emit_error_if, emit_error_branch, emit_error_call. grows_auto. Qed.
#[local] Hint Resolve grows_load_param_datum grows_load_param_isnull grows_elem_isnull grows_error_if : grows.
Lemma grows_float_error_if c f t : grows (emit_float_error_if c f t).
Proof. apply grows_error_if. Qed.
Lemma grows_min_check w a t t' : grows (emit_int_min_check w a t t').
Proof. unfold emit_int_min_check, emit_error_branch, emit_error_call. grows_auto. Qed.
Lemma grows_isinf v : grows (emit_float_isinf v).
Proof. grows_unfold emit_float_isinf. Qed.
Lemma grows_isnan v : grows (emit_float_isnan v).
Proof. grows_unfold emit_float_isnan. Qed.
Lemma grows_iszero v : grows (emit_float_iszero v).
Proof. grows_unfold emit_float_iszero. Qed.
#[local] Hint Resolve grows_float_error_if grows_min_check grows_isinf grows_isnan grows_iszero : grows.
Lemma grows_and_neither t r a b : (forall v, grows (t v)) -> grows (emit_and_neither t r a b).
Proof. intros Ht. grows_unfold emit_and_neither. Qed.
#[local] Hint Extern 1 (grows (emit_and_neither _ _ _ _)) =>
  apply grows_and_neither; intros; auto with grows : grows.
Lemma grows_addsub a b d : grows (emit_float_addsub a b d).
Proof. grows_unfold emit_float_addsub. Qed.
Lemma grows_mul a b : grows (emit_float_mul a b).
Proof. grows_unfold emit_float_mul. Qed.
Lemma grows_div a b : grows (emit_float_div a b).
Proof. grows_unfold emit_float_div. Qed.
Lemma grows_float_cmp f a b : grows (emit_float_cmp f a b).
Proof. grows_unfold emit_float_cmp. Qed.
Lemma grows_int_arith op w a b : grows (emit_int_arith_checked op w a b).
Proof. grows_unfold emit_int_arith_checked. Qed.
Lemma grows_int_div w a b : grows (emit_int_div w a b).
Proof. unfold emit_int_div, emit_error_branch, emit_error_call. grows_auto. Qed.
Lemma grows_int_mod w a b : grows (emit_int_mod w a b).
Proof. grows_unfold emit_int_mod. Qed.
#[local] Hint Resolve grows_addsub grows_mul grows_div grows_float_cmp grows_int_arith grows_int_div
  grows_int_mod : grows.
Lemma grows_int_divmod w d a b : grows (emit_int_divmod w d a b).
Proof. unfold emit_int_divmod, emit_error_branch, emit_error_call. grows_auto. Qed.
Lemma grows_int_negate w a : grows (emit_int_negate w a).
Proof. grows_unfold emit_int_negate. Qed.
Lemma grows_int_abs w a : grows (emit_int_abs w a).
Proof. grows_unfold emit_int_abs. Qed.
Lemma grows_widen v c : grows (widen v c).
Proof. grows_unfold widen. Qed.
Lemma grows_datum_value v c m : grows (datum_value v c m).
Proof. grows_unfold datum_value. Qed.
Lemma grows_native_to_datum v c : grows (native_to_datum v c).
Proof. grows_unfold native_to_datum. Qed.
#[local] Hint Resolve grows_int_divmod grows_int_negate grows_int_abs grows_widen grows_datum_value
  grows_native_to_datum : grows.
Lemma grows_binop f a b l r : grows (compile_binop f a b l r).
Proof. unfold compile_binop, cross_arith. grows_auto. Qed.
Lemma grows_unop f a : grows (compile_unop f a).
Proof. grows_unfold compile_unop. Qed.
Lemma grows_func1 f a : grows (compile_func1 f a).
Proof. grows_unfold compile_func1. Qed.
Lemma grows_type_info n : grows (resolve_array_type_info n).
Proof. grows_unfold resolve_array_type_info. Qed.
#[local] Hint Resolve grows_binop grows_unop grows_func1 grows_type_info : grows.
Lemma grows_get_element n i : grows (emit_array_get_element n i).
Proof. grows_unfold emit_array_get_element. Qed.
Lemma grows_native_elem na i : grows (emit_native_elem na i).
Proof. grows_unfold emit_native_elem. Qed.
#[local] Hint Resolve grows_get_element grows_native_elem : grows.
Lemma grows_element n i c : grows (compile_element n i c).
Proof. unfold compile_element, array_element_value. grows_auto. Qed.
Lemma grows_int_cmp p b l r : grows (compile_int_cmp p b l r).
Proof. grows_unfold compile_int_cmp. Qed.
Lemma grows_or_flag a b : grows (or_flag a b).
Proof. grows_unfold or_flag. Qed.
#[local] Hint Resolve grows_element grows_int_cmp grows_or_flag : grows.

Lemma grows_compile_datum e : grows (uplpgsql_compile_expr_datum e).
Proof.
  induction e as [t b v n|k i t|f r c l IH|f r c l IH|a IH|o l IH|t r u l a _ IH _|? _|] using expr_ind';
    cbn [uplpgsql_compile_expr_datum]; try apply grows_error; try exact IH.
  - grows_auto.
  - grows_auto.
  - destruct l as [|x [|y [|z l]]]; try apply grows_error.
    + pose proof (IH x ltac:(set_solver)). grows_auto.
    + pose proof (IH x ltac:(set_solver)). pose proof (IH y ltac:(set_solver)). grows_auto.
  - destruct (numeric_const f l) as [[v n]|]; [apply grows_ret|].
    destruct l as [|x [|y l]]; [apply grows_error| |].
    + pose proof (IH x ltac:(set_solver)). grows_auto.
    + pose proof (IH x ltac:(set_solver)). pose proof (IH y ltac:(set_solver)). grows_auto.
  - destruct r; try apply grows_error. destruct u as [|x u]; [apply grows_error|].
    pose proof (IH x ltac:(set_solver)). grows_auto.
Qed.
#[local] Hint Resolve grows_compile_datum : grows.

Lemma grows_fold_bool (f : Expr -> emit operand) op l acc :
  (forall x, x ∈ l -> grows (f x)) -> grows (fold_bool f op acc l).
Proof.
  revert acc. induction l as [|x l IH]; intros acc Hf; simpl; [apply grows_ret|].
  apply grows_bind; [apply Hf; set_solver|]. intros v. apply grows_bind; [apply grows_build_op|].
  intros w. apply IH. set_solver.
Qed.

Lemma grows_compile_bool e : grows (uplpgsql_compile_expr_bool e).
Proof.
  induction e as [t b v n|k i t|f r c l IH|f r c l IH|a IH|o l IH|t r u l a _ IH _|? _|] using expr_ind';
    cbn [uplpgsql_compile_expr_bool]; try apply grows_error.
  - grows_auto.
  - grows_auto.
  - destruct l as [|x [|y l]]; try apply grows_error.
    pose proof (IH x ltac:(set_solver)). pose proof (IH y ltac:(set_solver)). grows_auto.
  - destruct o; [by apply grows_fold_bool|by apply grows_fold_bool|].
    destruct l as [|x l]; [apply grows_error|]. pose proof (IH x ltac:(set_solver)). grows_auto.
Qed.

Lemma grows_fold_null (f : Expr -> emit (option operand)) l acc :
  (forall x, x ∈ l -> grows (f x)) -> grows (fold_null f acc l).
Proof.
  revert acc. induction l as [|x l IH]; intros acc Hf; simpl; [apply grows_ret|].
  apply grows_bind; [apply Hf; set_solver|]. intros v. apply grows_bind; [apply grows_or_flag|].
  intros w. apply IH. set_solver.
Qed.

Lemma grows_subscript e : grows (compile_subscript e).
Proof. grows_unfold compile_subscript. Qed.
#[local] Hint Resolve grows_compile_bool grows_subscript : grows.
Lemma grows_native_null na e : grows (native_elem_null na e).
Proof. grows_unfold native_elem_null. Qed.
Lemma grows_array_null n e : grows (array_elem_null n e).
Proof. grows_unfold array_elem_null. Qed.
#[local] Hint Resolve grows_native_null grows_array_null : grows.

Lemma grows_any_null e : grows (tier1_expr_any_null e).
Proof.
  induction e as [t b v n|k i t|f r c l IH|f r c l IH|a IH|o l IH|t r u l a IHr IH _|? _|] using expr_ind';
    cbn [tier1_expr_any_null]; try (by apply grows_fold_null); try exact IH; try apply grows_ret.
  - grows_auto.
  - assert (forall acc, grows (fold_null tier1_expr_any_null acc u)) by (intros; by apply grows_fold_null).
    grows_auto.
Qed.
#[local] Hint Resolve grows_any_null : grows.

Lemma grows_fmgr_call f c l : grows (emit_fmgr_call f c l).
Proof. grows_unfold emit_fmgr_call. Qed.
Lemma grows_or_all l acc : grows (or_all acc l).
Proof. revert acc. induction l; intros acc; simpl; grows_auto. Qed.
#[local] Hint Resolve grows_fmgr_call grows_or_all : grows.
Lemma grows_strict_call f c l : grows (emit_strict_call f c l).
Proof. grows_unfold emit_strict_call. Qed.
#[local] Hint Resolve grows_strict_call : grows.
Lemma grows_compile_fmgr_call f c m : grows m -> grows (compile_fmgr_call f c m).
Proof. intros Hm. grows_unfold compile_fmgr_call. Qed.

Lemma grows_fmgr_args (f : Expr -> emit (option (operand * operand))) l :
  (forall x, x ∈ l -> grows (f x)) -> grows (compile_fmgr_args f l).
Proof.
  induction l as [|x l IH]; intros Hf; simpl; [apply grows_ret|].
  assert (grows (f x)) by (apply Hf; set_solver). assert (grows (compile_fmgr_args f l)) by (apply IH; set_solver).
  grows_auto.
Qed.

Lemma grows_fold_3vl (f : Expr -> emit (option (operand * operand))) b l r n d :
  (forall x, x ∈ l -> grows (f x)) -> grows (fold_3vl f b r n d l).
Proof.
  revert r n d. induction l as [|x l IH]; intros r n d Hf; simpl; [apply grows_ret|].
  assert (grows (f x)) by (apply Hf; set_solver).
  assert (forall r n d, grows (fold_3vl f b r n d l)) by (intros; apply IH; set_solver).
  grows_auto.
Qed.

Lemma grows_fmgr_full e : grows (uplpgsql_compile_expr_fmgr_full e).
Proof.
  induction e as [t b v n|k i t|f r c l IH|f r c l IH|a IH|o l IH|t r u l a _ _ _|? _|] using expr_ind';
    cbn [uplpgsql_compile_expr_fmgr_full]; try apply grows_error; try exact IH.
  - grows_auto.
  - grows_auto.
  - by apply grows_compile_fmgr_call, grows_fmgr_args.
  - destruct (numeric_const f l) as [[v n]|]; [apply grows_ret|].
    by apply grows_compile_fmgr_call, grows_fmgr_args.
  - assert (forall b r n d, grows (fold_3vl uplpgsql_compile_expr_fmgr_full b r n d l))
      by (intros; by apply grows_fold_3vl).
    destruct o; [grows_auto|grows_auto|]. destruct l as [|x l]; [apply grows_error|].
    pose proof (IH x ltac:(set_solver)). grows_auto.
Qed.

Lemma grows_scope_enter b : grows (scope_enter b).
Proof. grows_unfold scope_enter. Qed.
Lemma grows_scope_exit o : grows (scope_exit o).
Proof. grows_unfold scope_exit. Qed.
Lemma grows_wants_scope e : grows (wants_alloc_scope e).
Proof. grows_unfold wants_alloc_scope. Qed.
Lemma grows_tier1_store n e : grows (tier1_store n e).
Proof. unfold tier1_store, emit_store_var_datum. grows_auto. Qed.
#[local] Hint Resolve grows_fmgr_full grows_scope_enter grows_scope_exit grows_wants_scope grows_tier1_store : grows.
Lemma grows_tier1_assign n e : grows (tier1_assign n e).
Proof. unfold tier1_assign, emit_store_var_null. grows_auto. Qed.
Lemma grows_tier2_assign n b e : grows (tier2_assign n b e).
Proof.
  unfold tier2_assign, tier2_assign_byval, tier2_assign_byref, emit_store_var_datum_isnull. grows_auto.
Qed.
Lemma grows_tier1_bool e : grows (tier1_bool e).
Proof. grows_unfold tier1_bool. Qed.
Lemma grows_tier2_bool e : grows (tier2_bool e).
Proof. grows_unfold tier2_bool. Qed.
#[local] Hint Resolve grows_tier1_assign grows_tier2_assign grows_tier1_bool grows_tier2_bool : grows.

Lemma grows_guarded e c : grows (tier1_compile_value_guarded e c).
Proof. grows_unfold tier1_compile_value_guarded. Qed.
Lemma grows_null_check e : grows (emit_set_subscript_null_check e).
Proof. grows_unfold emit_set_subscript_null_check. Qed.
Lemma grows_set_element n i d fl : grows (emit_array_set_element n i d fl).
Proof. grows_unfold emit_array_set_element. Qed.
Lemma grows_clear_null na i t t' : grows (emit_clear_null na i t t').
Proof. grows_unfold emit_clear_null. Qed.
Lemma grows_and_not c fl : grows (and_not c fl).
Proof. grows_unfold and_not. Qed.
#[local] Hint Resolve grows_guarded grows_null_check grows_set_element grows_clear_null grows_and_not : grows.
Lemma grows_in_range a b i fl : grows (emit_in_range a b i fl).
Proof. grows_unfold emit_in_range. Qed.
Lemma grows_is_append a b i fl : grows (emit_is_append a b i fl).
Proof. grows_unfold emit_is_append. Qed.
#[local] Hint Resolve grows_in_range grows_is_append : grows.
Lemma grows_set_fast na i l v : grows (emit_set_fast na i l v).
Proof. grows_unfold emit_set_fast. Qed.
Lemma grows_set_grow na l : grows (emit_set_grow na l).
Proof. grows_unfold emit_set_grow. Qed.
Lemma grows_set_append na l v : grows (emit_set_append na l v).
Proof. grows_unfold emit_set_append. Qed.
Lemma grows_set_slow na n i v c fl : grows (emit_set_slow na n i v c fl).
Proof. pose proof grows_refresh_native_array. grows_unfold emit_set_slow. Qed.
#[local] Hint Resolve grows_set_fast grows_set_grow grows_set_append grows_set_slow : grows.
Lemma grows_native_store na n i v c fl : grows (emit_native_set na n i v c fl).
Proof. grows_unfold emit_native_set. Qed.
#[local] Hint Resolve grows_native_store : grows.
Lemma grows_standard_set n i e : grows (standard_set n i e).
Proof. grows_unfold standard_set. Qed.
#[local] Hint Resolve grows_standard_set : grows.
Lemma grows_native_set na n i e : grows (native_set na n i e).
Proof. unfold native_set, datum_to_native. grows_auto. Qed.
Lemma grows_native_get na v i : grows (native_get na v i).
Proof. unfold native_get, emit_null_subscript, emit_store_var_null, emit_store_var_datum. grows_auto. Qed.
Lemma grows_standard_get n v i : grows (standard_get n v i).
Proof. unfold standard_get, emit_store_var_null, emit_store_var_datum_isnull. grows_auto. Qed.
#[local] Hint Resolve grows_native_set grows_native_get grows_standard_get : grows.
Lemma grows_subscript_assign v e : grows (subscript_assign v e).
Proof. unfold subscript_assign. repeat case_match; grows_auto. Qed.
Lemma grows_native_alloc na n : grows (emit_native_alloc na n).
Proof. grows_unfold emit_native_alloc. Qed.
Lemma grows_fill_loop na d n v : grows (emit_fill_loop na d n v).
Proof. grows_unfold emit_fill_loop. Qed.
Lemma grows_fill_cast v c t : grows (fill_cast v c t).
Proof. grows_unfold fill_cast. Qed.
Lemma grows_fill_operand ok e : grows (fill_operand ok e).
Proof. grows_unfold fill_operand. Qed.
#[local] Hint Resolve grows_subscript_assign grows_native_alloc grows_fill_loop grows_fill_cast
  grows_fill_operand : grows.
Lemma grows_native_init na e : grows (native_init na e).
Proof. grows_unfold native_init. Qed.
#[local] Hint Resolve grows_native_init : grows.
Lemma grows_native_assign s e : grows (native_assign s e).
Proof. grows_unfold native_assign. Qed.

#[export] Instance expr_compiler_grows : @ExprCompilerGrows expr_compiler.
Proof.
  pose proof grows_native_assign. split; cbn.
  - intros e. unfold uplpgsql_try_compile_bool. apply grows_bind; [|intros; grows_auto].
    apply grows_quiet. by intros c a c' [= <- <-].
  - intros s. unfold uplpgsql_try_compile_assign. grows_auto.
Qed.
End grows.

(** The lemmas automation uses, for the files that follow. *)
#[export] Hint Resolve reg_int_operand emits_build_op emits_incoming emits_get_recfield is_reg_OReg
  emits_recfield_fast emits_sync_if_native emits_load_param_datum emits_load_param_isnull
  emits_elem_isnull emits_error_if emits_float_error_if emits_min_check emits_float_isinf
  emits_float_isnan emits_float_iszero emits_float_addsub emits_float_mul emits_float_div
  emits_float_cmp emits_int_arith emits_int_div emits_int_mod emits_int_divmod emits_int_negate
  emits_int_abs emits_datum_value emits_widen emits_binop emits_unop emits_func1 emits_type_info
  emits_get_element emits_native_elem emits_element emits_int_cmp emits_or_flag_any const_int_operand
  const_bool_operand emits_fmgr_instr emits_fmgr_call emits_or_all datum_ok_regs emits_strict_call
  emits_scope_enter emits_scope_exit emits_wants_scope emits_store emits_store_isnull
  emits_store_null : emits.
#[export] Hint Resolve grows_build_op grows_incoming grows_get_recfield grows_recfield_fast
  grows_sync_if_native grows_load_param_datum grows_load_param_isnull grows_elem_isnull
  grows_error_if grows_float_error_if grows_min_check grows_isinf grows_isnan grows_iszero
  grows_addsub grows_mul grows_div grows_float_cmp grows_int_arith grows_int_div grows_int_mod
  grows_int_divmod grows_int_negate grows_int_abs grows_widen grows_datum_value
  grows_native_to_datum grows_binop grows_unop grows_func1 grows_type_info grows_get_element
  grows_native_elem grows_element grows_int_cmp grows_or_flag grows_compile_datum grows_compile_bool
  grows_subscript grows_native_null grows_array_null grows_any_null grows_fmgr_call grows_or_all
  grows_strict_call grows_fmgr_full grows_scope_enter grows_scope_exit grows_wants_scope
  grows_tier1_store grows_tier1_assign grows_tier2_assign grows_tier1_bool grows_tier2_bool : grows.
#[export] Hint Extern 1 (emits _ (emit_and_neither _ _ _ _)) => apply emits_and_neither; intros : emits.
#[export] Hint Extern 1 (grows (emit_and_neither _ _ _ _)) => apply grows_and_neither; intros : grows.
