(* ===== verification/ExprTotal.v ===== *)
(** * The classification of expressions is sound

    [uplpgsql_classify_expr] decides whether an expression is compiled natively; the
    code that compiles it then has no way back and raises an error for anything it does
    not expect.  This file shows that it never does for an expression that has been
    classified, except for three constructs the classification accepts by mistake
    ([compilable] names them): casts from float4, booleans read from an array or under a
    relabelling, and elements of an array that is a record's field. *)

From Stdlib Require Import ZArith.
From S2P Require Import Prelude Ast Escape Expr Float IR CoreEmit StmtEmit ExprEmit Demo ExprDemo CompileTotal.
#[local] Opaque bind.

(** ** Steps that raise no error *)
#[local] Hint Resolve succeeds_ret succeeds_bld succeeds_get_env succeeds_append succeeds_reg
  succeeds_slot succeeds_sync_one succeeds_sync succeeds_refresh : succ.

Section expr.
Context `{CompileEnv}.

Lemma succeeds_op ls op args : succeeds ls (build_op op args) ls.
Proof. unfold build_op. run_emission. Qed.
Lemma succeeds_incoming ls r v : succeeds ls (incoming r v) ls.
Proof. unfold incoming. run_emission. Qed.
#[local] Hint Resolve succeeds_op succeeds_incoming : succ.

Lemma succeeds_recfield ls n : succeeds ls (emit_get_recfield n) ls.
Proof. unfold emit_get_recfield. run_emission. Qed.
#[local] Hint Resolve succeeds_recfield : succ.
Lemma succeeds_recfield_fast ls n r i : succeeds ls (emit_recfield_fast n r i) ls.
Proof. unfold emit_recfield_fast. run_emission. Qed.
Lemma succeeds_sync_native ls n : succeeds ls (sync_if_native n) ls.
Proof. unfold sync_if_native. run_emission. Qed.
#[local] Hint Resolve succeeds_recfield_fast succeeds_sync_native : succ.
Lemma succeeds_param_datum ls n : succeeds ls (emit_load_param_datum n) ls.
Proof. unfold emit_load_param_datum, emit_load_var_datum. run_emission. Qed.
Lemma succeeds_param_isnull ls n : succeeds ls (emit_load_param_isnull n) ls.
Proof. unfold emit_load_param_isnull. run_emission. Qed.
Lemma succeeds_elem_isnull ls na i : succeeds ls (emit_native_array_elem_isnull na i) ls.
Proof. unfold emit_native_array_elem_isnull. run_emission. Qed.
Lemma succeeds_error_if ls c f t t' : succeeds ls (emit_error_if c f t t') ls.
Proof. unfold emit_error_if, emit_error_branch, emit_error_call. run_emission. Qed.
#[local] Hint Resolve succeeds_param_datum succeeds_param_isnull succeeds_elem_isnull succeeds_error_if : succ.
Lemma succeeds_min_check ls w a t t' : succeeds ls (emit_int_min_check w a t t') ls.
Proof. unfold emit_int_min_check, emit_error_branch, emit_error_call. run_emission. Qed.
#[local] Hint Resolve succeeds_min_check : succ.

Ltac run_floats :=
  unfold emit_float_error_if, emit_and_neither, emit_float_isinf, emit_float_iszero, emit_float_isnan;
  run_emission.

Lemma succeeds_addsub ls a b d : succeeds ls (emit_float_addsub a b d) ls.
Proof. unfold emit_float_addsub. run_floats. Qed.
Lemma succeeds_fmul ls a b : succeeds ls (emit_float_mul a b) ls.
Proof. unfold emit_float_mul. run_floats. Qed.
Lemma succeeds_fdiv ls a b : succeeds ls (emit_float_div a b) ls.
Proof. unfold emit_float_div. run_floats. Qed.
Lemma succeeds_fcmp ls f a b : is_float_cmp f = true -> succeeds ls (emit_float_cmp f a b) ls.
Proof. intros Hf. unfold emit_float_cmp. destruct f; try discriminate; run_floats. Qed.
Lemma succeeds_arith ls op w a b : succeeds ls (emit_int_arith_checked op w a b) ls.
Proof. unfold emit_int_arith_checked. run_emission. Qed.
Lemma succeeds_divmod ls w d a b : succeeds ls (emit_int_divmod w d a b) ls.
Proof.
  unfold emit_int_divmod, emit_int_div, emit_int_mod, emit_error_branch, emit_error_call. run_emission.
Qed.
#[local] Hint Resolve succeeds_addsub succeeds_fmul succeeds_fdiv succeeds_arith succeeds_divmod : succ.
Lemma succeeds_negate ls w a : succeeds ls (emit_int_negate w a) ls.
Proof. unfold emit_int_negate. run_emission. Qed.
Lemma succeeds_abs ls w a : succeeds ls (emit_int_abs w a) ls.
Proof. unfold emit_int_abs. run_emission. Qed.
Lemma succeeds_widen ls v c : succeeds ls (widen v c) ls.
Proof. unfold widen. run_emission. Qed.
#[local] Hint Resolve succeeds_negate succeeds_abs succeeds_widen : succ.

(** ** Operators and functions that are classified are known *)

(** The class of an operator's result. *)
Definition op_result (f : func_oid) : ExprTypeClass :=
  match op_group_of f with AllArgs _ r | TwoArgs _ _ r => r | NoOp => EXPR_TYPE_UNKNOWN end.

Lemma binop_known ls f a b l r :
  value_class (op_result f) = true -> is_unary f = false -> succeeds ls (compile_binop f a b l r) ls.
Proof.
  intros Hf Hu. unfold compile_binop, cross_arith. destruct f; try discriminate; run_emission.
Qed.
Lemma unop_known ls f a : is_unary f = true -> succeeds ls (compile_unop f a) ls.
Proof. intros Hu. unfold compile_unop. destruct f; try discriminate; run_emission. Qed.

Lemma func1_known ls f x c a :
  f <> F_FLOAT8_NUMERIC -> classify_func1 f x c <> EXPR_TYPE_UNKNOWN -> succeeds ls (compile_func1 f a) ls.
Proof. intros Hn Hf. unfold compile_func1. destruct f; try done; simpl; run_emission. Qed.

Lemma cmp_known f :
  op_result f = EXPR_TYPE_BOOL -> is_float_cmp f = true \/ exists p, int_predicate f = Some p.
Proof. destruct f; try discriminate; intros _; (by left) || (right; by eexists). Qed.

Lemma datum_value_known ls d c msg : value_class c = true -> succeeds ls (datum_value d c msg) ls.
Proof. intros Hc. unfold datum_value. destruct c; try discriminate; run_emission. Qed.

(** ** What is not compiled in spite of its class *)

Definition array_is_var (refexpr : Expr) : bool :=
  match refexpr with
  | Param _ id _ => match ce_datums !! dno_of id with Some (DTYPE_VAR _ | DTYPE_PROMISE _) => true | _ => false end
  | _ => false
  end.

Fixpoint compilable (e : Expr) : bool :=
  match e with
  | OpExpr f _ _ args =>
      Nat.eqb (length args) (if is_unary f then 1 else 2) && forallb compilable args
  | FuncExpr f _ _ args =>
      negb (bool_decide (f = F_FLOAT8_FLOAT4))
      && match numeric_const f args with Some _ => true | None => forallb compilable args end
  | RelabelType a => negb (class_is (uplpgsql_classify_expr a) EXPR_TYPE_BOOL) && compilable a
  | SubscriptingRef t r u _ _ =>
      array_is_var r && negb (class_is (type_class t) EXPR_TYPE_BOOL) && forallb compilable u
  | _ => true
  end.

(** ** Values *)

Lemma succeeds_element ls r id k t n i c :
  r = Param k id t -> array_is_var r = true -> n = dno_of id -> succeeds ls (compile_element n i c) ls.
Proof.
  intros -> Hv ->. unfold compile_element, emit_native_elem, emit_array_get_element, resolve_array_type_info,
    array_element_value. simpl in Hv.
  destruct (ce_datums !! dno_of id) as [[]|]; try discriminate; run_emission.
Qed.

Lemma class_args f args a r x :
  forallb (fun x => class_is (uplpgsql_classify_expr x) a) args = true -> op_group_of f = AllArgs a r ->
  x ∈ args -> uplpgsql_classify_expr x = a.
Proof. intros Hf _ Hx. apply (forallb_elem _ _ _ Hf) in Hx. by apply bool_decide_eq_true in Hx. Qed.

(** The arguments of a classified operator have value classes if its result has. *)
Lemma op_args_class f r c args x :
  uplpgsql_classify_expr (OpExpr f r c args) <> EXPR_TYPE_UNKNOWN -> x ∈ args ->
  uplpgsql_classify_expr (OpExpr f r c args) = op_result f
  /\ (uplpgsql_classify_expr x <> EXPR_TYPE_UNKNOWN)
  /\ (value_class (op_result f) = true \/ is_bool_cmp f = false -> value_class (uplpgsql_classify_expr x) = true)
  /\ (is_bool_cmp f = true -> uplpgsql_classify_expr x = EXPR_TYPE_BOOL).
Proof.
  intros Hc Hx. cbn [uplpgsql_classify_expr] in *. unfold op_result.
  destruct (op_group_of f) as [a res|l rr res|] eqn:Eg; [| |done].
  - destruct (forallb _ args) eqn:Ef; [|done].
    pose proof (class_args f args a res x Ef Eg Hx) as ->.
    destruct f; try discriminate; injection Eg as <- <-; simpl; split_and!; done.
  - destruct args as [|y [|z [|w args]]]; try done.
    destruct (_ && _) eqn:Ef; [|done]. apply andb_true_iff in Ef as [Ey Ez].
    apply bool_decide_eq_true in Ey, Ez.
    assert (Hxx : uplpgsql_classify_expr x = l \/ uplpgsql_classify_expr x = rr).
    { apply elem_of_cons in Hx as [->|Hx]; [by left|]. apply list_elem_of_singleton in Hx as ->. by right. }
    destruct f; try discriminate; injection Eg as <- <- <-; simpl;
      destruct Hxx as [->| ->]; simpl; split_and!; try done; intros [?|?]; done.
Qed.

(** A classified function of one argument: the argument is classified too. *)
Lemma func1_arg f r c x :
  uplpgsql_classify_expr (FuncExpr f r c [x]) <> EXPR_TYPE_UNKNOWN -> f <> F_FLOAT8_FLOAT4 ->
  numeric_const f [x] = None ->
  f <> F_FLOAT8_NUMERIC /\ classify_func1 f x (uplpgsql_classify_expr x) <> EXPR_TYPE_UNKNOWN
  /\ value_class (uplpgsql_classify_expr x) = true.
Proof.
  intros Hc H4 Hn. change (classify_func1 f x (uplpgsql_classify_expr x) <> EXPR_TYPE_UNKNOWN) in Hc.
  split; [|split; [done|]].
  - intros ->. simpl in Hc. by destruct x.
  - destruct f; try done; simpl in Hc; try (destruct (uplpgsql_classify_expr x); done).
    by destruct x.
Qed.

Lemma succeeds_typed ls (m : emit operand) (c : ExprTypeClass) :
  succeeds ls m ls -> succeeds ls (v <-- m; ret (v, c)) ls.
Proof. intros Hm. eapply succeeds_bind; [exact Hm|]. intros v. apply succeeds_ret. Qed.

Lemma datum_compiles e :
  compilable e = true -> value_class (uplpgsql_classify_expr e) = true ->
  forall ls, succeeds ls (uplpgsql_compile_expr_datum e) ls.
Proof.
  induction e as [t b v n|k i t|f r c l IH|f r c l IH|a IH|o l IH|t r u l a _ IH _|? _|] using expr_ind';
    intros Hok Hv ls; try discriminate; cbn [uplpgsql_compile_expr_datum].
  - destruct (uplpgsql_classify_expr _); try discriminate; apply succeeds_ret.
  - eapply succeeds_bind; [apply succeeds_param_datum|]. intros d. by apply succeeds_typed, datum_value_known.
  - simpl in Hok. apply andb_true_iff in Hok as [Hlen Hok]. apply Nat.eqb_eq in Hlen.
    assert (Hne : uplpgsql_classify_expr (OpExpr f r c l) <> EXPR_TYPE_UNKNOWN) by by intros E; rewrite E in Hv.
    assert (Hsub : forall x, x ∈ l -> value_class (op_result f) = true /\ forall ls, succeeds ls (uplpgsql_compile_expr_datum x) ls).
    { intros x Hx. destruct (op_args_class f r c l x Hne Hx) as (Hr & _ & Ha & _). rewrite Hr in Hv.
      split; [done|]. apply IH; [done|exact (forallb_elem _ _ _ Hok Hx)|auto]. }
    destruct (is_unary f) eqn:Eu.
    + destruct l as [|x [|y l]]; try done. destruct (Hsub x ltac:(set_solver)) as [_ Hx].
      eapply succeeds_bind; [apply Hx|]. intros p. by apply succeeds_typed, unop_known.
    + destruct l as [|x [|y [|z l]]]; try done.
      destruct (Hsub x ltac:(set_solver)) as [Hr Hx]. destruct (Hsub y ltac:(set_solver)) as [_ Hy].
      eapply succeeds_bind; [apply Hx|]. intros p. eapply succeeds_bind; [apply Hy|]. intros q.
      by apply succeeds_typed, binop_known.
  - simpl in Hok. apply andb_true_iff in Hok as [Hf4 Hok]. apply negb_true_iff, bool_decide_eq_false in Hf4.
    assert (Hne : uplpgsql_classify_expr (FuncExpr f r c l) <> EXPR_TYPE_UNKNOWN) by by intros E; rewrite E in Hv.
    destruct (numeric_const f l) as [[v n]|] eqn:En; [apply succeeds_ret|].
    destruct l as [|x [|y [|z l]]]; try done.
    + destruct (func1_arg f r c x Hne Hf4 En) as (Hnum & Hc & Hx).
      eapply succeeds_bind; [apply IH; [set_solver|exact (forallb_elem _ _ x Hok ltac:(set_solver))|done]|].
      intros p. apply succeeds_typed. by eapply func1_known.
    + cbn [uplpgsql_classify_expr] in Hne.
      destruct (is_pow f) eqn:Ep; [|done]. simpl in Hne.
      destruct (bool_decide (uplpgsql_classify_expr x = _)) eqn:Ex; [|done].
      destruct (bool_decide (uplpgsql_classify_expr y = _)) eqn:Ey; [|done].
      apply bool_decide_eq_true in Ex, Ey.
      eapply succeeds_bind; [apply IH; [set_solver|exact (forallb_elem _ _ x Hok ltac:(set_solver))|by rewrite Ex]|].
      intros p.
      eapply succeeds_bind; [apply IH; [set_solver|exact (forallb_elem _ _ y Hok ltac:(set_solver))|by rewrite Ey]|].
      intros q. apply succeeds_typed, succeeds_op.
  - simpl in Hok. apply andb_true_iff in Hok as [_ Hok]. by apply IH.
  - simpl in Hok. apply andb_true_iff in Hok as [Hok Hu]. apply andb_true_iff in Hok as [Hr _].
    destruct r as [| k i t'| | | | | | |]; try discriminate.
    destruct u as [|idx [|y u]], l as [|z l], a; try discriminate.
    cbn [uplpgsql_classify_expr] in Hv. destruct (is_param_extern _); [|discriminate].
    destruct (bool_decide (uplpgsql_classify_expr idx = _)) eqn:Ei; [|discriminate].
    apply bool_decide_eq_true in Ei.
    eapply succeeds_bind; [apply IH; [set_solver|exact (forallb_elem _ _ idx Hu ltac:(set_solver))|by rewrite Ei]|].
    intros p. apply succeeds_typed. by eapply succeeds_element.
Qed.

Lemma bool_compiles e :
  compilable e = true -> uplpgsql_classify_expr e = EXPR_TYPE_BOOL ->
  forall ls, succeeds ls (uplpgsql_compile_expr_bool e) ls.
Proof.
  induction e as [t b v n|k i t|f r c l IH|f r c l IH|a IH|o l IH|t r u l a _ IH _|? _|] using expr_ind';
    intros Hok Hc ls; try discriminate; cbn [uplpgsql_compile_expr_bool].
  - apply succeeds_ret.
  - eapply succeeds_bind; [apply succeeds_param_datum|]. intros d. apply succeeds_op.
  - simpl in Hok. apply andb_true_iff in Hok as [Hlen Hok]. apply Nat.eqb_eq in Hlen.
    assert (Hne : uplpgsql_classify_expr (OpExpr f r c l) <> EXPR_TYPE_UNKNOWN) by by rewrite Hc.
    assert (Hres : op_result f = EXPR_TYPE_BOOL).
    { destruct l as [|x l]; [by destruct (is_unary f)|].
      destruct (op_args_class f r c (x :: l) x Hne ltac:(set_solver)) as (Hr & _). congruence. }
    assert (Hu : is_unary f = false) by by destruct f. rewrite Hu in Hlen.
    destruct l as [|x [|y [|z l]]]; try done.
    pose proof (forallb_elem _ _ x Hok ltac:(set_solver)) as Hokx.
    pose proof (forallb_elem _ _ y Hok ltac:(set_solver)) as Hoky.
    destruct (op_args_class f r c [x; y] x Hne ltac:(set_solver)) as (_ & _ & Hvx & Hbx).
    destruct (op_args_class f r c [x; y] y Hne ltac:(set_solver)) as (_ & _ & Hvy & Hby).
    assert (Hd : forall K : operand * ExprTypeClass -> operand * ExprTypeClass -> emit operand,
      is_bool_cmp f = false -> (forall p q, succeeds ls (K p q) ls) ->
      succeeds ls (l <-- uplpgsql_compile_expr_datum x; r <-- uplpgsql_compile_expr_datum y; K l r) ls).
    { intros K Hb HK. eapply succeeds_bind; [apply datum_compiles; auto|]. intros p.
      eapply succeeds_bind; [apply datum_compiles; auto|]. intros q. apply HK. }
    destruct (cmp_known f Hres) as [Hf|[[p cross] Hp]].
    + rewrite Hf. apply Hd; [by destruct f|]. intros p q. by apply succeeds_fcmp.
    + destruct (is_float_cmp f) eqn:Ef; [by destruct f|]. rewrite Hp.
      destruct (is_bool_cmp f) eqn:Eb.
      * eapply succeeds_bind; [apply IH; [set_solver|done|by apply Hbx]|]. intros v.
        eapply succeeds_bind; [apply IH; [set_solver|done|by apply Hby]|]. intros w. apply succeeds_op.
      * apply Hd; [done|]. intros v w. unfold compile_int_cmp. run_emission.
  - exfalso. destruct l as [|x [|y [|z l]]]; try discriminate; cbn [uplpgsql_classify_expr] in Hc.
    + destruct f; simpl in Hc; repeat case_bool_decide; try discriminate. by destruct x.
    + by destruct (_ && _ && _).
  - exfalso. simpl in Hok, Hc. by rewrite Hc in Hok.
  - exfalso. simpl in Hok. apply andb_true_iff in Hok as [Hok _]. apply andb_true_iff in Hok as [_ Hb].
    destruct u as [|idx [|y u]], l as [|z l], a; try discriminate.
    cbn [uplpgsql_classify_expr] in Hc. destruct (_ && _); [|discriminate]. by rewrite Hc in Hb.
Qed.

(** ** NULL *)

Lemma succeeds_or_flag ls a b : succeeds ls (or_flag a b) ls.
Proof. unfold or_flag. run_emission. Qed.
#[local] Hint Resolve succeeds_or_flag : succ.

Lemma succeeds_fold_null ls (f : Expr -> emit (option operand)) l acc :
  (forall x, x ∈ l -> succeeds ls (f x) ls) -> succeeds ls (fold_null f acc l) ls.
Proof.
  revert acc. induction l as [|x l IH]; intros acc Hf; simpl; [apply succeeds_ret|].
  eapply succeeds_bind; [apply Hf; set_solver|]. intros v.
  eapply succeeds_bind; [apply succeeds_or_flag|]. intros w. apply IH. set_solver.
Qed.

Lemma subscript_compiles ls idx :
  compilable idx = true -> uplpgsql_classify_expr idx = EXPR_TYPE_INT4 ->
  succeeds ls (compile_subscript idx) ls.
Proof.
  intros Hok Hc. unfold compile_subscript.
  eapply succeeds_bind; [apply datum_compiles; [done|by rewrite Hc]|]. intros p. run_emission.
Qed.

Lemma element_null_compiles ls r n idx :
  array_is_var r = true -> single_element r [idx] = Some (n, idx) -> compilable idx = true ->
  uplpgsql_classify_expr idx = EXPR_TYPE_INT4 ->
  forall na, succeeds ls (native_elem_null na idx) ls /\ succeeds ls (array_elem_null n idx) ls.
Proof.
  intros Hv Hs Hok Hc na. pose proof (subscript_compiles ls idx Hok Hc). split.
  - unfold native_elem_null. run_emission.
  - destruct r as [| k i t'| | | | | | |]; try discriminate. injection Hs as <-. simpl in Hv.
    unfold array_elem_null, emit_array_get_element, resolve_array_type_info.
    destruct (ce_datums !! dno_of i) as [[]|]; try discriminate; run_emission.
Qed.

Lemma any_null_compiles e :
  compilable e = true -> uplpgsql_classify_expr e <> EXPR_TYPE_UNKNOWN ->
  forall ls, succeeds ls (tier1_expr_any_null e) ls.
Proof.
  induction e as [t b v n|k i t|f r c l IH|f r c l IH|a IH|o l IH|t r u l a IHr IH _|? _|] using expr_ind';
    intros Hok Hc ls; try done; cbn [tier1_expr_any_null]; try apply succeeds_ret.
  - eapply succeeds_bind; [apply succeeds_param_isnull|]. intros v. apply succeeds_ret.
  - simpl in Hok. apply andb_true_iff in Hok as [_ Hok]. apply succeeds_fold_null. intros x Hx.
    destruct (op_args_class f r c l x Hc Hx) as (_ & Hn & _).
    apply IH; [done|exact (forallb_elem _ _ x Hok Hx)|done].
  - simpl in Hok. apply andb_true_iff in Hok as [Hf4 Hok]. apply negb_true_iff, bool_decide_eq_false in Hf4.
    destruct l as [|x [|y [|z l]]]; try done; apply succeeds_fold_null; intros w Hw.
    + apply list_elem_of_singleton in Hw as ->. destruct (numeric_const f [x]) as [p|] eqn:En.
      { destruct f; try discriminate. destruct x; try discriminate. apply succeeds_ret. }
      destruct (func1_arg f r c x Hc Hf4 En) as (_ & _ & Hv).
      apply IH; [set_solver|exact (forallb_elem _ _ x Hok ltac:(set_solver))|by intros E; rewrite E in Hv].
    + destruct (is_pow f) eqn:Ep; cbn [uplpgsql_classify_expr] in Hc; rewrite Ep in Hc; [|done].
      destruct (bool_decide (uplpgsql_classify_expr x = _)) eqn:Ex; [|done].
      destruct (bool_decide (uplpgsql_classify_expr y = _)) eqn:Ey; [|done].
      apply bool_decide_eq_true in Ex, Ey.
      assert (Hn : numeric_const f [x; y] = None) by by destruct f. rewrite Hn in Hok.
      apply IH; [done|exact (forallb_elem _ _ w Hok Hw)|].
      apply elem_of_cons in Hw as [->|Hw]; [by rewrite Ex|]. apply list_elem_of_singleton in Hw as ->. by rewrite Ey.
  - simpl in Hok. apply andb_true_iff in Hok as [_ Hok]. by apply IH.
  - simpl in Hok. apply andb_true_iff in Hok as [Hok Hu]. apply andb_true_iff in Hok as [Hr _].
    destruct u as [|idx [|y u]], l as [|z l], a; try done.
    cbn [uplpgsql_classify_expr] in Hc. destruct (is_param_extern _); [|done].
    destruct (bool_decide (uplpgsql_classify_expr idx = _)) eqn:Ei; [|done].
    apply bool_decide_eq_true in Ei. pose proof (forallb_elem _ _ idx Hu ltac:(set_solver)) as Hoki.
    destruct r as [| k i t'| | | | | | |]; try discriminate.
    assert (Hs : single_element (Param k i t') [idx] = Some (dno_of i, idx)) by done. rewrite Hs.
    eapply succeeds_bind; [apply succeeds_get_env|]. intros en.
    eapply succeeds_bind.
    { destruct (find_native_slots _ _); [apply succeeds_ret|].
      eapply succeeds_bind; [apply succeeds_param_isnull|]. intros v. apply succeeds_ret. }
    intros acc. eapply succeeds_bind.
    { apply succeeds_fold_null. intros x Hx. apply list_elem_of_singleton in Hx as ->.
      apply IH; [set_solver|done|by rewrite Ei]. }
    intros acc'. destruct (find_native_slots (native_arrays en) (dno_of i)) as [na|].
    + eapply succeeds_bind; [by apply (element_null_compiles ls _ _ _ Hr Hs Hoki Ei)|]. intros v.
      apply succeeds_or_flag.
    + eapply succeeds_bind; [by apply (element_null_compiles ls _ _ _ Hr Hs Hoki Ei (mk_native_slots (mk_native_array 0 0 0) 0 0 0 0 0 0))|].
      intros v. apply succeeds_or_flag.
Qed.

(** ** Tier 2 *)

(** A NOT has an argument. *)
Fixpoint nots_ok (e : Expr) : bool :=
  match e with
  | BoolExpr NOT_EXPR [] => false
  | BoolExpr _ args | OpExpr _ _ _ args | FuncExpr _ _ _ args => forallb nots_ok args
  | RelabelType a => nots_ok a
  | _ => true
  end.

Lemma succeeds_fmgr_call ls f c l : succeeds ls (emit_fmgr_call f c l) ls.
Proof. unfold emit_fmgr_call. run_emission. Qed.
Lemma succeeds_or_all ls l acc : succeeds ls (or_all acc l) ls.
Proof. revert acc. induction l; intros acc; simpl; run_emission. Qed.
#[local] Hint Resolve succeeds_fmgr_call succeeds_or_all : succ.
Lemma succeeds_strict_call ls f c l : succeeds ls (emit_strict_call f c l) ls.
Proof. unfold emit_strict_call. run_emission. Qed.
#[local] Hint Resolve succeeds_strict_call : succ.

Lemma succeeds_compile_call ls f c (g : Expr -> emit (option (operand * operand))) l :
  (forall x, x ∈ l -> succeeds ls (g x) ls) -> succeeds ls (compile_fmgr_call f c (compile_fmgr_args g l)) ls.
Proof.
  intros Hg. assert (Hm : succeeds ls (compile_fmgr_args g l) ls).
  { induction l as [|x l IH]; simpl; [apply succeeds_ret|].
    assert (succeeds ls (compile_fmgr_args g l) ls) by (apply IH; set_solver).
    pose proof (Hg x ltac:(set_solver)). run_emission. }
  unfold compile_fmgr_call. run_emission.
Qed.

Lemma succeeds_fold_3vl ls (g : Expr -> emit (option (operand * operand))) b l r n d :
  (forall x, x ∈ l -> succeeds ls (g x) ls) -> succeeds ls (fold_3vl g b r n d l) ls.
Proof.
  revert r n d. induction l as [|x l IH]; intros r n d Hg; simpl; [apply succeeds_ret|].
  pose proof (Hg x ltac:(set_solver)).
  assert (forall r n d, succeeds ls (fold_3vl g b r n d l) ls) by (intros; apply IH; set_solver).
  run_emission.
Qed.

Lemma fmgr_compiles e :
  uplpgsql_can_fmgr_compile ce_oid_of e = true -> nots_ok e = true ->
  forall ls, succeeds ls (uplpgsql_compile_expr_fmgr_full e) ls.
Proof.
  induction e as [t b v n|k i t|f r c l IH|f r c l IH|a IH|o l IH|t r u l a _ _ _|? _|] using expr_ind';
    intros Hok Hn ls; try done; cbn [uplpgsql_compile_expr_fmgr_full].
  - apply succeeds_ret.
  - run_emission.
  - simpl in Hok, Hn. apply andb_true_iff in Hok as [_ Hok]. apply succeeds_compile_call. intros x Hx.
    apply IH; [done|exact (forallb_elem _ _ x Hok Hx)|exact (forallb_elem _ _ x Hn Hx)].
  - simpl in Hok, Hn. apply andb_true_iff in Hok as [_ Hok].
    destruct (numeric_const f l) as [[v m]|]; [apply succeeds_ret|]. apply succeeds_compile_call. intros x Hx.
    apply IH; [done|exact (forallb_elem _ _ x Hok Hx)|exact (forallb_elem _ _ x Hn Hx)].
  - by apply IH.
  - simpl in Hok.
    assert (Hl : forallb nots_ok l = true) by by destruct o, l.
    assert (Hsub : forall x, x ∈ l -> forall ls, succeeds ls (uplpgsql_compile_expr_fmgr_full x) ls).
    { intros x Hx. apply IH; [done|exact (forallb_elem _ _ x Hok Hx)|exact (forallb_elem _ _ x Hl Hx)]. }
    assert (forall b r n d, succeeds ls (fold_3vl uplpgsql_compile_expr_fmgr_full b r n d l) ls).
    { intros. apply succeeds_fold_3vl. intros x Hx. by apply Hsub. }
    destruct o; [run_emission|run_emission|]. destruct l as [|x l]; [done|].
    pose proof (Hsub x ltac:(set_solver) ls). run_emission.
Qed.

(** ** The entry points *)

Lemma succeeds_scope_enter ls b : succeeds ls (scope_enter b) ls.
Proof. unfold scope_enter. run_emission. Qed.
Lemma succeeds_scope_exit ls o : succeeds ls (scope_exit o) ls.
Proof. unfold scope_exit. run_emission. Qed.
Lemma succeeds_wants_scope ls e : succeeds ls (wants_alloc_scope e) ls.
Proof. unfold wants_alloc_scope. run_emission. Qed.
#[local] Hint Resolve succeeds_scope_enter succeeds_scope_exit succeeds_wants_scope : succ.

(** Where [m] ends without an error, what it returns satisfies [P]. *)
Definition returns {A} (m : emit A) (P : A -> Prop) : Prop :=
  forall c a c', m c = Success (a, c') -> P a.

Lemma returns_bind {A B} (m : emit A) (k : A -> emit B) P :
  (forall a, returns (k a) P) -> returns (bind m k) P.
Proof.
  intros Hk c b c' E. Transparent bind. unfold bind in E. Opaque bind.
  destruct (m c) as [[a c1]|]; [|done]. by apply (Hk a c1 b c').
Qed.
Lemma returns_bind_with {A B} (m : emit A) (k : A -> emit B) Q P :
  returns m Q -> (forall a, Q a -> returns (k a) P) -> returns (bind m k) P.
Proof.
  intros Hm Hk c b c' E. Transparent bind. unfold bind in E. Opaque bind.
  destruct (m c) as [[a c1]|] eqn:Em; [|done]. by apply (Hk a (Hm _ _ _ Em) c1 b c').
Qed.
Lemma returns_ret {A} (a : A) (P : A -> Prop) : P a -> returns (ret a) P.
Proof. intros Ha c b c' [= <- <-]. exact Ha. Qed.
Lemma returns_error {A} msg (P : A -> Prop) : returns (elog_error msg) P.
Proof. by intros c a c'. Qed.

(** [*result_type] is the class the classification gave. *)
Lemma datum_class e :
  returns (uplpgsql_compile_expr_datum e) (fun p => p.2 = uplpgsql_classify_expr e).
Proof.
  induction e as [t b v n|k i t|f r c l IH|f r c l IH|a IH|o l IH|t r u l a _ IH _|? _|] using expr_ind';
    cbn [uplpgsql_compile_expr_datum];
    try exact IH;
    repeat first
      [ apply returns_error | (apply returns_ret; reflexivity)
      | (apply returns_bind; intros ?) | (match goal with |- returns (match ?x with _ => _ end) _ => destruct x end) ].
Qed.

Lemma succeeds_bind_returns {A B} ls (P : A -> Prop) (m : emit A) (k : A -> emit B) :
  succeeds ls m ls -> returns m P -> (forall a, P a -> succeeds ls (k a) ls) ->
  succeeds ls (bind m k) ls.
Proof.
  intros Hm HP Hk c Hc. destruct (Hm c Hc) as (a & c1 & E & Hc1).
  destruct (Hk a (HP _ _ _ E) c1 Hc1) as (b & c2 & E2 & Hc2). exists b, c2. split; [|done].
  Transparent bind. unfold bind. Opaque bind. by rewrite E.
Qed.

Lemma succeeds_to_datum ls v c : value_class c = true -> succeeds ls (native_to_datum v c) ls.
Proof. intros Hc. unfold native_to_datum. destruct c; try discriminate; run_emission. Qed.

Lemma tier1_store_compiles ls n e :
  compilable e = true -> value_class (uplpgsql_classify_expr e) = true -> succeeds ls (tier1_store n e) ls.
Proof.
  intros Hok Hv. unfold tier1_store, emit_store_var_datum.
  eapply succeeds_bind_returns; [by apply datum_compiles|apply datum_class|]. intros p Hp.
  eapply succeeds_bind; [apply succeeds_to_datum; by rewrite Hp|]. intros d. run_emission.
Qed.

Lemma tier1_assign_compiles ls n e :
  compilable e = true -> value_class (uplpgsql_classify_expr e) = true -> succeeds ls (tier1_assign n e) ls.
Proof.
  intros Hok Hv. unfold tier1_assign, emit_store_var_null.
  pose proof (fun ls => tier1_store_compiles ls n e Hok Hv).
  eapply succeeds_bind; [apply any_null_compiles; [done|by intros E; rewrite E in Hv]|].
  intros [fl|]; run_emission.
Qed.

Lemma tier1_bool_compiles ls e :
  compilable e = true -> uplpgsql_classify_expr e = EXPR_TYPE_BOOL -> succeeds ls (tier1_bool e) ls.
Proof.
  intros Hok Hb. unfold tier1_bool. pose proof (bool_compiles e Hok Hb).
  eapply succeeds_bind; [apply any_null_compiles; [done|by rewrite Hb]|].
  intros [fl|]; run_emission.
Qed.

Lemma tier2_assign_compiles ls n b e : nots_ok e = true -> succeeds ls (tier2_assign n b e) ls.
Proof.
  intros Hn. unfold tier2_assign, tier2_assign_byval, tier2_assign_byref, emit_store_var_datum_isnull.
  destruct (uplpgsql_can_fmgr_compile ce_oid_of e) eqn:Ef; [|run_emission].
  pose proof (fmgr_compiles e Ef Hn). destruct b; run_emission.
Qed.

Lemma tier2_bool_compiles ls e : nots_ok e = true -> succeeds ls (tier2_bool e) ls.
Proof.
  intros Hn. unfold tier2_bool. destruct (uplpgsql_can_fmgr_compile ce_oid_of e) eqn:Ef; [|run_emission].
  pose proof (fmgr_compiles e Ef Hn). run_emission.
Qed.

(** ** Assignments to arrays *)
Section arrays.
Context (ls : labels).

(** A classified value that is not a boolean, or one tier 2 compiles. *)
Definition value_compilable (v : Expr) : bool :=
  compilable v && nots_ok v && negb (class_is (uplpgsql_classify_expr v) EXPR_TYPE_BOOL).

(** What an assignment to an array evaluates can be compiled. *)
Definition array_assign_ok (e : Expr) : bool :=
  match e with
  | SubscriptingRef _ r [i] [] a =>
      array_is_var r && compilable i && match a with Some v => value_compilable v | None => true end
  | _ =>
      match array_fill_args e with
      | Some (v, n) =>
          forallb (fun x => compilable x && (value_class (uplpgsql_classify_expr x) || negb (is_param_extern x)))
            [v; n]
      | None => true
      end
  end.

Lemma known_class e :
  negb (class_is (uplpgsql_classify_expr e) EXPR_TYPE_UNKNOWN) = true ->
  negb (class_is (uplpgsql_classify_expr e) EXPR_TYPE_BOOL) = true ->
  value_class (uplpgsql_classify_expr e) = true.
Proof. by destruct (uplpgsql_classify_expr e). Qed.

Lemma value_class_unknown c : value_class c = true -> c <> EXPR_TYPE_UNKNOWN.
Proof. by destruct c. Qed.

Lemma type_info_known r id k t :
  r = Param k id t -> array_is_var r = true -> succeeds ls (resolve_array_type_info (dno_of id)) ls.
Proof.
  intros -> Hv. unfold resolve_array_type_info. simpl in Hv.
  destruct (ce_datums !! dno_of id) as [[]|]; try discriminate; run_emission.
Qed.

Lemma null_check_compiles i :
  compilable i = true -> value_class (uplpgsql_classify_expr i) = true ->
  succeeds ls (emit_set_subscript_null_check i) ls.
Proof.
  intros Hi Hc. unfold emit_set_subscript_null_check.
  eapply succeeds_bind; [apply any_null_compiles; [done|by apply value_class_unknown]|].
  intros [fl|]; run_emission.
Qed.

Lemma guarded_compiles e :
  compilable e = true -> value_class (uplpgsql_classify_expr e) = true ->
  succeeds ls (tier1_compile_value_guarded e (uplpgsql_classify_expr e)) ls
  /\ returns (tier1_compile_value_guarded e (uplpgsql_classify_expr e))
       (fun r => r.1.2 = uplpgsql_classify_expr e).
Proof.
  intros He Hc. pose proof (fun ls => datum_compiles e He Hc ls) as Hv.
  unfold tier1_compile_value_guarded. split.
  - eapply succeeds_bind; [apply any_null_compiles; [done|by apply value_class_unknown]|].
    intros [fl|]; run_emission.
  - apply returns_bind. intros [fl|].
    + do 6 (apply returns_bind; intros ?).
      eapply returns_bind_with; [apply datum_class|]. intros p Hp.
      repeat (apply returns_bind; intros ?). by apply returns_ret.
    + eapply returns_bind_with; [apply datum_class|]. intros p Hp. by apply returns_ret.
Qed.

Lemma set_element_compiles r id k t i d fl :
  r = Param k id t -> array_is_var r = true -> succeeds ls (emit_array_set_element (dno_of id) i d fl) ls.
Proof.
  intros Hr Hv. pose proof (type_info_known r id k t Hr Hv). unfold emit_array_set_element. run_emission.
Qed.

Lemma clear_null_compiles na i u v : succeeds ls (emit_clear_null na i u v) ls.
Proof. unfold emit_clear_null. run_emission. Qed.

Lemma native_store_compiles r id k t na i v c fl :
  r = Param k id t -> array_is_var r = true -> value_class c = true ->
  succeeds ls (emit_native_set na (dno_of id) i v c fl) ls.
Proof.
  intros Hr Hv Hc. pose proof (fun i d fl => set_element_compiles r id k t i d fl Hr Hv).
  pose proof (succeeds_to_datum ls v c Hc). pose proof clear_null_compiles.
  assert (Hrf : succeeds ls (emit_refresh_native_array na) ls) by (unfold emit_refresh_native_array; run_emission).
  unfold emit_native_set, emit_set_fast, emit_set_grow, emit_set_append, emit_set_slow, emit_in_range, emit_is_append, and_not. run_emission.
Qed.

Lemma standard_set_compiles r id k t i v :
  r = Param k id t -> array_is_var r = true ->
  compilable i = true -> value_class (uplpgsql_classify_expr i) = true -> value_compilable v = true ->
  succeeds ls (standard_set (dno_of id) i v) ls.
Proof.
  intros Hr Hv Hi Hc Hval. unfold standard_set.
  apply andb_true_iff in Hval as [[Hcv _]%andb_true_iff Hb].
  destruct (class_is (uplpgsql_classify_expr v) EXPR_TYPE_UNKNOWN) eqn:Eu; [run_emission|].
  assert (Hvc : value_class (uplpgsql_classify_expr v) = true) by (apply known_class; [by rewrite Eu|done]).
  destruct (guarded_compiles v Hcv Hvc) as [Hg Hr2].
  pose proof (fun i d fl => set_element_compiles r id k t i d fl Hr Hv).
  eapply succeeds_bind; [by apply null_check_compiles|]. intros _.
  eapply succeeds_bind; [by apply datum_compiles|]. intros idx.
  eapply succeeds_bind_returns; [exact Hg|exact Hr2|]. intros p Hp.
  eapply succeeds_bind; [apply succeeds_to_datum; by rewrite Hp|]. intros d. run_emission.
Qed.

Lemma native_set_compiles r id k t na i v :
  r = Param k id t -> array_is_var r = true ->
  compilable i = true -> value_class (uplpgsql_classify_expr i) = true -> value_compilable v = true ->
  succeeds ls (native_set na (dno_of id) i v) ls.
Proof.
  intros Hr Hv Hi Hc Hval. pose proof (standard_set_compiles r id k t i v Hr Hv Hi Hc Hval) as Hstd.
  apply andb_true_iff in Hval as [[Hcv Hn]%andb_true_iff Hb]. unfold native_set.
  destruct (negb (class_is (uplpgsql_classify_expr v) EXPR_TYPE_UNKNOWN)) eqn:Eu.
  - assert (Hvc : value_class (uplpgsql_classify_expr v) = true) by by apply known_class.
    destruct (guarded_compiles v Hcv Hvc) as [Hg Hr2].
    eapply succeeds_bind; [by apply null_check_compiles|]. intros _.
    eapply succeeds_bind; [by apply datum_compiles|]. intros idx.
    eapply succeeds_bind_returns; [exact Hg|exact Hr2|]. intros p Hp.
    eapply succeeds_bind; [eapply native_store_compiles; [done..|by rewrite Hp]|]. intros _. run_emission.
  - destruct (uplpgsql_can_fmgr_compile ce_oid_of v) eqn:Ef; [|done].
    destruct (class_is (elemtype_to_class _) EXPR_TYPE_UNKNOWN) eqn:Ee; [done|].
    assert (Hec : value_class (elemtype_to_class (na_elemtype (ns_array na))) = true).
    { apply bool_decide_eq_false in Ee. unfold elemtype_to_class, oid_to_type_class in *. by repeat case_match. }
    pose proof (fmgr_compiles v Ef Hn ls).
    eapply succeeds_bind; [by apply null_check_compiles|]. intros _.
    eapply succeeds_bind; [by apply datum_compiles|]. intros idx.
    eapply succeeds_bind; [apply succeeds_wants_scope|]. intros b.
    eapply succeeds_bind; [apply succeeds_scope_enter|]. intros old.
    eapply succeeds_bind; [done|]. intros [[d fl]|].
    + eapply succeeds_bind; [by apply datum_value_known|]. intros w.
      eapply succeeds_bind; [apply succeeds_scope_exit|]. intros _.
      eapply succeeds_bind; [by eapply native_store_compiles|]. intros _. run_emission.
    + eapply succeeds_bind; [apply succeeds_scope_exit|]. intros _. done.
Qed.

Lemma native_get_compiles na n i :
  compilable i = true -> value_class (uplpgsql_classify_expr i) = true -> succeeds ls (native_get na n i) ls.
Proof.
  intros Hi Hc. pose proof (any_null_compiles i Hi (value_class_unknown _ Hc) ls).
  pose proof (datum_compiles i Hi Hc ls).
  unfold native_get, emit_null_subscript, emit_store_var_null, emit_store_var_datum. run_emission.
Qed.

Lemma standard_get_compiles r id k t n i :
  r = Param k id t -> array_is_var r = true ->
  compilable i = true -> value_class (uplpgsql_classify_expr i) = true ->
  succeeds ls (standard_get (dno_of id) n i) ls.
Proof.
  intros Hr Hv Hi Hc. pose proof (any_null_compiles i Hi (value_class_unknown _ Hc) ls).
  pose proof (datum_compiles i Hi Hc ls). pose proof (type_info_known r id k t Hr Hv).
  unfold standard_get, emit_store_var_null, emit_array_get_element, emit_store_var_datum_isnull. run_emission.
Qed.

Lemma subscript_assign_compiles n e : array_assign_ok e = true -> succeeds ls (subscript_assign n e) ls.
Proof.
  intros Hok. unfold subscript_assign.
  destruct e as [| | | | | |t r u l a| |]; try apply succeeds_ret.
  destruct r as [|[] id ty| | | | | | |] eqn:Hr; try apply succeeds_ret.
  destruct u as [|i [|]]; try apply succeeds_ret. destruct l; try apply succeeds_ret.
  destruct (bool_decide _) eqn:Hc; [apply bool_decide_eq_true in Hc|apply succeeds_ret].
  assert (Hcv : value_class (uplpgsql_classify_expr i) = true) by by rewrite Hc.
  rewrite <- Hr in Hok. unfold array_assign_ok in Hok.
  apply andb_true_iff in Hok as [[Hv Hi]%andb_true_iff Ha].
  eapply succeeds_bind; [apply succeeds_get_env|]. intros e.
  destruct (find_native_slots _ _) as [na|], a as [x|].
  - by eapply native_set_compiles.
  - by apply native_get_compiles.
  - by eapply standard_set_compiles.
  - by eapply standard_get_compiles.
Qed.

Lemma fill_operand_compiles ok e :
  (forall c, ok c = true -> value_class c = true) ->
  compilable e && (value_class (uplpgsql_classify_expr e) || negb (is_param_extern e)) = true ->
  succeeds ls (fill_operand ok e) ls.
Proof.
  intros Hok [He Hc]%andb_true_iff. unfold fill_operand.
  destruct (ok (uplpgsql_classify_expr e) || is_param_extern e) eqn:E; [|apply succeeds_ret].
  assert (Hv : value_class (uplpgsql_classify_expr e) = true).
  { apply orb_true_iff in E as [E|E]; [by apply Hok|]. by rewrite E, orb_false_r in Hc. }
  pose proof (datum_compiles e He Hv ls). run_emission.
Qed.

Lemma native_init_compiles na e : array_assign_ok e = true -> succeeds ls (native_init na e) ls.
Proof.
  intros Hok. unfold native_init. destruct (array_fill_args e) as [[v n]|] eqn:Ea; [|apply succeeds_ret].
  assert (Hvn : forallb (fun x => compilable x && (value_class (uplpgsql_classify_expr x) || negb (is_param_extern x)))
            [v; n] = true).
  { unfold array_assign_ok in Hok. rewrite Ea in Hok. destruct e; try done. }
  apply andb_true_iff in Hvn as [Hv [Hn _]%andb_true_iff].
  eapply succeeds_bind; [apply fill_operand_compiles; [by intros []|done]|]. intros [[nv nc]|]; [|apply succeeds_ret].
  eapply succeeds_bind; [apply fill_operand_compiles; [done|done]|]. intros [[fv fc]|]; [|apply succeeds_ret].
  unfold emit_native_alloc, fill_cast, emit_fill_loop. run_emission.
Qed.

Lemma native_assign_compiles s e : array_assign_ok e = true -> succeeds ls (native_assign s e) ls.
Proof.
  intros Hok. pose proof (fun na => native_init_compiles na e Hok).
  pose proof (subscript_assign_compiles (assign_varno s) e Hok). unfold native_assign.
  eapply succeeds_bind; [apply succeeds_get_env|]. intros c.
  eapply (succeeds_bind ls ls); [|intros []; [apply succeeds_ret|done]].
  destruct (find_native_slots _ _); [|apply succeeds_ret].
  destruct (is_subscripting e); [apply succeeds_ret|done].
Qed.
End arrays.

(** The conditions and assignments that are compiled, or declined, without an error: as
    PostgreSQL's parser builds them, and without the constructs [compilable] rejects. *)
Definition compilable_tree (x : Expr) : bool :=
  (class_is (uplpgsql_classify_expr x) EXPR_TYPE_UNKNOWN || compilable x) && nots_ok x.
Definition compilable_cond (e : UPLpgSQL_expr) : bool :=
  match prepared e with Some x => compilable_tree x | None => true end.
Definition compilable_assign (s : UPLpgSQL_stmt_assign) : bool :=
  match prepared (assign_expr s) with Some x => compilable_tree x && array_assign_ok x | None => true end.

#[export] Instance expr_domain : ExprDomain :=
  {| domain_cond := compilable_cond; domain_assign := compilable_assign |}.

Lemma compilable_tree_known x :
  compilable_tree x = true ->
  (uplpgsql_classify_expr x <> EXPR_TYPE_UNKNOWN -> compilable x = true) /\ nots_ok x = true.
Proof.
  intros [[Hk%bool_decide_eq_true|Hc]%orb_true_iff Hn]%andb_true_iff; by split.
Qed.

(** The compiler of expressions raises no error on these, which is what the statement
    compiler asks of it (file CompileTotal). *)
#[export] Instance expr_compiler_total : @ExprCompilerTotal expr_compiler expr_domain.
Proof.
  split; [intros ls e Hd|intros ls s Hd]; simpl in *.
  - unfold uplpgsql_try_compile_bool, get_defer_cond_plan.
    apply succeeds_bind with ls; [by intros c Hc; eexists _, _|]. intros [|]; [run_emission|].
    unfold compilable_cond in Hd. destruct (prepared e) as [x|] eqn:Ep; [|run_emission].
    apply compilable_tree_known in Hd as [Hcomp Hnots]. case_bool_decide as Hb.
    + pose proof (tier1_bool_compiles ls x (Hcomp ltac:(by rewrite Hb)) Hb). run_emission.
    + pose proof (tier2_bool_compiles ls x Hnots). run_emission.
  - unfold uplpgsql_try_compile_assign.
    destruct (ce_datums !! _) as [[v| | | |]|] eqn:Ed; try (run_emission; done).
    unfold compilable_assign in Hd. destruct (prepared _) as [x|] eqn:Ep; [|run_emission].
    apply andb_true_iff in Hd as [[Hcomp Hnots]%compilable_tree_known Hna].
    pose proof (native_assign_compiles ls s x Hna).
    destruct (tier1_class x _) eqn:Ec.
    + unfold tier1_class in Ec. apply andb_true_iff in Ec as [Hk Ht].
      apply negb_true_iff, bool_decide_eq_false in Hk. apply bool_decide_eq_true in Ht.
      assert (Hv : value_class (uplpgsql_classify_expr x) = true).
      { rewrite Ht in *. unfold oid_to_type_class in *. by repeat (destruct (_ =? _)%Z; [done|]). }
      pose proof (tier1_assign_compiles ls (assign_varno s) x (Hcomp Hk) Hv). run_emission.
    + pose proof (tier2_assign_compiles ls (assign_varno s) (typbyval (var_datatype v)) x Hnots).
      run_emission.
Qed.
End expr.

(** ** The theorem *)

(** C36. An expression that the classification accepts is compiled: neither the test
    for NULL nor the value, of the class announced, nor the condition raises an error,
    unless the expression contains one of the three constructs [compilable] names. *)
Theorem classified_expression_compiles `{CompileEnv} ls e :
  compilable e = true -> uplpgsql_classify_expr e <> EXPR_TYPE_UNKNOWN ->
  succeeds ls (tier1_expr_any_null e) ls
  /\ if class_is (uplpgsql_classify_expr e) EXPR_TYPE_BOOL
     then succeeds ls (uplpgsql_compile_expr_bool e) ls
     else succeeds ls (uplpgsql_compile_expr_datum e) ls
          /\ returns (uplpgsql_compile_expr_datum e) (fun p => p.2 = uplpgsql_classify_expr e).
Proof.
  intros Hok Hc. split; [by apply any_null_compiles|].
  case_bool_decide as Hb; [by apply bool_compiles|]. split; [|apply datum_class].
  apply datum_compiles; [done|]. by destruct (uplpgsql_classify_expr e).
Qed.

Module ExprTotalExamples.
Import ExprDemo.

(** [(x + 1) * i < 10]. *)
Definition condition : Expr := op F_INT4LT (op F_INT4MUL (op F_INT4PL x (int4_const 1)) i) (int4_const 10).

Lemma classified_expression_compiles_witness :
  (compilable condition = true /\ uplpgsql_classify_expr condition = EXPR_TYPE_BOOL)
  /\ succeeds [] (uplpgsql_compile_expr_bool condition) [].
Proof.
  split; [by vm_compute|].
  exact (proj2 (classified_expression_compiles [] condition ltac:(vm_compute; reflexivity) ltac:(discriminate))).
Defined.

(** A function with a condition, a loop and assignments, compiled with the real
    expression compiler (file CompileTotal). *)
#[local] Existing Instance expr_compiler.

(** The constructs that are classified and not compiled: an element of a boolean
    array, and a cast from float4. *)
Definition bool_element : Expr := SubscriptingRef BOOLOID (Param PARAM_EXTERN 2 1000) [i] [] None.
Definition from_float4 : Expr := FuncExpr F_FLOAT8_FLOAT4 FLOAT8OID InvalidOid [Param PARAM_EXTERN 2 700].
Definition start : UPL_compile_ctx := mk_ctx empty_builder empty_cenv.

Example bool_element_fails :
  uplpgsql_classify_expr bool_element = EXPR_TYPE_BOOL
  /\ uplpgsql_compile_expr_bool bool_element start
     = Failure "uplpgsql: unhandled node type in bool compilation".
Proof. by vm_compute. Qed.

(** An assignment to an element of a boolean array, whatever the value. *)
Example bool_element_assignment_fails :
  array_assign_ok (SubscriptingRef 1000 (Param PARAM_EXTERN 2 1000) [i] [] (Some (Const BOOLOID true 1 false))) = false
  /\ standard_set 1 i (Const BOOLOID true 1 false) start
     = Failure "uplpgsql: unexpected const type in datum compilation".
Proof. by vm_compute. Qed.

Example from_float4_fails :
  uplpgsql_classify_expr from_float4 = EXPR_TYPE_FLOAT8
  /\ uplpgsql_compile_expr_datum from_float4 start
     = Failure "uplpgsql: unexpected param type in datum compilation".
Proof. by vm_compute. Qed.
End ExprTotalExamples.
