(* ===== verification/DeclTypes.v ===== *)
(** * Declared types are stable

    The generated FOR loop evaluates its bounds as [int4] without looking at the
    loop variable, whereas the interpreter casts them to the variable's declared
    type, and native expressions read and store variables without looking at their
    types at all.  This file shows that nothing a function does while it runs
    changes the declared type of a variable, with one exception: the temporary of a
    simple CASE, which [uplpgsql_rt_case_assign_test] retypes; and that a variable of
    a type passed by value never holds anything that has to be freed.

    The same goes for [sqlstate_varno], the SQL/PSM variable a block may
    activate: no PL/pgSQL block does. *)

From Stdlib Require Import ZArith Ascii.
From S2P Require Import Prelude Ast Exec Assign SqlStmts Call Closure.

(** What evaluation leaves alone in a simple variable: its type, its NOT NULL
    constraint, its promise and, for types passed by value, the duty to free. *)
Definition decl (d : UPLpgSQL_datum) : option (UPLpgSQL_type * bool * UPLpgSQL_promise_type * bool) :=
  match d with
  | DTYPE_VAR v => Some (var_datatype v, notnull (var_head v), promise v, typbyval (var_datatype v) && freeval v)
  | _ => None
  end.
Definition decls {world} (s : execstate world) : list _ := map decl (es_datums s).

Definition kept {world A} (m : exec (execstate world) A) : Prop :=
  forall s a s', m s = Ok a s' -> decls s' = decls s /\ sqlstate_varno s' = sqlstate_varno s.

(** Evaluation reads variables and fulfils promises; it does not retype them. *)
Class PgEnvTypes (world : Type) `{PgEnv world} : Prop := {
  eval_simple_kept e : kept (exec_eval_simple_expr e);
  execute_plan_kept e n : kept (SPI_execute_plan_with_paramlist e n);
  execute_nonatomic_kept e : kept (SPI_execute_plan_nonatomic e);
  execute_plan_store_kept e : kept (SPI_execute_plan_into_store e);
  execute_store_kept q ps : kept (SPI_execute_into_store q ps);
  cursor_open_kept name e : kept (SPI_cursor_open_with_paramlist name e)
}.

(** The variables whose declarations are watched: type, modifier, NOT NULL. *)
Record var_info := mk_info { vi_type : Oid; vi_typmod : Z; vi_notnull : bool }.
Abbreviation watch := (gmap nat var_info).

Record watched (i : var_info) (v : UPLpgSQL_var) : Prop := {
  wa_type : typoid (var_datatype v) = vi_type i;
  wa_typmod : atttypmod (var_datatype v) = vi_typmod i;
  wa_notnull : notnull (var_head v) = vi_notnull i;
  wa_byval : typbyval (var_datatype v) = true;
  wa_typlen : typlen (var_datatype v) <> (-1)%Z;
  wa_promise : promise v = PROMISE_NONE;
  wa_freeval : freeval v = false
}.

(** Whether a variable is what it is watched for. *)
Definition watched_var (i : var_info) (d : option UPLpgSQL_datum) : bool :=
  match d with
  | Some (DTYPE_VAR v) =>
      bool_decide (typoid (var_datatype v) = vi_type i) && bool_decide (atttypmod (var_datatype v) = vi_typmod i)
      && Bool.eqb (notnull (var_head v)) (vi_notnull i) && typbyval (var_datatype v)
      && negb (bool_decide (typlen (var_datatype v) = (-1)%Z)) && negb (freeval v)
      && match promise v with PROMISE_NONE => true | _ => false end
  | _ => false
  end.
Definition watch_ok (F : watch) (ds : list UPLpgSQL_datum) : bool :=
  forallb (fun p => watched_var p.2 (ds !! p.1)) (map_to_list F).

Lemma watched_var_sound i d : watched_var i d = true -> exists v, d = Some (DTYPE_VAR v) /\ watched i v.
Proof.
  unfold watched_var. destruct d as [[v| | | |]|]; try done. intros Hw. exists v. split; [done|].
  repeat match goal with Hx : _ && _ = true |- _ => apply andb_true_iff in Hx as [? ?] end.
  split; try (by eapply bool_decide_eq_true); try done.
  - by apply Bool.eqb_prop.
  - by eapply bool_decide_eq_false, negb_true_iff.
  - by destruct (promise v).
  - by apply negb_true_iff.
Qed.

Section keeps.
Context {world : Type} `{PgEnvTypes world}.
Context (F : watch).
Open Scope exec_scope.

(** The watched variables are what they were declared, and there is no SQLSTATE
    variable. *)
Record steady (s : execstate world) : Prop := {
  st_watched : forall n i, F !! n = Some i -> exists v, es_datums s !! n = Some (DTYPE_VAR v) /\ watched i v;
  st_sqlstate : sqlstate_varno s = None
}.

Lemma steady_initial s : watch_ok F (es_datums s) = true -> sqlstate_varno s = None -> steady s.
Proof.
  intros Hw Hv. split; [|done]. intros n i Hn%elem_of_map_to_list.
  pose proof (forallb_elem _ _ _ Hw Hn) as Hd. apply (watched_var_sound _ _ Hd).
Qed.

Definition keeps {A} (m : exec (execstate world) A) : Prop :=
  forall s a s', steady s -> m s = Ok a s' -> steady s'.

(** What is known of a watched variable that was read; nothing to be freed is stored in it. *)
Definition as_watched (n : nat) (d : UPLpgSQL_datum) : Prop :=
  forall i, F !! n = Some i -> exists v, d = DTYPE_VAR v /\ watched i v.
Definition unwatched (n : nat) : Prop := F !! n = None.

Lemma kept_keeps {A} (m : exec (execstate world) A) : kept m -> keeps m.
Proof.
  intros Hm s a s' [Hw Hv] Hs. destruct (Hm _ _ _ Hs) as [Hd Hv']. split; [|congruence].
  intros n i Hn. destruct (Hw n i Hn) as (v & Ev & Hv0).
  assert (Ed : decls s' !! n = decls s !! n) by by rewrite Hd.
  unfold decls in Ed. rewrite !list_lookup_fmap, Ev in Ed. destruct (es_datums s' !! n) as [d|]; [|done].
  simpl in Ed. destruct d as [v'| | | |]; try discriminate. exists v'. split; [done|].
  destruct Hv0. injection Ed as Et En Ep Ef. rewrite Et in Ef. split; try congruence.
  by rewrite wa_byval0, wa_freeval0 in Ef.
Qed.

Lemma keeps_ret {A} (a : A) : keeps (xret a).
Proof. by intros s a' s' Hs [= <- <-]. Qed.
Lemma keeps_get : keeps xget.
Proof. by intros s a' s' Hs [= <- <-]. Qed.
Lemma keeps_throw {A} e : keeps (A := A) (throw e).
Proof. by intros s a' s' _ Hs. Qed.
Lemma keeps_undefined {A} : keeps (A := A) undefined.
Proof. by intros s a s' _ Hs. Qed.
Lemma keeps_bind {A B} (m : exec (execstate world) A) (k : A -> exec (execstate world) B) :
  keeps m -> (forall a, keeps (k a)) -> keeps (xbind m k).
Proof.
  intros Hm Hk s b s' Hst Hs. unfold xbind in Hs. destruct (m s) as [a s1| | |] eqn:E; try discriminate.
  eapply Hk; [by eapply Hm|exact Hs].
Qed.

(** Changes of the other fields. *)
Lemma keeps_modify g :
  (forall s, es_datums (g s) = es_datums s /\ sqlstate_varno (g s) = sqlstate_varno s) -> keeps (xmodify g).
Proof.
  intros Hg s a s' [Hw Hv] [= <- <-]. destruct (Hg s) as [Ed Es]. split; [|congruence]. by rewrite Ed.
Qed.

(** Stores through a variable pointer and through a record pointer. *)
Lemma keeps_put_var t g : (forall i v, F !! t = Some i -> watched i v -> watched i (g v)) -> keeps (put_var t g).
Proof.
  intros Hg s a s' [Hw Hv] [= <- <-]. split; [|done]. intros n i Hn. destruct (Hw n i Hn) as (v & Ev & Hiv).
  cbn [with_datums es_datums]. destruct (decide (n = t)) as [->|Hne].
  - exists (g v). rewrite list_lookup_alter_eq, Ev. split; [done|]. by apply Hg.
  - exists v. by rewrite list_lookup_alter_ne.
Qed.
Lemma keeps_put_rec t g : keeps (put_rec t g).
Proof.
  intros s a s' [Hw Hv] [= <- <-]. split; [|done]. intros n i Hn. destruct (Hw n i Hn) as (v & Ev & Hiv).
  exists v. cbn [with_datums es_datums]. destruct (decide (n = t)) as [->|Hne].
  - by rewrite list_lookup_alter_eq, Ev.
  - by rewrite list_lookup_alter_ne.
Qed.

(** Functions of PostgreSQL change the world only. *)
Lemma keeps_pg {A} (op : pg world A) : keeps (pg_call op).
Proof.
  intros s a s' [Hw Hv]. unfold pg_call. destruct (op (es_world s)) as [b w|]; [|done].
  intros [= <- <-]. by split.
Qed.

Lemma keeps_open_store w : keeps (open_tuple_store w).
Proof.
  unfold open_tuple_store, exec_init_tuple_store, not_setof.
  repeat (first [apply keeps_bind; [|intros ?] | apply keeps_get | apply keeps_ret | apply keeps_throw
    | apply keeps_undefined | by apply keeps_modify
    | match goal with |- keeps (match ?x with _ => _ end) => destruct x end]).
Qed.

(** A datum that was read. *)
Lemma steady_read s n d : steady s -> es_datums s !! n = Some d -> as_watched n d.
Proof. intros [Hw _] Hd i Hn. destruct (Hw n i Hn) as (v & Ev & Hiv). exists v. split; [congruence|done]. Qed.

Lemma keeps_read {B} n (k : UPLpgSQL_datum -> exec (execstate world) B) :
  (forall d, as_watched n d -> keeps (k d)) -> keeps (xbind (get_datum n) k).
Proof.
  intros Hk s b s' Hst Hs. unfold get_datum, xbind, xget in Hs.
  destruct (es_datums s !! n) as [d|] eqn:E; [|done]. eapply Hk; [by eapply steady_read|exact Hst|exact Hs].
Qed.
Lemma keeps_read_var {B} n (k : UPLpgSQL_var -> exec (execstate world) B) :
  (forall v, possible_var as_watched n v -> keeps (k v)) -> keeps (xbind (get_var n) k).
Proof.
  intros Hk s b s' Hst Hs. unfold get_var, get_datum, xbind, xget in Hs.
  destruct (es_datums s !! n) as [d|] eqn:E; [|done].
  destruct d; try discriminate; (eapply Hk; [|exact Hst|exact Hs]); [left|right]; by eapply steady_read.
Qed.

(** A datum that is not what a watched variable is. *)
Lemma unwatched_other n d :
  as_watched n d -> (forall i v, d = DTYPE_VAR v -> watched i v -> False) -> unwatched n.
Proof.
  intros Hd Hv. unfold unwatched. destruct (F !! n) as [i|] eqn:E; [|done]. exfalso.
  destruct (Hd i E) as (v & -> & Hi). by eapply Hv.
Qed.

Lemma watched_store i v z b : watched i v -> watched i (store_value z b false v).
Proof. by intros []. Qed.

Lemma keeps_set_found b : keeps (exec_set_found b).
Proof.
  apply keeps_bind; [apply keeps_get|]. intros s0. apply keeps_read_var. intros _ _ s u s' Hst [= <- <-].
  by apply (keeps_put_var (found_varno s) (store_value (BoolGetDatum b) false false)
              (fun _ _ _ => watched_store _ _ _ _) s tt).
Qed.

#[export] Instance keeps_closed : Closed as_watched unwatched (@keeps).
Proof.
  split; intros;
    first [ apply keeps_ret | by apply keeps_bind | apply keeps_get | apply keeps_throw
          | apply keeps_undefined | apply keeps_pg | apply keeps_put_rec | by apply keeps_read | by apply keeps_read_var
          | apply keeps_set_found | apply keeps_open_store
          | apply kept_keeps; first [ apply eval_simple_kept | apply execute_plan_kept
              | apply execute_nonatomic_kept | apply execute_plan_store_kept
              | apply execute_store_kept | apply cursor_open_kept ]
          | by apply keeps_modify
          | match goal with Hd : as_watched ?n _ |- unwatched ?n =>
              apply (unwatched_other n _ Hd); by intros i v' [= <-] []; congruence end
          | apply keeps_put_var; intros i v' Hi Hw | idtac ].
  - intros s b s' Hst. match goal with Hk : forall s, _ -> keeps (k s) |- _ => apply (Hk s); [|done] end.
    intros n Hn. by rewrite (st_sqlstate s Hst) in Hn.
  - match goal with Ho : f = true -> unwatched n |- _ =>
      destruct f; [specialize (Ho eq_refl); unfold unwatched in Ho; congruence|by apply watched_store] end.
  - by destruct Hw.
Qed.

Lemma keeps_assign_simple_var n v b : keeps (assign_simple_var n v b false).
Proof. by apply (cl_assign_simple_var (@keeps)). Qed.
Lemma keeps_assign_expr n e : keeps (exec_assign_expr n e).
Proof. apply (cl_assign_expr (@keeps)). Qed.
Lemma keeps_init_var n : keeps (init_var n).
Proof. apply (cl_init_var (@keeps)). Qed.
Lemma keeps_eval_cond e : keeps (eval_cond e).
Proof. apply (cl_eval_cond (@keeps)). Qed.
Lemma keeps_eval_integer e : keeps (exec_eval_integer e).
Proof. apply (cl_eval_integer (@keeps)). Qed.
Lemma keeps_return s : keeps (exec_stmt_return s).
Proof. apply (cl_return (@keeps)). Qed.

(** OPEN stores the name of the portal in the cursor variable. *)
Definition opens_unwatched (s : UPLpgSQL_stmt) : bool :=
  match s with STMT_OPEN _ o => bool_decide (F !! open_curvar o = None) | _ => true end.
Lemma keeps_simple_stmt s : opens_unwatched s = true -> keeps (exec_simple_stmt s).
Proof. intros Ho. apply (cl_simple_stmt (@keeps)). intros h o ->. by apply bool_decide_eq_true in Ho. Qed.

(** Only the CASE temporary is retyped. *)
Lemma keeps_case_assign_test t e : F !! t = None -> keeps (case_assign_test t e).
Proof. intros Ht. apply (cl_case_assign_test (@keeps)). intros ty. apply keeps_put_var. congruence. Qed.

(** What happens when a function is entered. *)
Lemma keeps_store_arguments `{!CallEnv world} vs args : keeps (store_arguments vs args).
Proof. apply (cl_store_arguments (@keeps)). Qed.
Lemma keeps_set_rows `{!CallEnv world} func t : keeps (set_rows func t).
Proof.
  unfold set_rows. repeat first [apply (cl_get_rec (@keeps)) | apply (cl_fill_rows (@keeps))
    | apply keeps_pg | apply keeps_put_rec | apply keeps_bind; [|intros ?]].
Qed.

Lemma steady_copied func s s' :
  watch_ok F (datums func) = true -> sqlstate_varno s = None -> copy_uplpgsql_datums func s = Ok tt s' -> steady s'.
Proof. intros Hw Hv [= <-]. by apply steady_initial. Qed.

Lemma enter_function_steady `{!CallEnv world} func fcinfo s u s' :
  watch_ok F (datums func) = true -> sqlstate_varno s = None ->
  enter_function func fcinfo s = Ok u s' -> steady s'.
Proof.
  intros Hw Hv. unfold enter_function, xbind at 1. destruct (copy_uplpgsql_datums func s) as [[] s1| | |] eqn:E; try done.
  apply (keeps_bind _ _ (keeps_store_arguments _ _) (fun _ => keeps_set_found false)). by eapply steady_copied.
Qed.

Lemma enter_trigger_steady `{!CallEnv world} func t s u s' :
  watch_ok F (datums func) = true -> sqlstate_varno s = None ->
  enter_trigger func t s = Ok u s' -> steady s'.
Proof.
  intros Hw Hv. unfold enter_trigger, xbind at 1. destruct (copy_uplpgsql_datums func s) as [[] s1| | |] eqn:E; try done.
  apply (keeps_bind _ _ (keeps_set_rows func t) (fun _ => keeps_bind _ _ (keeps_pg _) (fun _ => keeps_set_found false))).
  by eapply steady_copied.
Qed.

Lemma watched_var_type s n i v :
  steady s -> F !! n = Some i -> get_var n s = Ok v s -> watched i v.
Proof.
  intros [Hw _] Hn Hv. destruct (Hw n i Hn) as (v' & Ev & Hi).
  unfold get_var, get_datum, xbind, xget in Hv. rewrite Ev in Hv. by injection Hv as <-.
Qed.
End keeps.
