(* ===== verification/SqlEval.v ===== *)
(** * What expressions mean

    The specification of the operators the compiler turns into native instructions:
    integer operators give the exact result or raise an error when it does not fit
    its type, float8 operators check for overflow and underflow, comparisons of
    float8 order NaN above every number, everything is strict.  [sql_eval] evaluates
    a tree as PostgreSQL does, arguments from left to right.  It says nothing of the
    instructions that compute the results, which file ExprSim shows to agree.

    [native] decides the trees it speaks of: of those tier 1 accepts, all but array
    elements, mathematical functions, abs of float8 and casts from float4. *)

From Stdlib Require Import ZArith Lia SpecFloat.
From S2P Require Import Prelude Ast Escape Expr Float IR CoreEmit StmtEmit ExprEmit Exec Assign Machine Demo ExprDemo.
#[local] Open Scope Z_scope.

(** ** Operators *)

(** [RStuck] is an operator applied to values it does not have. *)
Inductive sql_result := RVal (v : value) | RNull | RError (fn : err_fn) | RStuck.

Definition in_width (w : int_width) (z : Z) : bool :=
  match w with
  | I32 => (PG_INT32_MIN <=? z) && (z <=? PG_INT32_MAX)
  | I64 => (PG_INT64_MIN <=? z) && (z <=? PG_INT64_MAX)
  end.

(** An exact result, if it fits. *)
Definition int_result (w : int_width) (z : Z) : sql_result :=
  if in_width w z then RVal (VInt z) else RError ERR_rt_int_overflow.

Definition int_divide (is_div : bool) (w : int_width) (x y : Z) : sql_result :=
  if y =? 0 then RError ERR_rt_div_zero
  else if is_div then int_result w (Z.quot x y) else RVal (VInt (Z.rem x y)).

Definition float_addsub (is_add : bool) (a b : double) : sql_result :=
  let r := if is_add then fadd a b else fsub a b in
  if is_inf r && negb (is_inf a) && negb (is_inf b) then RError ERR_float_overflow_error
  else RVal (VDouble r).
Definition float_mul (a b : double) : sql_result :=
  let r := fmul a b in
  if is_inf r && negb (is_inf a) && negb (is_inf b) then RError ERR_float_overflow_error
  else if is_zero r && negb (is_zero a) && negb (is_zero b) then RError ERR_float_underflow_error
  else RVal (VDouble r).
Definition float_div (a b : double) : sql_result :=
  let r := fdiv a b in
  if is_zero b && negb (is_nan a) then RError ERR_float_zero_divide_error
  else if is_inf r && negb (is_inf a) then RError ERR_float_overflow_error
  else if is_zero r && negb (is_zero a) && negb (is_inf b) then RError ERR_float_underflow_error
  else RVal (VDouble r).

(** The order of float8: NaN equals NaN and is greater than everything else. *)
Definition float8_cmp (a b : double) : comparison :=
  match is_nan a, is_nan b with
  | true, true => Eq
  | true, false => Gt
  | false, true => Lt
  | false, false => default Eq (SFcompare a b)
  end.

Definition holds_for (p : icmp_pred) (c : comparison) : bool :=
  match p, c with
  | EQ, Eq | NE, Lt | NE, Gt | SLT, Lt | SLE, Lt | SLE, Eq | SGT, Gt | SGE, Gt | SGE, Eq => true
  | _, _ => false
  end.

(** What each operator is. *)
Inductive operator :=
  | Arith (op : arith_op) (w : int_width)
  | Divide (is_div : bool) (w : int_width)
  | Compare (p : icmp_pred)
  | FloatAddSub (is_add : bool)
  | FloatMul
  | FloatDiv
  | FloatCompare (p : icmp_pred).

Definition operator_of (f : func_oid) : option operator :=
  match f with
  | F_INT4PL => Some (Arith ADD I32) | F_INT4MI => Some (Arith SUB I32) | F_INT4MUL => Some (Arith MUL I32)
  | F_INT8PL | F_INT84PL | F_INT48PL => Some (Arith ADD I64)
  | F_INT8MI | F_INT84MI | F_INT48MI => Some (Arith SUB I64)
  | F_INT8MUL | F_INT84MUL | F_INT48MUL => Some (Arith MUL I64)
  | F_INT4DIV => Some (Divide true I32) | F_INT4MOD => Some (Divide false I32)
  | F_INT8DIV | F_INT84DIV | F_INT48DIV => Some (Divide true I64) | F_INT8MOD => Some (Divide false I64)
  | F_INT4EQ | F_INT8EQ | F_BOOLEQ | F_INT84EQ | F_INT48EQ => Some (Compare EQ)
  | F_INT4NE | F_INT8NE | F_BOOLNE | F_INT84NE | F_INT48NE => Some (Compare NE)
  | F_INT4LT | F_INT8LT | F_INT84LT | F_INT48LT => Some (Compare SLT)
  | F_INT4LE | F_INT8LE | F_INT84LE | F_INT48LE => Some (Compare SLE)
  | F_INT4GT | F_INT8GT | F_INT84GT | F_INT48GT => Some (Compare SGT)
  | F_INT4GE | F_INT8GE | F_INT84GE | F_INT48GE => Some (Compare SGE)
  | F_FLOAT8PL => Some (FloatAddSub true) | F_FLOAT8MI => Some (FloatAddSub false)
  | F_FLOAT8MUL => Some FloatMul | F_FLOAT8DIV => Some FloatDiv
  | F_FLOAT8EQ => Some (FloatCompare EQ) | F_FLOAT8NE => Some (FloatCompare NE)
  | F_FLOAT8LT => Some (FloatCompare SLT) | F_FLOAT8LE => Some (FloatCompare SLE)
  | F_FLOAT8GT => Some (FloatCompare SGT) | F_FLOAT8GE => Some (FloatCompare SGE)
  | _ => None
  end.

Definition bool_value (b : bool) : value := VInt (z_of_bool b).

Definition sql_binop (f : func_oid) (a b : value) : sql_result :=
  match operator_of f, a, b with
  | Some (Arith op w), VInt x, VInt y => int_result w (arith op x y)
  | Some (Divide is_div w), VInt x, VInt y => int_divide is_div w x y
  | Some (Compare p), VInt x, VInt y => RVal (bool_value (holds_for p (x ?= y)))
  | Some (FloatAddSub is_add), VDouble x, VDouble y => float_addsub is_add x y
  | Some FloatMul, VDouble x, VDouble y => float_mul x y
  | Some FloatDiv, VDouble x, VDouble y => float_div x y
  | Some (FloatCompare p), VDouble x, VDouble y => RVal (bool_value (holds_for p (float8_cmp x y)))
  | _, _, _ => RStuck
  end.

Definition sql_unop (f : func_oid) (a : value) : sql_result :=
  match f, a with
  | F_INT4UM, VInt x => int_result I32 (- x)
  | F_INT8UM, VInt x => int_result I64 (- x)
  | F_FLOAT8UM, VDouble x => RVal (VDouble (SFopp x))
  | _, _ => RStuck
  end.

Definition sql_func1 (f : func_oid) (a : value) : sql_result :=
  match f, a with
  | F_INT4ABS, VInt x => int_result I32 (Z.abs x)
  | F_INT8ABS, VInt x => int_result I64 (Z.abs x)
  | (F_FLOAT8_INT4 | F_FLOAT8_INT2 | F_FLOAT8_INT8), VInt x => RVal (VDouble (double_of_int x))
  | _, _ => RStuck
  end.

(** Strict application. *)
Definition strict1 (a : sql_result) (k : value -> sql_result) : sql_result :=
  match a with RVal v => k v | r => r end.
Definition strict2 (a b : sql_result) (k : value -> value -> sql_result) : sql_result :=
  match a with
  | RError fn => RError fn
  | RStuck => RStuck
  | RNull => match b with RVal _ => RNull | r => r end
  | RVal v => strict1 b (k v)
  end.

(** ** Values of variables and constants *)

Definition datum_in_class (c : ExprTypeClass) (z : Datum) : bool :=
  match c with
  | EXPR_TYPE_INT4 => in_width I32 z
  | EXPR_TYPE_INT8 | EXPR_TYPE_FLOAT8 => in_width I64 z
  | EXPR_TYPE_BOOL => (z =? 0) || (z =? 1)
  | EXPR_TYPE_UNKNOWN => false
  end.
(** The value of a datum, as the [DatumGet] macros read it: a datum is a 64-bit word. *)
Definition value_of_datum (c : ExprTypeClass) (z : Datum) : value :=
  match c with
  | EXPR_TYPE_INT4 => VInt (wrap32 z)
  | EXPR_TYPE_FLOAT8 => VDouble (double_of_bits (wrap64 z))
  | EXPR_TYPE_BOOL => VInt (z_of_bool (DatumGetBool z))
  | _ => VInt (wrap64 z)
  end.
Definition datum_of_value (v : value) : Datum :=
  match v with VInt z => z | VDouble d => bits_of_double d | _ => 0 end.

Definition variable (ds : list UPLpgSQL_datum) (n : nat) : option UPLpgSQL_var :=
  match ds !! n with Some (DTYPE_VAR v) => Some v | _ => None end.

Section eval.
Context `{CompileEnv}.
Context (ds : list UPLpgSQL_datum).

Fixpoint sql_eval (e : Expr) : sql_result :=
  match e with
  | Const t _ v isnull => if isnull then RNull else RVal (value_of_datum (type_class t) v)
  | Param _ id t =>
      match variable ds (dno_of id) with
      | Some v => if isnull v then RNull else RVal (value_of_datum (type_class t) (Ast.value v))
      | None => RStuck
      end
  | OpExpr f _ _ [x; y] => strict2 (sql_eval x) (sql_eval y) (sql_binop f)
  | OpExpr f _ _ [x] => strict1 (sql_eval x) (sql_unop f)
  | FuncExpr f _ _ args =>
      match numeric_const f args with
      | Some (v, isnull) => if isnull then RNull else RVal (VDouble (double_of_bits (ce_numeric_float8 v)))
      | None => match args with [x] => strict1 (sql_eval x) (sql_func1 f) | _ => RStuck end
      end
  | RelabelType a => sql_eval a
  | _ => RStuck
  end.

(** The variables of a tree, with their types. *)
Fixpoint params (e : Expr) : list (nat * Oid) :=
  match e with
  | Param _ id t => [(dno_of id, t)]
  | OpExpr _ _ _ args | FuncExpr _ _ _ args => concat (map params args)
  | RelabelType a => params a
  | _ => []
  end.

Definition is_null (p : nat * Oid) : bool :=
  match variable ds p.1 with Some v => isnull v | None => false end.
(** Some variable of the tree is NULL. *)
Definition has_null (e : Expr) : bool := existsb is_null (params e).

(** A variable for the compiler and at run time.  A boolean one holds a boolean: the
    compiler looks at its lowest bit, PostgreSQL at all. *)
Definition param_ok (p : nat * Oid) : Prop :=
  is_Some (variable ce_datums p.1)
  /\ exists v, variable ds p.1 = Some v
               /\ (type_class p.2 = EXPR_TYPE_BOOL -> Ast.value v = 0 \/ Ast.value v = 1).
Definition params_ok (e : Expr) : Prop := Forall param_ok (params e).
End eval.

(** ** The trees the evaluation covers *)

Definition is_abs_or_cast (f : func_oid) : bool :=
  match f with F_INT4ABS | F_INT8ABS | F_FLOAT8_INT4 | F_FLOAT8_INT2 | F_FLOAT8_INT8 => true | _ => false end.

Fixpoint native (e : Expr) : bool :=
  match e with
  | Const t _ v isnull => negb isnull && datum_in_class (type_class t) v
  | Param PARAM_EXTERN _ _ => true
  | OpExpr f _ _ args => Nat.eqb (length args) (if is_unary f then 1 else 2) && forallb native args
  | FuncExpr f _ _ args =>
      match numeric_const f args, args with
      | Some (_, isnull), [_] => negb isnull
      | None, [x] => is_abs_or_cast f && native x
      | _, _ => false
      end
  | RelabelType a => value_class (uplpgsql_classify_expr a) && native a
  | _ => false
  end.

(** ** Types *)

Definition class_value (c : ExprTypeClass) (v : value) : Prop :=
  match c, v with
  | EXPR_TYPE_INT4, VInt z => in_width I32 z = true
  | EXPR_TYPE_INT8, VInt z => in_width I64 z = true
  | EXPR_TYPE_FLOAT8, VDouble _ => True
  | EXPR_TYPE_BOOL, VInt z => exists b, z = z_of_bool b
  | _, _ => False
  end.

Definition result_ok (c : ExprTypeClass) (r : sql_result) : Prop :=
  match r with RVal v => class_value c v | RStuck => False | RNull | RError _ => True end.

(** The classes of the operands of a classified operator. *)
Lemma op2_class f r c x y :
  uplpgsql_classify_expr (OpExpr f r c [x; y]) <> EXPR_TYPE_UNKNOWN ->
  match op_group_of f with
  | AllArgs a res =>
      uplpgsql_classify_expr x = a /\ uplpgsql_classify_expr y = a
      /\ uplpgsql_classify_expr (OpExpr f r c [x; y]) = res
  | TwoArgs l rr res =>
      uplpgsql_classify_expr x = l /\ uplpgsql_classify_expr y = rr
      /\ uplpgsql_classify_expr (OpExpr f r c [x; y]) = res
  | NoOp => False
  end.
Proof.
  cbn [uplpgsql_classify_expr forallb]. destruct (op_group_of f) as [a res|l rr res|]; [..|done].
  all: repeat case_bool_decide; simpl; done.
Qed.
Lemma op1_class f r c x :
  uplpgsql_classify_expr (OpExpr f r c [x]) <> EXPR_TYPE_UNKNOWN ->
  match op_group_of f with
  | AllArgs a res =>
      uplpgsql_classify_expr x = a /\ uplpgsql_classify_expr (OpExpr f r c [x]) = res
  | _ => False
  end.
Proof.
  cbn [uplpgsql_classify_expr forallb]. destruct (op_group_of f) as [a res|l rr res|]; [|done..].
  case_bool_decide; simpl; done.
Qed.

Lemma in_width_iff w z : in_width w z = true <-> match w with I32 => in_int32 z | I64 => in_int64 z end.
Proof. destruct w; simpl; rewrite andb_true_iff, !Z.leb_le; done. Qed.

Lemma value_of_datum_class c z : c <> EXPR_TYPE_UNKNOWN -> class_value c (value_of_datum c z).
Proof.
  intros Hc. destruct c; simpl; try done; [apply (in_width_iff I32), wrap32_range|
    apply (in_width_iff I64), wrap64_range|by eexists].
Qed.

Lemma int_result_class w z :
  result_ok (match w with I32 => EXPR_TYPE_INT4 | I64 => EXPR_TYPE_INT8 end) (int_result w z).
Proof. unfold int_result. destruct (in_width w z) eqn:Hw; [|done]. by destruct w. Qed.

Lemma rem_between x y : y <> 0 -> (0 <= x -> 0 <= Z.rem x y <= x) /\ (x <= 0 -> x <= Z.rem x y <= 0).
Proof.
  intros Hy. pose proof (Z.quot_rem' x y). pose proof (Z.quot_rem' (- x) y).
  pose proof (Z.rem_opp_l x y Hy). pose proof (Z.rem_nonneg x y Hy). pose proof (Z.rem_nonpos x y Hy).
  assert (Hle : forall x, 0 <= x -> Z.rem x y <= x).
  { intros z Hz. rewrite <- (Z.rem_abs_r z y Hy). apply Z.rem_le; lia. }
  pose proof (Hle x). pose proof (Hle (- x)). lia.
Qed.

Lemma rem_in_width w x y : y <> 0 -> in_width w x = true -> in_width w (Z.rem x y) = true.
Proof.
  intros Hy. rewrite !in_width_iff. destruct (rem_between x y Hy) as [Hp Hn].
  destruct w; unfold in_int32, in_int64, PG_INT32_MIN, PG_INT32_MAX, PG_INT64_MIN, PG_INT64_MAX; lia.
Qed.

Lemma bool_value_class b : class_value EXPR_TYPE_BOOL (bool_value b).
Proof. by exists b. Qed.

Lemma float_class x y :
  (forall is_add, result_ok EXPR_TYPE_FLOAT8 (float_addsub is_add x y))
  /\ result_ok EXPR_TYPE_FLOAT8 (float_mul x y) /\ result_ok EXPR_TYPE_FLOAT8 (float_div x y).
Proof.
  unfold float_addsub, float_mul, float_div.
  split_and!; intros; repeat (destruct (_ && _); [done|]); done.
Qed.

Lemma divide_class w is_div x y :
  in_width w x = true ->
  result_ok (match w with I32 => EXPR_TYPE_INT4 | I64 => EXPR_TYPE_INT8 end) (int_divide is_div w x y).
Proof.
  intros Hx. unfold int_divide. destruct (Z.eqb_spec y 0); [done|]. destruct is_div; [apply int_result_class|].
  simpl. apply (rem_in_width w x y) in Hx; [|done]. by destruct w.
Qed.

Lemma widen_in_width z : in_width I32 z = true -> in_width I64 z = true.
Proof.
  rewrite !in_width_iff. unfold in_int32, in_int64, PG_INT32_MIN, PG_INT32_MAX, PG_INT64_MIN, PG_INT64_MAX. lia.
Qed.
#[local] Hint Resolve widen_in_width : core.

(** Operators keep their types. *)
Lemma binop_class f a b :
  is_unary f = false ->
  match op_group_of f with
  | AllArgs l res => class_value l a -> class_value l b -> result_ok res (sql_binop f a b)
  | TwoArgs l r res => class_value l a -> class_value r b -> result_ok res (sql_binop f a b)
  | NoOp => True
  end.
Proof.
  intros Hu. destruct f; try discriminate; simpl; try done; intros Ha Hb;
    destruct a, b; try done; unfold sql_binop; simpl operator_of; cbv iota beta;
    first
      [ apply bool_value_class | apply (int_result_class I32) | apply (int_result_class I64)
      | apply float_class | apply (divide_class I32); by auto | apply (divide_class I64); by auto ].
Qed.

Lemma unop_class f a :
  match op_group_of f with
  | AllArgs l res => is_unary f = true -> class_value l a -> result_ok res (sql_unop f a)
  | _ => True
  end.
Proof.
  destruct f; try done; intros Hu Ha; try discriminate; destruct a; try done;
    apply (int_result_class I32) || apply (int_result_class I64).
Qed.

Lemma func1_class f x a :
  is_abs_or_cast f = true -> class_value (uplpgsql_classify_expr x) a ->
  classify_func1 f x (uplpgsql_classify_expr x) <> EXPR_TYPE_UNKNOWN ->
  result_ok (classify_func1 f x (uplpgsql_classify_expr x)) (sql_func1 f a).
Proof.
  intros Hf Ha Hc. destruct f; try discriminate; simpl in *; case_bool_decide as Hb; try done;
    rewrite Hb in Ha; destruct a; try done;
    apply (int_result_class I32) || apply (int_result_class I64).
Qed.

Lemma strict2_class c a b k :
  (forall v w, a = RVal v -> b = RVal w -> result_ok c (k v w)) -> a <> RStuck -> b <> RStuck ->
  result_ok c (strict2 a b k).
Proof. intros Hk Ha Hb. destruct a, b; simpl; try done. by apply Hk. Qed.

Lemma result_ok_stuck c r : result_ok c r -> r <> RStuck.
Proof. by intros Hr ->. Qed.
#[local] Hint Resolve result_ok_stuck : core.

Lemma func1_eval `{CompileEnv} ds f r c x :
  f <> F_FLOAT8_NUMERIC -> sql_eval ds (FuncExpr f r c [x]) = strict1 (sql_eval ds x) (sql_func1 f).
Proof. by destruct f. Qed.

Lemma params_arg `{CompileEnv} ds args x :
  Forall (param_ok ds) (concat (map params args)) -> x ∈ args -> params_ok ds x.
Proof.
  rewrite !list.Forall_forall. intros Hp Hx. apply list.Forall_forall. intros y Hy. apply Hp.
  apply elem_of_concat. exists (params x). split; [|done]. apply elem_of_map. by exists x.
Qed.

Lemma native_arg f r c args x :
  native (OpExpr f r c args) = true -> x ∈ args -> native x = true.
Proof. simpl. intros [_ Hn]%andb_true_iff Hx. by apply (forallb_elem _ _ _ Hn). Qed.

(** The trees of a cast or abs. *)
Lemma native_func f r c args :
  native (FuncExpr f r c args) = true ->
  (exists t b v, f = F_FLOAT8_NUMERIC /\ args = [Const t b v false])
  \/ exists x, args = [x] /\ is_abs_or_cast f = true /\ native x = true /\ f <> F_FLOAT8_NUMERIC.
Proof.
  simpl. destruct (numeric_const f args) as [[v n]|] eqn:En.
  - destruct args as [|x [|y l]]; try done. intros Hn%negb_true_iff. subst n. left.
    destruct f; try discriminate. destruct x; try discriminate. injection En as -> ->. by eexists _, _, _.
  - destruct args as [|x [|y l]]; try done. intros [Hf Hx]%andb_true_iff. right. exists x.
    split_and!; try done. by destruct f.
Qed.

Lemma op2_eval `{CompileEnv} ds f r c x y :
  sql_eval ds (OpExpr f r c [x; y]) = strict2 (sql_eval ds x) (sql_eval ds y) (sql_binop f).
Proof. reflexivity. Qed.
Lemma op1_eval `{CompileEnv} ds f r c x :
  sql_eval ds (OpExpr f r c [x]) = strict1 (sql_eval ds x) (sql_unop f).
Proof. reflexivity. Qed.

(** C35: Evaluation agrees with the classification, on the trees [native] covers:
    operators, integer [abs], casts and relabelings over variables and constants other
    than NULL (left out are array elements, the mathematical functions, [abs] of a float
    and NULL constants, which the classifier accepts too).  Such a tree over variables of
    the types it names evaluates to a value of the class [uplpgsql_classify_expr] gives it, in
    the range of its type, or to NULL, or raises an error; it never applies an operator
    to a value of another type. *)
Theorem classification_sound `{CompileEnv} ds e :
  native e = true -> params_ok ds e -> uplpgsql_classify_expr e <> EXPR_TYPE_UNKNOWN ->
  result_ok (uplpgsql_classify_expr e) (sql_eval ds e).
Proof.
  induction e as [t b v n|k i t|f r c l IH|f r c l IH|a IH|o l IH|t r u l a _ IH _|? _|] using expr_ind';
    intros Hn Hp Hc; try discriminate.
  - simpl in *. apply andb_true_iff in Hn as [Hn Hv]. destruct n; [done|]. by apply value_of_datum_class.
  - destruct k; [|done]. apply list.Forall_singleton in Hp as (_ & v & Hv & Hd). simpl in *. rewrite Hv.
    destruct (isnull v); [done|]. by apply value_of_datum_class.
  - assert (Hsub : forall x, x ∈ l -> uplpgsql_classify_expr x <> EXPR_TYPE_UNKNOWN ->
                   result_ok (uplpgsql_classify_expr x) (sql_eval ds x)).
    { intros x Hx Hcx. apply IH; [done|by eapply native_arg|by eapply params_arg|done]. }
    simpl in Hn. apply andb_true_iff in Hn as [Hlen _]. apply Nat.eqb_eq in Hlen.
    destruct (is_unary f) eqn:Hu.
    + destruct l as [|x [|y l]]; try done. pose proof (op1_class f r c x Hc) as Hx.
      pose proof (fun a => unop_class f a) as Hun. destruct (op_group_of f) as [a res| |] eqn:Eg; try done.
      destruct Hx as [Hx ->]. specialize (Hsub x ltac:(set_solver)). rewrite Hx in Hsub. rewrite op1_eval.
      specialize (Hsub ltac:(intros ->; by destruct f)). destruct (sql_eval ds x); try done. by apply Hun.
    + destruct l as [|x [|y [|z l]]]; try done. pose proof (op2_class f r c x y Hc) as Hx.
      pose proof (fun a b => binop_class f a b Hu) as Hbin.
      pose proof (Hsub x ltac:(set_solver)) as Hsx. pose proof (Hsub y ltac:(set_solver)) as Hsy.
      destruct (op_group_of f) as [a res|a b res|] eqn:Eg; try done; destruct Hx as (Hx & Hy & ->);
        rewrite Hx in Hsx; rewrite Hy in Hsy;
        specialize (Hsx ltac:(intros ->; by destruct f)); specialize (Hsy ltac:(intros ->; by destruct f));
        (rewrite op2_eval; apply strict2_class; [intros v w Ev Ew; rewrite Ev in Hsx; rewrite Ew in Hsy; by apply Hbin|by eauto..]).
  - destruct (native_func f r c l Hn) as [(t & b & v & -> & ->)|(x & -> & Hf & Hnx & Hne)]; [done|].
    rewrite func1_eval by done. cbn [uplpgsql_classify_expr] in Hc |- *.
    assert (Hx : result_ok (uplpgsql_classify_expr x) (sql_eval ds x)).
    { apply IH; [set_solver|done|eapply params_arg; [exact Hp|set_solver]|]. intros E. apply Hc. rewrite E.
      by destruct f. }
    destruct (sql_eval ds x); try done. by apply func1_class.
  - simpl in *. apply andb_true_iff in Hn as [_ Hn]. by apply IH.
Qed.

(** ** NULL

    Operators are strict: apart from errors, the result is NULL exactly if a variable is. *)

Definition null_agrees (null : bool) (r : sql_result) : Prop :=
  match r with RVal _ => null = false | RNull => null = true | RError _ | RStuck => True end.

Lemma binop_null f a b : null_agrees false (sql_binop f a b).
Proof.
  unfold sql_binop, int_divide, int_result, float_addsub, float_mul, float_div.
  destruct (operator_of f) as [[]|], a, b; simpl; try done; repeat case_match; done.
Qed.
Lemma unop_null f a : null_agrees false (sql_unop f a).
Proof. unfold sql_unop, int_result. destruct f, a; try done; by case_match. Qed.
Lemma func1_null f a : null_agrees false (sql_func1 f a).
Proof. unfold sql_func1, int_result. destruct f, a; try done; by case_match. Qed.

Lemma strict1_null n a k :
  null_agrees n a -> (forall v, null_agrees false (k v)) -> null_agrees n (strict1 a k).
Proof. intros Ha Hk. destruct a; simpl in *; try done. subst n. apply Hk. Qed.
Lemma strict2_null n m a b k :
  null_agrees n a -> null_agrees m b -> (forall v w, null_agrees false (k v w)) ->
  null_agrees (n || m) (strict2 a b k).
Proof.
  intros Ha Hb Hk. destruct a; simpl in *; try done; subst n; simpl; [by apply strict1_null|by destruct b].
Qed.

Lemma has_null_args `{CompileEnv} ds f r c args :
  has_null ds (OpExpr f r c args) = existsb (has_null ds) args.
Proof.
  unfold has_null. simpl. induction args as [|x args IH]; [done|]. simpl. by rewrite existsb_app, IH.
Qed.

Lemma eval_null `{CompileEnv} ds e :
  native e = true -> null_agrees (has_null ds e) (sql_eval ds e).
Proof.
  induction e as [t b v n|k i t|f r c l IH|f r c l IH|a IH|o l IH|t r u l a _ IH _|? _|] using expr_ind';
    intros Hn; try discriminate.
  - simpl in *. by destruct n.
  - unfold has_null. simpl. unfold is_null. simpl. destruct (variable ds (dno_of i)) as [v|]; [|done].
    by destruct (isnull v).
  - rewrite has_null_args.
    assert (Hsub : forall x, x ∈ l -> null_agrees (has_null ds x) (sql_eval ds x)).
    { intros x Hx. apply IH; [done|by eapply native_arg]. }
    destruct l as [|x [|y [|z l]]]; try done; simpl existsb; rewrite ?orb_false_r.
    + rewrite op1_eval. apply strict1_null; [apply Hsub; set_solver|apply unop_null].
    + rewrite op2_eval. apply strict2_null; [apply Hsub; set_solver..|apply binop_null].
  - destruct (native_func f r c l Hn) as [(t & b & v & -> & ->)|(x & -> & Hf & Hnx & Hne)]; [done|].
    rewrite func1_eval by done.
    change (has_null ds (FuncExpr f r c [x])) with (has_null ds (OpExpr f r c [x])).
    rewrite has_null_args. simpl existsb. rewrite orb_false_r.
    apply strict1_null; [apply IH; [set_solver|done]|apply func1_null].
  - simpl in Hn. apply andb_true_iff in Hn as [_ Hn]. by apply IH.
Qed.

Module SqlEvalExamples.
Import ExprDemo.

(** [x = 2147483646] and [i = 3]. *)
Definition ds : list UPLpgSQL_datum :=
  [Demo.local 0 "found" Demo.boolean 0; Demo.local 1 "x" Demo.int4 2147483646; Demo.local 2 "i" Demo.int4 3].
(** [(x + 1) % i < 10]. *)
Definition condition : Expr := op F_INT4LT (op F_INT4MOD (op F_INT4PL x (int4_const 1)) i) (int4_const 10).

Lemma condition_params : params_ok ds condition.
Proof.
  repeat constructor; first [by eexists|by (eexists; split; [reflexivity|right; reflexivity])].
Defined.

Lemma classification_sound_witness :
  native condition = true /\ result_ok EXPR_TYPE_BOOL (sql_eval ds condition).
Proof.
  split; [by vm_compute|].
  exact (classification_sound ds condition eq_refl condition_params ltac:(discriminate)).
Defined.

Example condition_value : sql_eval ds condition = RVal (VInt 1).
Proof. by vm_compute. Qed.
(** The next integer but one does not fit. *)
Example overflow_value : sql_eval ds (op F_INT4PL x (int4_const 2)) = RError ERR_rt_int_overflow.
Proof. by vm_compute. Qed.
End SqlEvalExamples.
