(* ===== verification/SimRel.v ===== *)
(** * The simulation relation

    What it means that compiled code does what the interpreter does, and the
    tools for proving it.  A point of the compilation is recognised in the
    finished function ([at_point]); [computes] and [sim] say that from the point
    where the compiler started to emit a piece of code, the machine reaches the
    point where it stopped, or the block that EXIT, CONTINUE or RETURN lead to, in
    the state the interpreter reaches.  The tactic [walk] replays the compiler's
    steps and collects the invariants of file Wellformed at each of them. *)

From Stdlib Require Import ZArith Lia.
From S2P Require Import Prelude Ast Escape Exec Assign SqlStmts Interp IR CoreEmit StmtEmit Wellformed.
From S2P Require Import Machine Growth DeclTypes.

#[local] Opaque bind.

(** ** What is related *)

(** FOUND is a local variable of the function.  The interpreter still sets it
    when a RETURN passes through a FOR loop; compiled code leaves at once. *)
Definition after_found {world} (s s' : execstate world) : Prop :=
  exists bs, s' = foldl (fun s b => set_found b s) s bs.

(** An error is the same if it has the same SQLSTATE and message.  For a NULL
    bound of an integer FOR loop and for an overflow of [bigint] the two messages
    differ. *)
Definition bigint_message : string := "bigint out of range".
Definition integer_message : string := "integer out of range".
Definition null_bound_message (msg : string) : Prop :=
  exists what, msg = what +:+ " of FOR loop cannot be null".
Definition same_error (e e' : ErrorData) : Prop :=
  err_sqlerrcode e' = err_sqlerrcode e
  /\ (err_message e' = err_message e
      \/ (null_bound_message (err_message e) /\ err_message e' = null_int_message)
      \/ (err_message e = bigint_message /\ err_message e' = integer_message)).

Section relation.
Context {world : Type} `{PgEnv world}.
Context (f : ir_function) (F : watch).

Record ctx_ok (c : UPL_compile_ctx) : Prop := {
  co_plstate : plstate (env c) < next_reg (bld c);
  co_rc : rc_ptr (env c) < next_slot (bld c);
  co_cleanup : cleanup_depth (env c) = 0;
  co_arrays : native_arrays (env c) = []
}.

(** The machine is at the point where the compiler was at [c]. *)
Record at_point (c : UPL_compile_ctx) (k : mstate world) (s : execstate world) : Prop := {
  ap_todo : todo k = rest f c;
  ap_core : mcore k = s;
  ap_plstate : regs k !! plstate (env c) = Some VPlstate
}.

(** What was computed before [c] is still there. *)
Record agree (c : UPL_compile_ctx) (k k' : mstate world) : Prop := {
  ag_regs : forall r, r < next_reg (bld c) -> regs k' !! r = regs k !! r;
  ag_slots : forall n, n < next_slot (bld c) -> slots k' !! n = slots k !! n
}.

Definition raises (k : mstate world) (e : ErrorData) : Prop :=
  exists k' e' s, steps f k k' /\ step f k' = MRaise e' s /\ same_error e e'.

(** [m] computes [x]: from [c] the machine reaches the point after [m]. *)
Definition computes {A B} (Q : gmap nat value -> A -> B -> Prop) (m : emit A)
    (x : exec (execstate world) B) : Prop :=
  forall c a c' P k s, m c = Success (a, c') -> inv c P -> ctx_ok c -> ext c' f ->
    at_point c k s -> steady F s ->
    match x s with
    | Ok b s' => exists k', steps f k k' /\ at_point c' k' s' /\ agree c k k'
                            /\ Q (regs k') a b /\ steady F s'
    | Err e _ => raises k e
    | Stuck | OutOfFuel => True
    end.

(** Where control goes after a statement, by return code.  [ls] are the
    enclosing loops and labelled blocks an EXIT may refer to. *)
Definition goes_to (ls : list UPL_loop_info) (e : cenv) (cont : list instr)
    (rc : exec_rc) (label : option string) (target : list instr) : Prop :=
  match rc with
  | RC_OK => target = cont
  | RC_EXIT => exists li, find_loop ls label = Some li /\ target = block f (li_exit_bb li)
  | RC_CONTINUE => exists li b, find_loop ls label = Some li /\ li_continue_bb li = Some b
                                /\ target = block f b
  | RC_RETURN => target = block f (return_bb e)
  end.

Definition post (ls : list UPL_loop_info) (c : UPL_compile_ctx) (cont : list instr)
    (k : mstate world) (o : outcome (xstate world) exec_rc) : Prop :=
  match o with
  | Ok rc s' =>
      exists k', steps f k k' /\ goes_to ls (env c) cont rc (exitlabel s') (todo k')
        /\ (if decide (rc = RC_RETURN)
            then slots k' !! rc_ptr (env c) = Some (VInt UPLPGSQL_RC_RETURN)
                 /\ after_found (mcore k') (core s') /\ sqlstate_varno (core s') = None
            else mcore k' = core s' /\ agree c k k' /\ steady F (core s'))
  | Err e _ => raises k e
  | Stuck | OutOfFuel => True
  end.

Definition sim (ls : list UPL_loop_info) (m : emit unit) (x : exec (xstate world) exec_rc) : Prop :=
  forall c u c' P k s, m c = Success (u, c') -> inv c P -> ctx_ok c -> ext c' f ->
    ls `prefix_of` loop_stack (env c) -> at_point c k (core s) -> steady F (core s) ->
    post ls c (rest f c') k (x s).
End relation.

(** ** Frames and sequences *)
Section frames.
Context {world : Type} `{PgEnv world}.
Context (f : ir_function) (F : watch).

Lemma agree_refl c (k : mstate world) : agree c k k.
Proof. by split. Qed.
Lemma agree_trans c c' (k k1 k2 : mstate world) :
  agree c k k1 -> agree c' k1 k2 -> le_ctx c c' -> agree c k k2.
Proof.
  intros [Hr Hs] [Hr' Hs'] [_ Hl1 Hl2]. split.
  - intros r Hlt. rewrite Hr' by lia. auto.
  - intros n Hlt. rewrite Hs' by lia. auto.
Qed.

Lemma agree_le c c' (k k1 : mstate world) : le_ctx c c' -> agree c' k k1 -> agree c k k1.
Proof. intros Hle Ha. eapply agree_trans; [apply agree_refl|exact Ha|exact Hle]. Qed.

Lemma same_error_refl e : same_error e e.
Proof. split; auto. Qed.

Lemma not_null_bound msg : (String.length msg < 27)%nat -> ~ null_bound_message msg.
Proof.
  intros Hl [what ->]. revert Hl. induction what as [|a what IH]; simpl; [lia|]. intros Hl. apply IH. simpl in *. lia.
Qed.
Lemma same_error_trans e1 e2 e3 : same_error e1 e2 -> same_error e2 e3 -> same_error e1 e3.
Proof.
  intros [Hc1 Hm1] [Hc2 Hm2]. split; [congruence|].
  destruct Hm1 as [Hm1|[[Hn1 Hm1]|[Hn1 Hm1]]], Hm2 as [Hm2|[[Hn2 Hm2]|[Hn2 Hm2]]];
    rewrite ?Hm1 in *; auto; try (right; right; split; congruence); try (right; left; split; congruence).
  all: first [discriminate | exfalso; eapply not_null_bound; [|exact Hn2]; simpl; lia].
Qed.

Lemma raises_steps (k k1 : mstate world) e : steps f k k1 -> raises f k1 e -> raises f k e.
Proof.
  intros Hs (k' & e' & s & Hk & Hr & He). exists k', e', s.
  split; [by eapply steps_trans|done].
Qed.

Lemma raises_now (k : mstate world) e s : step f k = MRaise e s -> raises f k e.
Proof. intros Hs. exists k, e, s. split; [apply rtc_refl|]. split; [done|apply same_error_refl]. Qed.

(** Running up to a later point first. *)
Lemma post_steps ls c c1 cont (k k1 : mstate world) o :
  steps f k k1 -> agree c k k1 -> le_ctx c c1 ->
  return_bb (env c1) = return_bb (env c) -> rc_ptr (env c1) = rc_ptr (env c) ->
  post f F ls c1 cont k1 o -> post f F ls c cont k o.
Proof.
  intros Hs Ha Hle Hr Hp. destruct o as [rc s'|e s'| |]; simpl; [|by apply raises_steps|done|done].
  intros (k' & Hk & Hg & Hd). exists k'. split; [by eapply steps_trans|]. split.
  - destruct rc; simpl in *; by rewrite <- ?Hr.
  - case_decide; [by rewrite <- Hp|]. destruct Hd as (Hc & Ha' & Hi).
    split; [done|]. split; [by eapply agree_trans|done].
Qed.

(** The two registers every statement relies on survive. *)
Lemma agree_plstate c (k k' : mstate world) :
  ctx_ok c -> agree c k k' -> regs k !! plstate (env c) = Some VPlstate ->
  regs k' !! plstate (env c) = Some VPlstate.
Proof. intros [Hp _ _ _] [Hr _]. rewrite Hr; done. Qed.

Lemma ctx_ok_le c c' : le_ctx c c' -> env c' = env c -> ctx_ok c -> ctx_ok c'.
Proof. intros [_ Hr Hs] He [Hp Hc Hd Ha]. split; rewrite He; [lia|lia|done|done]. Qed.

(** Compiler steps that emit nothing leave the machine where it is. *)
Definition quiet (c c' : UPL_compile_ctx) : Prop :=
  cur (bld c') = cur (bld c) /\ block_code (bld c') = block_code (bld c).

Lemma at_quiet c c' (k : mstate world) s :
  quiet c c' -> plstate (env c') = plstate (env c) -> at_point f c k s -> at_point f c' k s.
Proof.
  intros [Hc Hb] Hp [Ht Hm Hr]. split; [|done|by rewrite Hp].
  rewrite Ht. symmetry. by apply rest_quiet.
Qed.

Lemma quiet_append name c n c' : append_block name c = Success (n, c') -> quiet c c' /\ env c' = env c.
Proof. by intros [= <- <-]. Qed.
Lemma quiet_set_defer d c u c' : set_defer_cond_plan d c = Success (u, c') -> quiet c c' /\ env c' = env c.
Proof. by intros [= <- <-]. Qed.
Lemma quiet_entry_alloca c n c' :
  build_entry_alloca c = Success (n, c') ->
  (quiet c c' /\ env c' = env c) /\ n = next_slot (bld c) /\ next_slot (bld c') = S (next_slot (bld c)).
Proof. by intros [= <- <-]. Qed.
Lemma quiet_set_env g c u c' : set_env g c = Success (u, c') -> quiet c c' /\ env c' = g (env c).
Proof. by intros [= <- <-]. Qed.

(** Running one emitted instruction. *)
Lemma at_build i c u c' (k : mstate world) s :
  build i c = Success (u, c') -> ext c' f -> at_point f c k s ->
  todo k = i :: rest f c' /\ env c' = env c.
Proof.
  intros Hb He [Ht _ _]. rewrite Ht, (rest_build _ _ _ _ _ Hb He). by injection Hb as <- <-.
Qed.

Lemma build_value_reg mk c o c' :
  build_value mk c = Success (o, c') ->
  o = OReg (next_reg (bld c)) /\ next_reg (bld c') = S (next_reg (bld c))
  /\ next_slot (bld c') = next_slot (bld c) /\ env c' = env c.
Proof. by intros [= <- <-]. Qed.

(** The instruction a [build_value] emits. *)
Lemma rest_build_value mk c o c' :
  build_value mk c = Success (o, c') -> ext c' f -> rest f c = mk (next_reg (bld c)) :: rest f c'.
Proof.
  intros Hb He. unfold build_value in Hb.
  apply bind_Success in Hb as (r & c1 & H1 & Hb). apply bind_Success in Hb as (u & c2 & H2 & H3).
  injection H1 as <- <-. injection H3 as <- <-. by apply (rest_build _ _ _ _ _ H2 He).
Qed.

Lemma at_build_value mk c o c' (k : mstate world) s :
  build_value mk c = Success (o, c') -> ext c' f -> at_point f c k s ->
  todo k = mk (next_reg (bld c)) :: rest f c'.
Proof.
  intros Hb He [Ht _ _]. rewrite Ht. by eapply rest_build_value.
Qed.

Lemma agree_set_reg c (k : mstate world) more s v :
  agree c k (mk_mstate more s (<[next_reg (bld c) := v]> (regs k)) (slots k)).
Proof. split; [|done]. intros r Hr. simpl. by rewrite lookup_insert_ne by lia. Qed.
End frames.

(** ** Calls *)
Section calls.
Context {world : Type} `{PgEnvTypes world}.
Context (f : ir_function) (F : watch).
Open Scope exec_scope.

Definition holds {B} (V : B -> value) (r : gmap nat value) (o : operand) (b : B) : Prop :=
  operand_value r o = Some (V b).
Definition anything {A B} (_ : gmap nat value) (_ : A) (_ : B) : Prop := True.


(** A call with a result. *)
Lemma run_call {B} (V : B -> value) g args vs (x : exec (execstate world) B) c o c' k s :
  build_call g args c = Success (o, c') -> ctx_ok c -> ext c' f ->
  (regs k !! plstate (env c) = Some VPlstate -> arg_values (regs k) args = Some vs) -> keeps F x ->
  (forall s, call g vs s = (b <~ x; xret (Some (V b))) s) ->
  at_point f c k s -> steady F s ->
  match x s with
  | Ok b s' => exists k', steps f k k' /\ at_point f c' k' s' /\ agree c k k'
                          /\ holds V (regs k') o b /\ steady F s'
  | Err e _ => raises f k e
  | Stuck | OutOfFuel => True
  end.
Proof.
  intros Hb Hok He Ha Hx Hcall Hat Hst. specialize (Hcall s). unfold xbind, xret in Hcall.
  pose proof (at_build_value f _ _ _ _ _ _ Hb He Hat) as Htodo.
  destruct (build_value_reg _ _ _ _ Hb) as (-> & Hr & Hs & Hen).
  destruct Hat as [Ht Hm Hp]. specialize (Ha Hp).
  assert (Hstep : step f k = step_call k (rest f c') (Some (next_reg (bld c))) g args)
    by (unfold step; by rewrite Htodo).
  unfold step_call in Hstep. rewrite Ha, Hm, Hcall in Hstep.
  destruct (x s) as [b s'|e s'| |] eqn:Ex; [|by eapply raises_now|done|done].
  eexists. split; [by apply steps_one|]. split; [|split; [apply agree_set_reg|split]].
  - split; [done|done|]. simpl. rewrite Hen, lookup_insert_ne; [done|]. pose proof (co_plstate _ Hok). lia.
  - unfold holds. simpl. by rewrite lookup_insert_eq.
  - by eapply Hx.
Qed.

(** A call without one. *)
Lemma run_call_void {B} g args vs (x : exec (execstate world) B) c u c' k s :
  build_call_void g args c = Success (u, c') -> ctx_ok c -> ext c' f ->
  (regs k !! plstate (env c) = Some VPlstate -> arg_values (regs k) args = Some vs) -> keeps F x ->
  (forall s, exists r, call g vs s = (b <~ x; xret (r b)) s) ->
  at_point f c k s -> steady F s ->
  match x s with
  | Ok _ s' => exists k', steps f k k' /\ at_point f c' k' s' /\ agree c k k' /\ steady F s'
  | Err e _ => raises f k e
  | Stuck | OutOfFuel => True
  end.
Proof.
  intros Hb Hok He Ha Hx Hcall Hat Hst. destruct (Hcall s) as [r Hc]. unfold xbind, xret in Hc.
  destruct (at_build f _ _ _ _ _ _ Hb He Hat) as [Htodo Hen].
  destruct Hat as [Ht Hm Hp]. specialize (Ha Hp).
  assert (Hstep : step f k = step_call k (rest f c') None g args) by (unfold step; by rewrite Htodo).
  unfold step_call in Hstep. rewrite Ha, Hm, Hc in Hstep.
  destruct (x s) as [b s'|e s'| |] eqn:Ex; [|by eapply raises_now|done|done].
  eexists. split.
  { apply steps_one. rewrite Hstep. by destruct (r b). }
  split; [|split; [by split|by eapply Hx]].
  split; [done|done|]. simpl. by rewrite Hen.
Qed.
End calls.

(** ** Expressions *)

(** Code between two points that changes nothing. *)
Definition passes {world} `{PgEnv world} (f : ir_function) (c c' : UPL_compile_ctx)
    (k : mstate world) (s : execstate world) : Prop :=
  exists k', steps f k k' /\ at_point f c' k' s /\ agree c k k'.

(** The conditions and assignments, given the watched variables, and the BY values of
    integer FOR loops of which the following is asked. *)
Class ExprCover := {
  covers_cond : watch -> UPLpgSQL_expr -> bool;
  covers_assign : watch -> UPLpgSQL_stmt_assign -> bool;
  covers_step : UPLpgSQL_expr -> bool
}.

(** What is asked of expression inlining: the code it emits computes what the
    interpreter's evaluation of the expression, or of the assignment, computes;
    when it declines, the code it has emitted by then has no effect.  Of a BY value it is
    asked that it is positive: only the interpreter checks that. *)
Class ExprCompilerSim (world : Type) `{PgEnv world} `{ExprCompiler} `{ExprCover} : Prop := {
  try_bool_sim f F e c r c' P k s :
    covers_cond F e = true ->
    try_compile_bool e c = Success (r, c') -> inv c P -> ctx_ok c -> ext c' f ->
    at_point f c k s -> steady F s ->
    match r with
    | Some v =>
        match eval_cond e s with
        | Ok b s' => exists k', steps f k k' /\ at_point f c' k' s' /\ agree c k k'
                       /\ holds (fun b => VInt (z_of_bool b)) (regs k') v b /\ steady F s'
        | Err err _ => raises f k err
        | Stuck | OutOfFuel => True
        end
    | None => passes f c c' k s
    end;
  try_assign_sim f F a c r c' P k s :
    covers_assign F a = true ->
    try_compile_assign a c = Success (r, c') -> inv c P -> ctx_ok c -> ext c' f ->
    at_point f c k s -> steady F s ->
    if r
    then match exec_assign_expr (assign_varno a) (assign_expr a) s with
         | Ok _ s' => exists k', steps f k k' /\ at_point f c' k' s' /\ agree c k k' /\ steady F s'
         | Err err _ => raises f k err
         | Stuck | OutOfFuel => True
         end
    else passes f c c' k s;
  step_positive e s z s' :
    covers_step e = true -> uplpgsql_rt_eval_int e s = Ok z s' -> (0 < z)%Z
}.

(** ** Walking through emitted code *)

(** A copy of a fact that the forward tactics of file Wellformed leave alone. *)
Definition ran {A} (m : emit A) (c : UPL_compile_ctx) (a : A) (c' : UPL_compile_ctx) : Prop :=
  m c = Success (a, c').
Definition saved (P : Prop) : Prop := P.

Ltac save_inv :=
  repeat match goal with
  | I : inv ?c ?P |- _ =>
      lazymatch goal with _ : saved (inv c P) |- _ => fail | _ => pose proof (I : saved (inv c P)) end
  | I : done ?c ?P |- _ =>
      lazymatch goal with _ : saved (done c P) |- _ => fail | _ => pose proof (I : saved (done c P)) end
  end.

Ltac save_ran :=
  repeat match goal with
  | H : ?m ?c = Success (?a, ?c') |- _ =>
      lazymatch goal with
      | _ : ran m c a c' |- _ => fail
      | _ => pose proof (H : ran m c a c');
             let Hg := fresh "Hg" in assert (Hg : le_ctx c c');
             [let Hm := fresh in assert (Hm : grows m) by grows_auto; exact (Hm _ _ _ H)|]
      end
  end.

(** [ext] holds at every earlier point. *)
Ltac ext_back :=
  repeat match goal with
  | Hl : le_ctx ?c ?c', He : ext ?c' ?f |- _ =>
      lazymatch goal with _ : ext c f |- _ => fail | _ => pose proof (ext_le c c' f Hl He) end
  end.

(** Replay the compiler steps in the context: what they ran, the order between
    their contexts, and the invariant at every point. *)
Ltac walk :=
  save_ran; save_inv; repeat (wf_step; save_inv);
  repeat match goal with
  | I : inv ?c ?P, _ : saved (inv ?c ?P) |- _ => clear I
  | I : done ?c ?P, _ : saved (done ?c ?P) |- _ => clear I
  end;
  repeat match goal with H : saved ?P |- _ => change P in H end.

(** A block that is pending is still empty. *)
Lemma done_empty c P n : done c P -> n ∈ P -> codeb c n = [].
Proof. intros HD Hn. by destruct (dn_pending _ _ HD n Hn). Qed.

(** The machine after a branch. *)
Definition goto {world} (f : ir_function) (b : nat) (k : mstate world) : mstate world :=
  mk_mstate (block f b) (mcore k) (regs k) (slots k).

Section walking.
Context {world : Type} `{PgEnv world}.
Context (f : ir_function) (F : watch).

Lemma run_condbr v a b z c u c' (k : mstate world) s :
  ran (build (ICondBr v a b)) c u c' -> ext c' f -> at_point f c k s ->
  operand_value (regs k) v = Some (VInt (z_of_bool z)) ->
  steps f k (goto f (if z then a else b) k).
Proof.
  intros Hb He Hat Hv. destruct (at_build f _ _ _ _ _ _ Hb He Hat) as [Ht _].
  apply steps_one. unfold step. rewrite Ht. unfold operand_int. rewrite Hv. by destruct z.
Qed.

Lemma run_br t c u c' (k : mstate world) s :
  ran (build (IBr t)) c u c' -> ext c' f -> at_point f c k s -> steps f k (goto f t k).
Proof.
  intros Hb He Hat. destruct (at_build f _ _ _ _ _ _ Hb He Hat) as [Ht _].
  apply steps_one. unfold step. by rewrite Ht.
Qed.

(** A store into a stack slot. *)
Definition stored (c' : UPL_compile_ctx) (n : nat) (x : value) (k : mstate world) : mstate world :=
  mk_mstate (rest f c') (mcore k) (regs k) (<[n := x]> (slots k)).

Lemma run_store v n x c u c' (k : mstate world) s :
  ran (build (IStore v n)) c u c' -> ext c' f -> at_point f c k s ->
  operand_value (regs k) v = Some x ->
  steps f k (stored c' n x k) /\ at_point f c' (stored c' n x k) s.
Proof.
  intros Hb He Hat Hv. destruct (at_build f _ _ _ _ _ _ Hb He Hat) as [Ht Hen]. split.
  - apply steps_one. unfold step. by rewrite Ht, Hv.
  - destruct Hat as [_ Hm Hp]. split; [done|done|]. simpl. by rewrite Hen.
Qed.

Lemma agree_stored c c' n x (k k' : mstate world) :
  next_slot (bld c) <= n -> agree c k k' -> agree c k (stored c' n x k').
Proof.
  intros Hn [Hr Hs]. split; [done|]. intros m Hm. simpl. rewrite lookup_insert_ne by lia. auto.
Qed.

(** A load from a stack slot. *)
Lemma run_load n x c o c' (k : mstate world) s :
  ran (build_value (fun r => ILoad r n)) c o c' -> ctx_ok c -> ext c' f -> at_point f c k s ->
  slots k !! n = Some x ->
  exists k', steps f k k' /\ at_point f c' k' s /\ agree c k k' /\ slots k' = slots k
             /\ operand_value (regs k') o = Some x.
Proof.
  intros Hb Hok He Hat Hx. pose proof (at_build_value f _ _ _ _ _ _ Hb He Hat) as Ht.
  destruct (build_value_reg _ _ _ _ Hb) as (-> & _ & _ & Hen). destruct Hat as [_ Hm Hp].
  eexists. split; [apply steps_one; unfold step; by rewrite Ht, Hx|].
  split; [|split; [apply agree_set_reg|split; [done|simpl; by rewrite lookup_insert_eq]]].
  split; [done|done|]. simpl. rewrite Hen, lookup_insert_ne; [done|]. pose proof (co_plstate _ Hok). lia.
Qed.

(** The address of a datum. *)
Lemma run_datum_ptr n c o c' (k : mstate world) s :
  ran (build_value (fun r => ILoadDatumPtr r n)) c o c' -> ctx_ok c -> ext c' f -> at_point f c k s ->
  exists k', steps f k k' /\ at_point f c' k' s /\ agree c k k'
             /\ operand_value (regs k') o = Some (VDatum n).
Proof.
  intros Hb Hok He Hat. pose proof (at_build_value f _ _ _ _ _ _ Hb He Hat) as Ht.
  destruct (build_value_reg _ _ _ _ Hb) as (-> & _ & _ & Hen). destruct Hat as [_ Hm Hp].
  eexists. split; [apply steps_one; unfold step; by rewrite Ht|].
  split; [|split; [apply agree_set_reg|simpl; by rewrite lookup_insert_eq]].
  split; [done|done|]. simpl. rewrite Hen, lookup_insert_ne; [done|]. pose proof (co_plstate _ Hok). lia.
Qed.

(** An integer operation. *)
Lemma run_binop (mk : nat -> instr) (op : Z -> Z -> Z) a b x y c o c' (k : mstate world) s :
  ran (build_value mk) c o c' -> ctx_ok c -> ext c' f -> at_point f c k s ->
  operand_value (regs k) a = Some (VInt x) -> operand_value (regs k) b = Some (VInt y) ->
  (forall m more r, todo m = mk r :: more -> step f m = step_binop m more r op a b) ->
  exists k', steps f k k' /\ at_point f c' k' s /\ agree c k k' /\ slots k' = slots k
             /\ operand_value (regs k') o = Some (VInt (op x y)).
Proof.
  intros Hb Hok He Hat Hx Hy Hstep. pose proof (at_build_value f _ _ _ _ _ _ Hb He Hat) as Ht.
  destruct (build_value_reg _ _ _ _ Hb) as (-> & _ & _ & Hen). destruct Hat as [_ Hm Hp].
  eexists. split.
  { apply steps_one. rewrite (Hstep _ _ _ Ht). unfold step_binop, operand_int. by rewrite Hx, Hy. }
  split; [|split; [apply agree_set_reg|split; [done|simpl; by rewrite lookup_insert_eq]]].
  split; [done|done|]. simpl. rewrite Hen, lookup_insert_ne; [done|]. pose proof (co_plstate _ Hok). lia.
Qed.

Lemma agree_goto c b (k k' : mstate world) : agree c k k' -> agree c k (goto f b k').
Proof. by intros [Hr Hs]; split. Qed.

(** Control enters a block that was empty when the builder moved to it. *)
Lemma at_position n c u c' (k : mstate world) s :
  ran (position n) c u c' -> codeb c n = [] -> todo k = block f n -> mcore k = s ->
  regs k !! plstate (env c) = Some VPlstate -> at_point f c' k s.
Proof.
  intros Hp He Ht Hm Hr. split; [|done|by injection Hp as <- <-].
  rewrite Ht. symmetry. by eapply rest_position.
Qed.

(** A statement followed by a branch. *)
Lemma post_br ls c t c1 u c2 (k : mstate world) o :
  ran (build (IBr t)) c1 u c2 -> ext c2 f ->
  post f F ls c (rest f c1) k o -> post f F ls c (block f t) k o.
Proof.
  intros Hb He. rewrite (rest_build _ _ _ _ _ Hb He). destruct o as [rc s'|e s'| |]; [|done..].
  intros (k' & Hk & Hg & Hd). destruct rc; [|exists k'; exact (conj Hk (conj Hg Hd))..].
  exists (goto f t k'). simpl in *. destruct Hd as (Hc & Ha & Hs).
  split; [|split; [done|split; [done|split; [by apply agree_goto|done]]]].
  eapply steps_trans; [exact Hk|]. apply steps_one. unfold step. by rewrite Hg.
Qed.

Lemma ctx_ok_env c c' :
  le_ctx c c' -> plstate (env c') = plstate (env c) -> rc_ptr (env c') = rc_ptr (env c) ->
  cleanup_depth (env c') = cleanup_depth (env c) -> native_arrays (env c') = native_arrays (env c) ->
  ctx_ok c -> ctx_ok c'.
Proof. intros [_ Hr Hs] H1 H2 H3 H4 [Hp Hc Hd Ha]. split; rewrite ?H1, ?H2, ?H3, ?H4; [lia|lia|done|done]. Qed.
End walking.

(** [ctx_ok] holds at every later point. *)
Ltac ctx_forward :=
  repeat match goal with
  | Hl : le_ctx ?c ?c', Hok : ctx_ok ?c, He : env ?c' = _ |- _ =>
      lazymatch goal with
      | _ : ctx_ok c' |- _ => fail
      | _ => assert (ctx_ok c') by
               (apply (ctx_ok_env c c' Hl); [rewrite He; reflexivity..|exact Hok])
      end
  end.

(** Skip the compiler steps between [c] and the next instruction. *)
Ltac at_skip :=
  repeat match goal with
  | Ha : at_point ?f ?c ?k ?s, Hr : ran (append_block _) ?c _ ?c' |- _ =>
      lazymatch goal with
      | _ : at_point f c' k s |- _ => fail
      | _ => let Hq := fresh in let He := fresh in
             destruct (quiet_append _ _ _ _ Hr) as [Hq He];
             assert (at_point f c' k s) by
               (apply (at_quiet f c c' k s Hq); [by rewrite He|exact Ha]); clear Hq He
      end
  | Ha : at_point ?f ?c ?k ?s, Hr : ran build_entry_alloca ?c _ ?c' |- _ =>
      lazymatch goal with
      | _ : at_point f c' k s |- _ => fail
      | _ => let Hq := fresh in let He := fresh in
             destruct (quiet_entry_alloca _ _ _ Hr) as [[Hq He] _];
             assert (at_point f c' k s) by
               (apply (at_quiet f c c' k s Hq); [by rewrite He|exact Ha]); clear Hq He
      end
  | Ha : at_point ?f ?c ?k ?s, Hr : ran (set_defer_cond_plan _) ?c _ ?c' |- _ =>
      lazymatch goal with
      | _ : at_point f c' k s |- _ => fail
      | _ => let Hq := fresh in let He := fresh in
             destruct (quiet_set_defer _ _ _ _ Hr) as [Hq He];
             assert (at_point f c' k s) by
               (apply (at_quiet f c c' k s Hq); [by rewrite He|exact Ha]); clear Hq He
      end
  end.

(** A pending block is empty. *)
Ltac empty_block := eapply done_empty; [eassumption|set_fast].

(** The environments along a straight line of compiler steps. *)
Ltac env_eq := congruence.
Ltac hide H :=
  match type of H with ?m ?c = Success (?a, ?c') => change (ran m c a c') in H end.

Lemma xret_bind {S A B} (a : A) (k : A -> exec S B) : xbind (xret a) k = k a.
Proof. reflexivity. Qed.

(** A primitive followed by the rest of a statement. *)
Lemma post_lift {world B} `{PgEnv world} f F (x : exec (execstate world) B)
    (K : B -> exec (xstate world) exec_rc) ls c cont k s :
  match x (core s) with
  | Ok b s' => post f F ls c cont k (K b (mk_xstate (exitlabel s) s'))
  | Err e _ => raises f k e
  | Stuck | OutOfFuel => True
  end ->
  post f F ls c cont k (xbind (lift x) K s).
Proof. unfold xbind, lift. by destruct (x (core s)). Qed.

Lemma at_enter {world} `{PgEnv world} f n c0 c u c' (k : mstate world) s :
  at_point f c0 k s -> ran (position n) c u c' -> plstate (env c) = plstate (env c0) ->
  codeb c n = [] -> at_point f c' (goto f n k) s.
Proof.
  intros [Ht Hm Hp] Hr He Hc. eapply at_position; [exact Hr|done|done|done|]. by rewrite He.
Qed.

(** The order between two points of the walk. *)
Ltac le_chain := first [reflexivity | eassumption | etrans; [eassumption|le_chain]].

(** Environments agree along the walk. *)
Ltac env_field :=
  first [reflexivity | f_equal; congruence | congruence
        | match goal with E : env ?d = mk_cenv _ _ _ _ _ _ _ _ |- context [env ?d] =>
            rewrite E; simpl; env_field end].

(** A frame at a later point is a frame at an earlier one. *)
Ltac agree_back := first [eassumption | eapply agree_le; [|eassumption]; le_chain].

(** Continue from a later point. *)
Ltac resume d :=
  eapply (post_steps _ _ _ _ d);
    [eassumption | agree_back | le_chain | env_field | env_field |].

(** The same without running anything. *)
Ltac resume_at d :=
  match goal with |- post ?f ?F ?ls ?c ?cont ?k _ =>
    eapply (post_steps f F ls c d cont k k);
      [apply rtc_refl | apply agree_refl | le_chain | env_field | env_field |]
  end.

(** Run an unconditional branch. *)
Ltac run_goto :=
  match goal with
  | Hr : ran (build (IBr ?t)) ?d _ _, Ha : at_point ?f ?d ?k ?s |- post _ _ _ ?c _ ?k _ =>
      pose proof (run_br f _ _ _ _ _ _ Hr ltac:(eassumption) Ha);
      pose proof (agree_goto f c t k k (agree_refl c k))
  end.

(** The code after a statement that ends by moving to its last block. *)
Ltac rest_here :=
  match goal with
  | Hr : ran (position _) _ _ ?c |- post ?f _ _ _ (rest ?f ?c) _ _ =>
      rewrite (rest_position _ _ _ _ f Hr) by empty_block
  end.

(** The statement is over: the machine is where the next one starts. *)
Ltac finish_ok :=
  eexists; split; [eassumption|]; split; [reflexivity|]; simpl;
  split; [eapply ap_core; eassumption|]; split; [agree_back|eassumption].

(** Popping what was pushed restores the environment. *)
Lemma pop_push label a b c u1 c1 c2 u3 c3 :
  ran (upl_push_loop label a b) c u1 c1 -> env c2 = env c1 -> ran upl_pop_loop c2 u3 c3 ->
  env c3 = env c.
Proof.
  intros [= <- <-] He [= <- <-]. simpl. rewrite He. simpl. by destruct (env c).
Qed.

Lemma pop_push_block label a c u1 c1 c2 u3 c3 :
  ran (upl_push_block_label label a) c u1 c1 -> env c2 = env c1 -> ran upl_pop_loop c2 u3 c3 ->
  env c3 = env c.
Proof.
  intros [= <- <-] He [= <- <-]. simpl. rewrite He. simpl. by destruct (env c).
Qed.

Ltac pops :=
  repeat match goal with
  | Hp : ran (upl_push_loop _ _ _) ?c _ ?c1, He : env ?c2 = env ?c1, Hq : ran upl_pop_loop ?c2 _ ?c3 |- _ =>
      lazymatch goal with
      | _ : env c3 = env c |- _ => fail
      | _ => pose proof (pop_push _ _ _ _ _ _ _ _ _ Hp He Hq)
      end
  | Hp : ran (upl_push_block_label _ _) ?c _ ?c1, He : env ?c2 = env ?c1, Hq : ran upl_pop_loop ?c2 _ ?c3 |- _ =>
      lazymatch goal with
      | _ : env c3 = env c |- _ => fail
      | _ => pose proof (pop_push_block _ _ _ _ _ _ _ _ Hp He Hq)
      end
  end.

(** Without native arrays there is nothing to marshal. *)
Lemma sync_nil c : native_arrays (env c) = [] -> sync_native_arrays c = Success (tt, c).
Proof. Transparent bind. intros Ha. unfold sync_native_arrays, bind, get_env. by rewrite Ha. Opaque bind. Qed.
Lemma sync_for_expr_nil e c :
  native_arrays (env c) = [] -> sync_native_arrays_for_expr e c = Success (tt, c).
Proof.
  Transparent bind. intros Ha. unfold sync_native_arrays_for_expr.
  destruct e as [e|]; [destruct (plan e)|]; try by apply sync_nil.
  unfold bind, get_env. by rewrite Ha. Opaque bind.
Qed.
Lemma refresh_nil n c : native_arrays (env c) = [] -> refresh_dno n c = Success (tt, c).
Proof. Transparent bind. intros Ha. unfold refresh_dno, bind, get_env. by rewrite Ha. Opaque bind. Qed.

Section void_calls.
Context {world : Type} `{PgEnvTypes world}.
Context (f : ir_function) (F : watch).
Open Scope exec_scope.

(** A call that does one step of a statement, and the rest of the statement. *)
Lemma post_call_void {B} g args vs (x : exec (execstate world) B) ls c0 cont c u c1 k st K :
  ran (build_call_void g args) c u c1 -> ctx_ok c -> ext c1 f ->
  (regs k !! plstate (env c) = Some VPlstate -> arg_values (regs k) args = Some vs) -> keeps F x ->
  (forall s, exists r, call g vs s = (b <~ x; xret (r b)) s) -> le_ctx c0 c ->
  at_point f c k (core st) -> steady F (core st) ->
  (forall b s' k', at_point f c1 k' s' -> agree c0 k k' -> steady F s' ->
     post f F ls c0 cont k' (K b (mk_xstate (exitlabel st) s'))) ->
  post f F ls c0 cont k (xbind (lift x) K st).
Proof.
  intros Hr Hok He Ha Hx Hcall Hle Hat Hst Hk. apply post_lift.
  pose proof (run_call_void f F g args vs x c u c1 k (core st) Hr Hok He Ha Hx Hcall Hat Hst) as Hrun.
  destruct (x (core st)) as [b s'|e s'| |]; [|done..].
  destruct Hrun as (k' & Hs & Hat' & Hag & Hst').
  assert (Hag0 : agree c0 k k') by (by eapply agree_le).
  eapply (post_steps f F ls c0 c0); [exact Hs|exact Hag0|done|done|done|]. by apply Hk.
Qed.
End void_calls.
