(* ===== verification/Runs.v ===== *)
(** * Running emitted code

    The judgements in which the correctness of the expression compiler is stated, with
    their rules.

    [runs m c k s Q None] says that from the point [c] of the compilation, with the
    machine in [k], the code emitted by [m] reaches the point after it, changes no
    register or slot that existed at [c] nor the execution state [s], and leaves a
    machine satisfying [Q]; [runs m c k s Q (Some fn)] that it raises the error [fn].
    [gives] and [evaluates] say so of a result of file SqlEval; the [open] forms follow
    code that is building blocks it has still to fill. *)

From Stdlib Require Import ZArith Lia SpecFloat.
From S2P Require Import Prelude Ast Escape Expr Float Exec Assign IR CoreEmit StmtEmit ExprEmit Wellformed.
From S2P Require Import Machine Growth ExprWf CompileTotal ExprTotal SqlEval SimRel.

#[local] Opaque bind.

Ltac bind_side :=
  first [ eapply emits_any; solve [eauto with emits] | solve [eauto with emits]
        | solve [eapply emits_any; emits_auto] | solve [grows_auto] | (intro; solve [grows_auto]) ].

Section rules.
Context {world : Type} `{PgEnv world} `{CompileEnv}.
Context {f : ir_function}.

(** An operand that is there, with its value. *)
Definition defd (c : UPL_compile_ctx) (k : mstate world) (o : operand) (v : value) : Prop :=
  operand_value (regs k) o = Some v
  /\ match o with OReg r => r < next_reg (bld c) | OConst _ => True end.

Lemma defd_const c (k : mstate world) v : defd c k (OConst v) v.
Proof. done. Qed.

Lemma defd_carry c c' (k k' : mstate world) o v :
  agree c k k' -> le_ctx c c' -> defd c k o v -> defd c' k' o v.
Proof.
  intros [Hr _] [_ Hle _] [Hv Ho]. destruct o as [r|]; [|done]. split; [|lia].
  simpl in *. by rewrite Hr.
Qed.

Definition runs {A} (m : emit A) (c : UPL_compile_ctx) (k : mstate world) (s : execstate world)
    (Q : A -> UPL_compile_ctx -> mstate world -> Prop) (err : option err_fn) : Prop :=
  forall a c' P, m c = Success (a, c') -> inv c P -> ctx_ok c -> ext c' f -> at_point f c k s ->
    match err with
    | None => exists k', steps f k k' /\ at_point f c' k' s /\ agree c k k' /\ Q a c' k'
    | Some fn => exists k', steps f k k' /\ step f k' = MRaise (raise_error fn) s
    end.

(** ** Rules *)

Lemma runs_ret {A} (a : A) c k s (Q : A -> _ -> _ -> Prop) : Q a c k -> runs (ret a) c k s Q None.
Proof.
  intros Hq b c' P [= <- <-] HI Hok He Hat. exists k. split; [apply rtc_refl|]. split; [done|].
  split; [apply agree_refl|done].
Qed.

Lemma runs_bind {A B} (m : emit A) (K : A -> emit B) c k s R Q err :
  emits any m -> grows m -> (forall a, grows (K a)) -> runs m c k s R None ->
  (forall a c1 k1, le_ctx c c1 -> agree c k k1 -> R a c1 k1 -> runs (K a) c1 k1 s Q err) ->
  runs (bind m K) c k s Q err.
Proof.
  intros Hem Hg HgK Hm HK b c' P Hrun HI Hok Hext Hat.
  apply bind_Success in Hrun as (a & c1 & R1 & R2).
  destruct (Hem _ _ _ _ R1 HI) as ((I1 & E1 & _) & _). pose proof (Hg _ _ _ R1) as L1.
  pose proof (HgK _ _ _ _ R2) as L2. assert (Hext1 : ext c1 f) by (by eapply ext_le).
  destruct (Hm _ _ _ R1 HI Hok Hext1 Hat) as (k1 & S1 & A1 & G1 & Q1).
  assert (Hok1 : ctx_ok c1) by (by eapply ctx_ok_le).
  specialize (HK a c1 k1 L1 G1 Q1 _ _ _ R2 I1 Hok1 Hext A1). destruct err as [fn|].
  - destruct HK as (k2 & S2 & E2). exists k2. split; [by eapply steps_trans|done].
  - destruct HK as (k2 & S2 & A2 & G2 & Q2). exists k2. split; [by eapply steps_trans|]. split; [done|].
    split; [by eapply agree_trans|done].
Qed.

Lemma runs_bind_err {A B} (m : emit A) (K : A -> emit B) c k s R Q fn :
  (forall a, grows (K a)) -> runs m c k s R (Some fn) -> runs (bind m K) c k s Q (Some fn).
Proof.
  intros HgK Hm b c' P Hrun HI Hok Hext Hat.
  apply bind_Success in Hrun as (a & c1 & R1 & R2). pose proof (HgK _ _ _ _ R2) as L2.
  exact (Hm _ _ _ R1 HI Hok (ext_le _ _ _ L2 Hext) Hat).
Qed.

Lemma runs_weaken {A} (m : emit A) c k s (R Q : A -> _ -> _ -> Prop) :
  runs m c k s R None -> (forall a c' k', R a c' k' -> Q a c' k') -> runs m c k s Q None.
Proof.
  intros Hm HQ a c' P Hrun HI Hok Hext Hat. destruct (Hm _ _ _ Hrun HI Hok Hext Hat) as (k' & S1 & A1 & G1 & Q1).
  exists k'. auto.
Qed.

(** An instruction that writes a fresh register. *)
Lemma runs_value (mk : nat -> instr) c k s v :
  (forall r m more, todo m = mk r :: more -> mcore m = s -> regs m = regs k ->
     step f m = set_reg m more r v) ->
  runs (build_value mk) c k s (fun o c' k' => defd c' k' o v) None.
Proof.
  intros Hstep o c' P Hrun HI Hok Hext Hat.
  pose proof (at_build_value f _ _ _ _ _ _ Hrun Hext Hat) as Ht.
  destruct (build_value_reg _ _ _ _ Hrun) as (-> & Hr & _ & Hen). destruct Hat as [_ Hm Hp].
  eexists. split; [apply steps_one; by apply (Hstep _ _ _ Ht)|].
  split; [|split; [apply agree_set_reg|]].
  - split; [done|done|]. simpl. rewrite Hen, lookup_insert_ne; [done|]. pose proof (co_plstate _ Hok). lia.
  - split; [simpl; by rewrite lookup_insert_eq|]. rewrite Hr. lia.
Qed.

Lemma runs_op op args vs v c k s :
  arg_values (regs k) args = Some vs -> eval_op op vs = Some v ->
  runs (build_op op args) c k s (fun o c' k' => defd c' k' o v) None.
Proof.
  intros Ha Hv. apply runs_value. intros r m more Ht Hm Hr. unfold step. rewrite Ht, Hr, Ha.
  simpl. by rewrite Hv.
Qed.

Lemma args1 c k a v : defd c k a v -> arg_values (regs k) [a] = Some [v].
Proof. intros [Ha _]. unfold arg_values. simpl. by rewrite Ha. Qed.
Lemma args2 c k a b v w : defd c k a v -> defd c k b w -> arg_values (regs k) [a; b] = Some [v; w].
Proof. intros [Ha _] [Hb _]. unfold arg_values. simpl. by rewrite Ha, Hb. Qed.
Lemma args3 c k a b d v w x :
  defd c k a v -> defd c k b w -> defd c k d x -> arg_values (regs k) [a; b; d] = Some [v; w; x].
Proof. intros [Ha _] [Hb _] [Hd _]. unfold arg_values. simpl. by rewrite Ha, Hb, Hd. Qed.

(** Control reaches the call that raises. *)
Lemma raise_now fn c u c' (k : mstate world) s :
  ran (build_call_void (ERROR fn) []) c u c' -> ext c' f -> at_point f c k s ->
  step f k = MRaise (raise_error fn) s.
Proof.
  intros Hrun Hext [Ht Hm _]. rewrite (rest_build _ _ _ _ _ Hrun Hext) in Ht.
  unfold step. rewrite Ht. unfold step_call. simpl. by rewrite Hm.
Qed.

Lemma runs_error_if fn t t' cond b c k s :
  defd c k cond (VInt (z_of_bool b)) ->
  runs (emit_error_if cond fn t t') c k s (fun _ _ _ => True) (if b then Some fn else None).
Proof.
  intros [Hc _] u c' P Hrun HI Hok Hext Hat.
  unfold emit_error_if, emit_error_branch, emit_error_call in Hrun. unbind. walk. ext_back. ctx_forward. at_skip.
  match goal with R : ran (build (ICondBr _ _ _)) ?d _ _, A : at_point f ?d k s |- _ =>
    pose proof (run_condbr f _ _ _ b _ _ _ _ _ R ltac:(eassumption) A Hc) as Hbr end.
  destruct b.
  - match goal with Rp : ran (position v) ?d _ _, Re : ran (build_call_void _ _) ?d' _ _ |- _ =>
      eexists; split; [exact Hbr|]; eapply (raise_now _ _ _ _ _ _ Re ltac:(eassumption));
      eapply (at_enter f); [exact Hat|exact Rp|env_field|empty_block] end.
  - match goal with Rp : ran (position v0) ?d _ _ |- _ =>
      eexists; split; [exact Hbr|]; split; [eapply (at_enter f); [exact Hat|exact Rp|env_field|empty_block]|] end.
    split; [apply agree_goto, agree_refl|done].
Qed.

(** An operation that gives the specified result. *)
Definition gives (m : emit operand) c k s (r : sql_result) : Prop :=
  match r with
  | RVal v => runs m c k s (fun o c' k' => defd c' k' o v) None
  | RError fn => runs m c k s (fun _ _ _ => True) (Some fn)
  | RNull | RStuck => True
  end.

(** A value after the test for an error. *)
Lemma gives_checked (m : emit operand) fn t t' cond b c k s r :
  defd c k cond (VInt (z_of_bool b)) -> grows m ->
  (if b then r = RError fn else forall c1 k1, agree c k k1 -> le_ctx c c1 -> gives m c1 k1 s r) ->
  gives (emit_error_if cond fn t t' ;;; m) c k s r.
Proof.
  intros Hc Hg Hr. pose proof (runs_error_if fn t t' cond b c k s Hc) as He. destruct b.
  - subst r. eapply runs_bind_err; [done|exact He].
  - assert (Hb : forall Q err, (forall c1 k1, agree c k k1 -> le_ctx c c1 -> runs m c1 k1 s Q err) ->
      runs (emit_error_if cond fn t t' ;;; m) c k s Q err).
    { intros Q err Hm. eapply runs_bind; [bind_side|bind_side|by intro|exact He|]. intros. by apply Hm. }
    destruct r; try done; apply Hb; intros c1 k1 G L; exact (Hr c1 k1 G L).
Qed.

Lemma gives_bind {A} (m : emit A) (K : A -> emit operand) c k s R r :
  emits any m -> grows m -> (forall a, grows (K a)) -> runs m c k s R None ->
  (forall a c1 k1, le_ctx c c1 -> agree c k k1 -> R a c1 k1 -> gives (K a) c1 k1 s r) ->
  gives (bind m K) c k s r.
Proof.
  intros He Hg HgK Hm HK. destruct r; try done; (eapply runs_bind; [done|done|done|exact Hm|exact HK]).
Qed.

Lemma gives_val m c k s v : runs m c k s (fun o c' k' => defd c' k' o v) None -> gives m c k s (RVal v).
Proof. done. Qed.

(** ** Code that opens blocks

    The same with the set of the blocks still to be filled, before and after. *)

Definition runs_open {A} (P : gset nat) (m : emit A) c (k : mstate world) s
    (Q : A -> UPL_compile_ctx -> mstate world -> gset nat -> Prop) (err : option err_fn) : Prop :=
  forall a c', m c = Success (a, c') -> inv c P -> ctx_ok c -> ext c' f -> at_point f c k s ->
    match err with
    | None => exists k' P', steps f k k' /\ at_point f c' k' s /\ agree c k k' /\ Q a c' k' P'
                            /\ inv c' P' /\ env c' = env c
    | Some fn => exists k', steps f k k' /\ step f k' = MRaise (raise_error fn) s
    end.

Lemma runs_close {A} (m : emit A) c k s Q err :
  (forall P, runs_open P m c k s (fun a c' k' _ => Q a c' k') err) -> runs m c k s Q err.
Proof.
  intros Hm a c' P Hrun HI Hok Hext Hat. specialize (Hm P a c' Hrun HI Hok Hext Hat).
  destruct err; [done|]. destruct Hm as (k' & P' & S1 & A1 & G1 & Q1 & _). by exists k'.
Qed.

Lemma runs_opened {A} P (m : emit A) c k s R Q :
  emits any m -> runs m c k s R None ->
  (forall a c1 k1, R a c1 k1 -> Q a c1 k1 P) -> runs_open P m c k s Q None.
Proof.
  intros Hem Hm HQ a c' Hrun HI Hok Hext Hat.
  destruct (Hem _ _ _ _ Hrun HI) as ((I1 & E1 & _) & _).
  destruct (Hm _ _ _ Hrun HI Hok Hext Hat) as (k' & S1 & A1 & G1 & Q1). exists k', P. split_and!; auto.
Qed.

Lemma runs_open_bind {A B} P (m : emit A) (K : A -> emit B) c k s R Q err :
  grows m -> (forall a, grows (K a)) -> runs_open P m c k s R None ->
  (forall a c1 k1 P1, le_ctx c c1 -> agree c k k1 -> R a c1 k1 P1 -> runs_open P1 (K a) c1 k1 s Q err) ->
  runs_open P (bind m K) c k s Q err.
Proof.
  intros Hg HgK Hm HK b c' Hrun HI Hok Hext Hat.
  apply bind_Success in Hrun as (a & c1 & R1 & R2).
  pose proof (Hg _ _ _ R1) as L1. pose proof (HgK _ _ _ _ R2) as L2.
  destruct (Hm _ _ R1 HI Hok (ext_le _ _ _ L2 Hext) Hat) as (k1 & P1 & S1 & A1 & G1 & Q1 & I1 & E1).
  assert (Hok1 : ctx_ok c1) by (by eapply ctx_ok_le).
  specialize (HK a c1 k1 P1 L1 G1 Q1 _ _ R2 I1 Hok1 Hext A1). destruct err as [fn|].
  - destruct HK as (k2 & S2 & E2). exists k2. split; [by eapply steps_trans|done].
  - destruct HK as (k2 & P2 & S2 & A2 & G2 & Q2 & I2 & E2). exists k2, P2.
    split; [by eapply steps_trans|]. split; [done|]. split; [by eapply agree_trans|].
    split; [done|]. split; [done|]. congruence.
Qed.

Lemma runs_open_err {A B} P (m : emit A) (K : A -> emit B) c k s R Q fn :
  (forall a, grows (K a)) -> runs_open P m c k s R (Some fn) -> runs_open P (bind m K) c k s Q (Some fn).
Proof.
  intros HgK Hm b c' Hrun HI Hok Hext Hat.
  apply bind_Success in Hrun as (a & c1 & R1 & R2). pose proof (HgK _ _ _ _ R2) as L2.
  exact (Hm _ _ R1 HI Hok (ext_le _ _ _ L2 Hext) Hat).
Qed.

Lemma runs_append P name c k s :
  runs_open P (append_block name) c k s (fun b c' k' P' => P' = {[b]} ∪ P /\ b ∉ P) None.
Proof.
  intros b c' Hrun HI Hok Hext Hat. destruct (append_inv _ _ _ _ _ Hrun HI) as ((I1 & E1 & _) & Hn & _).
  destruct (quiet_append _ _ _ _ Hrun) as [Hq _]. exists k, ({[b]} ∪ P).
  split; [apply rtc_refl|]. split; [by apply (at_quiet f c c' k s Hq); [rewrite E1|]|].
  split; [apply agree_refl|done].
Qed.

Lemma runs_error_branch P cond bad good fn b c k s :
  defd c k cond (VInt (z_of_bool b)) -> bad ∈ P -> good ∈ P -> bad <> good ->
  runs_open P (emit_error_branch cond bad good fn) c k s (fun _ _ _ P' => P' = P ∖ {[bad]} ∖ {[good]})
    (if b then Some fn else None).
Proof.
  intros [Hc _] Hbad Hgood Hne u c' Hrun HI Hok Hext Hat.
  pose proof (in_pending _ _ HI _ Hbad) as [Hb _]. pose proof (in_pending _ _ HI _ Hgood) as [Hg _].
  unfold emit_error_branch, emit_error_call in Hrun. unbind. walk. ext_back. ctx_forward.
  match goal with R : ran (build (ICondBr _ _ _)) ?d _ _, A : at_point f ?d k s |- _ =>
    pose proof (run_condbr f _ _ _ b _ _ _ _ _ R ltac:(eassumption) A Hc) as Hbr end.
  destruct b.
  - match goal with Rp : ran (position bad) ?d _ _, Re : ran (build_call_void _ _) ?d' _ _ |- _ =>
      eexists; split; [exact Hbr|]; eapply (raise_now _ _ _ _ _ _ Re ltac:(eassumption));
      eapply (at_enter f); [exact Hat|exact Rp|env_field|empty_block] end.
  - match goal with Rp : ran (position good) ?d _ _ |- _ =>
      eexists _, _; split; [exact Hbr|]; split; [eapply (at_enter f); [exact Hat|exact Rp|env_field|empty_block]|] end.
    split; [apply agree_goto, agree_refl|]. split; [reflexivity|]. split; [done|env_field].
Qed.

Lemma runs_open_op P op args vs v c k s :
  arg_values (regs k) args = Some vs -> eval_op op vs = Some v ->
  runs_open P (build_op op args) c k s (fun o c' k' P' => defd c' k' o v /\ P' = P) None.
Proof.
  intros Ha Hv. eapply runs_opened; [eapply emits_any, emits_build_op|by eapply runs_op|]. by intros.
Qed.

Lemma grows_error_branch cond bad good fn : grows (emit_error_branch cond bad good fn).
Proof. unfold emit_error_branch, emit_error_call. grows_auto. Qed.
#[local] Hint Resolve grows_error_branch : grows.

Lemma runs_open_weaken {A} P (m : emit A) c k s (R Q : A -> _ -> _ -> _ -> Prop) err :
  runs_open P m c k s R err -> (forall a c' k' P', R a c' k' P' -> Q a c' k' P') -> runs_open P m c k s Q err.
Proof.
  intros Hm HQ a c' Hrun HI Hok Hext Hat. specialize (Hm _ _ Hrun HI Hok Hext Hat). destruct err; [done|].
  destruct Hm as (k' & P' & S1 & A1 & G1 & Q1 & I1). exists k', P'. do 3 (split; [done|]). split; [by apply HQ|done].
Qed.

Lemma runs_open_ret {A} P (a : A) c k s (Q : A -> _ -> _ -> _ -> Prop) : Q a c k P -> runs_open P (ret a) c k s Q None.
Proof.
  intros Hq b c' [= <- <-] HI Hok He Hat. exists k, P. split_and!; [apply rtc_refl|done|apply agree_refl|done..].
Qed.

Definition gives_open P (m : emit operand) c k s (r : sql_result) : Prop :=
  match r with
  | RVal v => runs_open P m c k s (fun o c' k' _ => defd c' k' o v) None
  | RError fn => runs_open P m c k s (fun _ _ _ _ => True) (Some fn)
  | RNull | RStuck => True
  end.

Lemma gives_close m c k s r : (forall P, gives_open P m c k s r) -> gives m c k s r.
Proof. intros Hm. destruct r; try done; apply runs_close; intros P; apply Hm. Qed.

Lemma gives_open_bind {A} P (m : emit A) (K : A -> emit operand) c k s R r :
  grows m -> (forall a, grows (K a)) -> runs_open P m c k s R None ->
  (forall a c1 k1 P1, le_ctx c c1 -> agree c k k1 -> R a c1 k1 P1 -> gives_open P1 (K a) c1 k1 s r) ->
  gives_open P (bind m K) c k s r.
Proof. intros Hg HgK Hm HK. destruct r; try done; (eapply runs_open_bind; [done|done|exact Hm|exact HK]). Qed.

(** An operation that may raise, and the use of its value. *)
Lemma gives_open_first P (m : emit operand) (K : operand -> emit operand) c k s r :
  emits any m -> grows m -> (forall a, grows (K a)) -> gives m c k s r ->
  (forall v o c1 k1, r = RVal v -> le_ctx c c1 -> agree c k k1 -> defd c1 k1 o v -> gives_open P (K o) c1 k1 s r) ->
  gives_open P (bind m K) c k s r.
Proof.
  intros Hem Hg HgK Hm HK. destruct r as [v| |fn|]; try done.
  - eapply (runs_open_bind _ _ _ _ _ _ (fun o c' k' P' => defd c' k' o v /\ P' = P)); [done|done|..].
    + eapply runs_opened; [done|exact Hm|]. by intros.
    + intros o c1 k1 P1 L G [D ->]. by apply (HK v o).
  - eapply (runs_open_err _ _ _ _ _ _ (fun _ _ _ _ => True)); [done|]. intros a c' Hrun HI. by eapply Hm.
Qed.

Lemma gives_opened P m c k s r : emits any m -> gives m c k s r -> gives_open P m c k s r.
Proof.
  intros Hem Hm. destruct r; try done; [by eapply runs_opened|]. intros a c' Hrun HI. by eapply Hm.
Qed.

Lemma gives_open_branch P (m : emit operand) cond bad good fn b c k s r :
  defd c k cond (VInt (z_of_bool b)) -> bad ∈ P -> good ∈ P -> bad <> good -> grows m ->
  (if b then r = RError fn
   else forall c1 k1, agree c k k1 -> le_ctx c c1 -> gives_open (P ∖ {[bad]} ∖ {[good]}) m c1 k1 s r) ->
  gives_open P (emit_error_branch cond bad good fn ;;; m) c k s r.
Proof.
  intros Hc Hbad Hgood Hne Hg Hr. pose proof (runs_error_branch P cond bad good fn b c k s Hc Hbad Hgood Hne) as He.
  destruct b.
  - subst r. eapply runs_open_err; [done|exact He].
  - eapply gives_open_bind; [bind_side|by intro|exact He|]. intros ? c1 k1 P1 L G ->. by apply Hr.
Qed.

(** The value that comes in over an edge. *)
Definition assigned (c' : UPL_compile_ctx) (r : nat) (x : value) (k : mstate world) : mstate world :=
  mk_mstate (rest f c') (mcore k) (<[r := x]> (regs k)) (slots k).

Lemma run_incoming phi r v c u c' (k : mstate world) s :
  ran (build (IOp phi OpMove [r])) c u c' -> ext c' f -> at_point f c k s ->
  operand_value (regs k) r = Some v -> phi <> plstate (env c) ->
  steps f k (assigned c' phi v k) /\ at_point f c' (assigned c' phi v k) s.
Proof.
  intros Hb He Hat Hv Hne. destruct (at_build f _ _ _ _ _ _ Hb He Hat) as [Ht Hen].
  destruct Hat as [_ Hm Hp]. split.
  - apply steps_one. unfold step. rewrite Ht. unfold arg_values. simpl. by rewrite Hv.
  - split; [done|done|]. simpl. by rewrite Hen, lookup_insert_ne.
Qed.

Lemma agree_assigned c c' r x (k k' : mstate world) :
  next_reg (bld c) <= r -> agree c k k' -> agree c k (assigned c' r x k').
Proof.
  intros Hn [Hr Hs]. split; [|done]. intros m Hm. simpl. rewrite lookup_insert_ne by lia. auto.
Qed.

Lemma fresh_reg_facts c r c' :
  ran fresh_reg c r c' ->
  r = next_reg (bld c) /\ next_reg (bld c') = S (next_reg (bld c)) /\ quiet c c' /\ env c' = env c.
Proof. by intros [= <- <-]. Qed.

(** The end of a branch: its value becomes the value of the whole. *)
Lemma runs_open_join P r v b c k s :
  defd c k r v -> b ∈ P ->
  runs_open P (phi <-- fresh_reg; incoming phi r ;;; build (IBr b) ;;; position b ;;; ret (OReg phi)) c k s
    (fun o c' k' _ => defd c' k' o v) None.
Proof.
  intros [Hr Hlt] Hb o c' Hrun HI Hok Hext Hat.
  pose proof (in_pending _ _ HI _ Hb) as [Hnb _]. pose proof (co_plstate _ Hok) as Hpl.
  unfold incoming in Hrun. unbind. walk. ext_back. ctx_forward.
  match goal with R : ran fresh_reg _ _ _ |- _ => destruct (fresh_reg_facts _ _ _ R) as (-> & Hn & Hq & E0) end.
  assert (A0 : at_point f c0 k s) by (apply (at_quiet f c c0 k s Hq); [by rewrite E0|done]).
  match goal with Ri : ran (build (IOp _ _ _)) _ _ ?d, Rb : ran (build (IBr _)) _ _ _, Rp : ran (position _) _ _ _ |- _ =>
    destruct (run_incoming _ _ v _ _ _ k s Ri ltac:(eassumption) A0 Hr ltac:(rewrite E0; lia)) as [S1 A1];
    pose proof (run_br f _ _ _ _ _ _ Rb ltac:(eassumption) A1) as S2;
    exists (goto f b (assigned d (next_reg (bld c)) v k)); eexists;
    split; [by eapply steps_trans|]; split; [eapply (at_enter f); [exact A1|exact Rp|env_field|empty_block]|]
  end.
  split; [apply agree_goto, agree_assigned; [lia|apply agree_refl]|].
  split; [|split; [eassumption|env_field]].
  split; [simpl; by rewrite lookup_insert_eq|]. rewrite <- Nat.le_succ_l, <- Hn. eapply le_reg. le_chain.
Qed.

(** ** Values with their class *)

(** A value with its class. *)
Definition evaluates (m : emit (operand * ExprTypeClass)) c k s (t : ExprTypeClass) (r : sql_result) : Prop :=
  match r with
  | RVal v => runs m c k s (fun p c' k' => defd c' k' p.1 v /\ p.2 = t) None
  | RError fn => runs m c k s (fun _ _ _ => True) (Some fn)
  | RNull | RStuck => True
  end.

Lemma evaluates_typed (m : emit operand) c k s t r :
  emits any m -> grows m -> gives m c k s r -> evaluates (v <-- m; ret (v, t)) c k s t r.
Proof.
  intros He Hg Hm. destruct r as [v| |fn|]; try done.
  - eapply runs_bind; [done|done|bind_side|exact Hm|]. intros o c1 k1 L G D. by apply runs_ret.
  - eapply (runs_bind_err _ _ _ _ _ (fun _ _ _ => True)); [bind_side|exact Hm].
Qed.

Lemma evaluates_ret o v c k s t : defd c k o v -> evaluates (ret (o, t)) c k s t (RVal v).
Proof. intros Ho. by apply runs_ret. Qed.

(** Code whose result stands for a value, as [V] says: [gives] and [evaluates]. *)
Definition results {A} (V : A -> value -> UPL_compile_ctx -> mstate world -> Prop) (m : emit A) c k s
    (r : sql_result) : Prop :=
  match r with
  | RVal v => runs m c k s (fun a c' k' => V a v c' k') None
  | RError fn => runs m c k s (fun _ _ _ => True) (Some fn)
  | RNull | RStuck => True
  end.

Lemma results_bind {A B} V (m : emit A) (K : A -> emit B) c k s R r :
  emits any m -> grows m -> (forall a, grows (K a)) -> runs m c k s R None ->
  (forall a c1 k1, le_ctx c c1 -> agree c k k1 -> R a c1 k1 -> results V (K a) c1 k1 s r) ->
  results V (bind m K) c k s r.
Proof.
  intros He Hg HgK Hm HK. destruct r; try done; (eapply runs_bind; [done|done|done|exact Hm|exact HK]).
Qed.

(** The use of a strict result. *)
Lemma results_strict1 {A B} (V : A -> value -> _ -> _ -> Prop) W (m : emit A) (K : A -> emit B) c k s r g :
  emits any m -> grows m -> (forall a, grows (K a)) -> results V m c k s r -> r <> RNull ->
  (forall a v c1 k1, r = RVal v -> le_ctx c c1 -> agree c k k1 -> V a v c1 k1 -> results W (K a) c1 k1 s (g v)) ->
  results W (bind m K) c k s (strict1 r g).
Proof.
  intros He Hg HgK Hm Hn HK. destruct r as [v| |fn|]; try done; simpl.
  - eapply results_bind; [done|done|done|exact Hm|]. intros a c1 k1 L G D. by apply HK.
  - eapply (runs_bind_err _ _ _ _ _ (fun _ _ _ => True)); [done|exact Hm].
Qed.

(** Two strict results, the left one first. *)
Lemma results_strict2 {A B} (V : A -> value -> _ -> _ -> Prop) W (m1 m2 : emit A) (K : A -> A -> emit B)
    c k s r1 r2 g :
  emits any m1 -> grows m1 -> emits any m2 -> grows m2 -> (forall p q, grows (K p q)) ->
  (forall a v c1 c2 k1 k2, agree c1 k1 k2 -> le_ctx c1 c2 -> V a v c1 k1 -> V a v c2 k2) ->
  results V m1 c k s r1 -> (forall c1 k1, results V m2 c1 k1 s r2) -> r1 <> RNull -> r2 <> RNull ->
  (forall a b v w c2 k2, r1 = RVal v -> r2 = RVal w -> V a v c2 k2 -> V b w c2 k2 ->
     results W (K a b) c2 k2 s (g v w)) ->
  results W (p <-- m1; q <-- m2; K p q) c k s (strict2 r1 r2 g).
Proof.
  intros He1 Hg1 He2 Hg2 HgK HV Hm1 Hm2 Hn1 Hn2 HK.
  assert (HgK' : forall p, grows (q <-- m2; K p q)) by (intros p; grows_auto).
  assert (E : strict2 r1 r2 g = strict1 r1 (fun v => strict1 r2 (g v))) by by destruct r1, r2.
  rewrite E. eapply results_strict1; [done|done|done|exact Hm1|done|]. intros a v c1 k1 Ev _ _ D.
  eapply results_strict1; [done|done|done|apply Hm2|done|]. intros b w c2 k2 Ew L G D2.
  apply HK; [done|done| |done]. by eapply HV.
Qed.

(** One operand, two operands. *)
Definition typed_as (t : ExprTypeClass) (p : operand * ExprTypeClass) (v : value) c (k : mstate world) : Prop :=
  defd c k p.1 v /\ p.2 = t.

Lemma results_operand {B} V (m : emit (operand * ExprTypeClass)) (K : _ -> emit B) c k s t r g :
  emits any m -> grows m -> (forall p, grows (K p)) -> evaluates m c k s t r -> r <> RNull ->
  (forall a v c1 k1, r = RVal v -> defd c1 k1 a v -> results V (K (a, t)) c1 k1 s (g v)) ->
  results V (bind m K) c k s (strict1 r g).
Proof.
  intros He Hg HgK Hm Hn HK. apply (results_strict1 (typed_as t)); [done|done|done|exact Hm|done|].
  intros [a t'] v c1 k1 Ev _ _ [D E]. simpl in *. subst t'. by apply HK.
Qed.

Lemma results_operands {B} V (m1 m2 : emit (operand * ExprTypeClass)) (K : _ -> _ -> emit B) c k s t1 t2 r1 r2 g :
  emits any m1 -> grows m1 -> emits any m2 -> grows m2 -> (forall p q, grows (K p q)) ->
  evaluates m1 c k s t1 r1 -> (forall c1 k1, evaluates m2 c1 k1 s t2 r2) ->
  r1 <> RNull -> r2 <> RNull ->
  (forall a b v w c2 k2, r1 = RVal v -> r2 = RVal w -> defd c2 k2 a v -> defd c2 k2 b w ->
     results V (K (a, t1) (b, t2)) c2 k2 s (g v w)) ->
  results V (p <-- m1; q <-- m2; K p q) c k s (strict2 r1 r2 g).
Proof.
  intros He1 Hg1 He2 Hg2 HgK Hm1 Hm2 Hn1 Hn2 HK.
  assert (HgK' : forall p, grows (q <-- m2; K p q)) by (intros p; grows_auto).
  assert (E : strict2 r1 r2 g = strict1 r1 (fun v => strict1 r2 (g v))) by by destruct r1, r2.
  rewrite E. apply (results_strict1 (typed_as t1)); [done|done|done|exact Hm1|done|].
  intros [a t] v c1 k1 Ev _ _ [D Et]. simpl in Et. subst t.
  apply (results_strict1 (typed_as t2)); [done|done|done|apply Hm2|done|].
  intros [b t] w c2 k2 Ew L G [D2 Et]. simpl in Et. subst t. apply HK; auto. by eapply defd_carry.
Qed.

End rules.

Arguments runs {world _} f {A} m%_emit_scope c k s Q err.
Arguments gives {world _} f m%_emit_scope c k s r.
Arguments runs_open {world _} f {A} P m%_emit_scope c k s Q err.
Arguments gives_open {world _} f P m%_emit_scope c k s r.
Arguments evaluates {world _} f m%_emit_scope c k s t r.
Arguments results {world _} f {A} V m%_emit_scope c k s r.
Arguments assigned {world} f c' r x k.
#[export] Hint Resolve grows_error_branch : grows.

(** ** Tactics *)

(** What is computed before is still there. *)
Ltac carry :=
  match goal with
  | L : le_ctx ?c ?c1, G : agree ?c ?k ?k1 |- _ =>
      repeat match goal with D : defd c k ?o ?v |- _ => apply (defd_carry _ _ _ _ _ _ G L) in D end;
      clear L G
  end.
Ltac find_args :=
  solve [ eapply args1; (eassumption || apply defd_const)
        | eapply args2; (eassumption || apply defd_const)
        | eapply args3; (eassumption || apply defd_const) ].
Ltac run_op := eapply runs_op; [find_args|reflexivity].
(** Run the first of a sequence by [t]. *)
Ltac bind_by t := eapply runs_bind; [bind_side|bind_side|bind_side|t|let D := fresh "D" in intros ? ? ? ? ? D; cbv beta in D; carry].
Ltac op_step := bind_by run_op.
Ltac gives_by t := eapply gives_bind; [bind_side|bind_side|bind_side|t|let D := fresh "D" in intros ? ? ? ? ? D; cbv beta in D; carry].
Ltac gives_op := gives_by run_op.
Ltac open_by t :=
  eapply runs_open_bind; [bind_side|bind_side|t|
    let D := fresh "D" in intros ? ? ? ? ? ? D; cbv beta in D; carry;
    try (destruct D as [D ->]); try subst].
Ltac open_append := eapply runs_open_bind; [bind_side|bind_side|apply runs_append|
  let D := fresh "Hn" in intros ? ? ? ? ? ? [-> D]; carry].
Ltac open_op := open_by ltac:(eapply runs_open_op; [find_args|reflexivity]).
Ltac giveo_by t :=
  eapply gives_open_bind; [bind_side|bind_side|t|
    let D := fresh "D" in intros ? ? ? ? ? ? D; cbv beta in D; carry; destruct D as [D ->]].
Ltac giveo_append := eapply gives_open_bind; [bind_side|bind_side|apply runs_append|
  let D := fresh "Hn" in intros ? ? ? ? ? ? [-> D]; carry].
Ltac giveo_op := giveo_by ltac:(eapply runs_open_op; [find_args|reflexivity]).
