(* ===== verification/NativeRun.v ===== *)
(** * Running the code for native arrays

    What the code of an assignment a[i] := v to a native array does on the machine with
    flat memory (file FlatMachine).  [flows m c k sl s h Q] says that from the point [c] of
    the compilation, with the slots [sl], the execution state [s] and the memory [h], the
    code emitted by [m] reaches the point after it, with the slots, the state and the
    memory that [Q] describes; no register that existed at [c] changes. *)

From Stdlib Require Import ZArith Lia SpecFloat.
From S2P Require Import Prelude Ast Escape Expr Float Exec Assign IR CoreEmit StmtEmit ExprEmit Wellformed.
From S2P Require Import Memory NativeArray NativeStore Machine FlatMachine Growth ExprWf SimRel Runs.
#[local] Open Scope Z_scope.

Lemma bind_ret {A B} (a : A) (K : A -> emit B) : bind (ret a) K = K a.
Proof. reflexivity. Qed.
#[local] Opaque bind.

(** The register of the function's state exists. *)
Definition plok (c : UPL_compile_ctx) : Prop := (plstate (env c) < next_reg (bld c))%nat.

Lemma plok_le c c' : le_ctx c c' -> env c' = env c -> plok c -> plok c'.
Proof. unfold plok. intros [_ Hr _] He Hp. rewrite He. lia. Qed.

Section flows.
Context {world : Type} `{PgEnv world} `{PgMemory} `{PgArrays world} `{CompileEnv}.
Context {f : ir_function}.

Definition regs_kept (c : UPL_compile_ctx) (k k' : mstate world) : Prop :=
  forall r, (r < next_reg (bld c))%nat -> regs k' !! r = regs k !! r.

Lemma regs_kept_refl c (k : mstate world) : regs_kept c k k.
Proof. done. Qed.
Lemma regs_kept_trans c c' (k k1 k2 : mstate world) :
  regs_kept c k k1 -> regs_kept c' k1 k2 -> le_ctx c c' -> regs_kept c k k2.
Proof. intros K1 K2 [_ Hl _] r Hr. rewrite K2 by lia. auto. Qed.
Lemma regs_kept_le c c' (k k' : mstate world) : le_ctx c c' -> regs_kept c' k k' -> regs_kept c k k'.
Proof. intros Hl Hk. eapply regs_kept_trans; [apply regs_kept_refl|exact Hk|exact Hl]. Qed.
Lemma regs_kept_set c (k : mstate world) more s v sl :
  regs_kept c k (mk_mstate more s (<[next_reg (bld c) := v]> (regs k)) sl).
Proof. intros r Hr. simpl. by rewrite lookup_insert_ne by lia. Qed.

Lemma defd_kept c c' (k k' : mstate world) o v :
  regs_kept c k k' -> le_ctx c c' -> defd c k o v -> defd c' k' o v.
Proof.
  intros Hr [_ Hle _] [Hv Ho]. destruct o as [r|]; [|done]. split; [|lia].
  simpl in *. by rewrite Hr.
Qed.

Definition flows {A} (m : emit A) (c : UPL_compile_ctx) (k : mstate world) (sl : gmap nat value)
    (s : execstate world) (h : heap)
    (Q : A -> UPL_compile_ctx -> mstate world -> gmap nat value -> execstate world -> heap -> Prop) : Prop :=
  forall a c' P, m c = Success (a, c') -> inv c P -> plok c -> ext c' f -> at_point f c k s -> slots k = sl ->
    exists k' sl' s' h', fsteps f (k, h) (k', h') /\ at_point f c' k' s' /\ slots k' = sl'
      /\ regs_kept c k k' /\ Q a c' k' sl' s' h'.

Lemma flows_ret {A} (a : A) c k sl s h (Q : A -> _ -> _ -> _ -> _ -> _ -> Prop) :
  Q a c k sl s h -> flows (ret a) c k sl s h Q.
Proof.
  intros Hq b c' P [= <- <-] HI Hok He Hat Hs. exists k, sl, s, h. split; [apply rtc_refl|]. by split_and!.
Qed.

Lemma flows_bind {A B} E (m : emit A) (K : A -> emit B) c k sl s h R Q :
  emits E m -> grows m -> (forall a, grows (K a)) -> flows m c k sl s h R ->
  (forall a c1 k1 sl1 s1 h1, E a -> le_ctx c c1 -> regs_kept c k k1 -> R a c1 k1 sl1 s1 h1 ->
     flows (K a) c1 k1 sl1 s1 h1 Q) ->
  flows (bind m K) c k sl s h Q.
Proof.
  intros Hem Hg HgK Hm HK b c' P Hrun HI Hok Hext Hat Hsl.
  apply bind_Success in Hrun as (a & c1 & R1 & R2).
  destruct (Hem _ _ _ _ R1 HI) as ((I1 & E1 & _) & Ha). pose proof (Hg _ _ _ R1) as L1.
  pose proof (HgK _ _ _ _ R2) as L2. assert (Hext1 : ext c1 f) by (by eapply ext_le).
  destruct (Hm _ _ _ R1 HI Hok Hext1 Hat Hsl) as (k1 & sl1 & s1 & h1 & S1 & A1 & Es1 & G1 & Q1).
  assert (Hok1 : plok c1) by (by eapply plok_le).
  destruct (HK a c1 k1 sl1 s1 h1 Ha L1 G1 Q1 _ _ _ R2 I1 Hok1 Hext A1 Es1)
    as (k2 & sl2 & s2 & h2 & S2 & A2 & Es2 & G2 & Q2).
  exists k2, sl2, s2, h2. split; [by eapply fsteps_trans|]. split; [done|]. split; [done|].
  split; [by eapply regs_kept_trans|done].
Qed.

Lemma flows_weaken {A} (m : emit A) c k sl s h (R Q : A -> _ -> _ -> _ -> _ -> _ -> Prop) :
  flows m c k sl s h R -> (forall a c' k' sl' s' h', R a c' k' sl' s' h' -> Q a c' k' sl' s' h') ->
  flows m c k sl s h Q.
Proof.
  intros Hm HQ a c' P Hrun HI Hok Hext Hat Hs.
  destruct (Hm _ _ _ Hrun HI Hok Hext Hat Hs) as (k' & sl' & s' & h' & S1 & A1 & E1 & G1 & Q1).
  exists k', sl', s', h'. auto 6.
Qed.

(** Continue after a piece of code. *)
Lemma flows_then {A} (m : emit A) c k sl s h Q a c' P (G : Prop) :
  flows m c k sl s h Q -> ran m c a c' -> inv c P -> plok c -> ext c' f -> at_point f c k s -> slots k = sl ->
  (forall k' sl' s' h', fsteps f (k, h) (k', h') -> at_point f c' k' s' -> slots k' = sl' ->
     regs_kept c k k' -> Q a c' k' sl' s' h' -> G) -> G.
Proof.
  intros Hm Hrun HI Hok He Hat Hs HG.
  destruct (Hm a c' P Hrun HI Hok He Hat Hs) as (k' & sl' & s' & h' & ? & ? & ? & ? & ?). by eapply HG.
Qed.

Lemma fsteps_one (m : mstate world) h b : fstep f (m, h) = FNext b -> fsteps f (m, h) b.
Proof. intros Hs. by apply rtc_once. Qed.

Lemma lt_slot c c' n : le_ctx c c' -> (n < next_slot (bld c))%nat -> (n < next_slot (bld c'))%nat.
Proof. intros [_ _ Hl]. lia. Qed.
Lemma slot_ne c m n : (m < next_slot (bld c))%nat -> n = next_slot (bld c) -> m <> n.
Proof. lia. Qed.
Lemma le_slot_later c c' n : le_ctx c c' -> (n <= next_slot (bld c))%nat -> (n <= next_slot (bld c'))%nat.
Proof. intros [_ _ Hl]. lia. Qed.
Lemma slot_ge c m n : (m <= next_slot (bld c))%nat -> n = next_slot (bld c) -> (m <= n)%nat.
Proof. lia. Qed.
Lemma slot_old c p m n : (m < next_slot (bld c))%nat -> p = next_slot (bld c) -> (p <= n)%nat -> m <> n.
Proof. lia. Qed.
Lemma slot_new c' n : next_slot (bld c') = S n -> (n < next_slot (bld c'))%nat.
Proof. lia. Qed.

(** ** Instructions *)

(** An instruction that writes a fresh register. *)
Lemma flows_value (mk : nat -> instr) c k sl s h v :
  (forall r m more, todo m = mk r :: more -> mcore m = s -> regs m = regs k -> slots m = sl ->
     fstep f (m, h) = FNext (mk_mstate more (mcore m) (<[r := v]> (regs m)) (slots m), h)) ->
  flows (build_value mk) c k sl s h
    (fun o c' k' sl' s' h' => defd c' k' o v /\ sl' = sl /\ s' = s /\ h' = h).
Proof.
  intros Hstep o c' P Hrun HI Hok Hext Hat Hsl.
  pose proof (at_build_value f _ _ _ _ _ _ Hrun Hext Hat) as Ht.
  destruct (build_value_reg _ _ _ _ Hrun) as (-> & Hr & _ & Hen). destruct Hat as [_ Hm Hp].
  eexists _, sl, s, h. split; [apply fsteps_one; by apply (Hstep _ _ _ Ht)|].
  split; [|split; [done|split; [apply regs_kept_set|]]].
  - split; [done|done|]. simpl. rewrite Hen, lookup_insert_ne; [done|]. unfold plok in Hok. lia.
  - split; [|done]. split; [simpl; by rewrite lookup_insert_eq|]. rewrite Hr. lia.
Qed.

(** The same, with a step of the first machine. *)
Lemma fstep_of_step (m m' : mstate world) h : step f m = MNext m' -> fstep f (m, h) = FNext (m', h).
Proof. intros Hs. unfold fstep. simpl. by rewrite Hs. Qed.
Lemma fstep_of_flat (m : mstate world) h b : step f m = MStuck -> flat_step m h = b -> fstep f (m, h) = b.
Proof. intros Hs Hf. unfold fstep. simpl. by rewrite Hs. Qed.

Lemma flows_op op args vs v c k sl s h :
  arg_values (regs k) args = Some vs -> eval_op op vs = Some v ->
  flows (build_op op args) c k sl s h (fun o c' k' sl' s' h' => defd c' k' o v /\ sl' = sl /\ s' = s /\ h' = h).
Proof.
  intros Ha Hv. apply flows_value. intros r m more Ht Hm Hr Hsl. apply fstep_of_step.
  unfold step. rewrite Ht, Hr, Ha, Hv. unfold set_reg. by rewrite Hr.
Qed.

Lemma flows_load n v c k sl s h :
  sl !! n = Some v ->
  flows (build_value (fun r => ILoad r n)) c k sl s h
    (fun o c' k' sl' s' h' => defd c' k' o v /\ sl' = sl /\ s' = s /\ h' = h).
Proof.
  intros Hn. apply flows_value. intros r m more Ht Hm Hr Hsl. apply fstep_of_step.
  unfold step. rewrite Ht, Hsl, Hn. unfold set_reg. by rewrite Hsl.
Qed.

Lemma flows_not_null o v p c k sl s h :
  defd c k o v -> pointer_of_value v = Some p ->
  flows (build_op OpIsNotNull [o]) c k sl s h
    (fun r c' k' sl' s' h' => defd c' k' r (VInt (z_of_bool (if p is Some _ then true else false)))
       /\ sl' = sl /\ s' = s /\ h' = h).
Proof.
  intros Ho Hp. apply flows_value. intros r m more Ht Hm Hr Hsl.
  pose proof (args1 c k o v Ho) as Ha. apply fstep_of_flat.
  - unfold step. rewrite Ht, Hr, Ha. by destruct v.
  - unfold flat_step. rewrite Ht, Hr. destruct Ho as [-> _]. rewrite Hp. unfold define. by rewrite Hr.
Qed.

(** An instruction that writes no register. *)
Lemma flows_build i c k sl s h sl' s' h' :
  (forall m more, todo m = i :: more -> mcore m = s -> regs m = regs k -> slots m = sl ->
     fstep f (m, h) = FNext (mk_mstate more s' (regs m) sl', h')) ->
  flows (build i) c k sl s h (fun _ _ _ sl1 s1 h1 => sl1 = sl' /\ s1 = s' /\ h1 = h').
Proof.
  intros Hstep u c' P Hrun HI Hok Hext Hat Hsl.
  destruct (at_build f _ _ _ _ _ _ Hrun Hext Hat) as [Ht Hen]. destruct Hat as [_ Hm Hp].
  eexists _, sl', s', h'. split; [apply fsteps_one; by apply (Hstep _ _ Ht)|].
  split; [split; [done|done|by rewrite Hen]|]. by split_and!.
Qed.

Lemma flows_store o v n c k sl s h :
  defd c k o v ->
  flows (build (IStore o n)) c k sl s h (fun _ _ _ sl1 s1 h1 => sl1 = <[n := v]> sl /\ s1 = s /\ h1 = h).
Proof.
  intros [Ho _]. apply flows_build. intros m more Ht Hm Hr Hsl. apply fstep_of_step.
  unfold step. by rewrite Ht, Hr, Ho, Hm, Hsl.
Qed.

Lemma flows_alloca c k sl s h :
  flows build_alloca c k sl s h
    (fun n c' k' sl' s' h' => n = next_slot (bld c) /\ next_slot (bld c') = S n /\ sl' = delete n sl /\ s' = s /\ h' = h).
Proof.
  intros n c' P Hrun HI Hok Hext Hat Hsl. unfold build_alloca in Hrun.
  apply bind_Success in Hrun as (n1 & c1 & R1 & Hrun). injection R1 as <- <-.
  apply bind_Success in Hrun as (u & c2 & R2 & R3). injection R3 as <- <-.
  match type of R2 with build _ ?d = _ =>
    assert (A1 : at_point f d k s) by (apply (at_quiet f c); [done|done|exact Hat]) end.
  destruct (at_build f _ _ _ _ _ _ R2 Hext A1) as [Ht Hen]. destruct A1 as [_ Hm Hp].
  eexists (mk_mstate (rest f c2) s (regs k) (delete (next_slot (bld c)) sl)), _, s, h. split.
  { apply fsteps_one, fstep_of_step. unfold step. rewrite Ht, Hm, Hsl. reflexivity. }
  split; [split; [done|done|by rewrite Hen]|]. split; [done|]. split; [by intros r Hr|].
  split; [done|]. split; [|done]. by injection R2 as <- <-.
Qed.
(** ** Flags *)

(** An optional flag of the code, with its value; no flag is a flag that does not hold. *)
Definition flag_is (c : UPL_compile_ctx) (k : mstate world) (fl : option operand) (b : bool) : Prop :=
  match fl with None => b = false | Some o => defd c k o (VInt (z_of_bool b)) end.

Lemma flag_kept c c' (k k' : mstate world) fl b :
  regs_kept c k k' -> le_ctx c c' -> flag_is c k fl b -> flag_is c' k' fl b.
Proof. intros Hk Hl. destruct fl; [by apply defd_kept|done]. Qed.

(** Control, on the machine with memory. *)
Lemma frun_condbr v a b z c u c' (k : mstate world) s h :
  ran (build (ICondBr v a b)) c u c' -> ext c' f -> at_point f c k s ->
  defd c k v (VInt (z_of_bool z)) -> fsteps f (k, h) (goto f (if z then a else b) k, h).
Proof. intros Hb He Hat [Hv _]. apply fsteps_lift. by eapply run_condbr. Qed.

Lemma frun_br t c u c' (k : mstate world) s h :
  ran (build (IBr t)) c u c' -> ext c' f -> at_point f c k s -> fsteps f (k, h) (goto f t k, h).
Proof. intros Hb He Hat. apply fsteps_lift. by eapply run_br. Qed.
End flows.

(** ** Tactics *)
Ltac fcarry :=
  match goal with
  | L : le_ctx ?c ?c1, G : regs_kept ?c ?k ?k1 |- _ =>
      repeat match goal with
      | D : defd c k ?o ?v |- _ => apply (defd_kept _ _ _ _ _ _ G L) in D
      | D : flag_is c k ?o ?v |- _ => apply (flag_kept _ _ _ _ _ _ G L) in D
      | D : (_ < next_slot (bld c))%nat |- _ => apply (lt_slot _ _ _ L) in D
      | D : (_ <= next_slot (bld c))%nat |- _ => apply (le_slot_later _ _ _ L) in D
      end; clear L G
  end.
Ltac fsplit D :=
  first [ let D1 := fresh "D" in destruct D as (D1 & -> & -> & ->) | destruct D as (-> & -> & ->) | idtac ].
(** What is known of operands holds at the later point [c'], where the machine is [k']. *)
Ltac push c' k' kept :=
  repeat match goal with
  | D : defd ?c ?k ?o ?v |- _ =>
      first [constr_eq c c'; constr_eq k k'; fail 1 | idtac];
      let N := fresh "D" in
      assert (N : defd c' k' o v) by (eapply (defd_kept c c' k k'); [kept|le_chain|exact D]); clear D
  | D : flag_is ?c ?k ?o ?v |- _ =>
      first [constr_eq c c'; constr_eq k k'; fail 1 | idtac];
      let N := fresh "D" in
      assert (N : flag_is c' k' o v) by (eapply (flag_kept c c' k k'); [kept|le_chain|exact D]); clear D
  end.
Ltac plok_later :=
  match goal with Hp : plok ?c |- plok ?d =>
    eapply (plok_le c d); [le_chain|congruence|exact Hp] end.
(** Facts at the point [d], with the machine where it is. *)
Ltac here d := match goal with A : at_point ?f d ?k ?s |- _ => push d k ltac:(intros ? ?; reflexivity) end.
(** The way so far: [Run] are the steps, [Kept] says that no register changed. *)
Ltac start :=
  match goal with |- context [fsteps ?f (?k, ?h) _] =>
    match goal with |- context [regs_kept ?c k _] =>
      let R := fresh "Run" in assert (R : fsteps f (k, h) (k, h)) by apply rtc_refl;
      let K := fresh "Kept" in pose proof (regs_kept_refl c k : regs_kept c k k) as K end end.
Ltac advance S G :=
  match type of S with fsteps ?f (?k, ?h) (?k', ?h') =>
    match goal with R : fsteps f ?m (k, h), K : regs_kept ?c ?k0 k |- _ =>
      let R1 := fresh "Run" in pose proof (fsteps_trans f _ _ _ R S) as R1;
      let K1 := fresh "Kept" in
      assert (K1 : regs_kept c k0 k') by (eapply regs_kept_trans; [exact K|exact G|le_chain]);
      clear R K S G end end.
(** Continue in the block [n]. *)
Ltac enter n :=
  match goal with Rp : ran (position n) ?d _ ?d', A : at_point ?f _ ?k _ |- _ =>
    let A1 := fresh "At" in
    pose proof (at_enter _ n _ _ _ _ _ _ A Rp ltac:(congruence) ltac:(empty_block)) as A1; clear A;
    push d' (goto f n k) ltac:(intros ? ?; reflexivity);
    match goal with E : slots k = ?sl |- _ => change (slots (goto f n k) = sl) in E end end.
(** Take a branch on the condition [b], which is known, to the block [n]. *)
Ltac branch b n :=
  match goal with
  | R : ran (build (ICondBr _ _ _)) ?d _ ?d', A : at_point ?f ?d ?k ?s, S0 : fsteps ?f _ (?k, ?h) |- _ =>
    here d; let S := fresh in let G := fresh in
    pose proof (frun_condbr _ _ _ b _ _ _ _ _ h R ltac:(eassumption) A ltac:(eassumption)) as S;
    cbv iota in S;
    assert (G : regs_kept d k (goto f n k)) by (intros ? ?; reflexivity);
    advance S G; enter n end.
Ltac jump n :=
  match goal with
  | R : ran (build (IBr n)) ?d _ ?d', A : at_point ?f ?d ?k ?s, S0 : fsteps ?f _ (?k, ?h) |- _ =>
    here d; let S := fresh in let G := fresh in
    pose proof (frun_br _ _ _ _ _ _ h R ltac:(eassumption) A) as S;
    assert (G : regs_kept d k (goto f n k)) by (intros ? ?; reflexivity);
    advance S G; enter n end.
(** Run the next piece, by [t]. *)
Ltac flow_run t :=
  match goal with A : at_point ?f ?d ?k ?s, R : ran ?m ?d ?x ?d', E0 : slots ?k = ?sl,
                  S0 : fsteps ?f _ (?k, ?h) |- _ =>
    here d;
    let k1 := fresh "k" in let A1 := fresh "At" in let S := fresh "S" in let E := fresh "Es" in
    let G := fresh "G" in let D := fresh "D" in
    eapply (flows_then (f:=f) m d k sl s h _ x d' _);
      [t|exact R|eassumption|plok_later|eassumption|exact A|exact E0|];
    intros k1 ? ? ? S A1 E G D; cbv beta in D; fsplit D; clear A R;
    push d' k1 ltac:(eapply regs_kept_le; [le_chain|exact G]);
    advance S G end.
(** The end of the piece. *)
Ltac arrived :=
  eexists _, _, _, _; split; [eassumption|]; split; [eassumption|]; split; [eassumption|]; split; [eassumption|].
(** A lookup in the updated slots. *)
Ltac slot_simp :=
  repeat first [rewrite lookup_insert_eq | rewrite lookup_insert_ne by congruence
               | rewrite lookup_delete_ne by congruence].
(** Run the first of a sequence by [t]. *)
Ltac flow_by t :=
  first [eapply (flows_bind is_reg); [solve [eauto with emits|emits_auto]|bind_side|bind_side| |]
        |eapply (flows_bind any); [bind_side|bind_side|bind_side| |]];
  [t|let D := fresh "D" in intros ? ? ? ? ? ? ? ? ? D; cbv beta in D; fcarry; fsplit D].
Ltac run_fop := eapply flows_op; [find_args|reflexivity].
Ltac flow_op := flow_by run_fop.
Ltac flow_load := flow_by ltac:(eapply flows_load; eassumption).

Section pieces.
Context {world : Type} `{PgEnv world} `{PgMemory} `{PgArrays world} `{CompileEnv}.
Context {f : ir_function}.

Lemma flows_and_not cond fl a b c k sl s h :
  defd c k cond (VInt (z_of_bool a)) -> flag_is c k fl b ->
  flows (f:=f) (and_not cond fl) c k sl s h
    (fun o c' k' sl' s' h' => defd c' k' o (VInt (z_of_bool (a && negb b))) /\ sl' = sl /\ s' = s /\ h' = h).
Proof.
  intros Ha Hb. unfold and_not, flag_is in *. destruct fl as [o|].
  - flow_op. eapply flows_weaken; [run_fop|]. intros r c' k' sl' s' h' D1. cbv beta in D1. by rewrite not_flag, land_flags in D1.
  - subst b. rewrite andb_true_r. by apply flows_ret.
Qed.

Definition in_range_z (n l i : Z) : bool := (0 <=? n) && (l <=? i) && (i <=? wrap32 (wrap32 (l + n) - 1)).
Definition append_z (n l i : Z) : bool := (0 <=? n) && (i =? wrap32 (l + n)).

Lemma icmp_ge a b : icmp SGE a b = (b <=? a).
Proof. simpl. by rewrite Z.geb_leb. Qed.

#[local] Hint Resolve grows_and_not grows_clear_null grows_set_element grows_in_range grows_is_append
  grows_refresh_native_array grows_native_to_datum grows_type_info : grows.
#[local] Hint Resolve emits_and_not emits_clear_null emits_set_element emits_in_range emits_is_append : emits.

Lemma flows_in_range len lb idx fl n l i b c k sl s h :
  defd c k len (VInt n) -> defd c k lb (VInt l) -> defd c k idx (VInt i) -> flag_is c k fl b ->
  flows (f:=f) (emit_in_range len lb idx fl) c k sl s h
    (fun o c' k' sl' s' h' => defd c' k' o (VInt (z_of_bool (in_range_z n l i && negb b)))
       /\ sl' = sl /\ s' = s /\ h' = h).
Proof.
  intros Hn Hl Hi Hf. unfold emit_in_range.
  repeat flow_op. flags. rewrite !icmp_ge in *. by apply flows_and_not.
Qed.

Lemma flows_is_append len lb idx fl n l i b c k sl s h :
  defd c k len (VInt n) -> defd c k lb (VInt l) -> defd c k idx (VInt i) -> flag_is c k fl b ->
  flows (f:=f) (emit_is_append len lb idx fl) c k sl s h
    (fun o c' k' sl' s' h' => defd c' k' o (VInt (z_of_bool (append_z n l i && negb b)))
       /\ sl' = sl /\ s' = s /\ h' = h).
Proof.
  intros Hn Hl Hi Hf. unfold emit_is_append.
  repeat flow_op. flags. rewrite !icmp_ge in *. by apply flows_and_not.
Qed.
(** The flag of element [j] says that it is not NULL. *)
Definition flag_cleared (p : pointer) (j : nat) (h h' : heap) : Prop :=
  match p with
  | None => h' = h
  | Some nb => exists nl nl', h !! nb = Some (HeapBlock, nl) /\ store_flag j false nl = Some nl'
                 /\ h' = <[nb := (HeapBlock, nl')]> h
  end.

Lemma flows_store_flag nb j nl nl' o c k sl s h :
  o = OConst (VInt 0) -> h !! nb = Some (HeapBlock, nl) -> store_flag j false nl = Some nl' ->
  forall p i, defd c k p (VBuf nb) -> defd c k i (VInt (Z.of_nat j)) ->
  flows (f:=f) (build (IStoreNullFlag o p i)) c k sl s h
    (fun _ _ _ sl' s' h' => sl' = sl /\ s' = s /\ h' = <[nb := (HeapBlock, nl')]> h).
Proof.
  intros -> Hnb Hs p i [Hp _] [Hi _]. apply flows_build. intros m more Ht Hm Hr Hsl.
  apply fstep_of_flat; [unfold step; by rewrite Ht|].
  unfold flat_step. rewrite Ht. unfold operand_block, operand_index, operand_int. rewrite Hr, Hp, Hi.
  replace (Z.of_nat j <? 0) with false by (symmetry; apply Z.ltb_ge; lia). rewrite Nat2Z.id. simpl.
  unfold write, update_block. rewrite Hnb. change (bool_of_z 0) with false. rewrite Hs.
  unfold continue. by rewrite Hm, Hr, Hsl.
Qed.

Lemma flows_clear_null na idx0 t t' p j c k sl s h h' :
  sl !! nulls_ptr na = Some (value_of_pointer p) -> defd c k idx0 (VInt (Z.of_nat j)) ->
  flag_cleared p j h h' ->
  flows (f:=f) (emit_clear_null na idx0 t t') c k sl s h
    (fun _ _ _ sl' s' h1 => sl' = sl /\ s' = s /\ h1 = h').
Proof.
  intros Hsl Hj Hcl. unfold emit_clear_null.
  flow_load. flow_by ltac:(eapply (flows_not_null _ _ p); [eassumption|by destruct p]).
  intros u c' P Hrun HI Hok Hext Hat Hslots. unbind. walk. ext_back. at_skip.
  start. destruct p as [nb|].
  - destruct Hcl as (nl & nl' & Hnb & Hs & ->). branch true v.
    flow_run ltac:(eapply flows_store_flag; [reflexivity|eassumption|eassumption|eassumption|eassumption]).
    jump v0. by arrived.
  - branch false v0. by arrived.
Qed.

(** ** Helper calls *)

Lemma flows_call g args vs c k sl s h sl' s' h' :
  arg_values (regs k) args = Some vs -> call (RT g) vs s = Stuck ->
  (forall m more, mcore m = s -> slots m = sl ->
     call_native m more None g vs h = FNext (mk_mstate more s' (regs m) sl', h')) ->
  flows (f:=f) (build_call_void (RT g) args) c k sl s h
    (fun _ _ _ sl1 s1 h1 => sl1 = sl' /\ s1 = s' /\ h1 = h').
Proof.
  intros Ha Hst Hcall. apply flows_build. intros m more Ht Hm Hr Hsl. apply fstep_of_flat.
  - unfold step. rewrite Ht. unfold step_call. rewrite Hr, Ha, Hm. by rewrite Hst.
  - unfold flat_step. rewrite Ht, Hr, Ha. rewrite <- Hr. by apply Hcall.
Qed.

(** The value of an element, in a register. *)
Definition elem_operand (c : ExprTypeClass) (v : value) (w : Z) : Prop :=
  match c with
  | EXPR_TYPE_INT4 | EXPR_TYPE_INT8 => v = VInt w
  | EXPR_TYPE_FLOAT8 => exists d, v = VDouble d /\ w = bits_of_double d
  | _ => False
  end.

Lemma flows_native_to_datum val cl v w c k sl s h :
  defd c k val v -> elem_operand cl v w ->
  flows (f:=f) (native_to_datum val cl) c k sl s h
    (fun o c' k' sl' s' h' => defd c' k' o (VInt w) /\ sl' = sl /\ s' = s /\ h' = h).
Proof.
  intros Hv He. unfold native_to_datum. destruct cl; try done; simpl in He.
  - subst v. run_fop.
  - subst v. by apply flows_ret.
  - destruct He as (d & -> & ->). run_fop.
Qed.

(** The value is stored into the flat memory. *)
Lemma flows_store_elem ty val v w data b kd l l' idx j c k sl s h :
  defd c k val v -> value_word v = Some w -> defd c k data (VBuf b) -> defd c k idx (VInt (Z.of_nat j)) ->
  h !! b = Some (kd, l) -> store_elem (elem_bytes ty) j w l = Some l' ->
  flows (f:=f) (build (IStoreElem ty val data idx)) c k sl s h
    (fun _ _ _ sl' s' h' => sl' = sl /\ s' = s /\ h' = <[b := (kd, l')]> h).
Proof.
  intros [Hv _] Hw [Hd _] [Hi _] Hb Hs. apply flows_build. intros m more Ht Hm Hr Hsl.
  apply fstep_of_flat; [unfold step; by rewrite Ht|].
  unfold flat_step. rewrite Ht. unfold operand_word, operand_block, operand_index, operand_int.
  rewrite Hr, Hv, Hw, Hd, Hi.
  replace (Z.of_nat j <? 0) with false by (symmetry; apply Z.ltb_ge; lia). rewrite Nat2Z.id.
  unfold write, update_block. rewrite Hb, Hs. unfold continue. by rewrite Hm, Hr, Hsl.
Qed.

Lemma pointer_value p : pointer_of_value (value_of_pointer p) = Some p.
Proof. by destruct p. Qed.

(** The slots of a native array hold the fields of [a]. *)
Record slots_hold (na : native_slots) (sl : gmap nat value) (a : native_array) : Prop := {
  sh_data : sl !! data_ptr na = Some (value_of_pointer (na_data a));
  sh_len : sl !! len_ptr na = Some (VInt (na_len a));
  sh_lb : sl !! lb_ptr na = Some (VInt (na_lb a));
  sh_nulls : sl !! nulls_ptr na = Some (value_of_pointer (na_nulls a));
  sh_cap : sl !! cap_ptr na = Some (VInt (na_cap a));
  sh_heap : sl !! is_heap_ptr na = Some (VInt (z_of_bool (na_heap a)))
}.

Lemma bool_z b : bool_of_z (z_of_bool b) = b.
Proof. by destruct b. Qed.

(** The arguments of a call. *)
Ltac call_args :=
  unfold arg_values, estate_ref, const_int32; cbn [mapM operand_value];
  repeat match goal with D : defd ?c ?k ?o _ |- context [operand_value (regs ?k) ?o] =>
    rewrite (proj1 D); cbn [mapM operand_value] end; reflexivity.

(** Native array [dno] of the function, in the slots [na]. *)
Context (na : native_slots) (dno : nat) (sz : nat).
Context (Hdno : na_dno (ns_array na) = dno) (Hty : elem_type (na_elemtype (ns_array na)) sz)
        (Hsz : na_elem_size (ns_array na) = Z.of_nat sz).

Lemma flows_to_datum a es c k sl s h `{!PgArraysLaws world} :
  slots_hold na sl a -> native_rep sz h a es -> backed dno s es -> in_limits es (na_lb a) ->
  flows (f:=f) (emit_sync_native_array na) c k sl s h
    (fun _ _ _ sl' s' h' => sl' = sl /\ h' = h
       /\ if decide (es = []) then s' = s else holds_array sz dno s' es (na_lb a)).
Proof.
  intros [Hd Hn Hl Hnu Hc Hh] Hrep Hback Hlim. unfold emit_sync_native_array.
  destruct (to_datum_ok sz (elem_type_width _ _ Hty) dno _ Hty a es s h Hrep Hback Hlim) as (s1 & Hrun & Hs1).
  do 4 flow_load.
  eapply flows_weaken; [eapply (flows_call _ _ _ _ _ _ _ _ sl s1 h); [call_args|reflexivity|]|].
  - intros m more Hm Hsl. unfold call_native. rewrite !pointer_value, Nat2Z.id, Hm, Hdno, Hsz, Nat2Z.id.
    unfold finish_call. rewrite Hrun. by rewrite <- Hsl.
  - by intros u c' k' sl' s' h' (-> & -> & ->).
Qed.

(** The assignment to an element by PostgreSQL. *)
Lemma flows_set_element es lb i x w idx d fl v c k sl s h `{!PgArraysLaws world} :
  (if decide (es = []) then backed dno s es else holds_array sz dno s es lb) ->
  ce_datums !! dno = Some (DTYPE_VAR v) ->
  (ce_get_typlenbyvalalign (ce_get_element_type (typoid (var_datatype v)))).1 = (Z.of_nat sz, true) ->
  x = Some w \/ x = None -> in_limits (assign_elem es lb i x).1 (assign_elem es lb i x).2 ->
  defd c k idx (VInt i) -> defd c k d (VInt w) -> flag_is c k fl (is_null x) ->
  flows (f:=f) (emit_array_set_element dno idx d (flag_or_false fl)) c k sl s h
    (fun _ _ _ sl' s' h' => sl' = sl /\ h' = h
       /\ holds_array sz dno s' (assign_elem es lb i x).1 (assign_elem es lb i x).2).
Proof.
  intros Hs Hv Hel Hx Hlim Hi Hd Hf. unfold emit_array_set_element, resolve_array_type_info. rewrite Hv.
  destruct (ce_get_typlenbyvalalign _) as [[elmlen elmbyval] elmalign]. simpl in Hel. injection Hel as -> ->.
  assert (Hfl : defd c k (flag_or_false fl) (VInt (z_of_bool (is_null x)))).
  { destruct fl as [o|]; [done|]. simpl in Hf. rewrite Hf. done. }
  destruct (set_element_ok sz (elem_type_width _ _ Hty) dno (ce_get_element_type (typoid (var_datatype v)))
              s es lb i x w (typlen (var_datatype v)) (Z.of_nat sz, true, elmalign) Hs eq_refl Hx Hlim)
    as (s1 & Hrun & Hs1).
  cbv beta iota zeta. rewrite bind_ret. cbn [typlen_val elemtype_val elmlen_val elmbyval_val elmalign_val].
  eapply flows_weaken; [eapply (flows_call _ _ _ _ _ _ _ _ sl s1 h); [call_args|reflexivity|]|].
  - intros m more Hm Hsl. unfold call_native. rewrite Nat2Z.id, Hm.
    change (bool_of_z 1) with true. rewrite bool_z. unfold finish_call, on_state. simpl. rewrite Hrun.
    by rewrite <- Hsl.
  - by intros u c' k' sl' s' h' (-> & -> & ->).
Qed.

(** A call with a result. *)
Lemma flows_call_value g args vs c k sl s h sl' s' h' v :
  arg_values (regs k) args = Some vs -> call (RT g) vs s = Stuck ->
  (forall r m more, mcore m = s -> slots m = sl ->
     call_native m more (Some r) g vs h = FNext (mk_mstate more s' (<[r := v]> (regs m)) sl', h')) ->
  flows (f:=f) (build_call (RT g) args) c k sl s h
    (fun o c' k' sl1 s1 h1 => defd c' k' o v /\ sl1 = sl' /\ s1 = s' /\ h1 = h').
Proof.
  intros Ha Hst Hcall o c' P Hrun HI Hok Hext Hat Hsl.
  pose proof (at_build_value f _ _ _ _ _ _ Hrun Hext Hat) as Ht.
  destruct (build_value_reg _ _ _ _ Hrun) as (-> & Hr & _ & Hen). destruct Hat as [_ Hm Hp].
  eexists (mk_mstate (rest f c') s' (<[next_reg (bld c) := v]> (regs k)) sl'), sl', s', h'. split.
  { apply fsteps_one, fstep_of_flat.
    - unfold step. rewrite Ht. unfold step_call. rewrite Ha, Hm. by rewrite Hst.
    - unfold flat_step. rewrite Ht, Ha. by apply Hcall. }
  split; [|split; [done|split; [apply regs_kept_set|]]].
  - split; [done|done|]. simpl. rewrite Hen, lookup_insert_ne; [done|]. unfold plok in Hok. lia.
  - split; [|done]. split; [simpl; by rewrite lookup_insert_eq|]. rewrite Hr. lia.
Qed.

Lemma flows_var_datum v c k sl s h :
  var_of dno s v -> in_int64 (Ast.value v) ->
  flows (f:=f) (build_value (fun r => ILoadVarDatum r (na_dno (ns_array na)))) c k sl s h
    (fun o c' k' sl' s' h' => defd c' k' o (VInt (Ast.value v)) /\ sl' = sl /\ s' = s /\ h' = h).
Proof.
  intros Hv Hw. apply flows_value. intros r m more Ht Hm Hr Hsl. apply fstep_of_step.
  unfold step. rewrite Ht, Hm, Hdno. unfold var_of in Hv. rewrite Hv, wrap64_id by done. unfold set_reg. by rewrite Hm.
Qed.

Lemma flows_var_isnull v c k sl s h :
  var_of dno s v ->
  flows (f:=f) (build_value (fun r => ILoadVarIsnull r (na_dno (ns_array na)))) c k sl s h
    (fun o c' k' sl' s' h' => defd c' k' o (VInt (z_of_bool (isnull v))) /\ sl' = sl /\ s' = s /\ h' = h).
Proof.
  intros Hv. apply flows_value. intros r m more Ht Hm Hr Hsl. apply fstep_of_step.
  unfold step. rewrite Ht, Hm, Hdno. unfold var_of in Hv. rewrite Hv. unfold set_reg. by rewrite Hm.
Qed.

Lemma flows_zext o z c k sl s h :
  defd c k o (VInt z) ->
  flows (f:=f) (build_value (fun r => IZExt r o)) c k sl s h
    (fun o' c' k' sl' s' h' => defd c' k' o' (VInt z) /\ sl' = sl /\ s' = s /\ h' = h).
Proof.
  intros [Ho _]. apply flows_value. intros r m more Ht Hm Hr Hsl. apply fstep_of_step.
  unfold step. rewrite Ht. unfold operand_int. rewrite Hr, Ho. unfold set_reg. by rewrite Hr.
Qed.

(** The slots of the array are distinct slots of the function. *)
Definition slots_of : list nat := [data_ptr na; len_ptr na; lb_ptr na; nulls_ptr na; cap_ptr na; is_heap_ptr na].
Definition slots_ok (c : UPL_compile_ctx) : Prop :=
  NoDup slots_of /\ Forall (fun n => (n < next_slot (bld c))%nat) slots_of.

(** What does not belong to the array is unchanged, and what the array [a'] has now was
    free before or belonged to it. *)
Definition owned (a : native_array) (b : nat) : Prop := na_data a = Some b \/ na_nulls a = Some b.
Definition others_same (c : UPL_compile_ctx) (a a' : native_array) (sl sl' : gmap nat value) (h h' : heap) : Prop :=
  (forall n, (n < next_slot (bld c))%nat -> n ∉ slots_of -> sl' !! n = sl !! n)
  /\ others_kept (owned a) h h' /\ forall b, owned a' b -> is_Some (h !! b) -> owned a b.

Ltac later := first [eassumption | apply defd_const].

Ltac flow_alloca :=
  eapply (flows_bind any); [bind_side|bind_side|bind_side|eapply flows_alloca|];
  let n := fresh "n" in let En := fresh in let Hn := fresh in let L := fresh in let G := fresh in
  intros n ? ? ? ? ? _ L G (En & Hn & -> & -> & ->);
  repeat match type of L with le_ctx ?c ?c1 =>
    match goal with D : (?m < next_slot (bld c))%nat |- _ =>
      pose proof (slot_ne c m n D En); apply (lt_slot _ _ _ L) in D end end;
  try match type of L with le_ctx ?c ?c1 =>
    match goal with D : (?m <= next_slot (bld c))%nat |- _ => pose proof (slot_ge c m n D En) end end;
  match type of L with le_ctx _ ?c1 => pose proof (slot_new c1 n Hn) end;
  clear En Hn; fcarry.

Lemma flows_refresh a es0 es lb c k sl s h `{!PgMemoryLaws} `{!PgArraysLaws world} :
  slots_ok c -> slots_hold na sl a -> native_rep sz h a es0 -> holds_array sz dno s es lb -> es <> [] ->
  words_ok sz es -> Z.of_nat (length es) <= max_elements ->
  flows (f:=f) (emit_refresh_native_array na) c k sl s h
    (fun _ _ _ sl' s' h' => s' = s /\ exists a', others_same c a a' sl sl' h h'
       /\ slots_hold na sl' a' /\ native_rep sz h' a' es /\ na_lb a' = lb).
Proof.
  intros [Hnd Hlt] [Hd Hn Hl Hnu Hc Hh] Hrep (v & Hv & Hw64 & Hnn & Harr) Hne Hw Hmax.
  unfold slots_of in *. rewrite !list.NoDup_cons, !not_elem_of_cons in Hnd. destruct_and! Hnd.
  rewrite !list.Forall_cons in Hlt. destruct_and! Hlt.
  destruct (release_ok sz a es0 h Hrep) as (h1 & Hrel & Hh1).
  unfold emit_refresh_native_array.
  destruct (ltac:(eauto) : exists N, N = next_slot (bld c)) as [N EN].
  assert (HN : (N <= next_slot (bld c))%nat) by (by rewrite EN).
  flow_by ltac:(by eapply flows_var_datum). flow_by ltac:(by eapply flows_var_isnull).
  do 3 flow_alloca.
  flow_by ltac:(by eapply flows_zext).
  do 3 (flow_by ltac:(eapply flows_load; rewrite !lookup_delete_ne by congruence; eassumption)).
  flow_by ltac:(eapply (flows_call _ _ _ _ _ _ _ _ _ s h1); [call_args|destruct (na_data a), (na_nulls a); reflexivity|]).
  { intros m more Hm Hsl. unfold call_native. rewrite !pointer_value, bool_z, Hm.
    unfold finish_call, on_memory. simpl. rewrite Hrel. by rewrite Hsl. }
  assert (Harr' : array_of sz es lb (DatumGetArrayTypeP (es_world s) (Ast.value v))) by by destruct es.
  destruct (from_datum_ok sz (elem_type_width _ _ Hty) _ _ es lb _ h1 eq_refl Harr' Hw Hmax)
    as (data & nulls & h2 & Hfrom & Hrep2 & Hgrow).
  flow_by ltac:(eapply (flows_call_value _ _ _ _ _ _ _ _ _ s h2 (value_of_pointer data)); [call_args|reflexivity|]).
  { intros r m more Hm Hsl. unfold call_native. rewrite Hsz, Nat2Z.id, bool_z, Hm, Hnn.
    unfold finish_call, on_memory. cbn [fst snd]. change (bool_of_z (z_of_bool false)) with false.
    rewrite ?Hm, Hfrom. unfold set_dst, set_slots. cbn [fd_data fd_nelems fd_lb fd_nulls foldr fst snd slots regs mcore todo].
    rewrite Hsl. reflexivity. }
  repeat first [flow_by ltac:(eapply flows_store; later) | flow_by ltac:(eapply flows_load; slot_simp; reflexivity)].
  eapply flows_weaken; [eapply flows_store; later|]. intros _ c' k' sl' s' h' (-> & -> & ->).
  split; [done|].
  exists (mk_native data (Z.of_nat (length es)) lb nulls (Z.of_nat (length es)) true).
  destruct Hgrow as (Hg & _ & Hfree). split; [split; [|split]|].
  - intros m Hm Hni. unfold slots_of in Hni. rewrite !not_elem_of_cons in Hni. destruct_and! Hni.
    assert (Hmn : m <> n /\ m <> n0 /\ m <> n1)
      by (split_and!; eapply (slot_old c N); eassumption).
    destruct_and! Hmn. by slot_simp.
  - intros b Hb Hown. rewrite Hg, Hh1.
    + rewrite decide_False by (unfold owned in Hown; naive_solver). done.
    + rewrite Hh1, decide_False by (unfold owned in Hown; naive_solver). done.
  - intros b Hown Hb. apply Hfree in Hown. rewrite Hh1 in Hown. unfold owned.
    case_decide; [naive_solver|]. rewrite Hown in Hb. by destruct Hb.
  - split; [|by split]. split; simpl; by slot_simp.
Qed.

(** Room for one more element. *)
Lemma flows_reserve a es len c k sl s h `{!PgMemoryLaws} :
  slots_ok c -> slots_hold na sl a -> native_rep sz h a es -> na_cap a <= na_len a < max_elements ->
  defd c k len (VInt (na_len a)) ->
  flows (f:=f) (build_call_void (RT RT_NATIVE_ARRAY_RESERVE)
    [estate_ref; OConst (VSlot (data_ptr na)); OConst (VSlot (nulls_ptr na));
     OConst (VSlot (is_heap_ptr na)); OConst (VSlot (cap_ptr na)); len;
     const_int32 (na_elem_size (ns_array na))]) c k sl s h
    (fun _ _ _ sl' s' h' => s' = s /\ exists a', others_same c a a' sl sl' h h'
       /\ slots_hold na sl' a' /\ native_rep sz h' a' es /\ na_lb a' = na_lb a
            /\ na_len a' < na_cap a' /\ is_Some (na_data a')).
Proof.
  intros [Hnd Hlt] [Hd Hn Hl Hnu Hc Hh] Hrep Hfull Hlen.
  destruct (reserve_ok sz (elem_type_width _ _ Hty)
      (mk_native (na_data a) (na_len a) 0 (na_nulls a) (na_cap a) (na_heap a)) es h Hrep Hfull)
    as (a1 & h1 & Hrun & Hrep1 & _ & Hcap & Hheap & Hdata & Hkept & Hfresh). cbn [na_len na_cap na_lb na_data na_nulls] in *.
  assert (Hcaps : na_len a < na_cap a1).
  { rewrite Hcap. destruct Hrep as (Hlen0 & Hc0 & _). apply grown_capacity_bounds; lia. }
  eapply flows_weaken; [eapply (flows_call _ _ _ _ _ _ _ _ _ s h1); [call_args|reflexivity|]|].
  - intros m more Hm Hsl. unfold call_native, reserve_slots, slot_pointer, slot_int.
    rewrite Hsl, Hd, Hnu, Hh, Hc, !pointer_value, bool_z, Hsz, Nat2Z.id, Hm.
    unfold finish_call, on_memory. cbn [fst snd]. rewrite Hrun. unfold set_slots.
    cbn [foldr fst snd slots regs mcore todo]. rewrite Hsl. reflexivity.
  - intros _ c' k' sl' s' h' (-> & -> & ->).
    unfold slots_of in *. rewrite !list.NoDup_cons, !not_elem_of_cons in Hnd. destruct_and! Hnd.
    split; [done|].
    exists (mk_native (na_data a1) (na_len a) (na_lb a) (na_nulls a1) (na_cap a1) (na_heap a1)).
    split; [split; [|by split]|].
    + intros m Hm Hni. unfold slots_of in Hni. rewrite !not_elem_of_cons in Hni. destruct_and! Hni. by slot_simp.
    + split; [split; simpl; by slot_simp|]. split; [|by split].
      destruct Hrep1 as (Hl1 & Hr1). destruct Hrep as (Hl0 & _). cbn [na_len] in *. unfold native_rep. cbn [na_len na_data na_nulls na_cap na_heap].
      rewrite Hl1 in Hr1. rewrite Hl0. by split.
Qed.
End pieces.
