(* ===== verification/NativeAssign.v ===== *)
(** * An assignment to an element of a native array, as compiled

    The code the compiler emits for a[i] := v (file ExprEmit, [emit_native_set]) leaves the
    array that PostgreSQL's assignment makes of it: in the flat memory when the subscript is
    in range or one after the last, by way of PostgreSQL's own array otherwise. *)

From Stdlib Require Import ZArith Lia SpecFloat.
From S2P Require Import Prelude Ast Escape Expr Float Exec Assign IR CoreEmit StmtEmit ExprEmit Wellformed.
From S2P Require Import Memory NativeArray NativeStore Machine FlatMachine Growth ExprWf SimRel Runs NativeRun.
#[local] Open Scope Z_scope.
#[local] Opaque bind.
#[local] Hint Resolve grows_and_not grows_clear_null grows_set_element grows_in_range grows_is_append
  grows_refresh_native_array grows_native_to_datum grows_type_info grows_set_fast grows_set_grow
  grows_set_append grows_set_slow : grows.
#[local] Hint Resolve emits_and_not emits_clear_null emits_set_element emits_in_range emits_is_append
  flag_or_false_ok emits_set_fast emits_set_grow emits_set_append emits_set_slow : emits.

Section native_assign.
Context {world : Type} `{PgEnv world} `{PgMemory} `{PgArrays world} `{CompileEnv}.
Context `{!PgMemoryLaws} `{!PgArraysLaws world}.
Context {f : ir_function}.
Context (na : native_slots) (dno : nat) (sz : nat).
Context (Hdno : na_dno (ns_array na) = dno) (Hty : elem_type (na_elemtype (ns_array na)) sz)
        (Hsz : na_elem_size (ns_array na) = Z.of_nat sz).

Lemma elem_bytes_sz : elem_bytes (na_elemtype (ns_array na)) = sz.
Proof. by destruct Hty as [[-> ->]|[[-> | ->] ->]]. Qed.

Lemma elem_operand_word cl v w : elem_operand cl v w -> value_word v = Some w.
Proof. destruct cl; try done; simpl; [by intros ->..|]. by intros (d & -> & ->). Qed.

(** A store through [elem_stored], as the code does it. *)
Lemma stored_split a j w h h' es :
  native_rep sz h a es -> elem_stored sz a j w h h' ->
  exists b kd l l', na_data a = Some b /\ h !! b = Some (kd, l) /\ store_elem sz j w l = Some l'
    /\ flag_cleared (na_nulls a) j (<[b := (kd, l')]> h) h'.
Proof.
  intros (_ & _ & _ & Hn) (b & kd & l & l' & Hb & Hl & Hs & Hh). exists b, kd, l, l'.
  split_and!; try done. unfold flag_cleared, nulls_rep in *. destruct (na_nulls a) as [nb|]; [|done].
  destruct Hh as (nl & nl' & Hnl & Hs' & ->). exists nl, nl'. split_and!; try done.
  rewrite lookup_insert_ne; [done|]. destruct Hn as [Hne _]. congruence.
Qed.

Lemma stored_kept a j w h h' : elem_stored sz a j w h h' -> others_kept (owned a) h h'.
Proof.
  intros (b & kd & l & l' & Hb & Hl & Hs & Hh) c Hc Hown. unfold owned in Hown.
  destruct (na_nulls a) as [nb|].
  - destruct Hh as (nl & nl' & Hnl & Hs' & ->). rewrite !lookup_insert_ne; [done|..]; naive_solver.
  - subst h'. rewrite lookup_insert_ne; [done|]. naive_solver.
Qed.

(** In place. *)
Lemma flows_set_fast a es j idx lb i val v w c k sl s h h' :
  slots_hold na sl a -> native_rep sz h a es -> elem_stored sz a j w h h' ->
  defd c k idx (VInt i) -> defd c k lb (VInt (na_lb a)) -> wrap32 (i - na_lb a) = Z.of_nat j ->
  defd c k val v -> value_word v = Some w ->
  flows (f:=f) (emit_set_fast na idx lb val) c k sl s h (fun _ _ _ sl' s' h1 => sl' = sl /\ s' = s /\ h1 = h').
Proof.
  intros [Hd Hn Hl Hnu Hc Hh] Hrep Hst Di Dl Hj Dv Hv.
  destruct (stored_split _ _ _ _ _ _ Hrep Hst) as (b & kd & l & l' & Hb & Hlb & Hs & Hcl).
  rewrite Hb in Hd. unfold emit_set_fast. flow_load.
  flow_by ltac:(eapply (flows_op _ _ _ (VInt (Z.of_nat j))); [find_args|by rewrite <- Hj]).
  flow_by ltac:(eapply flows_store_elem; [eassumption..|by rewrite elem_bytes_sz]).
  by eapply flows_clear_null.
Qed.

(** After the last element. *)
Lemma flows_set_append a es len val v w c k sl s h h' :
  slots_ok na c ->
  slots_hold na sl a -> native_rep sz h a es -> elem_stored sz a (length es) w h h' ->
  defd c k len (VInt (na_len a)) -> na_len a < max_elements ->
  defd c k val v -> value_word v = Some w ->
  flows (f:=f) (emit_set_append na len val) c k sl s h
    (fun _ _ _ sl' s' h1 => s' = s /\ h1 = h' /\ sl' = <[len_ptr na := VInt (na_len a + 1)]> sl).
Proof.
  intros Hok [Hd Hn Hl Hnu Hc Hh] Hrep Hst Dn Hmax Dv Hv. pose proof (proj1 Hrep) as Hlen.
  destruct (stored_split _ _ _ _ _ _ Hrep Hst) as (b & kd & l & l' & Hb & Hlb & Hs & Hcl).
  rewrite Hb in Hd. unfold emit_set_append. flow_load.
  rewrite Hlen in Dn. flow_by ltac:(eapply flows_store_elem; [eassumption..|by rewrite elem_bytes_sz]).
  flow_by ltac:(by eapply flows_clear_null).
  assert (Hw : wrap32 (na_len a + 1) = na_len a + 1).
  { apply wrap32_id. change max_elements with 134217727 in Hmax. unfold_int32. lia. }
  flow_by ltac:(eapply (flows_op _ _ _ (VInt (na_len a + 1))); [find_args|by rewrite <- Hw, Hlen]).
  eapply flows_weaken; [by eapply flows_store|]. by intros u c' k' sl' s' h1 (-> & -> & ->).
Qed.

Lemma others_same_le c c' a a' sl sl' h h' :
  le_ctx c c' -> others_same na c' a a' sl sl' h h' -> others_same na c a a' sl sl' h h'.
Proof. intros Hl [Hs Hh]. split; [|done]. intros n Hn Hni. apply Hs; [|done]. by eapply lt_slot. Qed.

Lemma slots_ok_le c c' : le_ctx c c' -> slots_ok na c -> slots_ok na c'.
Proof.
  intros Hl [Hd Hs]. split; [done|]. eapply list.Forall_impl; [exact Hs|]. intros n Hn. by eapply lt_slot.
Qed.

(** By way of PostgreSQL's array. *)
Lemma flows_set_slow a es idx i val cl fl v w x b var c k sl s h :
  x = (if b : bool then None else Some w) ->
  slots_ok na c -> slots_hold na sl a -> native_rep sz h a es -> backed dno s es -> words_ok sz es ->
  in_limits es (na_lb a) -> ce_datums !! dno = Some (DTYPE_VAR var) ->
  (ce_get_typlenbyvalalign (ce_get_element_type (typoid (var_datatype var)))).1 = (Z.of_nat sz, true) ->
  int_operand idx -> class_ok (val, cl) -> some_ok int_operand fl ->
  defd c k idx (VInt i) -> defd c k val v -> elem_operand cl v w -> in_word sz w -> flag_is c k fl b ->
  in_limits (assign_elem es (na_lb a) i x).1 (assign_elem es (na_lb a) i x).2 ->
  flows (f:=f) (emit_set_slow na dno idx val cl fl) c k sl s h
    (fun _ _ _ sl' s' h' => backed dno s' (assign_elem es (na_lb a) i x).1
       /\ exists a', others_same na c a a' sl sl' h h' /\ slots_hold na sl' a'
            /\ native_rep sz h' a' (assign_elem es (na_lb a) i x).1
            /\ na_lb a' = (assign_elem es (na_lb a) i x).2).
Proof.
  intros Ex Hslots Hsl Hrep Hback Hw Hlim Hvar Hel Hidx Hcl Hfl Di Dv Hv Hwv Df Hlim'.
  pose proof (flag_or_false_ok _ Hfl) as Hfl'.
  assert (Hd : emits int_operand (native_to_datum val cl)) by by apply emits_native_to_datum.
  assert (Hx : x = Some w \/ x = None) by (rewrite Ex; destruct b; auto).
  assert (Hb : is_null x = b) by (rewrite Ex; by destruct b).
  unfold emit_set_slow.
  eapply (flows_bind any); [bind_side|bind_side|bind_side|by eapply flows_to_datum|].
  intros _ c1 k1 sl1 s1 h1 _ L G (-> & -> & Hs1). pose proof L as L0. fcarry. rename L into L1.
  eapply (flows_bind int_operand); [exact Hd|bind_side|bind_side|by eapply flows_native_to_datum|].
  intros d c2 k2 sl2 s2 h2 Hdi L G (D & -> & -> & ->). pose proof (transitivity L1 L) as L2. fcarry.
  rewrite <- Hb in Df.
  assert (Hs1' : if decide (es = []) then backed dno s1 es else holds_array sz dno s1 es (na_lb a)).
  { destruct (decide (es = [])); [by subst s1|exact Hs1]. }
  eapply (flows_bind any); [bind_side|bind_side|bind_side
    |exact (flows_set_element _ _ _ Hty _ _ _ _ _ _ _ _ _ _ _ _ _ _ Hs1' Hvar Hel Hx Hlim' Di D Df)|].
  intros _ c3 k3 sl3 s3 h3 _ L G (-> & -> & Hs3). pose proof (transitivity L2 L) as L3. fcarry.
  eapply flows_weaken.
  - eapply (flows_refresh na dno sz Hdno Hty Hsz a es _ _ _ _ _ _ _); [|exact Hsl|exact Hrep|exact Hs3| | |].
    + by eapply slots_ok_le.
    + apply assign_elem_cons.
    + apply words_assign; [done|]. rewrite Ex. destruct b; naive_solver.
    + apply Hlim'.
  - intros u c' k' sl' s' h' (-> & a' & Ho & Ha). split.
    + destruct Hs3 as (v3 & Hv3 & Hw3 & _). exists v3. split; [done|]. split; [done|]. intros He.
      by destruct (assign_elem_cons es (na_lb a) i x).
    + exists a'. split; [by eapply others_same_le|done].
Qed.

(** The place the code finds for the subscript. *)
Lemma in_range_true es lb i :
  in_limits es lb -> (es = [] -> PG_INT32_MIN < lb) ->
  in_range_z (Z.of_nat (length es)) lb i = true <-> lb <= i < lb + Z.of_nat (length es).
Proof.
  intros (Hlen & Hlb & Hend) Hmin. unfold in_range_z. rewrite (wrap32_id (lb + _)) by done.
  assert (Hl : in_int32 (lb + Z.of_nat (length es) - 1)).
  { unfold_int32. destruct es; [specialize (Hmin eq_refl); simpl in *; lia|simpl in *; lia]. }
  rewrite wrap32_id by done. rewrite !andb_true_iff. rewrite !Z.leb_le. lia.
Qed.

Lemma append_true es lb i :
  in_limits es lb -> append_z (Z.of_nat (length es)) lb i = true <-> i = lb + Z.of_nat (length es).
Proof.
  intros (Hlen & Hlb & Hend). unfold append_z. rewrite (wrap32_id (lb + _)) by done.
  rewrite andb_true_iff, Z.leb_le, Z.eqb_eq. lia.
Qed.

Lemma backed_cons s es es' : backed dno s es -> es' <> [] -> backed dno s es'.
Proof. intros (v & Hv & Hw & _) Hne. exists v. by split_and!. Qed.

Lemma others_same_refl c a sl h : others_same na c a a sl sl h h.
Proof. split; [done|]. split; [by intros b|done]. Qed.

(** The store of an element, after the array has got its room. *)
Lemma others_same_stored c a a1 a2 j w h h1 h' sl sl1 sl' :
  others_same na c a a1 sl sl1 h h1 -> elem_stored sz a1 j w h1 h' ->
  (forall n, n ∉ slots_of na -> sl' !! n = sl1 !! n) ->
  na_data a2 = na_data a1 -> na_nulls a2 = na_nulls a1 -> others_same na c a a2 sl sl' h h'.
Proof.
  intros (Hs1 & Hh1 & Hf1) Hst Hs Ed En. apply stored_kept in Hst. split; [|split].
  - intros n Hn Hni. rewrite Hs by done. auto.
  - intros b Hb Hown. rewrite Hst, Hh1; [done|done|done| |naive_solver]. by rewrite Hh1.
  - intros b Hown Hb. apply Hf1; [|done]. unfold owned in *. by rewrite <- Ed, <- En.
Qed.

Lemma slots_after_append sl sl' a1 n :
  NoDup (slots_of na) -> slots_hold na sl a1 -> sl' = <[len_ptr na := VInt n]> sl -> slots_hold na sl' (with_len a1 n).
Proof.
  intros Hnd [Hd Hn Hl Hnu Hc Hh] ->. unfold slots_of in Hnd.
  rewrite !list.NoDup_cons, !not_elem_of_cons in Hnd. destruct_and! Hnd. split; simpl; by slot_simp.
Qed.

(** The store after the last element of [a1], which has the room for it. *)
Lemma flows_append_end c a a1 es es' len val v w d k sl s h sl1 h1 :
  slots_ok na d -> others_same na c a a1 sl sl1 h h1 -> slots_hold na sl1 a1 -> native_rep sz h1 a1 es ->
  updated es es' (length es) w -> in_word sz w -> na_len a1 < na_cap a1 -> is_Some (na_data a1) ->
  Z.of_nat (length es) < max_elements ->
  defd d k len (VInt (Z.of_nat (length es))) -> defd d k val v -> value_word v = Some w ->
  flows (f:=f) (emit_set_append na len val) d k sl1 s h1
    (fun _ _ _ sl' s' h' => s' = s /\ exists a2, others_same na c a a2 sl sl' h h'
       /\ slots_hold na sl' a2 /\ native_rep sz h' a2 es' /\ na_lb a2 = na_lb a1).
Proof.
  intros Hok Ho Hsl Hrep Hup Hw Hroom Hdata Hmax Dn Dv Hv. pose proof (proj1 Hrep) as Hlen. rewrite <- Hlen in Dn, Hmax.
  destruct (elem_stored_defined sz a1 es h1 (length es) w Hrep Hdata) as [h2 Hst]; [lia|].
  destruct (updated_length _ _ _ _ Hup) as [Hlen' _].
  eapply flows_weaken; [by eapply flows_set_append|]. intros u c' k' sl' s' h' (-> & -> & ->).
  split; [done|]. exists (with_len a1 (Z.of_nat (length es'))). split; [|split; [|split; [|done]]].
  - eapply others_same_stored; [exact Ho|exact Hst| |done|done]. intros n Hn. apply lookup_insert_ne.
    intros <-. apply Hn. unfold slots_of. set_solver.
  - eapply slots_after_append; [apply Hok|exact Hsl|]. f_equal. f_equal. lia.
  - eapply elem_stored_ok; [by eapply elem_type_width|exact Hrep|done|lia|done|done].
Qed.

(** What the assignment leaves. *)
Definition assigned_array (c : UPL_compile_ctx) (k : mstate world) (h : heap) (a : native_array)
    (es : list (option Z)) (lb : Z) (c' : UPL_compile_ctx) : Prop :=
  exists k' s' h', fsteps f (k, h) (k', h') /\ at_point f c' k' s' /\ regs_kept c k k' /\ backed dno s' es
    /\ exists a', others_same na c a a' (slots k) (slots k') h h' /\ slots_hold na (slots k') a'
         /\ native_rep sz h' a' es /\ na_lb a' = lb.

(** C4: The code emitted for a[i] := v does to a native array what PostgreSQL's assignment
    to an element does: in place when the subscript is in range, after the last element
    with growth when it is the next one, by way of PostgreSQL's array otherwise (a gap that
    is filled with NULLs, a subscript below the first, a NULL).  Control reaches the end of
    the code, the six slots stand for the new elements and lower bound, the variable has
    what a later assignment needs, and other slots and blocks are as before. *)
Theorem emit_native_set_correct idx val cl fl v w i x b c u c' P k s h a es var :
  emit_native_set na dno idx val cl fl c = Success (u, c') -> inv c P -> plok c -> ext c' f ->
  x = (if b : bool then None else Some w) ->
  slots_ok na c -> at_point f c k s ->
  slots_hold na (slots k) a -> native_rep sz h a es -> backed dno s es -> words_ok sz es ->
  in_limits es (na_lb a) -> (es = [] -> PG_INT32_MIN < na_lb a) ->
  ce_datums !! dno = Some (DTYPE_VAR var) ->
  (ce_get_typlenbyvalalign (ce_get_element_type (typoid (var_datatype var)))).1 = (Z.of_nat sz, true) ->
  int_operand idx -> class_ok (val, cl) -> some_ok int_operand fl ->
  defd c k idx (VInt i) -> in_int32 i -> defd c k val v -> elem_operand cl v w -> in_word sz w ->
  flag_is c k fl b -> 
  in_limits (assign_elem es (na_lb a) i x).1 (assign_elem es (na_lb a) i x).2 ->
  assigned_array c k h a (assign_elem es (na_lb a) i x).1 (assign_elem es (na_lb a) i x).2 c'.
Proof.
  intros Hrun HI Hok Hext Ex Hslots Hat Hsl Hrep Hback Hw Hlim Hmin Hvar Hel Hidx Hcl Hfl
    Di Hi32 Dv Hv Hwv Df Hlim'.
  unfold emit_native_set in Hrun. unbind. walk. ext_back.
  pose proof (proj1 Hrep) as Hlen. pose proof Hsl as [Hsd Hsn Hsb Hsu Hsc Hsh].
  destruct (ltac:(eauto) : exists sl, slots k = sl) as [sl Es]. rewrite Es in *. unfold assigned_array. start.
  flow_run ltac:(by eapply flows_load). flow_run ltac:(by eapply flows_load).
  flow_run ltac:(by eapply flows_in_range). at_skip.
  rewrite Hlen in *. destruct (in_range_z (Z.of_nat (length es)) (na_lb a) i && negb b) eqn:Ein.
  { apply andb_true_iff in Ein as [Ein Eb]. apply negb_true_iff in Eb. subst b. subst x.
    apply (in_range_true es _ _ Hlim Hmin) in Ein.
    destruct (assign_in_range es (na_lb a) i w Ein) as (_ & Hup & Hlb').
    assert (Hj : Z.of_nat (Z.to_nat (i - na_lb a)) < na_cap a) by (destruct Hrep as (? & ? & _); lia).
    assert (Hdata : is_Some (na_data a)).
    { destruct Hrep as (_ & _ & Hdr & _). unfold data_rep in Hdr. destruct (na_data a); [done|lia]. }
    destruct (elem_stored_defined sz a es h _ w Hrep Hdata Hj) as [h' Hst].
    assert (Hwr : wrap32 (i - na_lb a) = Z.of_nat (Z.to_nat (i - na_lb a))).
    { destruct Hlim as (Hmax & Hlo & _). change max_elements with 134217727 in Hmax.
      rewrite wrap32_id; [lia|]. clear - Ein Hmax. unfold_int32. lia. }
    branch true v3.
    flow_run ltac:(eapply (flows_set_fast a es (Z.to_nat (i - na_lb a)) idx v1 i val v w); first [eassumption|by eapply elem_operand_word|idtac]).
    jump v9. eexists _, _, _. split; [eassumption|]. split; [eassumption|]. split; [eassumption|].
    destruct (updated_length _ _ _ _ Hup) as [Hlen' _].
    split; [eapply backed_cons; [done|apply assign_elem_cons]|].
    exists (with_len a (Z.of_nat (length (assign_elem es (na_lb a) i (Some w)).1))). rewrite Es3, Es, Hlb'.
    split; [eapply others_same_stored; [apply others_same_refl|exact Hst|done..]|]. split.
    { rewrite Hlen'. replace (Z.of_nat _) with (na_len a) by lia. by destruct a. }
    split; [|done]. eapply elem_stored_ok; [by eapply elem_type_width|exact Hrep|done..]. }
  branch false v4. flow_run ltac:(by eapply flows_is_append).
  destruct (append_z (Z.of_nat (length es)) (na_lb a) i && negb b) eqn:Eapp.
  2:{ branch false v8.
    match goal with R : ran (emit_set_slow _ _ _ _ _ _) ?d _ _, L : le_ctx c _ |- _ =>
      assert (Hs8 : slots_ok na d) by (eapply slots_ok_le; [|exact Hslots]; le_chain);
      assert (L8 : True -> le_ctx c d) by (intros _; le_chain) end.
    flow_run ltac:(eapply (flows_set_slow a es idx i val cl fl v w x b var); eassumption).
    match goal with Dr : backed _ _ _ /\ _ |- _ => destruct Dr as (Hb' & a' & Ho & Ha') end.
    jump v9. eexists _, _, _. split; [eassumption|]. split; [eassumption|]. split; [eassumption|].
    split; [exact Hb'|]. exists a'.
    match goal with Ek : slots (goto f v9 _) = _ |- _ => rewrite Ek, Es end.
    split; [eapply others_same_le; [by apply L8|exact Ho]|done]. }
  apply andb_true_iff in Eapp as [Eapp Eb]. apply negb_true_iff in Eb. subst b. subst x.
  apply (append_true es _ _ Hlim) in Eapp.
  destruct (assign_append es (na_lb a) i w Eapp) as (Hup & Hlb').
  destruct (updated_length _ _ _ _ Hup) as [Hlen' _].
  assert (Hmax : Z.of_nat (length es) < max_elements) by (destruct Hlim' as [Hm _]; lia).
  branch true v5. flow_run ltac:(by eapply flows_load).
  flow_run ltac:(eapply (flows_op _ _ _ (VInt (z_of_bool (na_cap a <=? Z.of_nat (length es)))));
    [find_args|by rewrite <- icmp_ge]).
  match goal with R : ran (emit_set_append _ _ _) ?d _ _, L : le_ctx c _ |- _ =>
    assert (Hs8 : slots_ok na d) by (eapply slots_ok_le; [|exact Hslots]; le_chain);
    assert (L8 : True -> le_ctx c d) by (intros _; le_chain) end.
  destruct (na_cap a <=? Z.of_nat (length es)) eqn:Efull.
  - branch true v6.
    match goal with R : ran (emit_set_grow _ _) ?d _ _, L : le_ctx c _ |- _ =>
      assert (Hs6 : slots_ok na d) by (eapply slots_ok_le; [|exact Hslots]; le_chain);
      assert (L6 : True -> le_ctx c d) by (intros _; le_chain) end.
    flow_run ltac:(eapply (flows_reserve na dno sz Hdno Hty Hsz a es v0); [eassumption..|lia|by rewrite Hlen]).
    match goal with Dr : _ = _ /\ ex _ |- _ =>
      destruct Dr as (-> & a1 & Ho1 & Hsl1 & Hrep1 & Hlb1 & Hroom & Hdata1) end.
    jump v7. apply (others_same_le _ _ _ _ _ _ _ _ (L6 I)) in Ho1. flow_run ltac:(eapply (flows_append_end c a a1 es _ _ _ v w _ _ sl _ h); first [eassumption|by eapply elem_operand_word|lia|idtac]).
    match goal with Dr : _ = _ /\ ex _ |- _ => destruct Dr as (-> & a2 & Ho2 & Hs2 & Hr2 & Hl2) end.
    jump v9. eexists _, _, _. split; [eassumption|]. split; [eassumption|]. split; [eassumption|].
    split; [eapply backed_cons; [done|apply assign_elem_cons]|]. exists a2.
    match goal with Ek : slots (goto f v9 _) = _ |- _ => rewrite Ek, Es, Hlb' end.
    rewrite Hlb1 in Hl2. exact (conj Ho2 (conj Hs2 (conj Hr2 Hl2))).
  - branch false v7. pose proof (others_same_refl c a sl h) as Ho1.
    apply Z.leb_gt in Efull. assert (Hroom : na_len a < na_cap a) by lia.
    assert (Hdata1 : is_Some (na_data a)).
    { destruct Hrep as (_ & _ & Hdr & _). unfold data_rep in Hdr. destruct (na_data a); [done|lia]. }
    pose proof Hsl as Hsl1. pose proof Hrep as Hrep1.
    flow_run ltac:(eapply (flows_append_end c a a es _ _ _ v w _ _ sl _ h); first [eassumption|by eapply elem_operand_word|lia|idtac]).
    match goal with Dr : _ = _ /\ ex _ |- _ => destruct Dr as (-> & a2 & Ho2 & Hs2 & Hr2 & Hl2) end.
    jump v9. eexists _, _, _. split; [eassumption|]. split; [eassumption|]. split; [eassumption|].
    split; [eapply backed_cons; [done|apply assign_elem_cons]|]. exists a2.
    match goal with Ek : slots (goto f v9 _) = _ |- _ => rewrite Ek, Es, Hlb' end.
    exact (conj Ho2 (conj Hs2 (conj Hr2 Hl2))).
Qed.
End native_assign.
