(* ===== verification/NativeDemo.v ===== *)
(** * Native arrays: an example environment

    A bump allocator, and a world of arrays that are looked up by their Datum, with the
    constructions and the element assignment of PostgreSQL's arrays in the format
    [array_of].  They satisfy the interfaces of files Memory and NativeArray, so what is
    proved from those is not empty; an assignment to the first element of an empty native
    array is run on them. *)

From Stdlib Require Import ZArith Lia Ascii.
From S2P Require Import Prelude Ast Escape Expr Float Exec Assign IR CoreEmit StmtEmit ExprEmit Wellformed Demo.
From S2P Require Import ExprDemo Memory NativeArray NativeStore Machine FlatMachine Growth ExprWf SimRel Runs NativeRun NativeAssign.
#[local] Open Scope Z_scope.

Module NativeDemo.

(** ** An allocator *)
Definition out_of_range : ErrorData := mk_error ERRCODE_PROGRAM_LIMIT_EXCEEDED "invalid memory alloc request size".
Definition fits (n : Z) : bool := (0 <=? n) && (n <=? MaxAllocSize).
Definition alloc (l : bytes) : exec heap nat :=
  fun h => let b := fresh (dom h) in Ok b (<[b := (HeapBlock, l)]> h).

#[export] Instance memory : PgMemory := {|
  palloc n := if fits n then alloc (replicate (Z.to_nat n) None) else throw out_of_range;
  palloc0 n := if fits n then alloc (replicate (Z.to_nat n) (Some 0)) else throw out_of_range;
  repalloc b n := fun h =>
    match h !! b with
    | Some (HeapBlock, l) =>
        if fits n then alloc (take (Z.to_nat n) (l ++ replicate (Z.to_nat n) None)) (delete b h)
        else Err out_of_range h
    | _ => Stuck
    end;
  pfree b := fun h => match h !! b with Some (HeapBlock, _) => Ok tt (delete b h) | _ => Stuck end
|}.

Lemma fits_true n : 0 <= n <= MaxAllocSize -> fits n = true.
Proof. intros Hn. unfold fits. apply andb_true_iff. rewrite !Z.leb_le. lia. Qed.
Lemma fresh_free (h : heap) : h !! fresh (dom h) = None.
Proof. apply not_elem_of_dom. apply is_fresh. Qed.

#[export] Instance memory_laws : PgMemoryLaws.
Proof.
  split.
  - intros n h Hn. simpl. rewrite fits_true by done. eexists _, _. split; [done|]. split; [apply fresh_free|].
    apply length_replicate.
  - intros n h Hn. simpl. rewrite fits_true by done. eexists. split; [done|]. apply fresh_free.
  - intros n h Hn. simpl. replace (fits n) with false; [by eexists|]. symmetry. unfold fits.
    rewrite (proj2 (Z.leb_gt n MaxAllocSize)) by done. apply andb_false_r.
  - intros b l n h Hb Hn. simpl. rewrite Hb, fits_true by done. eexists _, _. split; [done|].
    split; [apply fresh_free|]. split; [rewrite length_take, length_app, length_replicate; lia|].
    rewrite take_take, take_app_le by lia. f_equal. lia.
  - intros b l h Hb. simpl. by rewrite Hb.
Qed.

(** ** Arrays *)

(** The null bitmap: byte [g] has the bits of the elements [8 g], ..., [8 g + 7]. *)
Definition set_bit (es : list (option Z)) (g k : nat) (byte : Z) : Z :=
  match es !! (8 * g + k)%nat with Some (Some _) => Z.setbit byte (Z.of_nat k) | _ => byte end.
Definition byte_of (es : list (option Z)) (g : nat) : Z := foldr (set_bit es g) 0 (seq 0 8).
Definition bitmap (es : list (option Z)) : list Z := map (byte_of es) (seq 0 (length es / 8 + 1)).

Definition encode (sz : nat) (es : list (option Z)) (lb : Z) : ArrayType :=
  mk_array 1 [Z.of_nat (length es)] [lb] (Some (bitmap es)) (packed sz es).

Lemma testbit_fold es g l j :
  Z.testbit (foldr (set_bit es g) 0 l) (Z.of_nat j)
  = bool_decide (j ∈ l) && match es !! (8 * g + j)%nat with Some (Some _) => true | _ => false end.
Proof.
  induction l as [|k l IH]; [by rewrite Z.bits_0|]. cbn [foldr]. unfold set_bit at 1.
  destruct (decide (j = k)) as [->|Hne].
  - rewrite (bool_decide_true (k ∈ k :: l)) by set_solver.
    destruct (es !! (8 * g + k)%nat) as [[w|]|] eqn:E.
    + rewrite Z.setbit_eqb by lia. by rewrite Z.eqb_refl.
    + rewrite IH. apply andb_false_r.
    + rewrite IH. apply andb_false_r.
  - rewrite (bool_decide_ext (j ∈ k :: l) (j ∈ l)) by (rewrite elem_of_cons; naive_solver).
    rewrite <- IH. destruct (es !! (8 * g + k)%nat) as [[w|]|]; try done. rewrite Z.setbit_eqb by lia.
    destruct (Z.eqb_spec (Z.of_nat k) (Z.of_nat j)); [lia|done].
Qed.

Lemma encode_ok sz es lb : array_of sz es lb (encode sz es lb).
Proof.
  split; [done|]. split; [done|]. split; [done|]. split; [done|]. intros i x Hi.
  apply lookup_lt_Some in Hi as Hlt. exists (byte_of es (i / 8)). split.
  - unfold bitmap. rewrite list_lookup_fmap, lookup_seq_lt; [done|].
    pose proof (Nat.Div0.div_le_mono i (length es) 8). lia.
  - unfold byte_of. rewrite testbit_fold, bool_decide_true.
    + rewrite <- Nat.div_mod_eq, Hi. by destruct x.
    + apply elem_of_seq. pose proof (Nat.mod_upper_bound i 8). lia.
Qed.

(** Reading an array back: element [i] and those after it, [n] in all. *)
Definition null_at (arr : ArrayType) (i : nat) : bool :=
  match arr_nullbitmap arr with
  | None => false
  | Some bits => match bits !! (i / 8)%nat with
                 | Some byte => negb (Z.testbit byte (Z.of_nat (i mod 8)))
                 | None => true
                 end
  end.
Fixpoint decode_from (sz : nat) (arr : ArrayType) (n i : nat) (src : list Z) : list (option Z) :=
  match n with
  | O => []
  | S n' => if null_at arr i then None :: decode_from sz arr n' (S i) src
            else Some (bytes_word (take sz src)) :: decode_from sz arr n' (S i) (drop sz src)
  end.
Definition decode (sz : nat) (arr : ArrayType) : list (option Z) * Z :=
  match arr_ndim arr, arr_dims arr, arr_lbound arr with
  | 1, [n], [lb] => (decode_from sz arr (Z.to_nat n) 0 (arr_data arr), lb)
  | _, _, _ => ([], 1)
  end.

(** Elements are the same when their bytes are. *)
Definition shape (sz : nat) (es : list (option Z)) : list (option (list Z)) := map (option_map (word_bytes sz)) es.

Lemma shape_null sz es es' : shape sz es = shape sz es' -> map is_null es = map is_null es'.
Proof.
  intros Hs. assert (Hm : forall l, map is_null l = map (fun o => negb (bool_decide (is_Some o))) (shape sz l)).
  { intros l. unfold shape. rewrite map_map. apply map_ext. by intros []. }
  by rewrite !Hm, Hs.
Qed.
Lemma shape_packed sz es es' : shape sz es = shape sz es' -> packed sz es = packed sz es'.
Proof.
  revert es'. induction es as [|x es IH]; intros [|x' es'] Hs; try done. simpl in Hs. injection Hs as Hx Hs.
  destruct x, x'; try done; simpl in *; [f_equal; [by injection Hx|]|]; by apply IH.
Qed.
Lemma shape_length sz es es' : shape sz es = shape sz es' -> length es = length es'.
Proof. intros Hs. apply (f_equal length) in Hs. unfold shape in Hs. by rewrite !length_map in Hs. Qed.

Lemma array_of_shape sz es es' lb arr : shape sz es = shape sz es' -> array_of sz es lb arr -> array_of sz es' lb arr.
Proof.
  intros Hs (Hn & Hd & Hl & Hp & Hnull). pose proof (shape_null _ _ _ Hs) as Hm.
  rewrite (shape_length _ _ _ Hs) in Hd. rewrite (shape_packed _ _ _ Hs) in Hp. split_and!; try done.
  assert (Hlk : forall i x, es' !! i = Some x -> exists y, es !! i = Some y /\ is_null y = is_null x).
  { intros i x Hi. assert (Hi' : map is_null es !! i = Some (is_null x)) by (by rewrite Hm, list_lookup_fmap, Hi).
    rewrite list_lookup_fmap in Hi'. destruct (es !! i) as [y|]; [|done]. injection Hi' as Hy. by exists y. }
  destruct (arr_nullbitmap arr) as [bits|].
  - intros i x Hi. destruct (Hlk i x Hi) as (y & Hy & Hyx). destruct (Hnull i y Hy) as (byte & Hb & Ht).
    exists byte. by rewrite <- Hyx.
  - rewrite list.Forall_lookup in *. intros i x Hi. destruct (Hlk i x Hi) as (y & Hy & <-). by eapply Hnull.
Qed.

Lemma word_bytes_mod n w : word_bytes n (w mod 256 ^ Z.of_nat n) = word_bytes n w.
Proof.
  revert w. induction n as [|n IH]; intros w; [done|]. simpl word_bytes.
  rewrite Nat2Z.inj_succ, Z.pow_succ_r, Z.rem_mul_r by lia. f_equal.
  - rewrite Z.mul_comm, Z_mod_plus_full. apply Z.mod_mod. lia.
  - rewrite Z.mul_comm, Z.div_add, Z.div_small by (try lia; apply Z.mod_pos_bound; lia). apply IH.
Qed.

Lemma null_at_ok sz es lb arr i x : array_of sz es lb arr -> es !! i = Some x -> null_at arr i = is_null x.
Proof.
  intros (_ & _ & _ & _ & Hn) Hi. unfold null_at. destruct (arr_nullbitmap arr) as [bits|].
  - destruct (Hn i x Hi) as (byte & -> & ->). apply negb_involutive.
  - rewrite list.Forall_lookup in Hn. symmetry. by eapply Hn.
Qed.

Lemma decode_from_ok sz arr es i src :
  (forall j x, es !! j = Some x -> null_at arr (i + j) = is_null x) -> packed sz es `prefix_of` src ->
  shape sz (decode_from sz arr (length es) i src) = shape sz es.
Proof.
  revert i src. induction es as [|x es IH]; intros i src Hn [rest ->]; [done|]. cbn [length decode_from].
  assert (Hn' : forall j y, es !! j = Some y -> null_at arr (S i + j) = is_null y).
  { intros j y Hj. rewrite <- (Hn (S j) y Hj). f_equal. lia. }
  pose proof (Hn 0%nat x eq_refl) as H0. rewrite Nat.add_0_r in H0. rewrite H0. destruct x as [w|]; cbn [is_null].
  - cbn [packed]. rewrite <- (assoc_L (++)), take_app_length', drop_app_length' by by rewrite length_word_bytes.
    cbn [shape map option_map]. f_equal.
    + by rewrite bytes_word_bytes, word_bytes_mod.
    + apply IH; [done|]. by exists rest.
  - cbn [shape map option_map]. f_equal. apply IH; [done|]. by exists rest.
Qed.

Lemma decode_ok sz es lb arr :
  array_of sz es lb arr -> shape sz (decode sz arr).1 = shape sz es /\ (decode sz arr).2 = lb.
Proof.
  intros Ha. pose proof Ha as (Hn & Hd & Hl & Hp & _). unfold decode. rewrite Hn, Hd, Hl, Nat2Z.id. split; [|done].
  apply decode_from_ok; [|done]. intros j x Hj. by eapply null_at_ok.
Qed.

(** The assignment to an element only looks at the places. *)
Lemma assign_shape sz es es' lb i x :
  shape sz es = shape sz es' ->
  shape sz (assign_elem es lb i x).1 = shape sz (assign_elem es' lb i x).1
  /\ (assign_elem es lb i x).2 = (assign_elem es' lb i x).2.
Proof.
  intros Hs. pose proof (shape_length _ _ _ Hs) as Hl. unfold assign_elem.
  destruct es as [|a es], es' as [|a' es']; try done. rewrite Hl.
  destruct (i <? lb); [|destruct (i <? lb + Z.of_nat (length (a' :: es')))]; cbn [fst snd]; (split; [|done]);
    unfold shape in *.
  - cbn [map]. rewrite !map_app. f_equal. f_equal. exact Hs.
  - rewrite !list_fmap_insert. f_equal. exact Hs.
  - rewrite !map_app. f_equal. exact Hs.
Qed.

(** ** The environment *)
Definition world : Type := gmap Z ArrayType.
Definition no_query (e : UPLpgSQL_expr) : exec (execstate world) spi_result :=
  throw (mk_error ERRCODE_INTERNAL_ERROR "no query").
#[export] Instance env : PgEnv world :=
  Demo.env_for (fun _ => xret None) no_query (fun _ w => w) (fun _ => false) (fun v => v).

Definition empty_array : ArrayType := mk_array 0 [] [] None [].
Definition array_at (w : world) (d : Datum) : ArrayType := default empty_array (w !! d).
Definition elem_value (null : bool) (v : Z) : option Z := if null then None else Some v.
Definition with_flags (ws : list Z) (flags : option (list bool)) : list (option Z) :=
  match flags with
  | None => map Some ws
  | Some fs => zip_with (fun w null => elem_value null w) ws fs
  end.

#[export] Instance arrays : PgArrays world := {|
  get_typlenbyvalalign := fun ty => if ty =? INT4OID then (4, true, 4) else (8, true, 8);
  ArrayGetNItems := fun _ dims => foldr Z.mul 1 dims;
  construct_md_array := fun ws flags _ _ lbs _ t =>
    inl (encode (Z.to_nat t.1.1) (with_flags ws flags) (default 1 (head lbs)));
  construct_empty_array := fun _ => empty_array;
  DatumGetArrayTypeP := array_at;
  PointerGetDatum := fun a w => PgOk 1 (<[1 := a]> w);
  array_get_element := fun d i _ t w =>
    let '(es, lb) := decode (Z.to_nat t.1.1) (array_at w d) in
    PgOk (match es !! Z.to_nat (i - lb) with
          | Some (Some v) => if lb <=? i then (v, false) else (0, true)
          | _ => (0, true)
          end) w;
  array_set_element := fun d i v null _ t w =>
    let sz := Z.to_nat t.1.1 in
    let '(es, lb) := decode sz (array_at w d) in
    let '(es', lb') := assign_elem es lb i (elem_value null v) in
    let d' := if d =? 1 then 2 else 1 in
    PgOk d' (<[d' := encode sz es' lb']> w)
|}.

Lemma array_at_insert (w : world) d a : array_at (<[d := a]> w) d = a.
Proof. exact (f_equal (default empty_array) (lookup_insert_eq (M:=gmap Z) w d a)). Qed.

Lemma with_flags_ok es ws flags :
  Forall2 (fun x w => x = Some w \/ x = None) es ws ->
  (if flags is Some fs then fs = map is_null es else Forall (fun x => is_null x = false) es) ->
  with_flags ws flags = es.
Proof.
  intros Hes. destruct flags as [fs|]; simpl.
  - intros ->. induction Hes as [|x w es ws Hx _ IH]; [done|]. simpl. rewrite IH. by destruct Hx as [->| ->].
  - intros Hn. induction Hes as [|x w es ws Hx _ IH]; [done|]. inversion_clear Hn. simpl. rewrite IH by done.
    by destruct Hx as [->| ->].
Qed.

(** What is read back has the places of what was there, if there was anything. *)
Lemma decode_datum sz (w : world) d es lb :
  datum_array sz w d es lb ->
  shape sz (decode sz (array_at w d)).1 = shape sz es /\ (es <> [] -> (decode sz (array_at w d)).2 = lb).
Proof.
  unfold datum_array. simpl. destruct es as [|x es].
  - intros Hn. unfold decode. rewrite Hn. done.
  - intros Ha. apply decode_ok in Ha as [Hs Hl]. done.
Qed.

Lemma assign_empty_lb es lb lb' i x : (es <> [] -> lb = lb') -> assign_elem es lb i x = assign_elem es lb' i x.
Proof. destruct es; [done|]. intros ->; done. Qed.

#[export] Instance arrays_laws : PgArraysLaws world.
Proof.
  split.
  - intros n Hn. simpl. lia.
  - intros ty sz [[-> ->]|[[-> | ->] ->]]; reflexivity.
  - intros sz es ws flags lb ty t _ _ _ Ht Hes Hf. eexists. split; [reflexivity|]. rewrite Ht. simpl.
    rewrite Nat2Z.id, (with_flags_ok es) by done. apply encode_ok.
  - done.
  - intros a w. exists 1, (<[1 := a]> w). split; [done|]. split; [apply array_at_insert|].
    split; [done|]. split; [done|]. by unfold_int64.
  - intros sz w d es lb i x v typlen t _ Hd Ht Hx _. simpl. rewrite Ht. simpl. rewrite Nat2Z.id.
    assert (Hx' : elem_value (is_null x) v = x) by (by destruct Hx as [->| ->]).
    destruct (decode_datum _ _ _ _ _ Hd) as [Hs Hl]. destruct (decode sz (array_at w d)) as [es0 lb0]. simpl in Hs, Hl.
    assert (Hnil : es0 <> [] -> es <> []) by (intros Hne ->; by destruct es0).
    rewrite Hx', (assign_empty_lb es0 lb0 lb) by auto. destruct (assign_shape _ _ _ lb i x Hs) as [Hs' Hl'].
    destruct (assign_elem es0 lb i x) as [es1 lb1]. simpl in Hs', Hl'. eexists _, _. split; [reflexivity|]. split.
    + unfold datum_array. simpl. rewrite array_at_insert. rewrite <- Hl'.
      pose proof (assign_elem_cons es lb i x) as Hc. destruct (assign_elem es lb i x).1 eqn:E; [done|].
      rewrite <- E in *. eapply array_of_shape; [exact Hs'|apply encode_ok].
    + destruct (Z.eqb_spec d 1); (split; [lia|by unfold_int64]).
  - intros d w Hd. exists d, w. split; [done|]. split; [done|]. split; [done|exact Hd].
Qed.

(** ** An assignment *)

(** One variable, [a int[]], which is NULL and native. *)
Definition int4_array : UPLpgSQL_type := mk_type "int4[]" 1007 TTYPE_SCALAR (-1) false "b"%char true (-1).
Definition variable : UPLpgSQL_var :=
  mk_var (mk_variable 0 "a" false false None) int4_array None (-1) 0 0 true false PROMISE_NONE.
Definition datums : list UPLpgSQL_datum := [DTYPE_VAR variable].
Definition state : execstate world :=
  mk_execstate datums 0 0 true INT4OID false false INT4OID false true None None 0 0 None None 1 false None None
    false None ∅.

#[export] Instance compile_env : CompileEnv := {|
  ce_datums := datums;
  ce_plan_sources := fun _ => None;
  ce_result_desc := fun _ => None;
  ce_lookup_field := fun _ _ => None;
  ce_get_element_type := fun _ => INT4OID;
  ce_get_typlenbyvalalign := fun _ => (4, true, 4);
  ce_get_typbyval := fun _ => true;
  ce_oid_of := @ce_oid_of ExprDemo.env;
  ce_numeric_float8 := fun v => v;
  ce_datumCopy := fun v => v;
  ce_has_polymorphic := fun _ => false;
  ce_fn_strict := fun _ => true;
  ce_get_func_name := fun _ => None
|}.

Definition after (m : emit unit) (c : UPL_compile_ctx) : UPL_compile_ctx :=
  match m c with Success (_, c') => c' | Failure _ => c end.

(** The function's entry, the code of a[1] := 7 after it, and a machine that stands
    between the two. *)
Definition entry : UPL_compile_ctx := after (setup_entry [mk_native_array 0 INT4OID 4]) (prologue_ctx UPLPGSQL_RC_OK).
Definition a : native_slots :=
  default (mk_native_slots (mk_native_array 0 INT4OID 4) 0 0 0 0 0 0) (head (native_arrays (IR.env entry))).
Definition set_first : emit unit := emit_native_set a 0 (const_int32 1) (const_int32 7) EXPR_TYPE_INT4 None.
Definition function_of (c : UPL_compile_ctx) : ir_function :=
  mk_ir_function (block_names (bld c)) (block_code (bld c)) (entry_allocas (bld c)) (switches (bld c)) true.
Definition f : ir_function := function_of (after set_first entry).
Definition no_array : native_array := mk_native None 0 1 None 0 false.
Definition entry_slots : gmap nat value :=
  list_to_map [(data_ptr a, VNull); (len_ptr a, VInt 0); (lb_ptr a, VInt 1); (nulls_ptr a, VNull);
               (cap_ptr a, VInt 0); (is_heap_ptr a, VInt 0)].
Definition machine : mstate world :=
  mk_mstate (rest f entry) state {[ plstate (IR.env entry) := VPlstate ]} entry_slots.

Lemma entry_inv : inv entry {[1%nat]}.
Proof.
  apply (setup_entry_inv [mk_native_array 0 INT4OID 4] (prologue_ctx UPLPGSQL_RC_OK) tt).
  - by vm_compute.
  - apply (@prologue_inv no_inlining WellformedExamples.no_inlining_ok).
Qed.

Lemma ext_function_of c : ext c (function_of c).
Proof. intros b. unfold block, codeb, code_of, function_of. done. Qed.

Lemma no_array_ok : native_rep 4 ∅ no_array [].
Proof. split; [done|]. split; [by vm_compute|]. split; [done|]. constructor. Qed.

Lemma slots_ok_entry : slots_ok a entry.
Proof.
  unfold slots_ok. replace (slots_of a) with [1%nat; 2%nat; 3%nat; 4%nat; 5%nat; 6%nat] by by vm_compute.
  replace (next_slot (bld entry)) with 7%nat by by vm_compute. split.
  - by apply (bool_decide_unpack _).
  - repeat constructor; lia.
Qed.

Lemma emit_native_set_correct_witness :
  assigned_array (f:=f) a 0 4 entry machine ∅ no_array [Some 7] 1 (after set_first entry).
Proof.
  apply (emit_native_set_correct a 0 4 eq_refl (or_introl (conj eq_refl eq_refl)) eq_refl
           (const_int32 1) (const_int32 7) EXPR_TYPE_INT4 None (VInt 7) 7 1 (Some 7) false
           entry tt (after set_first entry) {[1%nat]} machine state ∅ no_array [] variable).
  - by vm_compute.
  - apply entry_inv.
  - vm_compute. lia.
  - apply ext_function_of.
  - reflexivity.
  - apply slots_ok_entry.
  - by split.
  - by split.
  - apply no_array_ok.
  - exists variable. split; [done|]. split; [by unfold_int64|]. intros _. by left.
  - constructor.
  - split_and!; by unfold_int32.
  - intros _. by vm_compute.
  - reflexivity.
  - reflexivity.
  - right. by eexists.
  - left. right. by eexists.
  - exact I.
  - by split.
  - by unfold_int32.
  - by split.
  - reflexivity.
  - by unfold_int32.
  - reflexivity.
  - split_and!; by unfold_int32.
Defined.

(** The array {5, NULL}, with its flags in the second block. *)
Definition two_elements : native_array := mk_native (Some 0%nat) 2 1 (Some 1%nat) 2 true.
Definition two_blocks : heap :=
  {[ 0%nat := (HeapBlock, map Some (word_bytes 4 5 ++ word_bytes 4 0));
     1%nat := (HeapBlock, [Some 0; Some 1]) ]}.

Lemma two_elements_ok : native_rep 4 two_blocks two_elements [Some 5; None].
Proof.
  split; [done|]. split; [by vm_compute|]. split.
  - exists (map Some (word_bytes 4 5 ++ word_bytes 4 0)). split; [done|]. split; [done|].
    intros [|[|i]] x [= <-]; eexists; (split; [by vm_compute|]); (split; [by unfold_int32|]); auto.
  - split; [done|]. exists [Some 0; Some 1]. split; [done|]. split; [done|]. by intros [|[|i]] x [= <-].
Qed.

Lemma native_array_roundtrip_witness :
  exists (s' : execstate world) v' o h',
    uplpgsql_rt_native_array_to_datum 0 (Some 0%nat) 2 1 (Some 1%nat) INT4OID 4 (state, two_blocks) = Ok tt (s', two_blocks)
    /\ uplpgsql_rt_native_array_from_datum (es_world s') (Ast.value v') false 4 two_blocks = Ok o h'
    /\ native_rep 4 h' (native_of o) [Some 5; None].
Proof.
  destruct (native_array_roundtrip 4 (or_introl eq_refl) 0 INT4OID (or_introl (conj eq_refl eq_refl))
              two_elements [Some 5; None] state two_blocks variable) as (s' & Hto & v' & o & h' & _ & Hn & Hfrom & Hr & _).
  - apply two_elements_ok.
  - repeat constructor; by unfold_int32.
  - split_and!; by unfold_int32.
  - done.
  - by unfold_int64.
  - exists s', v', o, h'. rewrite Hn in Hfrom. exact (conj Hto (conj Hfrom Hr)).
Defined.
End NativeDemo.
