(* ===== verification/ExprSim.v ===== *)
(** * Native operations compute what they mean

    The code of each operation of the expression compiler, run on the machine of file
    Machine, gives the value file SqlEval specifies or raises the error it specifies:
    integer arithmetic with its range checks, division and modulo, float arithmetic with
    its checks, comparisons, loads of variables, conversions. *)

From Stdlib Require Import ZArith Lia SpecFloat.
From S2P Require Import Prelude Ast Escape Expr Float Exec Assign IR CoreEmit StmtEmit ExprEmit Wellformed.
From S2P Require Import Machine Growth ExprWf CompileTotal ExprTotal SqlEval SimRel Runs.

#[local] Opaque bind.

Section sim.
Context {world : Type} `{PgEnv world} `{CompileEnv}.
Context (f : ir_function).
Abbreviation runs := (Runs.runs f).
Abbreviation gives := (Runs.gives f).
Abbreviation runs_open := (Runs.runs_open f).
Abbreviation gives_open := (Runs.gives_open f).

(** ** Integers *)

Lemma overflow_flag w z : negb (Z.eqb (wrap w z) z) = negb (in_width w z).
Proof.
  f_equal. apply Bool.eq_iff_eq_true. rewrite Z.eqb_eq, in_width_iff. split; destruct w; simpl.
  - intros <-. apply wrap32_range.
  - intros <-. apply wrap64_range.
  - apply wrap32_id.
  - apply wrap64_id.
Qed.

Lemma in_width_wrap w z : in_width w z = true -> wrap w z = z.
Proof. rewrite in_width_iff. destruct w; [apply wrap32_id|apply wrap64_id]. Qed.

Lemma arith_sim op w a b x y c k s :
  defd c k a (VInt x) -> defd c k b (VInt y) ->
  gives (emit_int_arith_checked op w a b) c k s (int_result w (arith op x y)).
Proof.
  intros Ha Hb. unfold emit_int_arith_checked. gives_op. gives_op.
  eapply (gives_checked _ _ _ _ _ (negb (in_width w (arith op x y)))); [by rewrite <- overflow_flag|bind_side|].
  unfold int_result. destruct (in_width w (arith op x y)) eqn:Hw; simpl; [|done].
  intros c2 k2 G L. carry. apply gives_val, runs_ret. by rewrite (in_width_wrap _ _ Hw) in *.
Qed.

Lemma runs_min_check w a x t t' c k s :
  defd c k a (VInt x) ->
  runs (emit_int_min_check w a t t') c k s (fun _ _ _ => True)
    (if Z.eqb x (int_min w) then Some ERR_rt_int_overflow else None).
Proof.
  intros Ha. apply runs_close. intros P. unfold emit_int_min_check.
  open_append. open_append. open_op.
  eapply runs_open_weaken; [apply (runs_error_branch _ _ _ _ _ (Z.eqb x (int_min w))); [done|set_solver..]|done].
Qed.

(** A value after the test for the least integer. *)
Lemma gives_min_checked (m : emit operand) w a x t t' c k s r :
  defd c k a (VInt x) -> grows m ->
  (if Z.eqb x (int_min w) then r = RError ERR_rt_int_overflow
   else forall c1 k1, agree c k k1 -> le_ctx c c1 -> gives m c1 k1 s r) ->
  gives (emit_int_min_check w a t t' ;;; m) c k s r.
Proof.
  intros Ha Hg Hr. pose proof (runs_min_check w a x t t' c k s Ha) as He. destruct (Z.eqb x (int_min w)).
  - subst r. eapply runs_bind_err; [done|exact He].
  - destruct r; try done;
      (eapply runs_bind; [bind_side|bind_side|by intro|exact He|intros ? c1 k1 L G _; exact (Hr c1 k1 G L)]).
Qed.

Lemma not_min_width w x : in_width w x = true -> Z.eqb x (int_min w) = negb (in_width w (- x)).
Proof.
  destruct w; simpl; unfold PG_INT32_MIN, PG_INT32_MAX, PG_INT64_MIN, PG_INT64_MAX;
    rewrite andb_true_iff, !Z.leb_le; intros Hx; apply Bool.eq_iff_eq_true;
    rewrite negb_true_iff, andb_false_iff, !Z.leb_gt, Z.eqb_eq; lia.
Qed.
Lemma abs_width w x : in_width w x = true -> in_width w (Z.abs x) = in_width w (- x).
Proof.
  intros Hx. apply Bool.eq_iff_eq_true. rewrite !in_width_iff in *.
  destruct w; unfold_int32; unfold_int64; lia.
Qed.

Lemma negate_sim w a x c k s :
  defd c k a (VInt x) -> in_width w x = true ->
  gives (emit_int_negate w a) c k s (int_result w (- x)).
Proof.
  intros Ha Hx. unfold emit_int_negate. eapply gives_min_checked; [exact Ha|bind_side|].
  rewrite (not_min_width w x Hx). unfold int_result. destruct (in_width w (- x)) eqn:Hw; cbn [negb]; [|done].
  intros c1 k1 G L. carry. rewrite <- (in_width_wrap _ _ Hw). run_op.
Qed.

Lemma abs_sim w a x c k s :
  defd c k a (VInt x) -> in_width w x = true ->
  gives (emit_int_abs w a) c k s (int_result w (Z.abs x)).
Proof.
  intros Ha Hx. unfold emit_int_abs. eapply gives_min_checked; [exact Ha|bind_side|].
  rewrite (not_min_width w x Hx). unfold int_result. rewrite (abs_width w x Hx).
  destruct (in_width w (- x)) eqn:Hw; cbn [negb]; [|done].
  intros c1 k1 G L. carry. gives_op. gives_op. apply gives_val.
  eapply runs_op; [find_args|]. simpl. rewrite (in_width_wrap _ _ Hw). do 2 f_equal.
  destruct (Z.geb_spec x 0); simpl; f_equal; lia.
Qed.

Lemma rem_minus_one x : Z.rem x (-1) = 0%Z.
Proof. rewrite <- (Z.rem_opp_r x (-1)) by lia. apply Z.rem_1_r. Qed.

Lemma mod_sim w a b x y c k s :
  defd c k a (VInt x) -> defd c k b (VInt y) -> y <> 0%Z ->
  gives (emit_int_mod w a b) c k s (RVal (VInt (Z.rem x y))).
Proof.
  intros Ha Hb Hy. unfold emit_int_mod. gives_op. gives_op.
  assert (Hz : exists z, defd c0 k0 a1 (VInt z) /\ z <> 0%Z /\ z <> (-1)%Z /\ (y = (-1)%Z \/ z = y)).
  { simpl icmp in *. destruct (Z.eqb_spec y (-1)); simpl in D0; eexists; (split; [exact D0|]); split_and!; auto; lia. }
  destruct Hz as (z & Hz & Hz0 & Hz1 & Hzy).
  eapply gives_bind; [bind_side..| |].
  { eapply runs_op; [find_args|]. simpl. rewrite (proj2 (Z.eqb_neq z 0) Hz0), (proj2 (Z.eqb_neq z (-1)) Hz1).
    rewrite andb_false_r. reflexivity. }
  intros o c2 k2 L G D3. cbv beta in D3. carry. apply gives_val. eapply runs_op; [find_args|].
  simpl. destruct (Z.eqb_spec y (-1)) as [->|Hn]; simpl; [by rewrite rem_minus_one|].
  by destruct Hzy as [?| ->].
Qed.

(** The quotient fits unless it is that of the least integer by -1. *)
Lemma quot_width w x y :
  in_width w x = true -> y <> 0%Z ->
  in_width w (Z.quot x y) = negb (Z.eqb x (int_min w) && Z.eqb y (-1)).
Proof.
  intros Hx Hy. destruct (Z.eqb_spec y (-1)) as [->|Hm].
  - rewrite andb_true_r, (not_min_width w x Hx), negb_involutive.
    change (-1)%Z with (- (1))%Z. by rewrite Z.quot_opp_r, Z.quot_1_r by done.
  - rewrite andb_false_r. simpl. destruct (Z.eq_dec y 1%Z) as [->|H1]; [by rewrite Z.quot_1_r|].
    assert (Hab : (2 * Z.abs (Z.quot x y) <= Z.abs x)%Z).
    { rewrite <- Z.quot_abs by done. pose proof (Z.mul_quot_le (Z.abs x) (Z.abs y) ltac:(lia) ltac:(lia)).
      pose proof (Z.quot_pos (Z.abs x) (Z.abs y) ltac:(lia) ltac:(lia)). nia. }
    rewrite in_width_iff in *. destruct w; unfold_int32; unfold_int64; lia.
Qed.

Lemma div_sim w a b x y c k s :
  defd c k a (VInt x) -> defd c k b (VInt y) -> in_width w x = true -> y <> 0%Z ->
  gives (emit_int_div w a b) c k s (int_result w (Z.quot x y)).
Proof.
  intros Ha Hb Hx Hy. apply gives_close. intros P. unfold emit_int_div.
  giveo_append. giveo_append. giveo_op. giveo_op. giveo_op. flags.
  eapply gives_open_branch; [eassumption|set_solver..|bind_side|].
  pose proof (quot_width w x y Hx Hy) as Hq. unfold int_result. rewrite Hq.
  destruct (_ && _) eqn:Eo; cbn [negb]; [done|]. intros c6 k6 G L. carry.
  apply gives_opened; [eapply emits_any, emits_build_op|]. eapply runs_op; [find_args|].
  change ((Z.eqb x (int_min w) && Z.eqb y (-1)) = false) in Eo.
  simpl. by rewrite (proj2 (Z.eqb_neq y 0) Hy), Eo.
Qed.

Lemma divmod_sim w is_div a b x y c k s :
  defd c k a (VInt x) -> defd c k b (VInt y) -> in_width w x = true ->
  gives (emit_int_divmod w is_div a b) c k s (int_divide is_div w x y).
Proof.
  intros Ha Hb Hx. apply gives_close. intros P. unfold emit_int_divmod, int_divide.
  giveo_append. giveo_append. giveo_append. giveo_op.
  eapply (gives_open_branch _ _ _ _ _ _ (Z.eqb y 0)); [eassumption|set_solver..|bind_side|].
  destruct (Z.eqb_spec y 0) as [|Hy]; [done|]. intros c6 k6 G L. carry.
  assert (Hd : gives (if is_div then emit_int_div w a b else emit_int_mod w a b) c6 k6 s
                 (if is_div then int_result w (Z.quot x y) else RVal (VInt (Z.rem x y)))).
  { destruct is_div; [by apply div_sim|by apply mod_sim]. }
  destruct is_div; (eapply gives_open_first; [bind_side..|exact Hd|]);
    intros v o c7 k7 E L G D1; carry; rewrite E; (apply runs_open_join; [done|set_solver]).
Qed.

(** ** Floats *)

(** A test, as a flag. *)
Definition tests (m : emit operand) c k s (b : bool) : Prop :=
  runs m c k s (fun o c' k' => defd c' k' o (bool_value b)) None.

Lemma feqb_zero x : SFeqb x double_zero = is_zero x.
Proof. by destruct x as [[]|[]| |[]]. Qed.
Lemma feqb_inf b x : SFeqb x (double_infinity b) = match x with S754_infinity b' => Bool.eqb b b' | _ => false end.
Proof. destruct x as [[]|[]| |[]], b; done. Qed.

Lemma isnan_sim a x c k s : defd c k a (VDouble x) -> tests (emit_float_isnan a) c k s (is_nan x).
Proof.
  intros Ha. unfold emit_float_isnan, tests. eapply runs_op; [find_args|].
  simpl. unfold fcmp_uno. by rewrite orb_diag.
Qed.
Lemma iszero_sim a x c k s : defd c k a (VDouble x) -> tests (emit_float_iszero a) c k s (is_zero x).
Proof.
  intros Ha. unfold emit_float_iszero, tests. eapply runs_op; [find_args|].
  simpl. unfold fcmp_oeq. by rewrite feqb_zero.
Qed.
Lemma isinf_sim a x c k s : defd c k a (VDouble x) -> tests (emit_float_isinf a) c k s (is_inf x).
Proof.
  intros Ha. unfold emit_float_isinf, tests. op_step. op_step.
  eapply runs_op; [find_args|]. simpl. unfold fcmp_oeq. rewrite !feqb_inf, lor_flags.
  by destruct x as [|[]| |].
Qed.

Lemma and_neither_sim t (p : double -> bool) r a b x y z c k s :
  (forall o w c k, defd c k o (VDouble w) -> tests (t o) c k s (p w)) ->
  (forall o, emits is_reg (t o)) -> (forall o, grows (t o)) ->
  defd c k r (VDouble x) -> defd c k a (VDouble y) -> defd c k b (VDouble z) ->
  tests (emit_and_neither t r a b) c k s (p x && (negb (p y) && negb (p z))).
Proof.
  intros Ht He Hg Hr Ha Hb. unfold emit_and_neither, tests.
  assert (Hany : forall o, emits any (t o)) by (intros; by eapply emits_any).
  eapply runs_bind; [apply Hany|apply Hg|bind_side|by apply Ht|intros ? ? ? ? ? D; cbv beta in D; carry].
  eapply runs_bind; [apply Hany|apply Hg|bind_side|by apply Ht|intros ? ? ? ? ? D1; cbv beta in D1; carry].
  op_step.
  eapply runs_bind; [apply Hany|apply Hg|bind_side|by apply Ht|intros ? ? ? ? ? D2; cbv beta in D2; carry].
  op_step. op_step. unfold bool_value in *. flags. eapply runs_op; [find_args|]. simpl. by flags.
Qed.

Lemma and_neither_inf r a b x y z c k s :
  defd c k r (VDouble x) -> defd c k a (VDouble y) -> defd c k b (VDouble z) ->
  tests (emit_and_neither emit_float_isinf r a b) c k s (is_inf x && (negb (is_inf y) && negb (is_inf z))).
Proof. apply and_neither_sim; intros; [by apply isinf_sim|bind_side..]. Qed.
Lemma and_neither_zero r a b x y z c k s :
  defd c k r (VDouble x) -> defd c k a (VDouble y) -> defd c k b (VDouble z) ->
  tests (emit_and_neither emit_float_iszero r a b) c k s (is_zero x && (negb (is_zero y) && negb (is_zero z))).
Proof. apply and_neither_sim; intros; [by apply iszero_sim|bind_side..]. Qed.

Ltac test_by t := gives_by t; unfold bool_value in *; flags.

(** The checks of the float operators, in sequence. *)
Lemma gives_float_checked (m : emit operand) fn t cond b c k s r :
  defd c k cond (VInt (z_of_bool b)) -> grows m ->
  (if b then r = RError fn else forall c1 k1, agree c k k1 -> le_ctx c c1 -> gives m c1 k1 s r) ->
  gives (emit_float_error_if cond fn t ;;; m) c k s r.
Proof. apply gives_checked. Qed.

Ltac check := eapply gives_float_checked; [eassumption|bind_side|].

Lemma addsub_sim a b x y is_add c k s :
  defd c k a (VDouble x) -> defd c k b (VDouble y) ->
  gives (emit_float_addsub a b is_add) c k s (float_addsub is_add x y).
Proof.
  intros Ha Hb. unfold emit_float_addsub, float_addsub.
  gives_by ltac:(instantiate (1 := fun o c' k' => defd c' k' o (VDouble (if is_add then fadd x y else fsub x y)));
                 destruct is_add; run_op).
  test_by ltac:(eapply and_neither_inf; eassumption).
  check. rewrite <- andb_assoc. destruct (_ && _); [done|]. intros c3 k3 G L. carry. by apply gives_val, runs_ret.
Qed.

Lemma fmul_sim a b x y c k s :
  defd c k a (VDouble x) -> defd c k b (VDouble y) -> gives (emit_float_mul a b) c k s (float_mul x y).
Proof.
  intros Ha Hb. unfold emit_float_mul, float_mul. gives_op.
  test_by ltac:(eapply and_neither_inf; eassumption).
  check. rewrite <- andb_assoc. destruct (_ && _); [done|]. intros c3 k3 G L. carry.
  test_by ltac:(eapply and_neither_zero; eassumption).
  check. rewrite <- andb_assoc. destruct (_ && _); [done|]. intros c5 k5 G L. carry. by apply gives_val, runs_ret.
Qed.

Lemma fdiv_sim a b x y c k s :
  defd c k a (VDouble x) -> defd c k b (VDouble y) -> gives (emit_float_div a b) c k s (float_div x y).
Proof.
  intros Ha Hb. unfold emit_float_div, float_div.
  test_by ltac:(eapply iszero_sim; eassumption). test_by ltac:(eapply isnan_sim; eassumption).
  gives_op. gives_op. flags.
  check. destruct (_ && _); [done|]. intros c5 k5 G L. carry. gives_op.
  test_by ltac:(eapply isinf_sim; eassumption). test_by ltac:(eapply isinf_sim; eassumption).
  gives_op. gives_op. flags.
  check. destruct (_ && _); [done|]. intros c11 k11 G L. carry.
  test_by ltac:(eapply iszero_sim; eassumption). test_by ltac:(eapply iszero_sim; eassumption).
  gives_op. test_by ltac:(eapply isinf_sim; eassumption). gives_op. gives_op. gives_op. flags.
  check. rewrite <- andb_assoc. destruct (is_zero (fdiv x y) && _); [done|]. intros c20 k20 G L. carry. by apply gives_val, runs_ret.
Qed.

Lemma compare_swap x y :
  is_nan x = false -> is_nan y = false ->
  exists o, SFcompare x y = Some o /\ SFcompare y x = Some (CompOpp o).
Proof.
  destruct x as [[]|[]| |[] m e], y as [[]|[]| |[] m' e']; try discriminate; intros _ _;
    try (eexists; split; [reflexivity|reflexivity]); simpl;
    (eexists; split; [reflexivity|]); rewrite (Z.compare_antisym e' e);
    destruct (e' ?= e)%Z; simpl; try done; f_equal;
    change (Pos.compare_cont Eq) with Pos.compare; rewrite (Pos.compare_antisym m' m);
    by destruct (m' ?= m)%positive.
Qed.

(** What the order says of two numbers, in terms of the tests of the code. *)
Lemma float8_cmp_numbers p x y :
  is_nan x = false -> is_nan y = false ->
  holds_for p (float8_cmp x y)
  = match p with
    | EQ => fcmp_oeq x y | NE => fcmp_one x y | SLT => fcmp_olt x y | SLE => fcmp_ole x y
    | SGT => fcmp_olt y x | SGE => fcmp_ole y x
    end.
Proof.
  intros Hx Hy. destruct (compare_swap x y Hx Hy) as (o & E1 & E2).
  unfold float8_cmp, fcmp_one, fcmp_uno, fcmp_oeq, fcmp_olt, fcmp_ole, SFeqb, SFltb, SFleb.
  rewrite Hx, Hy, E1, E2. by destruct p, o.
Qed.

Lemma fcmp_sim f' p a b x y c k s :
  operator_of f' = Some (FloatCompare p) -> defd c k a (VDouble x) -> defd c k b (VDouble y) ->
  gives (emit_float_cmp f' a b) c k s (RVal (bool_value (holds_for p (float8_cmp x y)))).
Proof.
  intros Hf Ha Hb. unfold emit_float_cmp.
  test_by ltac:(eapply isnan_sim; eassumption). test_by ltac:(eapply isnan_sim; eassumption).
  gives_op. gives_op. flags.
  pose proof (float8_cmp_numbers p x y) as Hn.
  destruct f'; try discriminate; injection Hf as <-; simpl in Hn;
    gives_op; gives_op; flags; (apply gives_val; eapply runs_op; [find_args|]); simpl; flags;
    (destruct (is_nan x) eqn:Hx, (is_nan y) eqn:Hy;
      [ unfold float8_cmp; by rewrite Hx, Hy..
      | rewrite Hn by done; simpl; by rewrite ?orb_false_l, ?andb_true_l ]).
Qed.

(** ** Variables *)

Lemma sync_if_native_runs n c k s : runs (sync_if_native n) c k s (fun _ _ _ => True) None.
Proof.
  intros u c' P Hrun HI Hok Hext Hat. Transparent bind. unfold sync_if_native, bind, get_env in Hrun. Opaque bind.
  rewrite (co_arrays _ Hok) in Hrun. injection Hrun as _ <-. exists k.
  split; [apply rtc_refl|]. split; [done|]. split; [apply agree_refl|done].
Qed.

Lemma variable_lookup ds n v : variable ds n = Some v -> ds !! n = Some (DTYPE_VAR v).
Proof. unfold variable. destruct (ds !! n) as [[]|]; try done. by intros [= ->]. Qed.

Lemma load_var_runs n v c k s :
  variable (es_datums s) n = Some v ->
  runs (emit_load_var_datum n) c k s (fun o c' k' => defd c' k' o (VInt (wrap64 (Ast.value v)))) None.
Proof.
  intros Hv%variable_lookup. apply runs_value. intros r m more Ht Hm Hr. unfold step.
  by rewrite Ht, Hm, Hv.
Qed.

Lemma load_param_runs n v c k s :
  is_Some (variable ce_datums n) -> variable (es_datums s) n = Some v ->
  runs (emit_load_param_datum n) c k s (fun o c' k' => defd c' k' o (VInt (wrap64 (Ast.value v)))) None.
Proof.
  intros [w Hw%variable_lookup] Hv. unfold emit_load_param_datum. rewrite Hw.
  eapply runs_bind; [bind_side|bind_side|bind_side|apply sync_if_native_runs|].
  intros _ c1 k1 L G _. by apply load_var_runs.
Qed.

Lemma load_isnull_runs n v c k s :
  is_Some (variable ce_datums n) -> variable (es_datums s) n = Some v ->
  runs (emit_load_param_isnull n) c k s (fun o c' k' => defd c' k' o (bool_value (isnull v))) None.
Proof.
  intros [w Hw%variable_lookup] Hv%variable_lookup. unfold emit_load_param_isnull. rewrite Hw.
  eapply runs_bind; [bind_side|bind_side|bind_side|apply sync_if_native_runs|]. intros _ c1 k1 L G _.
  eapply (runs_bind _ _ _ _ _ (fun o c' k' => defd c' k' o (bool_value (isnull v)))); [bind_side|bind_side|bind_side| |].
  - apply runs_value. intros r m more Ht Hm Hr. unfold step. by rewrite Ht, Hm, Hv.
  - intros o c2 k2 L2 G2 D. eapply runs_op; [find_args|]. simpl. by destruct (isnull v).
Qed.

(** ** Datums and native values *)

Lemma datum_value_sim d t z msg c k s :
  defd c k d (VInt (wrap64 z)) -> value_class t = true ->
  gives (datum_value d t msg) c k s (RVal (value_of_datum t z)).
Proof.
  intros Hd Ht. unfold datum_value. destruct t; try discriminate; apply gives_val.
  - eapply runs_op; [find_args|]. simpl. by rewrite wrap32_wrap64.
  - by apply runs_ret.
  - run_op.
Qed.

Lemma emits_any_datum_value d t msg : emits any (datum_value d t msg).
Proof. unfold datum_value. destruct t; emits_auto; bind_side. Qed.

Lemma to_datum_sim a t v c k s :
  defd c k a v -> value_class t = true -> class_value t v ->
  gives (native_to_datum a t) c k s (RVal (VInt (datum_of_value v))).
Proof.
  intros Ha Ht Hv. unfold native_to_datum. apply gives_val.
  destruct t; try discriminate; destruct v; try done; first [run_op|by apply runs_ret].
Qed.

Lemma emits_any_to_datum a t : emits any (native_to_datum a t).
Proof. unfold native_to_datum. destruct t; emits_auto; bind_side. Qed.

(** ** Operators *)

Lemma widen_runs a t v c k s :
  defd c k a v -> class_value t v -> runs (widen a t) c k s (fun o c' k' => defd c' k' o v) None.
Proof.
  intros Ha Hv. unfold widen. destruct t; try by apply runs_ret. destruct v; try done. run_op.
Qed.

Lemma emits_any_widen a t : emits any (widen a t).
Proof. eapply emits_any, emits_widen. Qed.

Lemma cross_sim op a b x y l r c k s :
  defd c k a (VInt x) -> defd c k b (VInt y) -> class_value l (VInt x) -> class_value r (VInt y) ->
  gives (cross_arith op a b l r) c k s (int_result I64 (arith op x y)).
Proof.
  intros Ha Hb Hl Hr. unfold cross_arith.
  gives_by ltac:(eapply (widen_runs a); [exact Ha|exact Hl]).
  gives_by ltac:(eapply (widen_runs b); [exact Hb|exact Hr]). by apply arith_sim.
Qed.

Lemma cross_div_sim a b x y l r c k s :
  defd c k a (VInt x) -> defd c k b (VInt y) -> class_value l (VInt x) -> class_value r (VInt y) ->
  in_width I64 x = true ->
  gives (v <-- widen a l; w <-- widen b r; emit_int_divmod I64 true v w) c k s (int_divide true I64 x y).
Proof.
  intros Ha Hb Hl Hr Hx.
  gives_by ltac:(eapply (widen_runs a); [exact Ha|exact Hl]).
  gives_by ltac:(eapply (widen_runs b); [exact Hb|exact Hr]). by apply divmod_sim.
Qed.

(** The classes an operator is applied to, and that of its result. *)
Definition operands_of (g : op_group) (l r res : ExprTypeClass) : Prop :=
  match g with
  | AllArgs a res' => l = a /\ r = a /\ res = res'
  | TwoArgs l' r' res' => l = l' /\ r = r' /\ res = res'
  | NoOp => False
  end.

Lemma binop_sim g a b l r res v w c k s :
  operands_of (op_group_of g) l r res -> value_class res = true -> is_unary g = false ->
  defd c k a v -> defd c k b w -> class_value l v -> class_value r w ->
  gives (compile_binop g a b l r) c k s (sql_binop g v w).
Proof.
  intros Hg Hres Hu Ha Hb Hl Hr.
  destruct g; try discriminate; try done; destruct Hg as (-> & -> & ->); try discriminate;
    destruct v as [x|x| | | | | | | | |], w as [y|y| | | | | | | | |]; try done; unfold compile_binop, sql_binop; cbn [operator_of];
    first
      [ by apply arith_sim | by apply divmod_sim | by apply addsub_sim | by apply fmul_sim | by apply fdiv_sim
      | by apply cross_sim | apply cross_div_sim; by auto using widen_in_width ].
Qed.

Lemma unop_sim g a l res v c k s :
  op_group_of g = AllArgs l res -> is_unary g = true -> defd c k a v -> class_value l v ->
  gives (compile_unop g a) c k s (sql_unop g v).
Proof.
  intros Hg Hu Ha Hl. destruct g; try discriminate; injection Hg as <- <-; destruct v; try done;
    unfold compile_unop, sql_unop; first [by apply negate_sim | apply gives_val; run_op].
Qed.

Lemma func1_sim g e a v c k s :
  is_abs_or_cast g = true -> classify_func1 g e (uplpgsql_classify_expr e) <> EXPR_TYPE_UNKNOWN ->
  defd c k a v -> class_value (uplpgsql_classify_expr e) v ->
  gives (compile_func1 g a) c k s (sql_func1 g v).
Proof.
  intros Hg Hc Ha Hv. destruct g; try discriminate; simpl in Hc; case_bool_decide as Hb; try done;
    rewrite Hb in Hv; destruct v; try done; unfold compile_func1, sql_func1;
    first [by apply abs_sim | apply gives_val; run_op].
Qed.

(** Comparisons of integers and booleans. *)
Lemma icmp_holds p x y : icmp p x y = holds_for p (x ?= y)%Z.
Proof.
  unfold icmp, Z.ltb, Z.leb, Z.gtb, Z.geb. rewrite Z.eqb_compare. by destruct p, (x ?= y)%Z.
Qed.

Lemma int_cmp_sim g p cross a b l r v w c k s :
  int_predicate g = Some (p, cross) -> is_bool_cmp g = false ->
  operands_of (op_group_of g) l r EXPR_TYPE_BOOL -> defd c k a v -> defd c k b w ->
  class_value l v -> class_value r w ->
  gives (compile_int_cmp p cross (a, l) (b, r)) c k s (sql_binop g v w).
Proof.
  intros Hp Hb Hg Ha Hw Hl Hr. unfold compile_int_cmp. cbn [fst snd].
  assert (E : exists x y, v = VInt x /\ w = VInt y /\ sql_binop g v w = RVal (bool_value (icmp p x y))).
  { destruct g; try discriminate; injection Hp as <- <-; destruct Hg as (-> & -> & _); destruct v, w; try done;
      eexists _, _; (split; [reflexivity|]); (split; [reflexivity|]); by rewrite icmp_holds. }
  destruct E as (x & y & -> & -> & ->).
  destruct cross.
  - gives_by ltac:(eapply (widen_runs a); [exact Ha|exact Hl]).
    gives_by ltac:(eapply (widen_runs b); [exact Hw|exact Hr]). apply gives_val. run_op.
  - gives_by ltac:(eapply (runs_ret a _ _ _ (fun o c' k' => defd c' k' o (VInt x))); exact Ha).
    gives_by ltac:(eapply (runs_ret b _ _ _ (fun o c' k' => defd c' k' o (VInt y))); exact Hw).
    apply gives_val. run_op.
Qed.

(** ** Expressions *)

Lemma native_subscripts e : native e = true -> ok_subscripts e = true.
Proof.
  induction e as [t b v n|k i t|g r c l IH|g r c l IH|a IH|o l IH|t r u l a _ IH _|? _|] using expr_ind';
    intros Hn; try discriminate; try done; simpl.
  - apply forallb_forall. intros x Hx%list_elem_of_In. apply IH; [done|by eapply native_arg].
  - destruct (native_func g r c l Hn) as [(t & b & v & -> & ->)|(x & -> & Hg & Hx & _)]; [done|].
    simpl. rewrite andb_true_r. apply IH; [set_solver|done].
  - simpl in Hn. apply andb_true_iff in Hn as [_ Hn]. by apply IH.
Qed.

Lemma emits_native e : native e = true -> emits any (uplpgsql_compile_expr_datum e).
Proof. intros Hn. by apply emits_value, native_subscripts. Qed.

Lemma value_class_known t : value_class t = true -> t <> EXPR_TYPE_UNKNOWN.
Proof. by destruct t. Qed.

End sim.
