(* ===== verification/ValueSim.v ===== *)
(** * The values of native expressions

    Induction over the tree: the code of a value expression computes the value of file
    SqlEval or raises its error; the flag of the NULL test is exact; and the two native
    uses of an expression, the assignment to a scalar variable and the condition of a
    statement, store and test what the specification says. *)

From Stdlib Require Import ZArith Lia SpecFloat.
From S2P Require Import Prelude Ast Escape Expr Float Exec Assign IR CoreEmit StmtEmit ExprEmit Wellformed.
From S2P Require Import Machine Growth ExprWf CompileTotal ExprTotal SqlEval SimRel Runs ExprSim.

#[local] Opaque bind.

Section values.
Context {world : Type} `{PgEnv world} `{CompileEnv}.
Context (f : ir_function) (s : execstate world).
Abbreviation runs := (Runs.runs f).
Abbreviation gives := (Runs.gives f).
Abbreviation evaluates := (Runs.evaluates f).
Abbreviation results := (Runs.results f).
Abbreviation ds := (es_datums s).

Lemma not_null e : native e = true -> has_null ds e = false -> sql_eval ds e <> RNull.
Proof. intros Hn Hf E. pose proof (eval_null ds e Hn) as Hx. rewrite E, Hf in Hx. done. Qed.

Lemma has_null_arg args x : existsb (has_null ds) args = false -> x ∈ args -> has_null ds x = false.
Proof.
  intros Hf Hx. destruct (has_null ds x) eqn:E; [|done]. rewrite <- Hf. symmetry. apply existsb_elem. eauto.
Qed.

(** What the cases of operators use of an argument. *)
Definition argument_ok (x : Expr) : Prop :=
  emits any (uplpgsql_compile_expr_datum x) /\ grows (uplpgsql_compile_expr_datum x)
  /\ sql_eval ds x <> RNull
  /\ (uplpgsql_classify_expr x <> EXPR_TYPE_UNKNOWN -> result_ok (uplpgsql_classify_expr x) (sql_eval ds x))
  /\ (value_class (uplpgsql_classify_expr x) = true -> forall c k,
        evaluates (uplpgsql_compile_expr_datum x) c k s (uplpgsql_classify_expr x) (sql_eval ds x)).

Lemma args_ok l :
  (forall x, x ∈ l -> native x = true -> params_ok ds x -> value_class (uplpgsql_classify_expr x) = true ->
     has_null ds x = false ->
     forall c k, evaluates (uplpgsql_compile_expr_datum x) c k s (uplpgsql_classify_expr x) (sql_eval ds x)) ->
  (forall x, x ∈ l -> native x = true) -> Forall (param_ok ds) (concat (map params l)) ->
  existsb (has_null ds) l = false -> forall x, x ∈ l -> argument_ok x.
Proof.
  intros IH Hn Hp Hf x Hx. pose proof (Hn x Hx) as Hnx. pose proof (params_arg ds l x Hp Hx) as Hpx.
  pose proof (has_null_arg l x Hf Hx) as Hfx.
  split; [by apply emits_native|]. split; [bind_side|]. split; [by apply not_null|].
  split; [by apply classification_sound|]. intros Hv. by apply IH.
Qed.

Abbreviation typed_value := (fun (p : operand * ExprTypeClass) v c k => defd c k p.1 v /\ p.2 = _).

(** The operands of a value operator are values. *)
Lemma operand_classes g l r res :
  operands_of (op_group_of g) l r res -> value_class res = true -> is_unary g = false ->
  value_class l = true /\ value_class r = true.
Proof. destruct g; try done; intros (-> & -> & ->); done. Qed.

Lemma func_class g r c x :
  is_abs_or_cast g = true -> value_class (uplpgsql_classify_expr (FuncExpr g r c [x])) = true ->
  classify_func1 g x (uplpgsql_classify_expr x) <> EXPR_TYPE_UNKNOWN /\ value_class (uplpgsql_classify_expr x) = true.
Proof.
  intros Hg Hv. destruct g; try discriminate; cbn in Hv |- *; case_bool_decide as Hb; try discriminate; by rewrite Hb.
Qed.

Lemma numeric_const_other g x : g <> F_FLOAT8_NUMERIC -> numeric_const g [x] = None.
Proof. by destruct g. Qed.

(** The code of a value expression none of whose variables is NULL computes its value
    or raises its error. *)
Lemma datum_sim e :
  native e = true -> params_ok ds e -> value_class (uplpgsql_classify_expr e) = true -> has_null ds e = false ->
  forall c k, evaluates (uplpgsql_compile_expr_datum e) c k s (uplpgsql_classify_expr e) (sql_eval ds e).
Proof.
  induction e as [t b v n|k0 i t|g r c0 l IH|g r c0 l IH|a IH|o l IH|t r u l a _ IH _|? _|] using expr_ind';
    intros Hn Hp Hv Hf c k; try discriminate; cbn [uplpgsql_compile_expr_datum].
  - simpl in Hn. apply andb_true_iff in Hn as [Hn Hd]. apply negb_true_iff in Hn as ->.
    simpl in *. destruct (type_class t); try discriminate; apply evaluates_ret; simpl;
      rewrite ?wrap64_id by (by apply (in_width_iff I64)); done.
  - destruct k0; [|done]. apply list.Forall_singleton in Hp as (Hc & v & Ev & Hd). simpl in *.
    unfold has_null, is_null in Hf. simpl in Hf. rewrite Ev in *. rewrite orb_false_r in Hf.
    rewrite Hf.
    eapply runs_bind; [bind_side|bind_side|bind_side|by apply load_param_runs|].
    intros d c1 k1 L G D. cbv beta in D.
    refine (evaluates_typed _ _ _ _ _ (RVal _) _ _ _); [apply emits_any_datum_value|bind_side|]. by apply datum_value_sim.
  - rewrite has_null_args in Hf.
    pose proof (args_ok l IH (fun x Hx => native_arg g r c0 l x Hn Hx) Hp Hf) as Hargs.
    assert (Hne : uplpgsql_classify_expr (OpExpr g r c0 l) <> EXPR_TYPE_UNKNOWN) by by intros E; rewrite E in Hv.
    simpl in Hn. apply andb_true_iff in Hn as [Hlen _]. apply Nat.eqb_eq in Hlen.
    destruct (is_unary g) eqn:Hu.
    + destruct l as [|x [|y l]]; try done. pose proof (op1_class g r c0 x Hne) as Hx.
      destruct (op_group_of g) as [a res| |] eqn:Eg; try done. destruct Hx as [Hx Hres].
      destruct (Hargs x ltac:(set_solver)) as (Hex & Hgx & Hnx & Hty & Hsx).
      assert (Hax : value_class a = true) by by destruct g; try discriminate; injection Eg as <- _.
      rewrite op1_eval. rewrite Hx in *.
      refine (results_operand typed_value _ _ _ _ _ a _ _ Hex Hgx _ (Hsx Hax c k) Hnx _); [bind_side|].
      intros o v c1 k1 Ev D. apply evaluates_typed; [bind_side|bind_side|].
      eapply unop_sim; [done|done|done|]. rewrite Ev in Hty. by apply Hty, value_class_known.
    + destruct l as [|x [|y [|z l]]]; try done. pose proof (op2_class g r c0 x y Hne) as Hx.
      assert (Hop : operands_of (op_group_of g) (uplpgsql_classify_expr x) (uplpgsql_classify_expr y)
                      (uplpgsql_classify_expr (OpExpr g r c0 [x; y]))).
      { destruct (op_group_of g); naive_solver. }
      destruct (operand_classes g _ _ _ Hop Hv Hu) as [Hax Hay].
      destruct (Hargs x ltac:(set_solver)) as (Hex & Hgx & Hnx & Htx & Hsx).
      destruct (Hargs y ltac:(set_solver)) as (Hey & Hgy & Hny & Hty & Hsy).
      rewrite op2_eval.
      refine (results_operands typed_value _ _ _ _ _ _ _ _ _ _ _ Hex Hgx Hey Hgy _ (Hsx Hax c k) (Hsy Hay) Hnx Hny _);
        [bind_side|].
      intros o o' v w c2 k2 Ev Ew D D2. apply evaluates_typed; [bind_side|bind_side|].
      rewrite Ev in Htx. rewrite Ew in Hty.
      eapply binop_sim; [exact Hop|done|done|done|done|by apply Htx, value_class_known|by apply Hty, value_class_known].
  - destruct (native_func g r c0 l Hn) as [(t & b & v & -> & ->)|(x & -> & Hg & Hnx & Hne)].
    + by apply evaluates_ret.
    + assert (Hfx : has_null ds x = false).
      { rewrite <- Hf. change (has_null ds (FuncExpr g r c0 [x])) with (has_null ds (OpExpr g r c0 [x])).
        rewrite has_null_args. simpl. by rewrite orb_false_r. }
      destruct (func_class g r c0 x Hg Hv) as [Hcx Hax].
      destruct (args_ok [x] IH ltac:(intros y ->%list_elem_of_singleton; done) Hp ltac:(simpl; by rewrite Hfx)
                  x ltac:(set_solver)) as (Hex & Hgx & Hnn & Htx & Hsx).
      rewrite func1_eval by done. rewrite numeric_const_other by done.
      refine (results_operand typed_value _ _ _ _ _ _ _ _ Hex Hgx _ (Hsx Hax c k) Hnn _); [bind_side|].
      intros o v c1 k1 Ev D. apply evaluates_typed; [bind_side|bind_side|].
      eapply func1_sim; [done|exact Hcx|done|]. rewrite Ev in Htx. by apply Htx, value_class_known.
  - simpl in *. apply andb_true_iff in Hn as [_ Hn]. by apply IH.
Qed.
Definition is_bool (v : value) : Prop := exists b, v = bool_value b.

(** What an argument that is not NULL provides. *)
Lemma value_ok e :
  native e = true -> params_ok ds e -> has_null ds e = false -> argument_ok e.
Proof.
  intros Hn Hp Hf. split; [by apply emits_native|]. split; [bind_side|]. split; [by apply not_null|].
  split; [by apply classification_sound|]. intros Hv c k. by apply datum_sim.
Qed.

Lemma comparison_unary g r c l : uplpgsql_classify_expr (OpExpr g r c l) = EXPR_TYPE_BOOL -> is_unary g = false.
Proof.
  cbn [uplpgsql_classify_expr]. destruct g; try done; simpl; by destruct (forallb _ _).
Qed.

Lemma bool_operator g r c x y :
  uplpgsql_classify_expr (OpExpr g r c [x; y]) = EXPR_TYPE_BOOL ->
  operands_of (op_group_of g) (uplpgsql_classify_expr x) (uplpgsql_classify_expr y) EXPR_TYPE_BOOL.
Proof.
  intros Hc. pose proof (op2_class g r c x y ltac:(by rewrite Hc)) as Hx. rewrite Hc in Hx.
  destruct (op_group_of g); naive_solver.
Qed.

(** What a comparison compares. *)
Lemma comparison_cases g l r :
  operands_of (op_group_of g) l r EXPR_TYPE_BOOL ->
  (exists p, is_float_cmp g = true /\ operator_of g = Some (FloatCompare p)
             /\ l = EXPR_TYPE_FLOAT8 /\ r = EXPR_TYPE_FLOAT8)
  \/ (exists p, is_float_cmp g = false /\ int_predicate g = Some (p, false) /\ is_bool_cmp g = true
                /\ operator_of g = Some (Compare p) /\ l = EXPR_TYPE_BOOL /\ r = EXPR_TYPE_BOOL)
  \/ (exists p cross, is_float_cmp g = false /\ int_predicate g = Some (p, cross) /\ is_bool_cmp g = false
                      /\ value_class l = true /\ value_class r = true).
Proof.
  destruct g; try done; intros (-> & -> & E); try discriminate E;
    first [ left; eexists; split_and!; reflexivity
          | right; left; eexists; split_and!; reflexivity
          | right; right; eexists _, _; split_and!; reflexivity ].
Qed.

(** The code of a condition none of whose variables is NULL. *)
Lemma bool_sim e :
  native e = true -> params_ok ds e -> uplpgsql_classify_expr e = EXPR_TYPE_BOOL -> has_null ds e = false ->
  forall c k, gives (uplpgsql_compile_expr_bool e) c k s (sql_eval ds e).
Proof.
  induction e as [t b v n|k0 i t|g r c0 l IH|g r c0 l IH|a IH|o l IH|t r u l a _ IH _|? _|] using expr_ind';
    intros Hn Hp Hc Hf c k; try discriminate; cbn [uplpgsql_compile_expr_bool].
  - destruct n; [done|]. simpl in Hn, Hc. rewrite Hc in Hn. simpl. rewrite Hc. apply runs_ret.
    by apply orb_true_iff in Hn as [->%Z.eqb_eq| ->%Z.eqb_eq].
  - destruct k0; [|done]. apply list.Forall_singleton in Hp as (Hcd & v & Ev & Hd). simpl in *.
    unfold has_null, is_null in Hf. simpl in Hf. rewrite Ev in *. rewrite orb_false_r in Hf.
    rewrite Hf, Hc in *.
    eapply runs_bind; [bind_side|bind_side|bind_side|by apply load_param_runs|].
    intros d c1 k1 L G D. cbv beta in D. eapply runs_op; [find_args|].
    by destruct (Hd eq_refl) as [-> | ->].
  - rewrite has_null_args in Hf.
    assert (Hne : uplpgsql_classify_expr (OpExpr g r c0 l) <> EXPR_TYPE_UNKNOWN) by by rewrite Hc.
    assert (Hna : forall x, x ∈ l -> native x = true) by (intros x Hx; by eapply native_arg).
    simpl in Hn. apply andb_true_iff in Hn as [Hlen _]. rewrite (comparison_unary g r c0 l Hc) in Hlen.
    apply Nat.eqb_eq in Hlen. destruct l as [|x [|y [|z l]]]; try done. clear Hlen.
    pose proof (bool_operator g r c0 x y Hc) as Hop. rewrite op2_eval.
    pose proof (value_ok x (Hna x ltac:(set_solver)) ltac:(eapply params_arg; [exact Hp|set_solver])
                  (has_null_arg _ x Hf ltac:(set_solver))) as (Hex & Hgx & Hnx & Htx & Hsx).
    pose proof (value_ok y (Hna y ltac:(set_solver)) ltac:(eapply params_arg; [exact Hp|set_solver])
                  (has_null_arg _ y Hf ltac:(set_solver))) as (Hey & Hgy & Hny & Hty & Hsy).
    destruct (comparison_cases g _ _ Hop) as
      [(p & Ef & Eo & Ex & Ey)|[(p & Ef & Ei & Eb & Eo & Ex & Ey)|(p & cross & Ef & Ei & Eb & Ex & Ey)]];
      rewrite Ef; rewrite ?Ei, ?Eb.
    + rewrite Ex in *. rewrite Ey in *.
      refine (results_operands (fun o v c k => defd c k o v) _ _ _ _ _ _ _ _ _ _ _
                Hex Hgx Hey Hgy _ (Hsx eq_refl c k) (Hsy eq_refl) Hnx Hny _); [bind_side|].
      intros o o' v w c2 k2 Ev Ew D D2. rewrite Ev in Htx. rewrite Ew in Hty.
      specialize (Htx ltac:(done)). specialize (Hty ltac:(done)). destruct v, w; try done.
      unfold sql_binop. rewrite Eo. by apply fcmp_sim.
    + pose proof (fun z Hz => IH z Hz (Hna z Hz) (params_arg ds _ z Hp Hz)) as IHz.
      apply (results_strict2 (fun o v c k => defd c k o v) (fun o v c k => defd c k o v)
               _ _ (fun o o' => build_op (OpICmp p) [o; o']));
        [by apply emits_compile_bool, native_subscripts, Hna; set_solver|bind_side
        |by apply emits_compile_bool, native_subscripts, Hna; set_solver|bind_side|bind_side
        |by intros; eapply defd_carry
        |apply IHz; [set_solver|done|by eapply has_null_arg; [exact Hf|set_solver]]
        |apply IHz; [set_solver|done|by eapply has_null_arg; [exact Hf|set_solver]]
        |done|done|].
      intros o o' v w c2 k2 Ev Ew D D2. rewrite Ev, Ex in Htx. rewrite Ew, Ey in Hty.
      specialize (Htx ltac:(done)). specialize (Hty ltac:(done)). destruct v, w; try done.
      unfold sql_binop. rewrite Eo, <- icmp_holds. eapply runs_op; [find_args|reflexivity].
    + refine (results_operands (fun o v c k => defd c k o v) _ _ _ _ _ _ _ _ _ _ _
                Hex Hgx Hey Hgy _ (Hsx Ex c k) (Hsy Ey) Hnx Hny _); [bind_side|].
      intros o o' v w c2 k2 Ev Ew D D2. rewrite Ev in Htx. rewrite Ew in Hty.
      eapply int_cmp_sim; [exact Ei|done|exact Hop|done|done|by apply Htx, value_class_known|by apply Hty, value_class_known].
  - exfalso. destruct (native_func g r c0 l Hn) as [(t & b & v & -> & ->)|(x & -> & Hg & _)]; [done|].
    cbn in Hc. destruct g; try discriminate; simpl in Hc; by case_bool_decide.
  - simpl in *. by rewrite Hc in Hn.
Qed.

End values.

Section conditions.
Context {world : Type} `{PgEnv world} `{CompileEnv}.
Context (f : ir_function) (s : execstate world).
Abbreviation runs := (Runs.runs f).
Abbreviation gives := (Runs.gives f).
Abbreviation ds := (es_datums s).

(** ** The NULL test *)

(** A flag, or none where it is known to be false. *)
Definition flags_null (b : bool) (o : option operand) c (k : mstate world) : Prop :=
  match o with None => b = false | Some o => defd c k o (bool_value b) end.

Lemma flags_carry c c' (k k' : mstate world) b o :
  agree c k k' -> le_ctx c c' -> flags_null b o c k -> flags_null b o c' k'.
Proof. destruct o; [|done]. apply defd_carry. Qed.

Lemma or_flag_runs a b x y c k :
  flags_null a x c k -> flags_null b y c k ->
  runs (or_flag x y) c k s (flags_null (a || b)) None.
Proof.
  intros Hx Hy. unfold or_flag. destruct x as [x|], y as [y|]; simpl in *; subst; rewrite ?orb_false_r;
    try (by apply runs_ret).
  op_step. apply runs_ret. simpl. by rewrite lor_flags in *.
Qed.

Lemma fold_null_runs g (nul : Expr -> bool) l :
  (forall x, x ∈ l -> emits any (g x) /\ grows (g x) /\ forall c k, runs (g x) c k s (flags_null (nul x)) None) ->
  forall acc a c k, flags_null a acc c k -> runs (fold_null g acc l) c k s (flags_null (a || existsb nul l)) None.
Proof.
  induction l as [|x l IH]; intros Hg acc a c k Ha; simpl.
  - apply runs_ret. by rewrite orb_false_r.
  - destruct (Hg x ltac:(set_solver)) as (He & Hgr & Hx).
    assert (Hgl : forall y, y ∈ l -> grows (g y)) by (intros y Hy; by destruct (Hg y ltac:(set_solver)) as (_ & ? & _)).
    assert (Hfold : forall acc, grows (fold_null g acc l)) by (intros; by apply grows_fold_null).
    eapply runs_bind; [done|done|grows_auto|apply Hx|]. intros v c1 k1 L G D. cbv beta in D.
    eapply runs_bind; [bind_side|bind_side|done|apply or_flag_runs; [by eapply flags_carry|exact D]|].
    intros acc' c2 k2 L2 G2 D2. cbv beta in D2. rewrite orb_assoc. apply IH; [|done].
    intros y Hy. apply Hg. set_solver.
Qed.

(** The flag is set exactly if a variable of the tree is NULL. *)
Lemma any_null_sim e :
  native e = true -> params_ok ds e -> forall c k,
  runs (tier1_expr_any_null e) c k s (flags_null (has_null ds e)) None.
Proof.
  induction e as [t b v n|k0 i t|g r c0 l IH|g r c0 l IH|a IH|o l IH|t r u l a _ IH _|? _|] using expr_ind';
    intros Hn Hp c k; try discriminate; cbn [tier1_expr_any_null].
  - by apply runs_ret.
  - destruct k0; [|done]. apply list.Forall_singleton in Hp as (Hc & v & Ev & Hd). simpl in *.
    eapply runs_bind; [bind_side|bind_side|bind_side|by eapply load_isnull_runs|].
    intros o c1 k1 L G D. apply runs_ret. unfold has_null, is_null. simpl. by rewrite Ev, orb_false_r.
  - rewrite has_null_args. change (existsb (has_null ds) l) with (false || existsb (has_null ds) l).
    apply fold_null_runs; [|done]. intros x Hx. pose proof (native_arg g r c0 l x Hn Hx) as Hnx.
    split; [by apply emits_any_null, native_subscripts|]. split; [bind_side|]. apply IH; [done|done|].
    by eapply params_arg.
  - change (has_null ds (FuncExpr g r c0 l)) with (has_null ds (OpExpr g r c0 l)).
    rewrite has_null_args. change (existsb (has_null ds) l) with (false || existsb (has_null ds) l).
    apply fold_null_runs; [|done]. intros x Hx.
    destruct (native_func g r c0 l Hn) as [(t & b & v & -> & ->)|(y & -> & Hg & Hny & Hne)];
      apply list_elem_of_singleton in Hx as ->.
    + split; [by apply emits_ret|]. split; [bind_side|]. intros c1 k1. by apply runs_ret.
    + split; [by apply emits_any_null, native_subscripts|]. split; [bind_side|].
      apply IH; [set_solver|done|]. eapply params_arg; [exact Hp|set_solver].
  - simpl in Hn. apply andb_true_iff in Hn as [_ Hn]. by apply IH.
Qed.

(** ** Conditions *)

(** The code of [m] unless the flag is set, and [z] then. *)
Definition unless (n1 n2 n3 : string) (flag : operand) (m : emit operand) (z : value) : emit operand :=
  compute_bb <-- append_block n1;
  null_bb <-- append_block n2;
  merge_bb <-- append_block n3;
  phi <-- fresh_reg;
  build (ICondBr flag null_bb compute_bb) ;;;
  position compute_bb ;;;
  val <-- m;
  incoming phi val ;;;
  build (IBr merge_bb) ;;;
  position null_bb ;;;
  incoming phi (OConst z) ;;;
  build (IBr merge_bb) ;;;
  position merge_bb ;;;
  ret (OReg phi).

Ltac replay Hrun :=
  unfold unless, incoming in Hrun; unbind; walk; ext_back; ctx_forward; at_skip;
  match goal with R : ran fresh_reg ?d _ _, A : at_point f ?d _ _ |- _ =>
    destruct (fresh_reg_facts _ _ _ R) as (-> & Hn & Hq & E0);
    pose proof (at_quiet f _ _ _ _ Hq ltac:(by rewrite E0) A) end.

(** The register of the join is new, and defined after it. *)
Ltac phi_fresh :=
  match goal with
  | |- plstate (env ?d) < next_reg (bld ?d2) =>
      match goal with Hc : ctx_ok d2 |- _ =>
        pose proof (co_plstate _ Hc); replace (env d) with (env d2) by congruence; lia end
  | |- next_reg (bld ?c) <= next_reg (bld ?d2) => eapply (le_reg c d2); le_chain
  end.
Ltac phi_defined :=
  match goal with Hn : next_reg (bld ?d3) = S (next_reg (bld ?d2)) |- next_reg (bld ?d2) < next_reg (bld ?d) =>
    rewrite <- Nat.le_succ_l, <- Hn; eapply (le_reg d3 d); le_chain end.

(** The end of an arm: the value is assigned, control joins. *)
Lemma join_arm phi o v t c1 u1 c2 u2 c3 c0 c (k k1 : mstate world) :
  ran (build (IOp phi OpMove [o])) c1 u1 c2 -> ran (build (IBr t)) c2 u2 c3 -> ext c3 f -> le_ctx c2 c3 ->
  at_point f c1 k1 s -> operand_value (regs k1) o = Some v -> plstate (env c1) < phi ->
  next_reg (bld c) <= phi -> agree c k k1 -> plstate (env c0) = plstate (env c1) ->
  exists k', steps f k1 k' /\ todo k' = block f t /\ mcore k' = s /\ regs k' !! plstate (env c0) = Some VPlstate
             /\ agree c k k' /\ regs k' !! phi = Some v.
Proof.
  intros R1 R2 Hext L Hat Hv Hpl Hphi Hag Hen.
  destruct (run_incoming _ _ v _ _ _ k1 s R1 (ext_le _ _ _ L Hext) Hat Hv ltac:(lia)) as [S1 A1].
  pose proof (run_br f _ _ _ _ _ _ R2 Hext A1) as S2.
  exists (goto f t (assigned f c2 phi v k1)). split; [by eapply steps_trans|]. split; [done|].
  split; [by destruct Hat|]. split; [simpl; rewrite lookup_insert_ne by lia; rewrite Hen; by destruct Hat|].
  split; [by apply agree_goto, agree_assigned|]. simpl. by rewrite lookup_insert_eq.
Qed.

Lemma unless_set n1 n2 n3 flag m z c k :
  defd c k flag (bool_value true) -> emits any m -> grows m ->
  gives (unless n1 n2 n3 flag m z) c k s (RVal z).
Proof.
  intros [Hf Hlt] Hem Hgm o c' P Hrun HI Hok Hext Hat. replay Hrun.
  match goal with
  | Rb : ran (build (ICondBr flag ?nul _)) ?d3 _ _, Rp : ran (position ?nul) ?d8 _ ?d9,
    Ri : ran (build (IOp _ OpMove [OConst z])) ?d9 _ ?d10, Rj : ran (build (IBr ?jn)) ?d10 _ ?d11,
    Re : ran (position ?jn) ?d11 _ _ |- _ =>
      pose proof (run_condbr f _ _ _ true _ _ _ _ _ Rb ltac:(eassumption) ltac:(eassumption) Hf) as S1;
      assert (A9 : at_point f d9 (goto f nul k) s)
        by (eapply (at_enter f); [eassumption|exact Rp|env_field|empty_block]);
      edestruct (join_arm _ _ z _ _ _ _ _ _ d11 c k _ Ri Rj ltac:(eassumption) ltac:(eassumption) A9 eq_refl)
        as (k' & S2 & Ht & Hm & Hp & Ha & Hv); [| |apply agree_goto, agree_refl|env_field|];
        [phi_fresh|phi_fresh|];
      exists k'; split; [by eapply steps_trans|]; split; [by eapply (at_position f); [exact Re|empty_block|..]|]
  end.
  split; [done|]. split; [done|]. phi_defined.
Qed.

Lemma unless_clear n1 n2 n3 flag m z c k r :
  defd c k flag (bool_value false) -> emits any m -> grows m -> (forall c k, gives m c k s r) ->
  gives (unless n1 n2 n3 flag m z) c k s r.
Proof.
  intros [Hf Hlt] Hem Hgm Hm. destruct r as [v| |fn|]; try done; intros o c' P Hrun HI Hok Hext Hat; replay Hrun.
  - match goal with
    | Rb : ran (build (ICondBr flag _ ?cb)) ?d3 _ _, Rp : ran (position ?cb) ?d4 _ ?d5, Rm : ran m ?d5 _ ?d6,
      I5 : inv ?d5 _,
      Ri : ran (build (IOp _ OpMove [_])) ?d6 _ ?d7, Rj : ran (build (IBr ?jn)) ?d7 _ ?d8,
      Re : ran (position ?jn) ?d11 _ _ |- _ =>
        pose proof (run_condbr f _ _ _ false _ _ _ _ _ Rb ltac:(eassumption) ltac:(eassumption) Hf) as S1;
        assert (A5 : at_point f d5 (goto f cb k) s)
          by (eapply (at_enter f); [eassumption|exact Rp|env_field|empty_block]);
        destruct (Hm d5 (goto f cb k) _ _ _ Rm I5 ltac:(eassumption) ltac:(eassumption) A5)
          as (k6 & S5 & A6 & G6 & D6);
        edestruct (join_arm _ _ v _ _ _ _ _ _ d11 c k _ Ri Rj ltac:(eassumption) ltac:(eassumption) A6 (proj1 D6))
          as (k' & S2 & Ht & Hmm & Hp & Ha & Hv);
          [phi_fresh|phi_fresh|eapply agree_trans; [apply agree_goto, agree_refl|exact G6|le_chain]|env_field|];
        exists k'; split; [by eapply steps_trans; [exact S1|by eapply steps_trans]|];
        split; [by eapply (at_position f); [exact Re|empty_block|..]|]
    end.
    split; [done|]. split; [done|]. phi_defined.
  - match goal with
    | Rb : ran (build (ICondBr flag _ ?cb)) ?d3 _ _, Rp : ran (position ?cb) ?d4 _ ?d5, Rm : ran m ?d5 _ ?d6,
      I5 : inv ?d5 _ |- _ =>
        pose proof (run_condbr f _ _ _ false _ _ _ _ _ Rb ltac:(eassumption) ltac:(eassumption) Hf) as S1;
        assert (A5 : at_point f d5 (goto f cb k) s)
          by (eapply (at_enter f); [eassumption|exact Rp|env_field|empty_block]);
        destruct (Hm d5 (goto f cb k) _ _ _ Rm I5 ltac:(eassumption) ltac:(eassumption) A5) as (k6 & S5 & E6)
    end.
    exists k6. split; [by eapply steps_trans|done].
Qed.

(** The value of a condition: false if a variable is NULL. *)
Definition cond_result (e : Expr) : sql_result :=
  if has_null ds e then RVal (bool_value false) else sql_eval ds e.

Lemma tier1_bool_sim e c k :
  native e = true -> params_ok ds e -> uplpgsql_classify_expr e = EXPR_TYPE_BOOL ->
  gives (tier1_bool e) c k s (cond_result e).
Proof.
  intros Hn Hp Hc. unfold tier1_bool, cond_result.
  assert (Hem : emits any (uplpgsql_compile_expr_bool e)) by by apply emits_compile_bool, native_subscripts.
  eapply gives_bind; [by apply emits_any_null, native_subscripts|bind_side|bind_side|by apply any_null_sim|].
  intros [flag|] c1 k1 L G D; simpl in D.
  - destruct (has_null ds e) eqn:Hf.
    + apply (unless_set "t1b.notnull" "t1b.null" "t1b.done" flag); [done|done|bind_side].
    + apply (unless_clear "t1b.notnull" "t1b.null" "t1b.done" flag); [done|done|bind_side|]. by apply bool_sim.
  - rewrite D. by apply bool_sim.
Qed.
(** ** Assignments *)

(** The state after a native store. *)
Definition stored_var (n : nat) (z : Datum) (null : bool) : execstate world :=
  with_datums (alter (update_var (set_value z null false)) n) s.

(** Code that ends in another state, or raises. *)
Definition moves (m : emit unit) c k (r : execstate world + err_fn) : Prop :=
  match r with
  | inr fn => runs m c k s (fun _ _ _ => True) (Some fn)
  | inl s' => forall u c' P, m c = Success (u, c') -> inv c P -> ctx_ok c -> ext c' f -> at_point f c k s ->
      exists k', steps f k k' /\ at_point f c' k' s' /\ agree c k k'
  end.

Lemma moves_bind {A} (m : emit A) (K : A -> emit unit) c k R r :
  emits any m -> grows m -> (forall a, grows (K a)) -> runs m c k s R None ->
  (forall a c1 k1, le_ctx c c1 -> agree c k k1 -> R a c1 k1 -> moves (K a) c1 k1 r) ->
  moves (bind m K) c k r.
Proof.
  intros He Hg HgK Hm HK. destruct r as [s'|fn].
  2:{ eapply runs_bind; [done|done|done|exact Hm|exact HK]. }
  intros b c' P Hrun HI Hok Hext Hat. apply bind_Success in Hrun as (a & c1 & R1 & R2).
  destruct (He _ _ _ _ R1 HI) as ((I1 & E1 & _) & _). pose proof (Hg _ _ _ R1) as L1.
  assert (Hext1 : ext c1 f) by (eapply ext_le; [by eapply HgK|done]).
  destruct (Hm _ _ _ R1 HI Hok Hext1 Hat) as (k1 & S1 & A1 & G1 & Q1).
  destruct (HK a c1 k1 L1 G1 Q1 _ _ _ R2 I1 (ctx_ok_le _ _ L1 E1 Hok) Hext A1) as (k2 & S2 & A2 & G2).
  exists k2. split; [by eapply steps_trans|]. split; [done|]. by eapply agree_trans.
Qed.

Lemma store_moves n v d null z b c k :
  variable ds n = Some v -> defd c k d (VInt z) -> defd c k null (VInt (z_of_bool b)) ->
  moves (build (IStoreVar n d null)) c k (inl (stored_var n z b)).
Proof.
  intros Hv%variable_lookup [Hd _] [Hn _] u c' P Hrun HI Hok Hext Hat.
  destruct (at_build f _ _ _ _ _ _ Hrun Hext Hat) as [Ht Hen]. destruct Hat as [_ Hm Hp].
  eexists. split; [apply steps_one; unfold step, operand_int; rewrite Ht, Hm, Hv, Hd, Hn; reflexivity|].
  split; [split; [done| |simpl; by rewrite Hen]|by split].
  unfold stored_var. simpl. by destruct b.
Qed.

(** The store of a value that was computed, or its error. *)
Definition store_result (n : nat) (r : sql_result) : option (execstate world + err_fn) :=
  match r with
  | RVal v => Some (inl (stored_var n (datum_of_value v) false))
  | RError fn => Some (inr fn)
  | RNull => Some (inl (stored_var n 0%Z true))
  | RStuck => None
  end.

Lemma tier1_store_sim n w e r c k :
  variable ds n = Some w -> native e = true -> params_ok ds e ->
  value_class (uplpgsql_classify_expr e) = true -> has_null ds e = false ->
  store_result n (sql_eval ds e) = Some r -> moves (tier1_store n e) c k r.
Proof.
  intros Hw Hn Hp Hv Hf Hr. unfold tier1_store.
  destruct (value_ok f s e Hn Hp Hf) as (He & Hg & Hnn & Hty & Hev). specialize (Hev Hv c k).
  specialize (Hty (value_class_known _ Hv)).
  destruct (sql_eval ds e) as [v| |fn|]; try done; injection Hr as <-.
  - eapply moves_bind; [done|done|bind_side|exact Hev|]. intros [o t] c1 k1 L G [D E]. cbn [fst snd] in *. subst t.
    eapply moves_bind; [apply emits_any_to_datum|bind_side|bind_side|by eapply (to_datum_sim f)|].
    intros d c2 k2 L2 G2 D2. by eapply (store_moves n w d const_false _ false).
  - eapply (runs_bind_err _ _ _ _ _ (fun _ _ _ => True)); [bind_side|exact Hev].
Qed.
(** The code of [m2] if the flag is set, that of [m1] otherwise. *)
Definition either (n1 n2 n3 : string) (flag : operand) (m1 m2 : emit unit) : emit unit :=
  compute_bb <-- append_block n1;
  null_bb <-- append_block n2;
  merge_bb <-- append_block n3;
  build (ICondBr flag null_bb compute_bb) ;;;
  position compute_bb ;;;
  m1 ;;;
  build (IBr merge_bb) ;;;
  position null_bb ;;;
  m2 ;;;
  build (IBr merge_bb) ;;;
  position merge_bb.

(** The arm that is taken. *)
Ltac arm Hf Hm taken :=
  match goal with
  | Rb : ran (build (ICondBr _ ?x ?y)) ?d3 _ _ |- _ =>
      pose proof (run_condbr f _ _ _ taken _ _ _ _ _ Rb ltac:(eassumption) ltac:(eassumption) Hf) as S1;
      let bb := match taken with true => x | false => y end in
      match goal with
      | Rp : ran (position bb) ?d4 _ ?d5, I5 : inv ?d5 _ |- _ =>
          match goal with Rm : ran _ d5 _ ?d6 |- _ =>
            assert (A5 : at_point f d5 (goto f bb _) s)
              by (eapply (at_enter f); [eassumption|exact Rp|env_field|empty_block]);
            pose proof (Hm d5 (goto f bb _) _ _ _ Rm I5 ltac:(eassumption) ltac:(eassumption) A5) as Harm
          end
      end
  end.

Lemma moves_either n1 n2 n3 flag (b : bool) m1 m2 c k r :
  defd c k flag (bool_value b) -> emits any m1 -> grows m1 -> emits any m2 -> grows m2 ->
  (forall c k, moves (if b then m2 else m1) c k r) ->
  moves (either n1 n2 n3 flag m1 m2) c k r.
Proof.
  intros [Hf Hlt] He1 Hg1 He2 Hg2 Hm.
  destruct r as [s'|fn]; intros u c' P Hrun HI Hok Hext Hat; unfold either in Hrun; unbind; walk; ext_back; ctx_forward; at_skip.
  - destruct b; [arm Hf Hm true|arm Hf Hm false]; destruct Harm as (k6 & S6 & A6 & G6);
      match type of A6 with at_point f ?d _ _ =>
        match goal with Rj : ran (build (IBr ?jn)) d _ _, Re : ran (position ?jn) _ _ _ |- _ =>
          pose proof (run_br f _ _ _ _ _ _ Rj ltac:(eassumption) A6) as S7;
          exists (goto f jn k6); split; [by eapply steps_trans; [exact S1|by eapply steps_trans]|];
          split; [eapply (at_enter f); [exact A6|exact Re|env_field|empty_block]|]
        end
      end;
      (apply agree_goto; eapply agree_trans; [apply agree_goto, agree_refl|exact G6|le_chain]).
  - destruct b; [arm Hf Hm true|arm Hf Hm false]; destruct Harm as (k6 & S6 & E6);
      exists k6; (split; [by eapply steps_trans|done]).
Qed.

(** What a native assignment does: NULL if a variable is NULL, else the value or the error. *)
Definition assign_result (n : nat) (e : Expr) : option (execstate world + err_fn) :=
  if has_null ds e then Some (inl (stored_var n 0%Z true)) else store_result n (sql_eval ds e).

Lemma tier1_assign_sim n w e r c k :
  variable ds n = Some w -> native e = true -> params_ok ds e ->
  value_class (uplpgsql_classify_expr e) = true -> assign_result n e = Some r ->
  moves (tier1_assign n e) c k r.
Proof.
  intros Hw Hn Hp Hv Hr. unfold tier1_assign, assign_result in *.
  assert (Hes : emits any (tier1_store n e)) by by apply emits_tier1_store, native_subscripts.
  assert (Hgs : grows (tier1_store n e)) by apply grows_tier1_store.
  eapply moves_bind; [by apply emits_any_null, native_subscripts|bind_side|bind_side|by apply any_null_sim|].
  intros [flag|] c1 k1 L G D; simpl in D.
  - apply (moves_either "t1.notnull" "t1.null" "t1.done" flag (has_null ds e)
             (tier1_store n e) (emit_store_var_null n)); [done|done|done|apply emits_store_null|bind_side|].
    intros c2 k2. destruct (has_null ds e) eqn:Hf; [|by eapply tier1_store_sim].
    injection Hr as <-. by eapply (store_moves n w (const_int32 0) const_true _ true).
  - rewrite D in Hr. by eapply tier1_store_sim.
Qed.
End conditions.
