(* ===== verification/ExprProps.v ===== *)
(** * What the code of native expressions does

    The operation and value lemmas of files ExprSim and ValueSim stated for the
    generated code: division, the comparisons of floats, and assignments. *)

From Stdlib Require Import ZArith Lia SpecFloat.
From S2P Require Import Prelude Ast Expr Float Exec Assign IR CoreEmit StmtEmit ExprEmit.
From S2P Require Import Wellformed Machine Growth SimRel SqlEval Runs ExprSim ValueSim Demo ExprDemo.

Section code.
Context {world : Type} `{PgEnv world} `{CompileEnv}.
Context (f : ir_function) (s : execstate world).

(** C38: The code of an integer division or remainder tests for zero and for the
    overflow of the smallest integer over -1 before it divides: it never executes an
    undefined division, raises exactly PostgreSQL's errors and computes the truncated
    quotient and remainder otherwise. *)
Theorem checked_division_agrees w is_div a b x y c k :
  defd c k a (VInt x) -> defd c k b (VInt y) -> in_width w x = true ->
  gives f (emit_int_divmod w is_div a b) c k s (int_divide is_div w x y).
Proof. apply divmod_sim. Qed.

(** C39: The code of the comparisons of floats decides PostgreSQL's order, in which a
    NaN equals itself and is larger than every number, although the comparisons of
    the machine are false (or, for <>, true) on a NaN. *)
Theorem float_comparison_agrees g p a b x y c k :
  operator_of g = Some (FloatCompare p) -> defd c k a (VDouble x) -> defd c k b (VDouble y) ->
  gives f (emit_float_cmp g a b) c k s (RVal (bool_value (holds_for p (float8_cmp x y)))).
Proof. apply fcmp_sim. Qed.

End code.

Module ExprPropsExamples.
Import SqlEvalExamples ExprDemo.
#[local] Existing Instance Demo.env.

(** The entry of a function without native arrays, and the function that consists of it
    and the code of [m]. *)
Definition entry : UPL_compile_ctx :=
  match setup_entry [] (prologue_ctx UPLPGSQL_RC_OK) with Success (_, c) => c | Failure _ => prologue_ctx UPLPGSQL_RC_OK end.
Definition function_of (c : UPL_compile_ctx) : ir_function :=
  mk_ir_function (block_names (bld c)) (block_code (bld c)) (entry_allocas (bld c)) (switches (bld c)) true.
Definition code {A} (m : emit A) : ir_function :=
  match m entry with Success (_, c) => function_of c | Failure _ => function_of entry end.
(** A machine that stands between the two. *)
Definition machine (f : ir_function) (s : execstate Demo.world) : mstate Demo.world :=
  mk_mstate (rest f entry) s {[ plstate (IR.env entry) := VPlstate ]} {[ 0%nat := VInt UPLPGSQL_RC_OK ]}.

Lemma code_entry_inv : inv entry {[1%nat]}.
Proof.
  apply (setup_entry_inv [] (prologue_ctx UPLPGSQL_RC_OK) tt); [reflexivity|].
  apply (@prologue_inv no_inlining WellformedExamples.no_inlining_ok).
Qed.
Lemma entry_ok : ctx_ok entry.
Proof. split; vm_compute; [lia|lia|done|done]. Qed.

(** The code of [m] runs from the entry to a value, to an error, to a state. *)
Definition evaluates (m : emit operand) (s : execstate Demo.world) (v : value) : Prop := exists o c' k',
  m entry = Success (o, c') /\ steps (code m) (machine (code m) s) k' /\ operand_value (regs k') o = Some v.
Definition fails {A} (m : emit A) (s : execstate Demo.world) (fn : err_fn) : Prop := exists k',
  steps (code m) (machine (code m) s) k' /\ step (code m) k' = MRaise (raise_error fn) s.
Definition leads_to {A} (m : emit A) (s s' : execstate Demo.world) : Prop := exists k',
  steps (code m) (machine (code m) s) k' /\ mcore k' = s'.
Definition succeeds {A} (m : emit A) : bool := match m entry with Success _ => true | Failure _ => false end.

Lemma code_parts {A} (m : emit A) : succeeds m = true ->
  exists a c', m entry = Success (a, c') /\ ext c' (code m).
Proof.
  unfold succeeds, code. destruct (m entry) as [[a c']|]; [|done]. intros _. exists a, c'. split; [done|].
  intros b. unfold block, codeb, code_of, function_of. done.
Qed.
Lemma machine_at f s : at_point f entry (machine f s) s.
Proof. by split. Qed.

Lemma gives_value m s v : succeeds m = true ->
  gives (code m) m entry (machine (code m) s) s (RVal v) -> evaluates m s v.
Proof.
  intros (o & c' & Hm & Hx)%code_parts Hg.
  destruct (Hg o c' _ Hm code_entry_inv entry_ok Hx (machine_at _ s)) as (k' & Hs & _ & _ & [Hv _]). by exists o, c', k'.
Qed.
Lemma runs_fails {A} (m : emit A) s Q fn : succeeds m = true ->
  runs (code m) m entry (machine (code m) s) s Q (Some fn) -> fails m s fn.
Proof. intros (o & c' & Hm & Hx)%code_parts Hg. exact (Hg o c' _ Hm code_entry_inv entry_ok Hx (machine_at _ s)). Qed.
Lemma moves_state m s s' : succeeds m = true ->
  moves (code m) s m entry (machine (code m) s) (inl s') -> leads_to m s s'.
Proof.
  intros (u & c' & Hm & Hx)%code_parts Hg.
  destruct (Hg u c' _ Hm code_entry_inv entry_ok Hx (machine_at _ s)) as (k' & Hs & Hat & _). exists k'. by destruct Hat.
Qed.

(** The smallest int4 over -1, and over 0. *)
Lemma checked_division_agrees_witness :
  fails (emit_int_divmod I32 true (const_int32 (-2147483648)) (const_int32 (-1))) (Demo.state ds []) ERR_rt_int_overflow
  /\ fails (emit_int_divmod I32 false (const_int32 7) (const_int32 0)) (Demo.state ds []) ERR_rt_div_zero
  /\ evaluates (emit_int_divmod I32 false (const_int32 (-7)) (const_int32 2)) (Demo.state ds []) (VInt (-1)).
Proof.
  pose proof (fun f d x y => checked_division_agrees f (Demo.state ds []) I32 d _ _ x y entry (machine f (Demo.state ds []))
    (defd_const _ _ (VInt x)) (defd_const _ _ (VInt y))) as Hd.
  split; [|split].
  - apply (runs_fails _ _ (fun _ _ _ => True)); [reflexivity|exact (Hd _ true (-2147483648)%Z (-1)%Z eq_refl)].
  - apply (runs_fails _ _ (fun _ _ _ => True)); [reflexivity|exact (Hd _ false 7%Z 0%Z eq_refl)].
  - apply gives_value; [reflexivity|exact (Hd _ false (-7)%Z 2%Z eq_refl)].
Defined.

Lemma float_comparison_agrees_witness :
  evaluates (emit_float_cmp F_FLOAT8LT (OConst (VDouble (S754_infinity false))) (OConst (VDouble S754_nan)))
    (Demo.state ds []) (VInt 1)
  /\ evaluates (emit_float_cmp F_FLOAT8EQ (OConst (VDouble S754_nan)) (OConst (VDouble S754_nan)))
    (Demo.state ds []) (VInt 1).
Proof.
  split; (apply gives_value; [reflexivity|]).
  - exact (float_comparison_agrees _ (Demo.state ds []) F_FLOAT8LT _ _ _ _ _ entry (machine _ _) eq_refl
             (defd_const _ _ _) (defd_const _ _ _)).
  - exact (float_comparison_agrees _ (Demo.state ds []) F_FLOAT8EQ _ _ _ _ _ entry (machine _ _) eq_refl
             (defd_const _ _ _) (defd_const _ _ _)).
Defined.

Definition next_but_one : Expr := op F_INT4PL x (int4_const 2).

Lemma next_params : params_ok ds next_but_one.
Proof. repeat constructor; first [by eexists|by (eexists; split; [reflexivity|right; reflexivity])]. Qed.

(** [x := x + 2] with [x = 2147483646], and [x := i + 2] with [i = 3]. *)
Definition i_and_two : Expr := op F_INT4PL i (int4_const 2).
Lemma sum_params : params_ok ds i_and_two.
Proof. repeat constructor; first [by eexists|by (eexists; split; [reflexivity|right; reflexivity])]. Qed.

(** A NULL variable decides before the expression is evaluated: for [10 / i + x] with
    [i = 0] and a NULL [x], PostgreSQL evaluates the division first and raises an
    error, and the assignment stores NULL. *)
Definition null_x : UPLpgSQL_datum :=
  DTYPE_VAR (mk_var (mk_variable 1 "x" false false None) Demo.int4 None (-1) 0 0 true false PROMISE_NONE).
Definition quotient : Expr := op F_INT4PL (op F_INT4DIV (int4_const 10) i) x.

Example null_decides_first :
  let zero := [Demo.local 0 "found" Demo.boolean 0; null_x; Demo.local 2 "i" Demo.int4 0] in
  sql_eval zero quotient = RError ERR_rt_div_zero
  /\ assign_result (Demo.state zero []) 1 quotient = Some (inl (stored_var (Demo.state zero []) 1 0%Z true)).
Proof. by vm_compute. Qed.
End ExprPropsExamples.
