(* ===== verification/Inlining.v ===== *)
(** * Inlined expressions in compiled functions

    What file Simulation asks of expression inlining ([ExprCompilerSim]) holds of the
    expression compiler of file ExprEmit, for conditions and assignments that are
    compiled natively, if PostgreSQL evaluates them as file SqlEval specifies.

    Generated code tests all variables of an expression for NULL before it computes
    anything, PostgreSQL evaluates from left to right: [10 / y + z] with [y = 0] and [z]
    NULL is an error there and NULL here.  [null_safe] leaves such expressions out: an
    operand that can raise an error shares its variables with the others. *)

From Stdlib Require Import ZArith Lia SpecFloat.
From S2P Require Import Prelude Ast Escape Expr Float Exec Assign IR CoreEmit StmtEmit ExprEmit Wellformed Machine.
From S2P Require Import Growth ExprWf CompileTotal ExprTotal DeclTypes SqlProps SqlEval SimRel Runs ExprSim ValueSim.

#[local] Opaque bind.

(** ** Errors and NULL *)

(** Operators that raise errors. *)
Definition can_fail (f : func_oid) : bool :=
  match operator_of f with
  | Some (Compare _ | FloatCompare _) => false
  | Some _ => true
  | None => match f with F_FLOAT8UM | F_FLOAT8_INT4 | F_FLOAT8_INT2 | F_FLOAT8_INT8 | F_FLOAT8_NUMERIC => false | _ => true end
  end.

Fixpoint fallible (e : Expr) : bool :=
  match e with
  | OpExpr f _ _ args | FuncExpr f _ _ args => can_fail f || existsb fallible args
  | RelabelType a => fallible a
  | _ => false
  end.

(** The variables of [a] are among those of [b]. *)
Definition params_within (a b : Expr) : bool :=
  forallb (fun p => bool_decide (p.1 ∈ map fst (params b))) (params a).

Fixpoint null_safe (e : Expr) : bool :=
  match e with
  | OpExpr _ _ _ [x; y] =>
      null_safe x && null_safe y
      && (negb (fallible x) || params_within y x) && (negb (fallible y) || params_within x y)
  | OpExpr _ _ _ args | FuncExpr _ _ _ args => forallb null_safe args
  | RelabelType a => null_safe a
  | _ => true
  end.

Definition no_error (r : sql_result) : Prop := forall fn, r <> RError fn.

Section errors.
Context `{CompileEnv}.
Context (ds : list UPLpgSQL_datum).

Lemma binop_infallible f v w : can_fail f = false -> no_error (sql_binop f v w).
Proof.
  unfold can_fail, sql_binop. intros Hf fn. destruct (operator_of f) as [[]|]; try discriminate;
    destruct v, w; discriminate.
Qed.
Lemma unop_infallible f v : can_fail f = false -> no_error (sql_unop f v).
Proof. intros Hf fn. destruct f; try discriminate; destruct v; discriminate. Qed.
Lemma func1_infallible f v : can_fail f = false -> no_error (sql_func1 f v).
Proof. intros Hf fn. destruct f; try discriminate; destruct v; discriminate. Qed.

Lemma strict1_no_error r k : no_error r -> (forall v, r = RVal v -> no_error (k v)) -> no_error (strict1 r k).
Proof. intros Hr Hk. destruct r; simpl; auto. Qed.
Lemma strict2_no_error r1 r2 k :
  no_error r1 -> no_error r2 -> (forall v w, r1 = RVal v -> r2 = RVal w -> no_error (k v w)) ->
  no_error (strict2 r1 r2 k).
Proof.
  intros H1 H2 Hk. destruct r1 as [v| |fn|]; simpl; [|by destruct r2|done|done].
  apply strict1_no_error; [done|]. intros w Ew. by apply Hk.
Qed.

Lemma infallible_no_error e : native e = true -> fallible e = false -> no_error (sql_eval ds e).
Proof.
  induction e as [t b v n|k i t|f r c l IH|f r c l IH|a IH|o l IH|t r u l a _ IH _|? _|] using expr_ind';
    intros Hn Hf; try discriminate.
  - simpl. intros fn. by destruct n.
  - simpl. intros fn. destruct (variable ds (dno_of i)) as [v|]; [by destruct (isnull v)|done].
  - simpl in Hf. apply orb_false_iff in Hf as [Hc Hf].
    assert (Hsub : forall x, x ∈ l -> no_error (sql_eval ds x)).
    { intros x Hx. apply IH; [done|by eapply native_arg|]. destruct (fallible x) eqn:Ex; [|done].
      rewrite <- Hf. symmetry. apply existsb_elem. eauto. }
    destruct l as [|x [|y [|z l]]]; try done.
    + apply strict1_no_error; [apply Hsub; set_solver|]. intros v _. by apply unop_infallible.
    + apply strict2_no_error; [apply Hsub; set_solver..|]. intros v w _ _. by apply binop_infallible.
  - destruct (native_func f r c l Hn) as [(t & b & v & -> & ->)|(x & -> & Hg & Hnx & Hne)]; [done|].
    rewrite func1_eval by done. simpl in Hf. apply orb_false_iff in Hf as [Hc Hf]. apply orb_false_iff in Hf as [Hf _].
    apply strict1_no_error; [apply IH; [set_solver|done|done]|]. intros v _. by apply func1_infallible.
  - simpl in *. apply andb_true_iff in Hn as [_ Hn]. by apply IH.
Qed.

Lemma within_null a b : params_within a b = true -> has_null ds a = true -> has_null ds b = true.
Proof.
  unfold has_null. intros Hw [p [Hp Hn]]%existsb_elem.
  pose proof (forallb_elem _ _ p Hw Hp) as Hin. apply bool_decide_eq_true in Hin.
  apply elem_of_map in Hin as (q & Hq & Eq). apply existsb_elem. exists q. split; [done|].
  unfold is_null in *. by rewrite Eq.
Qed.

Lemma null_agrees_val n v : null_agrees n (RVal v) -> n = false.
Proof. done. Qed.

(** An expression with a NULL variable is NULL, not an error. *)
Lemma null_safe_sound e :
  native e = true -> null_safe e = true -> has_null ds e = true -> no_error (sql_eval ds e).
Proof.
  induction e as [t b v n|k i t|f r c l IH|f r c l IH|a IH|o l IH|t r u l a _ IH _|? _|] using expr_ind';
    intros Hn Hs Hf; try discriminate.
  - simpl in Hf. unfold has_null, is_null in Hf. simpl in *. rewrite orb_false_r in Hf. intros fn.
    destruct (variable ds (dno_of i)) as [v|]; [by destruct (isnull v)|done].
  - rewrite has_null_args in Hf. pose proof (fun x => native_arg f r c l x Hn) as Hna.
    destruct l as [|x [|y [|z l]]]; try done.
    + simpl in Hs, Hf. rewrite andb_true_r in Hs. rewrite orb_false_r in Hf.
      rewrite op1_eval. apply strict1_no_error; [apply IH; [set_solver|apply Hna; set_solver|done|done]|].
      intros v Ev. pose proof (eval_null ds x (Hna x ltac:(set_solver))) as Hx. rewrite Ev, Hf in Hx. done.
    + simpl in Hs, Hf. rewrite orb_false_r in Hf.
      apply andb_true_iff in Hs as [[[Hsx Hsy]%andb_true_iff Hfx]%andb_true_iff Hfy].
      pose proof (Hna x ltac:(set_solver)) as Hnx. pose proof (Hna y ltac:(set_solver)) as Hny.
      assert (Ex : no_error (sql_eval ds x)).
      { apply orb_true_iff in Hfx as [Hfx%negb_true_iff|Hfx]; [by apply infallible_no_error|].
        apply IH; [set_solver|done|done|]. apply orb_true_iff in Hf as [Hf|Hf]; [done|by eapply within_null]. }
      assert (Ey : no_error (sql_eval ds y)).
      { apply orb_true_iff in Hfy as [Hfy%negb_true_iff|Hfy]; [by apply infallible_no_error|].
        apply IH; [set_solver|done|done|]. apply orb_true_iff in Hf as [Hf|Hf]; [by eapply within_null|done]. }
      rewrite op2_eval. apply strict2_no_error; [done|done|]. intros v w Ev Ew.
      pose proof (eval_null ds x Hnx) as Hx. pose proof (eval_null ds y Hny) as Hy.
      rewrite Ev in Hx. rewrite Ew in Hy. simpl in Hx, Hy. by rewrite Hx, Hy in Hf.
  - destruct (native_func f r c l Hn) as [(t & b & v & -> & ->)|(x & -> & Hg & Hnx & Hne)]; [done|].
    change (has_null ds (FuncExpr f r c [x])) with (has_null ds (OpExpr f r c [x])) in Hf.
    rewrite has_null_args in Hf. simpl in Hs, Hf. rewrite andb_true_r in Hs. rewrite orb_false_r in Hf.
    rewrite func1_eval by done. apply strict1_no_error; [apply IH; [set_solver|done|done|done]|].
    intros v Ev. pose proof (eval_null ds x Hnx) as Hx. by rewrite Ev, Hf in Hx.
  - simpl in *. apply andb_true_iff in Hn as [_ Hn]. by apply IH.
Qed.
End errors.

(** ** PostgreSQL's evaluation *)

(** The type of the values of a class. *)
Definition class_type (c : ExprTypeClass) : Oid :=
  match c with
  | EXPR_TYPE_INT4 => INT4OID
  | EXPR_TYPE_INT8 => INT8OID
  | EXPR_TYPE_FLOAT8 => FLOAT8OID
  | EXPR_TYPE_BOOL => BOOLOID
  | EXPR_TYPE_UNKNOWN => InvalidOid
  end.

(** What is asked of PostgreSQL: an expression that the compiler has prepared keeps its
    plan, and evaluating one that is native gives the value, the NULL or the error of
    file SqlEval, as a value of the type of its class, and changes nothing.  The datum
    beside a NULL flag, which nothing looks at, is taken to be 0; the error has the
    SQLSTATE and message of the one that generated code raises, except that [int8]
    functions speak of [bigint]. *)
Class NativeEval (world : Type) `{PgEnv world} `{CompileEnv} : Prop := {
  prepared_has_plan e x w : prepared e = Some x -> has_plan w e = true;
  native_eval e x s :
    prepared e = Some x -> native x = true -> uplpgsql_classify_expr x <> EXPR_TYPE_UNKNOWN ->
    params_ok (es_datums s) x ->
    let type := class_type (uplpgsql_classify_expr x) in
    match sql_eval (es_datums s) x with
    | RVal v => exec_eval_simple_expr e s = Ok (Some (mk_tv (datum_of_value v) false type (-1)%Z)) s
    | RNull => exec_eval_simple_expr e s = Ok (Some (mk_tv 0 true type (-1)%Z)) s
    | RError fn => exists err s', exec_eval_simple_expr e s = Err err s' /\ same_error err (raise_error fn)
    | RStuck => True
    end
}.

(** ** Coverage *)

(** The variables of a native expression are watched and none is a boolean. *)
Definition params_watched (F : watch) (e : Expr) : bool :=
  forallb (fun p => bool_decide (is_Some (F !! p.1)) && negb (class_is (type_class p.2) EXPR_TYPE_BOOL))
    (params e).

Section cover.
Context `{CompileEnv}.

Definition declared (p : nat * Oid) : bool :=
  match variable ce_datums p.1 with Some _ => true | None => false end.
Definition covers_expr (F : watch) (e : Expr) : bool :=
  native e && null_safe e && params_watched F e && forallb declared (params e).

(** A condition that is inlined natively, or that no tier takes. *)
Definition covers_bool (F : watch) (e : UPLpgSQL_expr) : bool :=
  match prepared e with
  | None => true
  | Some x =>
      if bool_decide (uplpgsql_classify_expr x = EXPR_TYPE_BOOL) then covers_expr F x
      else negb (uplpgsql_can_fmgr_compile ce_oid_of x)
  end.

(** An assignment that is inlined natively, to a variable of the expression's type that
    may be NULL, or is left to the interpreter's function. *)
Definition covers_target (F : watch) (n : nat) (x : Expr) : bool :=
  match F !! n with
  | Some i =>
      bool_decide (vi_type i = class_type (uplpgsql_classify_expr x)) && bool_decide (vi_typmod i = (-1)%Z)
      && (negb (vi_notnull i) || match params x with [] => true | _ => false end)
  | None => false
  end.
Definition covers_store (F : watch) (s : UPLpgSQL_stmt_assign) : bool :=
  match ce_datums !! assign_varno s, prepared (assign_expr s) with
  | Some (DTYPE_VAR target), Some x =>
      tier1_class x (oid_to_type_class (typoid (var_datatype target))) && covers_expr F x
      && covers_target F (assign_varno s) x
  | _, _ => true
  end.

(** A BY value that is a positive [int4] constant. *)
Definition positive_const (e : UPLpgSQL_expr) : bool :=
  match prepared e with
  | Some (Const t b v false) =>
      class_is (type_class t) EXPR_TYPE_INT4 && native (Const t b v false) && (0 <? v)%Z
  | _ => false
  end.

#[export] Instance native_cover : ExprCover :=
  {| covers_cond := covers_bool; covers_assign := covers_store; covers_step := positive_const |}.
End cover.

Section inlining.
Context {world : Type} `{PgEnvTypes world} `{CompileEnv} `{!NativeEval world}.
Open Scope exec_scope.

(** The watched variables are there. *)
Lemma watched_params F (s : execstate world) e : steady F s -> covers_expr F e = true -> params_ok (es_datums s) e.
Proof.
  intros [Hw _] Hc. apply andb_true_iff in Hc as [[_ Hp]%andb_true_iff Hd].
  apply list.Forall_forall. intros p Hin.
  pose proof (forallb_elem _ _ p Hp Hin) as Hpw. pose proof (forallb_elem _ _ p Hd Hin) as Hpd.
  apply andb_true_iff in Hpw as [Hpw%bool_decide_eq_true Hb]. destruct Hpw as [i Hi].
  destruct (Hw _ _ Hi) as (v & Ev & _). unfold declared in Hpd. split.
  - by destruct (variable ce_datums p.1).
  - exists v. split; [unfold variable; by rewrite Ev|]. intros E. by rewrite E in Hb.
Qed.

(** Evaluation in the interpreter. *)
Lemma eval_native e x (s : execstate world) :
  prepared e = Some x -> native x = true -> uplpgsql_classify_expr x <> EXPR_TYPE_UNKNOWN ->
  params_ok (es_datums s) x ->
  let type := class_type (uplpgsql_classify_expr x) in
  match sql_eval (es_datums s) x with
  | RVal v => exec_eval_expr e s = Ok (mk_tv (datum_of_value v) false type (-1)%Z) s
  | RNull => exec_eval_expr e s = Ok (mk_tv 0 true type (-1)%Z) s
  | RError fn => exists err s', exec_eval_expr e s = Err err s' /\ same_error err (raise_error fn)
  | RStuck => False
  end.
Proof.
  intros He Hn Hc Hp type. pose proof (native_eval e x s He Hn Hc Hp) as Hev. cbv zeta in Hev.
  pose proof (classification_sound (es_datums s) x Hn Hp Hc) as Hty.
  unfold exec_eval_expr, prepare, xbind, xget. rewrite (prepared_has_plan e x (es_world s) He). simpl.
  destruct (sql_eval (es_datums s) x) as [v| |fn|]; [by rewrite Hev..| |done].
  destruct Hev as (err & s' & -> & Hs). by exists err, s'.
Qed.

(** A condition is false where the expression is NULL. *)
Lemma eval_cond_native e x (s : execstate world) :
  prepared e = Some x -> native x = true -> null_safe x = true -> uplpgsql_classify_expr x = EXPR_TYPE_BOOL ->
  params_ok (es_datums s) x ->
  match cond_result s x with
  | RVal v => exists b, v = bool_value b /\ eval_cond e s = Ok b s
  | RError fn => exists err s', eval_cond e s = Err err s' /\ same_error err (raise_error fn)
  | RNull | RStuck => False
  end.
Proof.
  intros He Hn Hs Hc Hp. assert (Hk : uplpgsql_classify_expr x <> EXPR_TYPE_UNKNOWN) by by rewrite Hc.
  pose proof (eval_native e x s He Hn Hk Hp) as Hev. cbv zeta in Hev.
  pose proof (classification_sound (es_datums s) x Hn Hp Hk) as Hty.
  pose proof (eval_null (es_datums s) x Hn) as Hnull. pose proof (null_safe_sound (es_datums s) x Hn Hs) as Hsafe.
  rewrite Hc in *. unfold cond_result. unfold eval_cond, exec_eval_boolean, xbind.
  destruct (has_null (es_datums s) x) eqn:Hf.
  - specialize (Hsafe eq_refl). destruct (sql_eval (es_datums s) x) as [v| |fn|]; try done; [|by destruct (Hsafe fn)].
    exists false. rewrite Hev. done.
  - destruct (sql_eval (es_datums s) x) as [v| |fn|]; try done.
    + destruct v as [z| | | | | | | | | |]; try done. destruct Hty as [b ->]. exists b. split; [done|].
      rewrite Hev. by destruct b.
    + destruct Hev as (err & s' & -> & Hse). by exists err, s'.
Qed.
(** Storing a value of its own type in a watched variable. *)
Lemma alter_datums_eq (l : list UPLpgSQL_datum) n v g h :
  l !! n = Some (DTYPE_VAR v) -> g v = h v -> alter (update_var g) n l = alter (update_var h) n l.
Proof. intros Hv Hg. apply list_alter_ext; [|done]. intros d Hd. rewrite Hv in Hd. injection Hd as <-. simpl. by rewrite Hg. Qed.

Lemma assign_watched F (s : execstate world) n i z null type :
  steady F s -> F !! n = Some i -> vi_type i = type -> vi_typmod i = (-1)%Z ->
  null && vi_notnull i = false ->
  exec_assign_value n (mk_tv z null type (-1)%Z) s = Ok tt (stored_var s n z null).
Proof.
  intros [Hw _] Hn Ht Hm Hnn. destruct (Hw n i Hn) as (v & Ev & [Et Em En Eb El Ep Ef]).
  assert (Hst : forall g, g v = set_value z null false v ->
    Ok tt (with_datums (alter (update_var g) n) s) = Ok tt (stored_var s n z null)).
  { intros g Hg. unfold stored_var, with_datums. do 2 f_equal. by eapply alter_datums_eq. }
  unfold exec_assign_value, assign_field, xbind. rewrite (get_datum_at n _ s Ev). cbv iota beta.
  rewrite (get_datum_at n _ s Ev). cbv iota beta.
  unfold assign_value_var, xbind at 1. rewrite cast_same by (simpl; first [congruence|right; congruence]).
  cbn [tv_value tv_isnull fst snd]. rewrite En, Hnn. unfold own_value, xbind, xget. rewrite Eb. cbn.
  destruct (negb (Ast.value v =? z)%Z || isnull v || null) eqn:Eq.
  - unfold assign_simple_var, get_var, xbind, xget. rewrite (get_datum_at n _ s Ev). cbn.
    destruct (Z.eqb_spec (typlen (var_datatype v)) (-1)); [done|]. rewrite !andb_false_r. cbn.
    apply Hst. unfold store_value, set_value. by rewrite Ep.
  - apply orb_false_iff in Eq as [[Eq Enn]%orb_false_iff ->]. apply negb_false_iff, Z.eqb_eq in Eq as <-.
    apply Hst. unfold disarm_promise, set_value. by rewrite Ep, Ef, Enn.
Qed.

(** An assignment in the interpreter. *)
Lemma assign_native F n i e x (s : execstate world) :
  prepared e = Some x -> native x = true -> null_safe x = true -> uplpgsql_classify_expr x <> EXPR_TYPE_UNKNOWN ->
  params_ok (es_datums s) x -> steady F s -> F !! n = Some i -> covers_target F n x = true ->
  match assign_result s n x with
  | Some (inl s') => exec_assign_expr n e s = Ok tt s'
  | Some (inr fn) => exists err s', exec_assign_expr n e s = Err err s' /\ same_error err (raise_error fn)
  | None => False
  end.
Proof.
  intros He Hn Hs Hk Hp Hst Hi Hc. unfold covers_target in Hc. rewrite Hi in Hc.
  apply andb_true_iff in Hc as [[Ht%bool_decide_eq_true Hm%bool_decide_eq_true]%andb_true_iff Hnn].
  pose proof (eval_native e x s He Hn Hk Hp) as Hev. cbv zeta in Hev.
  pose proof (classification_sound (es_datums s) x Hn Hp Hk) as Hty.
  pose proof (eval_null (es_datums s) x Hn) as Hnull. pose proof (null_safe_sound (es_datums s) x Hn Hs) as Hsafe.
  assert (Hpr : forall m, (prepare e 0 ;~ m) s = m s :> outcome _ unit).
  { intros m. unfold prepare, xbind, xget. by rewrite (prepared_has_plan e x (es_world s) He). }
  unfold assign_result, exec_assign_expr. rewrite Hpr. unfold xbind.
  destruct (has_null (es_datums s) x) eqn:Hf.
  - specialize (Hsafe eq_refl). destruct (sql_eval (es_datums s) x) as [v| |fn|]; try done; [|by destruct (Hsafe fn)].
    rewrite Hev. eapply assign_watched; [done|exact Hi|done|done|].
    apply orb_true_iff in Hnn as [Hnn%negb_true_iff|Hnn]; [done|].
    unfold has_null in Hf. by destruct (params x).
  - destruct (sql_eval (es_datums s) x) as [v| |fn|]; try done; simpl.
    + rewrite Hev. by eapply assign_watched.
    + destruct Hev as (err & s' & -> & Hse). by exists err, s'.
Qed.
(** What was emitted without effect. *)
Lemma passes_refl f c (k : mstate world) s : at_point f c k s -> passes f c c k s.
Proof. intros Hat. exists k. split; [apply rtc_refl|]. split; [done|apply agree_refl]. Qed.

Lemma native_bool_sim f F e x c o c' P (k : mstate world) s :
  prepared e = Some x -> uplpgsql_classify_expr x = EXPR_TYPE_BOOL -> covers_expr F x = true ->
  tier1_bool x c = Success (o, c') -> inv c P -> ctx_ok c -> ext c' f -> at_point f c k s -> steady F s ->
  match eval_cond e s with
  | Ok b s' => exists k', steps f k k' /\ at_point f c' k' s' /\ agree c k k'
                 /\ holds (fun b => VInt (z_of_bool b)) (regs k') o b /\ steady F s'
  | Err err _ => raises f k err
  | Stuck | OutOfFuel => True
  end.
Proof.
  intros He Hc Hcov Hrun HI Hok Hext Hat Hst. pose proof (watched_params F s x Hst Hcov) as Hp.
  apply andb_true_iff in Hcov as [[[Hn Hs]%andb_true_iff _]%andb_true_iff _].
  pose proof (eval_cond_native e x s He Hn Hs Hc Hp) as Hev.
  pose proof (tier1_bool_sim f s x c k Hn Hp Hc) as Hsim.
  destruct (cond_result s x) as [v| |fn|]; try done.
  - destruct Hev as (b & -> & ->). destruct (Hsim _ _ _ Hrun HI Hok Hext Hat) as (k' & S1 & A1 & G1 & [Hv _]).
    by exists k'.
  - destruct Hev as (err & s' & -> & Hse). destruct (Hsim _ _ _ Hrun HI Hok Hext Hat) as (k' & S1 & E1).
    by exists k', (raise_error fn), s.
Qed.

Lemma native_assign_sim f F a x c u c' P (k : mstate world) s :
  prepared (assign_expr a) = Some x -> value_class (uplpgsql_classify_expr x) = true ->
  covers_expr F x = true -> covers_target F (assign_varno a) x = true ->
  tier1_assign (assign_varno a) x c = Success (u, c') -> inv c P -> ctx_ok c -> ext c' f ->
  at_point f c k s -> steady F s ->
  match exec_assign_expr (assign_varno a) (assign_expr a) s with
  | Ok _ s' => exists k', steps f k k' /\ at_point f c' k' s' /\ agree c k k' /\ steady F s'
  | Err err _ => raises f k err
  | Stuck | OutOfFuel => True
  end.
Proof.
  intros He Hv Hcov Ht Hrun HI Hok Hext Hat Hst. pose proof (watched_params F s x Hst Hcov) as Hp.
  apply andb_true_iff in Hcov as [[[Hn Hs]%andb_true_iff _]%andb_true_iff _].
  destruct (F !! assign_varno a) as [i|] eqn:Ei; [|by unfold covers_target in Ht; rewrite Ei in Ht].
  pose proof (assign_native F _ i _ x s He Hn Hs (value_class_known _ Hv) Hp Hst Ei Ht) as Hev.
  destruct (st_watched _ _ Hst _ _ Ei) as (w & Ew & _).
  assert (Hw : variable (es_datums s) (assign_varno a) = Some w) by by unfold variable; rewrite Ew.
  destruct (assign_result s (assign_varno a) x) as [[s'|fn]|] eqn:Er; [..|done].
  - rewrite Hev. pose proof (tier1_assign_sim f s _ w x _ c k Hw Hn Hp Hv Er) as Hsim.
    destruct (Hsim _ _ _ Hrun HI Hok Hext Hat) as (k' & S1 & A1 & G1). exists k'. split; [done|].
    split; [done|]. split; [done|]. exact (keeps_assign_expr F _ _ _ _ _ Hst Hev).
  - destruct Hev as (err & s' & -> & Hse). pose proof (tier1_assign_sim f s _ w x _ c k Hw Hn Hp Hv Er) as Hsim.
    destruct (Hsim _ _ _ Hrun HI Hok Hext Hat) as (k' & S1 & E1).
    by exists k', (raise_error fn), s.
Qed.

(** Evaluating such a constant. *)
Lemma positive_const_positive e z (s s' : execstate world) :
  positive_const e = true -> uplpgsql_rt_eval_int e s = Ok z s' -> (0 < z)%Z.
Proof.
  unfold positive_const. destruct (prepared e) as [[t b v []| | | | | | | |]|] eqn:He; try done.
  intros [[Hc%bool_decide_eq_true Hn]%andb_true_iff Hpos%Z.ltb_lt]%andb_true_iff.
  assert (Hk : uplpgsql_classify_expr (Const t b v false) = EXPR_TYPE_INT4) by exact Hc.
  pose proof (eval_native e _ s He Hn ltac:(by rewrite Hk) ltac:(constructor)) as Hev. cbv zeta in Hev. rewrite Hk in Hev. simpl in Hev, Hn.
  rewrite Hc in Hev, Hn. simpl in Hev, Hn.
  unfold uplpgsql_rt_eval_int, exec_eval_integer, xbind. rewrite Hev.
  rewrite cast_same by (simpl; auto). simpl. intros [= <- _].
  change (DatumGetInt32 (wrap32 v)) with (wrap32 (wrap32 v)).
  apply andb_true_iff in Hn as [Hlo%Z.leb_le Hhi%Z.leb_le]. assert (Hv : in_int32 v) by done.
  by rewrite !wrap32_id by (rewrite ?wrap32_id by done; done).
Qed.

#[export] Instance expr_compiler_sim : @ExprCompilerSim world _ expr_compiler native_cover.
Proof.
  split.
  - intros f F e c r c' P k s Hcov Hrun HI Hok Hext Hat Hst. simpl in Hcov, Hrun.
    unfold uplpgsql_try_compile_bool in Hrun. apply bind_Success in Hrun as (d & c1 & [= <- <-] & Hrun).
    destruct (defer_cond_plan (bld c)); [injection Hrun as <- <-; by apply passes_refl|].
    unfold covers_bool in Hcov. destruct (prepared e) as [x|] eqn:He; [|injection Hrun as <- <-; by apply passes_refl].
    case_bool_decide as Hc.
    + apply bind_Success in Hrun as (o & c1 & Hrun & [= <- <-]). by eapply native_bool_sim.
    + unfold tier2_bool in Hrun. apply negb_true_iff in Hcov. rewrite Hcov in Hrun.
      apply bind_Success in Hrun as (o & c1 & [= <- <-] & Hrun).
      apply bind_Success in Hrun as (o & c1 & Hsync & [= <- <-]).
      rewrite sync_nil in Hsync by apply Hok. injection Hsync as <- <-. by apply passes_refl.
  - intros f F a c r c' P k s Hcov Hrun HI Hok Hext Hat Hst. simpl in Hcov, Hrun.
    unfold uplpgsql_try_compile_assign in Hrun. unfold covers_store in Hcov.
    destruct (ce_datums !! assign_varno a) as [[target| | | |]|]; try (injection Hrun as <- <-; by apply passes_refl).
    destruct (prepared (assign_expr a)) as [x|] eqn:He; [|injection Hrun as <- <-; by apply passes_refl].
    apply andb_true_iff in Hcov as [[Ht Hcov]%andb_true_iff Htg]. rewrite Ht in Hrun.
    apply bind_Success in Hrun as (u & c1 & Hrun & [= <- <-]).
    assert (Hv : value_class (uplpgsql_classify_expr x) = true).
    { apply andb_true_iff in Ht as [Hk%negb_true_iff%bool_decide_eq_false Ht%bool_decide_eq_true].
      rewrite Ht in *. unfold oid_to_type_class in *. by repeat case_match. }
    by eapply native_assign_sim.
  - intros e s z s'. apply positive_const_positive.
Qed.
End inlining.
