(* ===== verification/Simulation.v ===== *)
(** * Statements of compiled code do what the interpreter does

    One simulation lemma per statement form: the code that [compile_stmt] emits, run
    on the machine (file Machine), takes the state where the interpreter's execution
    of the statement takes it, and control to the place its return code says.  File
    Correct puts them together. *)

From Stdlib Require Import ZArith Lia.
From S2P Require Import Prelude Ast Escape Exec Assign SqlStmts Interp IR CoreEmit StmtEmit Wellformed.
From S2P Require Import Machine Growth DeclTypes SimRel.

#[local] Opaque bind.

Section control.
Context {world : Type} `{PgEnvTypes world}.
Context `{EC : ExprCompiler, !ExprCompilerOk, !ExprCompilerGrows, EV : ExprCover, !ExprCompilerSim world}.
Context (f : ir_function) (F : watch) (datums : list UPLpgSQL_datum).
Context (run : list UPLpgSQL_stmt -> exec (xstate world) exec_rc).
Open Scope exec_scope.
Abbreviation cm := (compile_stmts datums).

Lemma emits_cm l : emits any (cm l).
Proof. apply emits_for_each. intros. apply emits_stmt. Qed.
#[local] Hint Resolve emits_cm : emits.
#[local] Hint Resolve grows_eval_bool grows_eval_int grows_stmts grows_br_if_open : grows.

(** ** Conditions *)

Lemma computes_eval_bool e :
  covers_cond F e = true ->
  computes f F (holds (fun b => VInt (z_of_bool b))) (upl_eval_bool callbacks e) (eval_cond e).
Proof.
  intros Hcov c v c' P k s Hc HI Hok He Hat Hst. unfold upl_eval_bool in Hc. simpl in Hc.
  apply bind_Success in Hc as (r & c1 & R1 & R2).
  destruct (try_bool_emits e _ _ _ _ R1 HI) as ((I1 & E1 & _) & _).
  assert (L1 : le_ctx c c1) by (by eapply try_bool_grows).
  destruct r as [v1|].
  { injection R2 as <- <-. by apply (try_bool_sim f F e c (Some v1) c1 P k s Hcov). }
  assert (He1 : ext c1 f) by (eapply ext_le; [by eapply grows_rt_call|done]).
  destruct (try_bool_sim f F e c None c1 P k s Hcov R1 HI Hok He1 Hat Hst) as (k1 & Hs1 & Hat1 & Ha1).
  pose proof (run_call f F (fun b => VInt (z_of_bool b)) _ _ [VEstate; VExpr e] (eval_cond e)
            _ _ _ k1 s R2 (ctx_ok_le _ _ L1 E1 Hok) He ltac:(done) ltac:(apply keeps_eval_cond)) as Hr.
  assert (Hcall : forall s', call (RT RT_EVAL_BOOL) [VEstate; VExpr e] s'
                     = (b <~ eval_cond e; xret (Some (VInt (z_of_bool b)))) s').
  2:{ specialize (Hr Hcall Hat1 Hst). destruct (eval_cond e s) as [b s'|er s'| |]; [|by eapply raises_steps|done|done].
      destruct Hr as (k2 & Hs2 & Hat2 & Ha2 & Hv & Hst2). exists k2. split; [by eapply steps_trans|].
      split; [done|]. split; [by eapply agree_trans|done]. }
  intros s'. simpl. unfold uplpgsql_rt_eval_bool, eval_cond, xbind.
  destruct (exec_eval_boolean e s') as [[b n] s1| | |]; [|done..]. by destruct n.
Qed.

(** Run the test of a conditional branch, up to the chosen block; [b] is the
    value of the condition. *)
Ltac run_test b :=
  apply post_lift;
  lazymatch goal with
  | |- match eval_cond ?e ?s with _ => _ end =>
      match goal with
      | Hr : ran (upl_eval_bool callbacks e) ?c ?v ?c', Hat : at_point f ?c _ s, Hst : steady F s |- _ =>
          let Hcond := fresh "Hcond" in
          pose proof (computes_eval_bool e ltac:(auto) c v c' _ _ s Hr ltac:(eassumption) ltac:(eassumption)
                        ltac:(eassumption) Hat Hst) as Hcond;
          let s1 := fresh "s" in let k1 := fresh "k" in
          let Hs := fresh "Hsteps" in let Ha := fresh "Hat" in let Hg := fresh "Hag" in
          let Hv := fresh "Hv" in let Hst' := fresh "Hst" in
          destruct (eval_cond e s) as [b s1| ? ?| |]; [|done..];
          destruct Hcond as (k1 & Hs & Ha & Hg & Hv & Hst');
          at_skip;
          match goal with
          | Hb : ran (build (ICondBr v ?t ?el)) ?d _ _, Hd : at_point f ?d k1 s1 |- _ =>
              pose proof (steps_trans f _ _ _ Hs (run_condbr f _ _ _ _ _ _ _ _ _ Hb ltac:(eassumption) Hd Hv));
              pose proof (agree_goto f _ (if b then t else el) _ _ Hg)
          end;
          clear Hs Hg; destruct b
      end
  end.

(** Enter the block chosen by a branch. *)
Ltac enter := eapply at_enter; [eassumption|eassumption|env_field|empty_block].
Ltac same_loops c :=
  match goal with |- _ `prefix_of` loop_stack (env ?d) => replace (env d) with (env c) by congruence; done end.

(** ** IF *)

(** ELSIF and ELSE: the builder is in the else block of the previous test. *)
Lemma sim_elsifs ls merge els l :
  (forall x, x ∈ l -> covers_cond F (elsif_cond x) = true /\ sim f F ls (cm (elsif_stmts x)) (run (elsif_stmts x))) ->
  sim f F ls (cm els) (run els) ->
  forall c u c1 u2 c2 u3 c3 P k s,
  ran (for_each (emit_elsif callbacks merge) (map (fun e => (elsif_cond e, cm (elsif_stmts e))) l)) c u c1 ->
  ran (cm els) c1 u2 c2 -> ran (build (IBr merge)) c2 u3 c3 ->
  inv c P -> merge < nb c -> ctx_ok c -> ext c3 f -> ls `prefix_of` loop_stack (env c) ->
  at_point f c k (core s) -> steady F (core s) ->
  post f F ls c (block f merge) k (exec_elsifs run l els s).
Proof.
  intros Hl Hels.
  induction l as [|x l IH]; intros c u c1 u2 c2 u3 c3 P k s Hfe Hce Hbr HI Hm Hok Hext Hpre Hat Hst.
  - unfold ran in Hfe. simpl in *. unbind. eapply post_br; [done|done|]. eapply Hels; try done.
    eapply ext_le; [|done]. by eapply grows_build.
  - unfold ran in Hfe. simpl in Hfe. unbind.
    match goal with He : emit_elsif _ _ _ _ = _ |- _ => unfold emit_elsif in He; simpl in He end.
    assert (Hext1 : ext c1 f).
    { eapply ext_le; [|eapply ext_le; [|done]]; [by eapply grows_stmts|by eapply grows_build]. }
    assert (Hext8 : ext c0 f).
    { eapply ext_le; [|exact Hext1]. eapply grows_for_each; [|exact Hfe].
      intros y (z & Hz & <-)%elem_of_map. apply grows_elsif, grows_stmts. }
    destruct (Hl x ltac:(set_solver)) as [Hcov Hx].
    hide Hfe. unbind. walk. ext_back. ctx_forward. simpl. run_test b.
    + resume c8. eapply post_br; [eassumption|eassumption|].
      eapply Hx; [eassumption..|same_loops c|enter|eassumption].
    + resume c0. eapply IH; try eassumption; [|lia|same_loops c|enter].
      intros y Hy. apply Hl. set_solver.
Qed.

Lemma sim_if ls (s : UPLpgSQL_stmt_if UPLpgSQL_stmt) el :
  covers_cond F (if_cond s) = true ->
  sim f F ls (cm (then_body s)) (run (then_body s)) ->
  (forall x, x ∈ elsif_list s -> covers_cond F (elsif_cond x) = true /\ sim f F ls (cm (elsif_stmts x)) (run (elsif_stmts x))) ->
  sim f F ls (cm (else_body s)) (run (else_body s)) ->
  match el with Some m => m | None => ret tt end = cm (else_body s) ->
  sim f F ls (upl_emit_if callbacks (if_cond s) (cm (then_body s))
                (map (fun e => (elsif_cond e, cm (elsif_stmts e))) (elsif_list s)) el)
    (exec_stmt_if run s).
Proof.
  intros Hcov Hth Hl Hels Hel c u c' P k st Hrun HI Hok Hext Hpre Hat Hst.
  unfold upl_emit_if in Hrun. rewrite Hel in Hrun. unbind.
  match goal with Hfe : for_each _ _ ?d = Success (?v, ?d'), Hce : cm _ ?d' = Success (_, ?d2),
                  Hbr : build (IBr _) ?d2 = Success (_, ?d3) |- _ =>
    hide Hfe; hide Hce; hide Hbr; rename Hfe into Hfe', Hce into Hce', Hbr into Hbr' end.
  walk.
  assert (Hcl : Forall (fun clause => emits any clause.2)
                  (map (fun e => (elsif_cond e, cm (elsif_stmts e))) (elsif_list s))).
  { apply list.Forall_forall. intros y (z & Hz & <-)%elem_of_map. apply emits_cm. }
  match goal with I : inv c8 _ |- _ =>
    destruct (emits_elsifs _ _ _ _ _ _ Hfe' Hcl I ltac:(lia)) as (I9 & E9 & N9) end.
  destruct (emits_cm _ _ _ _ _ Hce' I9) as ((I10 & E10 & N10) & _).
  destruct (build_done _ _ _ _ _ Hbr' I10 eq_refl ltac:(instr_side)) as (D11 & E11 & N11).
  assert (Hg9 : le_ctx c8 c9).
  { eapply grows_for_each; [|exact Hfe']. intros y (z & Hz & <-)%elem_of_map.
    apply grows_elsif, grows_stmts. }
  assert (Hg10 := grows_stmts _ _ _ _ _ Hce'). assert (Hg11 := grows_build _ _ _ _ Hbr').
  ext_back. ctx_forward.
  rewrite (rest_position v c11 u c' f Hrun) by empty_block.
  at_skip. unfold exec_stmt_if. run_test b.
  - resume c5. eapply post_br; [eassumption|eassumption|].
    eapply Hth; [eassumption..|same_loops c|enter|eassumption].
  - resume c8. eapply sim_elsifs; [exact Hl|exact Hels|eassumption..| |eassumption|eassumption|same_loops c|enter|eassumption].
    lia.
Qed.
(** ** Loops *)

(** One iteration, from the start of the body to the point after
    [LOOP_RC_PROCESSING]: the loop is left towards [li]'s exit block or further
    out, or the next iteration starts at [li]'s continue block. *)
Definition iteration (label : option string) (body : list UPLpgSQL_stmt)
    : exec (xstate world) (exec_rc * bool) :=
  rc <~ run body; LOOP_RC_PROCESSING label rc.

Lemma iteration_eq {A} label body (K : exec_rc * bool -> exec (xstate world) A) s :
  (rc <~ run body; p <~ LOOP_RC_PROCESSING label rc; K p) s = xbind (iteration label body) K s.
Proof. unfold iteration, xbind. by destruct (run body s). Qed.

Lemma find_loop_here li ls l :
  li_is_loop li = true -> l = None \/ label_eqb (li_label li) l = true ->
  find_loop (li :: ls) l = Some li.
Proof.
  intros Hl Hlab. simpl. destruct l as [l|]; [|by rewrite Hl].
  destruct Hlab as [|Hlab]; [discriminate|]. unfold label_eqb in Hlab.
  destruct (li_label li) as [l'|]; [|discriminate]. by rewrite Hlab.
Qed.

Lemma find_loop_outer li ls l :
  label_eqb (li_label li) (Some l) = false -> find_loop (li :: ls) (Some l) = find_loop ls (Some l).
Proof.
  intros Hlab. simpl. unfold label_eqb in Hlab. destruct (li_label li) as [l'|]; [|done].
  by rewrite Hlab.
Qed.

Lemma find_loop_prefix ls stack l li :
  ls `prefix_of` stack -> find_loop ls l = Some li -> find_loop stack l = Some li.
Proof.
  intros [tl ->]. induction ls as [|x ls IH]; [done|]. simpl. destruct l as [l|].
  - destruct (li_label x) as [l'|]; [|exact IH]. by destruct (String.eqb l' l).
  - by destruct (li_is_loop x).
Qed.

Lemma find_loop_in stack l li : find_loop stack l = Some li -> li ∈ stack.
Proof.
  induction stack as [|x stack IH]; simpl; [done|]. destruct l as [l|].
  - destruct (li_label x) as [l'|]; [destruct (String.eqb l' l)|]; intros Hf; simplify_eq; set_solver.
  - destruct (li_is_loop x); intros Hf; simplify_eq; set_solver.
Qed.

Lemma find_loop_label l xb d ls l' :
  find_loop (mk_loop_info (Some l) false None xb d :: ls) (Some l') =
  if String.eqb l l' then Some (mk_loop_info (Some l) false None xb d) else find_loop ls (Some l').
Proof. reflexivity. Qed.

#[local] Arguments find_loop : simpl never.

(** Where one iteration leads. *)
Definition iteration_to ls c xb cb (k : mstate world) (o : outcome (xstate world) (exec_rc * bool)) : Prop :=
  match o with
  | Ok (rc, true) s' => post f F ls c (block f xb) k (Ok rc s')
  | Ok (rc, false) s' =>
      rc = RC_OK /\ exists k', steps f k k' /\ todo k' = block f cb /\ mcore k' = core s'
                               /\ agree c k k' /\ steady F (core s')
  | Err e _ => raises f k e
  | Stuck | OutOfFuel => True
  end.

Lemma iteration_post ls li cb c k body s :
  li_is_loop li = true -> li_continue_bb li = Some cb ->
  post f F (li :: ls) c (block f cb) k (run body s) ->
  iteration_to ls c (li_exit_bb li) cb k (iteration (li_label li) body s).
Proof.
  intros Hl Hcb. unfold iteration, xbind. destruct (run body s) as [rc s'|e s'| |]; [|done..].
  intros (k' & Hk & Hg & Hd). unfold LOOP_RC_PROCESSING, xbind, xget.
  destruct rc; simpl in *.
  - split; [done|]. exists k'. by destruct Hd as (? & ? & ?).
  - destruct Hg as (li' & Hfind & Ht). destruct (exitlabel s') as [l|] eqn:El.
    + destruct (label_eqb (li_label li) (Some l)) eqn:Elab; simpl.
      * rewrite find_loop_here in Hfind by auto. injection Hfind as <-. by exists k'.
      * rewrite find_loop_outer in Hfind by done. exists k'. split; [done|]. split; [|done].
        rewrite El. eauto.
    + rewrite find_loop_here in Hfind by auto. injection Hfind as <-. by exists k'.
  - by exists k'.
  - destruct Hg as (li' & b & Hfind & Hc & Ht). destruct (exitlabel s') as [l|] eqn:El.
    + destruct (label_eqb (li_label li) (Some l)) eqn:Elab; simpl.
      * rewrite find_loop_here in Hfind by auto. injection Hfind as <-. rewrite Hcb in Hc.
        injection Hc as <-. split; [done|]. exists k'. by destruct Hd as (? & ? & ?).
      * rewrite find_loop_outer in Hfind by done. exists k'. split; [done|]. split; [|done].
        rewrite El. eauto.
    + rewrite find_loop_here in Hfind by auto. injection Hfind as <-. rewrite Hcb in Hc.
      injection Hc as <-. split; [done|]. exists k'. by destruct Hd as (? & ? & ?).
Qed.

(** The body of a loop: push, compile, pop, branch back. *)
Lemma sim_loop_body ls label cb xb body c u1 c1 u2 c2 u3 c3 u4 c4 P k s :
  (forall li, li_label li = label -> li_is_loop li = true ->
     sim f F (li :: ls) (cm body) (run body)) ->
  ran (upl_push_loop label cb xb) c u1 c1 -> ran (cm body) c1 u2 c2 -> ran upl_pop_loop c2 u3 c3 ->
  ran (build (IBr cb)) c3 u4 c4 -> ext c4 f ->
  inv c1 P -> ctx_ok c -> ls `prefix_of` loop_stack (env c) ->
  at_point f c k (core s) -> steady F (core s) ->
  iteration_to ls c xb cb k (iteration label body s).
Proof.
  intros Hb R1 R2 R3 R4 Hext HI Hok Hpre Hat Hst.
  destruct (quiet_set_env _ _ _ _ R1) as [Hq1 He1]. destruct (quiet_set_env _ _ _ _ R3) as [Hq3 _].
  pose proof (grows_push_loop _ _ _ _ _ _ R1) as Hg1. pose proof (grows_stmts _ _ _ _ _ R2) as Hg2.
  pose proof (grows_pop_loop _ _ _ R3) as Hg3. pose proof (grows_build _ _ _ _ R4) as Hg4.
  set (li := mk_loop_info label true (Some cb) xb (cleanup_depth (env c))).
  assert (Hpost : post f F (li :: ls) c (block f cb) k (run body s)).
  { ext_back. eapply post_br; [exact R4|done|].
    rewrite (rest_quiet c2 c3 f) by apply Hq3.
    eapply (post_steps f F _ c c1 _ k k); [apply rtc_refl|apply agree_refl|done|by rewrite He1..|].
    eapply (Hb li); [done|done|exact R2|exact HI| |eassumption| | |done].
    - apply (ctx_ok_env c c1); [done|by rewrite He1..|done].
    - rewrite He1. simpl. by apply prefix_cons.
    - apply (at_quiet f c c1); [done|by rewrite He1|done]. }
  exact (iteration_post ls li cb c k body s eq_refl eq_refl Hpost).
Qed.

(** The frame of an iteration, for the induction over iterations. *)
Lemma post_again ls c cont (k k' : mstate world) o :
  steps f k k' -> agree c k k' -> post f F ls c cont k' o -> post f F ls c cont k o.
Proof. intros Hs Ha. by apply (post_steps f F ls c c cont k k' o Hs Ha). Qed.

(** Back at the start of a block. *)
Lemma at_again n c u c' (k k' : mstate world) s s' :
  ran (position n) c u c' -> codeb c n = [] -> at_point f c' k s -> agree c' k k' -> ctx_ok c' ->
  todo k' = block f n -> mcore k' = s' -> at_point f c' k' s'.
Proof.
  intros Hr Hc [_ _ Hp] Ha Hok Ht Hm. split; [|done|].
  - by rewrite Ht, (rest_position _ _ _ _ f Hr Hc).
  - by eapply agree_plstate.
Qed.

(** The rest of the loop after an iteration whose body starts at [d]. *)
Lemma post_iteration ls c d xb cb (k k1 : mstate world) label body K s :
  steps f k k1 -> agree c k k1 -> le_ctx c d ->
  return_bb (env d) = return_bb (env c) -> rc_ptr (env d) = rc_ptr (env c) ->
  iteration_to ls d xb cb k1 (iteration label body s) ->
  (forall rc s', K (rc, true) s' = Ok rc s') ->
  (forall s' k', todo k' = block f cb -> mcore k' = core s' -> agree c k k' -> steady F (core s') ->
     post f F ls c (block f xb) k' (K (RC_OK, false) s')) ->
  post f F ls c (block f xb) k (xbind (iteration label body) K s).
Proof.
  intros Hs Ha Hle Hr Hp Hit Hleave Hnext. unfold xbind.
  destruct (iteration label body s) as [[rc [|]] s'|e s'| |]; simpl in Hit; [| | |done|done].
  - rewrite Hleave. by eapply post_steps.
  - destruct Hit as (-> & k2 & Hs2 & Ht2 & Hm2 & Ha2 & Hst2).
    assert (Ha' : agree c k k2) by (by eapply agree_trans).
    eapply post_again; [by eapply steps_trans|exact Ha'|]. by apply Hnext.
  - by eapply raises_steps.
Qed.

Ltac run_iteration Hb :=
  match goal with
  | Hp : ran (upl_push_loop ?label ?cb ?xb) ?d _ ?d1, Hc : ran (cm ?body) ?d1 _ ?d2,
    Hq : ran upl_pop_loop ?d2 _ ?d3, Hbr : ran (build (IBr ?cb)) ?d3 _ ?d4
    |- post _ _ ?ls _ _ ?k (xbind (iteration ?label ?body) _ ?s) =>
      eapply (post_iteration ls _ d xb cb k);
        [first [eassumption|apply rtc_refl] | first [agree_back|apply agree_refl] | le_chain
        | env_field | env_field
        | eapply (sim_loop_body ls label cb xb body d); try eassumption | done |]
  end.

Lemma sim_loop ls label body n :
  (forall li, li_label li = label -> li_is_loop li = true ->
     sim f F (li :: ls) (cm body) (run body)) ->
  sim f F ls (upl_emit_loop label (cm body)) (loop_forever run n label body).
Proof.
  intros Hb c u c' P k s Hrun HI Hok Hext Hpre Hat Hst. unfold upl_emit_loop in Hrun.
  unbind. walk. ext_back. ctx_forward.
  rest_here. at_skip. run_goto. resume c3.
  assert (Hat3 : at_point f c3 (goto f v k) (core s)) by enter.
  clear Hat. revert Hat3 Hst. generalize (goto f v k) as k1. generalize s as s1.
  induction n as [|n IH]; intros s1 k1 Hat3 Hst; [done|]. simpl. rewrite iteration_eq.
  run_iteration Hb; [same_loops c|].
  intros s2 k2 Ht2 Hm2 Ha2 Hst2. apply IH; [|done].
  eapply at_again; [eassumption|empty_block|exact Hat3|exact Ha2|eassumption..].
Qed.

Lemma sim_while_top ls label cond body n :
  covers_cond F cond = true ->
  (forall li, li_label li = label -> li_is_loop li = true ->
     sim f F (li :: ls) (cm body) (run body)) ->
  sim f F ls (upl_emit_cond_loop callbacks label cond true (cm body))
    (loop_while run n (mk_while label cond body true)).
Proof.
  intros Hcov Hb c u c' P k s Hrun HI Hok Hext Hpre Hat Hst. unfold upl_emit_cond_loop in Hrun.
  cbv iota in Hrun. unbind. walk. ext_back. ctx_forward. rest_here. at_skip. run_goto. resume c5.
  assert (Hat5 : at_point f c5 (goto f v k) (core s)) by enter.
  clear Hat. revert Hat5 Hst. generalize (goto f v k) as k1. generalize s as s1.
  induction n as [|n IH]; intros s1 k1 Hat5 Hst; [done|]. simpl.
  match goal with Hx : steps f k (goto f v k) |- _ => clear Hx end.
  run_test b; simpl; [|finish_ok]. rewrite iteration_eq.
  run_iteration Hb; [same_loops c|enter|].
  intros s2 k2 Ht2 Hm2 Ha2 Hst2. apply IH; [|done].
  eapply at_again; [eassumption|empty_block|exact Hat5|exact Ha2|eassumption..].
Qed.

Lemma sim_while_bottom ls label cond body n :
  covers_cond F cond = true ->
  (forall li, li_label li = label -> li_is_loop li = true ->
     sim f F (li :: ls) (cm body) (run body)) ->
  sim f F ls (upl_emit_cond_loop callbacks label cond false (cm body))
    (loop_while run n (mk_while label cond body false)).
Proof.
  intros Hcov Hb c u c' P k s Hrun HI Hok Hext Hpre Hat Hst. unfold upl_emit_cond_loop in Hrun.
  cbv iota in Hrun. unbind. walk. ext_back. ctx_forward. pops. rest_here. at_skip. run_goto. resume c5.
  assert (Hat5 : at_point f c5 (goto f v0 k) (core s)) by enter.
  clear Hat. revert Hat5 Hst. generalize (goto f v0 k) as k1. generalize s as s1.
  match goal with Hx : steps f k (goto f v0 k) |- _ => clear Hx end.
  induction n as [|n IH]; intros s1 k1 Hat5 Hst; [done|]. simpl. 
  rewrite xret_bind. simpl. rewrite iteration_eq.
  run_iteration Hb; [same_loops c|].
  intros s2 k2 Ht2 Hm2 Ha2 Hst2. simpl.
  assert (Hat10 : at_point f c10 k2 (core s2)).
  { eapply at_position; [eassumption|empty_block|exact Ht2|exact Hm2|].
    replace (env c9) with (env c5) by congruence. eapply agree_plstate; [eassumption|exact Ha2|apply Hat5]. }
  run_test b; simpl; [finish_ok|].
  eapply post_again; [eassumption|agree_back|]. eapply IH; [|eassumption].
  eapply at_again; [eassumption|empty_block|exact Hat5| |eassumption|reflexivity|simpl; eapply ap_core; eassumption].
  eapply agree_trans; [exact Ha2|eassumption|le_chain].
Qed.
(** ** CASE *)

Definition has_test (s : UPLpgSQL_stmt_case UPLpgSQL_stmt) : bool :=
  match t_expr s with Some _ => true | None => false end.

(** The code that clears the temporary of a simple CASE, and the code after the
    last WHEN. *)
Definition emit_discard (s : UPLpgSQL_stmt_case UPLpgSQL_stmt) : emit unit :=
  if has_test s
  then upl_emit_rt_call_void RT_ASSIGN_NULL [estate_ref; const_int32 (Z.of_nat (t_varno s))]
  else ret tt.
Definition emit_else (s : UPLpgSQL_stmt_case UPLpgSQL_stmt) (ln : Z) : emit unit :=
  if have_else s then cm (else_stmts s)
  else upl_emit_rt_call_void RT_CASE_ERROR [estate_ref; const_int32 ln].

Lemma emits_discard s : emits any (emit_discard s).
Proof. unfold emit_discard. destruct (has_test s); emits_auto. Qed.
Lemma grows_discard s : grows (emit_discard s).
Proof. unfold emit_discard. grows_auto. Qed.
Lemma emits_else s ln : emits any (emit_else s ln).
Proof. unfold emit_else. destruct (have_else s); emits_auto. Qed.
Lemma grows_else s ln : grows (emit_else s ln).
Proof. unfold emit_else. grows_auto. Qed.
#[local] Hint Resolve emits_discard emits_else : emits.
#[local] Hint Resolve grows_discard grows_else : grows.

Lemma post_discard s ls c0 cont c u c1 k st K :
  ran (emit_discard s) c u c1 ->
  ctx_ok c -> ext c1 f -> le_ctx c0 c -> at_point f c k (core st) -> steady F (core st) ->
  (forall s' k', at_point f c1 k' s' -> agree c0 k k' -> steady F s' ->
     post f F ls c0 cont k' (K (mk_xstate (exitlabel st) s'))) ->
  post f F ls c0 cont k ((discard_test s ;~ K) st).
Proof.
  unfold emit_discard, has_test, discard_test. intros Hr Hok He Hle Hat Hst Hk. destruct (t_expr s) as [e|].
  - eapply (post_call_void f F _ _ [VEstate; VInt (Z.of_nat (t_varno s))]); try eassumption;
      [done|apply keeps_assign_simple_var| |].
    + intros s'. exists (fun _ => None). simpl. unfold uplpgsql_rt_assign_null. by rewrite Nat2Z.id.
    + intros _. exact Hk.
  - injection Hr as <- <-. rewrite xret_bind. destruct st. by apply Hk; [|apply agree_refl|].
Qed.

(** ELSE, or the error for its absence. *)
Lemma sim_else ls s ln :
  (have_else s = true -> sim f F ls (cm (else_stmts s)) (run (else_stmts s))) ->
  sim f F ls (emit_else s ln)
    (if have_else s then run (else_stmts s) else throw case_not_found).
Proof.
  unfold emit_else. intros Hels. destruct (have_else s); [by apply Hels|].
  intros c u c' P k st Hrun HI Hok Hext Hpre Hat Hst.
  apply (run_call_void f F (RT RT_CASE_ERROR) _ [VEstate; VInt ln] (uplpgsql_rt_case_error ln)
           c u c' k (core st) Hrun Hok Hext); try done.
  intros s'. by exists (fun _ => None).
Qed.

(** The WHEN clauses, the clearing of the temporary and ELSE: the builder is in
    the else block of the previous test. *)
Lemma sim_whens ls merge s ln l :
  (forall x, x ∈ l -> covers_cond F (when_expr x) = true /\ sim f F ls (cm (when_stmts x)) (run (when_stmts x))) ->
  (have_else s = true -> sim f F ls (cm (else_stmts s)) (run (else_stmts s))) ->
  forall c u c1 u2 c2 u3 c3 u4 c4 P k st,
  ran (for_each (emit_when callbacks (has_test s) (t_varno s) merge)
         (map (fun w => (when_expr w, cm (when_stmts w))) l)) c u c1 ->
  ran (emit_discard s) c1 u2 c2 -> ran (emit_else s ln) c2 u3 c3 -> ran (build (IBr merge)) c3 u4 c4 ->
  inv c P -> merge < nb c -> ctx_ok c -> ext c4 f -> ls `prefix_of` loop_stack (env c) ->
  at_point f c k (core st) -> steady F (core st) ->
  post f F ls c (block f merge) k (exec_whens run s l st).
Proof.
  intros Hl Hels.
  induction l as [|x l IH]; intros c u c1 u2 c2 u3 c3 u4 c4 P k st Hfe Hd Hce Hbr HI Hm Hok Hext Hpre Hat Hst.
  - unfold ran in Hfe. simpl in Hfe. unbind. unfold ran in Hd, Hce, Hbr.
    walk. ext_back. ctx_forward. simpl. eapply post_discard; [eassumption..|reflexivity|eassumption|eassumption|].
    intros s' k' Hat' Hag' Hst'. resume_at c2. eapply post_br; [eassumption..|].
    eapply (sim_else ls s ln Hels); [eassumption..|same_loops c|eassumption|eassumption].
  - unfold ran in Hfe. simpl in Hfe. unbind.
    match goal with He : emit_when _ _ _ _ _ _ = _ |- _ =>
      unfold emit_when in He; 
      simpl in He; fold (emit_discard s) in He end.
    assert (Hext1 : ext c1 f).
    { eapply ext_le; [by eapply grows_discard|]. eapply ext_le; [by eapply grows_else|].
      eapply ext_le; [by eapply grows_build|done]. }
    assert (Hext8 : ext c0 f).
    { eapply ext_le; [|exact Hext1]. eapply grows_for_each; [|exact Hfe].
      intros y (z & Hz & <-)%elem_of_map. apply grows_when, grows_stmts. }
    destruct (Hl x ltac:(set_solver)) as [Hcov Hx].
    hide Hfe. unbind. walk. ext_back. ctx_forward. at_skip. simpl. run_test b.
    + resume c11. eapply post_discard; [eassumption..|reflexivity|enter|eassumption|].
      intros s' k' Hat' Hag' Hst'. resume_at c12. eapply post_br; [eassumption..|].
      eapply Hx; [eassumption..|same_loops c|eassumption|eassumption].
    + resume c0. eapply IH; try eassumption; [|lia|same_loops c|enter].
      intros y Hy. apply Hl. set_solver.
Qed.

(** The assignment of the test expression to the temporary. *)
Lemma post_case_test (s : UPLpgSQL_stmt_case UPLpgSQL_stmt) ls c0 cont c u c1 k st K :
  (has_test s = true -> F !! t_varno s = None) ->
  ran (match t_expr s with Some e => cb_assign_expr_impl (t_varno s) e | None => ret tt end) c u c1 ->
  ctx_ok c -> ext c1 f -> le_ctx c0 c -> at_point f c k (core st) -> steady F (core st) ->
  (forall s' k', at_point f c1 k' s' -> agree c0 k k' -> steady F s' ->
     post f F ls c0 cont k' (K (mk_xstate (exitlabel st) s'))) ->
  post f F ls c0 cont k
    ((match t_expr s with Some e => lift (case_assign_test (t_varno s) e) | None => xret tt end ;~ K) st).
Proof.
  unfold has_test. intros Ht Hr Hok He Hle Hat Hst Hk. destruct (t_expr s) as [e|].
  - unfold ran, cb_assign_expr_impl, call_exec_void in Hr. unbind.
    rewrite sync_nil in H3 by apply Hok. injection H3 as <- <-. hide Hr.
    eapply (post_call_void f F (DIRECT FN_rt_case_assign_test) _
              [VEstate; VInt (Z.of_nat (t_varno s)); VExpr e]); try eassumption;
      [done|by apply keeps_case_assign_test, Ht| |].
    + intros s'. exists (fun _ => None). simpl. by rewrite Nat2Z.id.
    + intros _. exact Hk.
  - injection Hr as <- <-. rewrite xret_bind. destruct st. by apply Hk; [|apply agree_refl|].
Qed.

Lemma sim_case ls (s : UPLpgSQL_stmt_case UPLpgSQL_stmt) ln :
  (has_test s = true -> F !! t_varno s = None) ->
  (forall x, x ∈ case_when_list s -> covers_cond F (when_expr x) = true /\ sim f F ls (cm (when_stmts x)) (run (when_stmts x))) ->
  (have_else s = true -> sim f F ls (cm (else_stmts s)) (run (else_stmts s))) ->
  sim f F ls (upl_emit_case callbacks (t_expr s) (t_varno s)
                (map (fun w => (when_expr w, cm (when_stmts w))) (case_when_list s))
                (have_else s) (cm (else_stmts s)) ln)
    (exec_stmt_case run s).
Proof.
  intros Ht Hl Hels c u c' P k st Hrun HI Hok Hext Hpre Hat Hst.
  unfold upl_emit_case in Hrun. cbv zeta in Hrun.
  change (cb_assign_expr callbacks) with cb_assign_expr_impl in Hrun.
  fold (has_test s) in Hrun.
  change (if has_test s then upl_emit_rt_call_void (rt_assign_null callbacks) _ else _)
    with (emit_discard s) in Hrun.
  change (if have_else s then _ else _) with (emit_else s ln) in Hrun.
  unbind.
  match goal with Hfe : for_each _ _ ?d = Success (?v, ?d'), Hd : emit_discard _ ?d' = Success (_, ?d2),
                  Hce : emit_else _ _ ?d2 = Success (_, ?d3), Hbr : build (IBr _) ?d3 = Success (_, ?d4) |- _ =>
    hide Hfe; hide Hce; hide Hbr; hide Hd;
    rename Hfe into Hfe', Hce into Hce', Hbr into Hbr', Hd into Hd' end.
  assert (emits any (match t_expr s with Some e => cb_assign_expr_impl (t_varno s) e | None => ret tt end))
    by (destruct (t_expr s); emits_auto).
  assert (grows (match t_expr s with Some e => cb_assign_expr_impl (t_varno s) e | None => ret tt end))
    by grows_auto.
  walk.
  assert (Hcl : Forall (fun clause => emits any clause.2)
                  (map (fun w => (when_expr w, cm (when_stmts w))) (case_when_list s))).
  { apply list.Forall_forall. intros y (z & Hz & <-)%elem_of_map. apply emits_cm. }
  match goal with I : inv c1 _ |- _ =>
    destruct (emits_whens _ _ _ _ _ _ _ _ Hfe' Hcl I ltac:(lia)) as (I2 & E2 & N2) end.
  destruct (emits_discard _ _ _ _ _ Hd' I2) as ((I3 & E3 & N3) & _).
  destruct (emits_else _ _ _ _ _ _ Hce' I3) as ((I4 & E4 & N4) & _).
  destruct (build_done _ _ _ _ _ Hbr' I4 eq_refl ltac:(instr_side)) as (D5 & E5 & N5).
  assert (Hg2 : le_ctx c1 c2).
  { eapply grows_for_each; [|exact Hfe']. intros y (z & Hz & <-)%elem_of_map.
    apply grows_when, grows_stmts. }
  assert (Hg3 := grows_discard _ _ _ _ Hd'). assert (Hg4 := grows_else _ _ _ _ _ Hce').
  assert (Hg5 := grows_build _ _ _ _ Hbr'). ext_back. ctx_forward. rest_here. at_skip.
  unfold exec_stmt_case. eapply post_case_test; [eassumption..|le_chain|eassumption|eassumption|].
  intros s' k' Hat' Hag' Hst'. resume_at c1.
  eapply sim_whens; [exact Hl|exact Hels|eassumption..|lia|eassumption|eassumption|same_loops c|eassumption|eassumption].
Qed.
(** ** EXIT and CONTINUE *)

(** No cleanups are pending. *)
Lemma unwind_none d c : cleanup_depth (env c) = 0 -> upl_emit_cleanup_unwind d c = Success (tt, c).
Proof. intros Hd. unfold upl_emit_cleanup_unwind. Transparent bind. unfold bind, get_env. by rewrite Hd. Opaque bind. Qed.

(** The jump itself: the machine ends at the start of the target block. *)
Lemma sim_jump ls (s : UPLpgSQL_stmt_exit) loop target :
  find_loop ls (exit_label s) = Some loop ->
  (if is_exit s then Some (li_exit_bb loop) else li_continue_bb loop) = Some target ->
  (forall e, exit_cond s = Some e -> covers_cond F e = true) ->
  forall c u c' P k st,
  ran (emit_jump callbacks (is_exit s) (exit_cond s) loop target) c u c' ->
  target < nb c ->
  inv c P -> ctx_ok c -> ext c' f -> at_point f c k (core st) -> steady F (core st) ->
  post f F ls c (rest f c') k (exec_stmt_exit s st).
Proof.
  intros Hf Htg Hcov c u c' P k st Hrun Hlt HI Hok Hext Hat Hst. unfold ran, emit_jump in Hrun.
  assert (Hgo : forall k1 st1 , mcore k1 = core st1 -> todo k1 = block f target -> steps f k k1 ->
    agree c k k1 -> steady F (core st1) ->
    post f F ls c (rest f c') k
      (Ok (if is_exit s then RC_EXIT else RC_CONTINUE) (mk_xstate (exit_label s) (core st1)))).
  { intros k1 st1 Hm Ht Hs Ha Hst1. exists k1. split; [done|]. destruct (is_exit s); simpl.
    - injection Htg as <-. split; [eauto|done].
    - split; [eauto 6|done]. }
  unfold exec_stmt_exit. destruct (exit_cond s) as [e|].
  - specialize (Hcov e eq_refl). unbind.
    match goal with Ha : append_block _ c = Success (_, ?d), Hb : upl_eval_bool _ _ ?d = Success (_, ?d1) |- _ =>
      assert (Ed : env d1 = env c) by
        (destruct (append_inv _ _ _ _ _ Ha HI) as ((I0 & E0 & _) & _);
         destruct (emits_eval_bool _ _ _ _ _ Hb I0) as ((_ & E1 & _) & _); congruence);
      rewrite Ed, (co_cleanup _ Hok) in *  end.
    change (li_cleanup_depth loop <? 0) with false in *. cbv iota in *.
    walk. ext_back. ctx_forward. at_skip. run_test b; [|rest_here; finish_ok].
    match goal with Hs : steps f k ?k1 |- context [mk_xstate _ ?s1] =>
      apply (Hgo k1 (mk_xstate (exitlabel st) s1)) end;
      [simpl; eapply ap_core; eassumption|reflexivity|eassumption|agree_back|eassumption].
  - unbind. rewrite unwind_none in * by apply Hok. simplify_eq.
    walk. ext_back. ctx_forward. at_skip. run_goto.
    apply (Hgo (goto f target k) st); [apply Hat|done|eassumption|eassumption|eassumption].
Qed.

Lemma sim_exit ls (s : UPLpgSQL_stmt_exit) loop :
  find_loop ls (exit_label s) = Some loop ->
  (forall e, exit_cond s = Some e -> covers_cond F e = true) ->
  sim f F ls (upl_emit_loop_exit callbacks (exit_label s) (is_exit s) (exit_cond s)) (exec_stmt_exit s).
Proof.
  intros Hf Hcov c u c' P k st Hrun HI Hok Hext Hpre Hat Hst. unfold upl_emit_loop_exit, upl_find_loop in Hrun.
  unbind. rewrite (find_loop_prefix _ _ _ _ Hpre Hf) in Hrun.
  destruct (negb (is_exit s) && negb (li_is_loop loop)); [discriminate|].
  assert (Hin : loop_info_ok (nb c) loop).
  { pose proof (eo_loops _ _ (inv_env_ok _ _ HI)) as Hl. rewrite list.Forall_forall in Hl. apply Hl.
    apply (find_loop_in _ (exit_label s)). by apply find_loop_prefix with ls. }
  destruct (if is_exit s then Some (li_exit_bb loop) else li_continue_bb loop) as [target|] eqn:Htg; [|discriminate].
  eapply sim_jump; try eassumption. destruct Hin as [Hx Hc]. destruct (is_exit s); simplify_eq; [done|].
  by rewrite Htg in Hc.
Qed.
(** ** RETURN *)

Lemma sim_return ls h (s : UPLpgSQL_stmt_return) :
  sim f F ls (compile_return (STMT_RETURN h s)) (lift (exec_stmt_return s) ;~ xret RC_RETURN).
Proof.
  intros c u c' P k st Hrun HI Hok Hext Hpre Hat Hst. unfold compile_return, upl_emit_return in Hrun.
  unbind. rewrite (co_arrays _ Hok) in *. simpl in *. unfold ret in *. simplify_eq.
  match goal with Hc : upl_emit_rt_call _ _ _ = _ |- _ => hide Hc; rename Hc into Hcall end.
  destruct (build_value_reg _ _ _ _ Hcall) as (-> & _ & _ & Ec).
  pose proof (emits_build_call (RT RT_EXEC_RETURN) [estate_ref; OConst (VStmt (STMT_RETURN h s))] eq_refl
                _ _ _ _ Hcall HI) as ((I1 & _ & N1) & _).
  pose proof (grows_rt_call _ _ _ _ _ Hcall).
  pose proof (eo_return _ _ (inv_env_ok _ _ I1)).
  walk. ext_back. ctx_forward.
  pose proof (run_call f F VInt (RT RT_EXEC_RETURN) _ [VEstate; VStmt (STMT_RETURN h s)]
     (uplpgsql_rt_exec_return s) _ _ _ k (core st) Hcall Hok ltac:(eassumption) ltac:(done)
     (keeps_bind F _ _ (keeps_return F s) (fun _ => keeps_ret F _)) ltac:(done) Hat Hst) as Hr.
  apply post_lift. unfold uplpgsql_rt_exec_return, xbind in Hr.
  destruct (exec_stmt_return s (core st)) as [[] s1|e s1| |]; [|done..].
  destruct Hr as (k1 & Hs1 & Hat1 & Hag1 & Hv1 & Hst1).
  match goal with Hx : ran (build (IStore _ _)) _ _ _ |- _ =>
    destruct (run_store f _ _ _ _ _ _ _ _ Hx ltac:(eassumption) Hat1 Hv1) as [Hs2 Hat2] end.
  match goal with Hx : ran (build (IBr _)) _ _ _ |- _ =>
    pose proof (run_br f _ _ _ _ _ _ Hx ltac:(eassumption) Hat2) as Hs3 end.
  eexists. split; [eapply steps_trans; [exact Hs1|eapply steps_trans; [exact Hs2|exact Hs3]]|].
  rewrite Ec. simpl. split; [done|]. rewrite lookup_insert_eq. split; [done|]. split; [|apply Hst1].
  exists []. simpl. symmetry. apply Hat1.
Qed.

(** ** ASSIGN *)

(** The call of [exec_assign_expr]. *)
Definition assign_by_call (s : UPLpgSQL_stmt_assign) : emit unit :=
  (datum_ptr <-- build_value (fun r => ILoadDatumPtr r (assign_varno s));
   pl <-- ctx_plstate;
   sync_native_arrays_for_expr (Some (assign_expr s)) ;;;
   call_exec_nosync_void FN_exec_assign_expr [pl; datum_ptr; OConst (VExpr (assign_expr s))] ;;;
   refresh_dno (assign_varno s))%emit.

Lemma grows_assign_by_call s : grows (assign_by_call s).
Proof. unfold assign_by_call. grows_auto. Qed.

Lemma sim_assign_by_call ls (s : UPLpgSQL_stmt_assign) : sim f F ls (assign_by_call s) (exec_stmt_assign s).
Proof.
  intros c u c' P k st Hrun HI Hok Hext Hpre Hat Hst. unfold assign_by_call in Hrun.
  unfold exec_stmt_assign. apply post_lift.
  unfold ctx_plstate, call_exec_nosync_void in Hrun. unbind.
  match goal with Hx : build_value _ _ = Success (?o, ?d) |- _ =>
    hide Hx; rename Hx into Hptr; destruct (build_value_reg _ _ _ _ Hptr) as (-> & _ & _ & Ed);
    pose proof (grows_build_value _ _ _ _ Hptr) as Hg;
    assert (Hok1 : ctx_ok d) by (by eapply ctx_ok_le) end.
  rewrite sync_for_expr_nil in * by apply Hok1. simplify_eq.
  match goal with Hx : build_call_void _ _ _ = Success (_, ?d) |- _ =>
    hide Hx; rename Hx into Hcall;
    assert (Hok2 : ctx_ok d) by (eapply ctx_ok_le; [by eapply grows_build| |exact Hok1]; by injection Hcall as _ <-) end.
  rewrite refresh_nil in Hrun by apply Hok2. simplify_eq.
  pose proof (grows_build _ _ _ _ Hcall). ext_back.
  destruct (run_datum_ptr f _ _ _ _ _ _ Hptr Hok ltac:(eassumption) Hat) as (k1 & Hs1 & Hat1 & Hag1 & Hv1).
  pose proof (run_call_void f F (DIRECT FN_exec_assign_expr) _ [VPlstate; VDatum (assign_varno s); VExpr (assign_expr s)]
    (exec_assign_expr (assign_varno s) (assign_expr s)) _ _ _ k1 (core st) Hcall Hok1 Hext) as Hr.
  specialize (Hr ltac:(intros Hp; unfold arg_values; simpl in *; by rewrite Hp, Hv1)
    ltac:(apply keeps_assign_expr) ltac:(intros s'; by exists (fun _ => None)) Hat1 Hst).
  destruct (exec_assign_expr (assign_varno s) (assign_expr s) (core st)) as [[] s1|e s1| |];
    [|by eapply raises_steps|done|done].
  destruct Hr as (k2 & Hs2 & Hat2 & Hag2 & Hst2). exists k2. split; [by eapply steps_trans|].
  split; [apply Hat2|]. split; [apply Hat2|]. split; [by eapply agree_trans|done].
Qed.

Lemma sim_assign ls (s : UPLpgSQL_stmt_assign) :
  covers_assign F s = true -> sim f F ls (compile_assign s) (exec_stmt_assign s).
Proof.
  intros Hcov c u c' P k st Hrun HI Hok Hext Hpre Hat Hst. unfold compile_assign in Hrun.
  apply bind_Success in Hrun as (r & c1 & R1 & R2).
  destruct (try_assign_emits s _ _ _ _ R1 HI) as ((I1 & E1 & _) & _).
  pose proof (try_assign_grows s _ _ _ R1) as L1.
  assert (Hext1 : ext c1 f).
  { destruct r; [by injection R2 as _ <-|]. eapply ext_le; [by eapply (grows_assign_by_call s)|done]. }
  pose proof (try_assign_sim f F s c r c1 P k (core st) Hcov R1 HI Hok Hext1 Hat Hst) as Ht. destruct r.
  - injection R2 as _ <-. unfold exec_stmt_assign. apply post_lift.
    destruct (exec_assign_expr (assign_varno s) (assign_expr s) (core st)) as [[] s1|e s1| |]; [|done..].
    destruct Ht as (k1 & Hs & Hat1 & Hag & Hst1). exists k1. split; [done|]. split; [apply Hat1|].
    split; [apply Hat1|done].
  - destruct Ht as (k1 & Hs1 & Hat1 & Ha1).
    eapply (post_steps f F ls c c1); [exact Hs1|exact Ha1|exact L1|by rewrite E1..|].
    eapply (sim_assign_by_call ls s); [exact R2|exact I1|by eapply ctx_ok_le|exact Hext|by rewrite E1|exact Hat1|exact Hst].
Qed.

(** ** Statements that are one call *)

Lemma sim_by_call ls stmt g :
  simple_stmt_fn stmt = Some g -> opens_unwatched F stmt = true ->
  sim f F ls (compile_by_call g stmt) (lift (exec_simple_stmt stmt) ;~ xret RC_OK).
Proof.
  intros Hg Hop c u c' P k st Hrun HI Hok Hext Hpre Hat Hst.
  unfold compile_by_call, ctx_plstate, call_exec in Hrun. unbind.
  rewrite sync_nil in * by apply Hok. simplify_eq.
  match goal with Hx : build_call _ _ _ = Success _ |- _ => hide Hx; rename Hx into Hcall end.
  apply post_lift.
  pose proof (run_call f F (fun _ : unit => VInt UPLPGSQL_RC_OK) (DIRECT g) _ [VPlstate; VStmt stmt]
    (exec_simple_stmt stmt) _ _ _ k (core st) Hcall Hok Hext) as Hr.
  specialize (Hr ltac:(intros Hp; unfold arg_values; simpl in *; by rewrite Hp) ltac:(by apply keeps_simple_stmt)
    ltac:(intros s'; simpl; unfold call_direct; destruct g; try (by rewrite decide_True); by destruct stmt) Hat Hst).
  destruct (exec_simple_stmt stmt (core st)) as [[] s1|e s1| |]; [|done..].
  destruct Hr as (k2 & Hs2 & Hat2 & Hag2 & _ & Hst2). exists k2. split; [done|].
  split; [apply Hat2|]. split; [apply Hat2|done].
Qed.

Lemma sim_by_call_void ls stmt g :
  simple_stmt_fn stmt = Some g -> opens_unwatched F stmt = true ->
  sim f F ls (compile_by_call_void g stmt) (lift (exec_simple_stmt stmt) ;~ xret RC_OK).
Proof.
  intros Hg Hop c u c' P k st Hrun HI Hok Hext Hpre Hat Hst.
  unfold compile_by_call_void, ctx_plstate, call_exec_void, call_exec_nosync_void in Hrun. unbind.
  rewrite sync_nil in * by apply Hok. simplify_eq. hide Hrun.
  apply post_lift.
  pose proof (run_call_void f F (DIRECT g) _ [VPlstate; VStmt stmt]
    (exec_simple_stmt stmt) _ _ _ k (core st) Hrun Hok Hext) as Hr.
  specialize (Hr ltac:(intros Hp; unfold arg_values; simpl in *; by rewrite Hp) ltac:(by apply keeps_simple_stmt)
    ltac:(intros s'; exists (fun _ => Some (VInt UPLPGSQL_RC_OK)); simpl; unfold call_direct; destruct g; try (by rewrite decide_True); by destruct stmt) Hat Hst).
  destruct (exec_simple_stmt stmt (core st)) as [[] s1|e s1| |]; [|done..].
  destruct Hr as (k2 & Hs2 & Hat2 & Hag2 & Hst2). exists k2. split; [done|].
  split; [apply Hat2|]. split; [apply Hat2|done].
Qed.
(** ** Blocks *)

Lemma run_init_vars l : forall c u c1 k s,
  ran (emit_init_vars l) c u c1 -> ctx_ok c -> ext c1 f -> at_point f c k s -> steady F s ->
  match init_vars l s with
  | Ok _ s' => exists k', steps f k k' /\ at_point f c1 k' s' /\ agree c k k' /\ steady F s'
  | Err e _ => raises f k e
  | Stuck | OutOfFuel => True
  end.
Proof.
  induction l as [|n l IH]; intros c u c1 k s Hrun Hok Hext Hat Hst; unfold ran, emit_init_vars in Hrun;
    simpl in Hrun; unbind.
  - exists k. split; [apply rtc_refl|]. split; [done|]. split; [apply agree_refl|done].
  - match goal with Hx : build_call_void _ _ _ = Success (_, ?d) |- _ =>
      hide Hx; rename Hx into Hcall; pose proof (grows_build _ _ _ _ Hcall) as Hg;
      assert (Hok2 : ctx_ok d) by (eapply ctx_ok_le; [exact Hg| |exact Hok]; by injection Hcall as _ <-) end.
    rewrite refresh_nil in * by apply Hok2. simplify_eq.
    match type of Hrun with for_each _ _ ?d = _ =>
      pose proof (grows_init_vars l d _ _ Hrun : le_ctx d c1) as Hg2; fold (emit_init_vars l) in Hrun end.
    ext_back.
    pose proof (run_call_void f F (RT RT_INIT_VAR) _ [VEstate; VInt (Z.of_nat n)] (init_var n) _ _ _ k s
      Hcall Hok ltac:(eassumption) ltac:(done) ltac:(apply keeps_init_var)
      ltac:(intros s'; exists (fun _ => None); simpl; unfold uplpgsql_rt_init_var; by rewrite Nat2Z.id) Hat Hst) as Hr.
    simpl. unfold xbind. destruct (init_var n s) as [[] s1|e s1| |]; [|done..].
    destruct Hr as (k1 & Hs1 & Hat1 & Hag1 & Hst1).
    specialize (IH _ _ _ k1 s1 Hrun Hok2 Hext Hat1 Hst1).
    destruct (init_vars l s1) as [[] s2|e s2| |]; [|by eapply raises_steps|done|done].
    destruct IH as (k2 & Hs2 & Hat2 & Hag2 & Hst2). exists k2. split; [by eapply steps_trans|].
    split; [done|]. split; [by eapply agree_trans|done].
Qed.

Lemma with_sqlstate_none (s : execstate world) : sqlstate_varno s = None -> with_sqlstate_varno None s = s.
Proof. destruct s. simpl. by intros ->. Qed.

(** Leaving a block: the SQLSTATE scope is restored, and an EXIT that names the
    block ends here. *)
Definition leave_block (label : option string) (rc : exec_rc) : exec (xstate world) exec_rc :=
  lift (xmodify (with_sqlstate_varno None)) ;~ block_rc label rc.

Lemma post_sqlstate ls c cont k o :
  post f F ls c cont k o ->
  match o with Ok _ s' => sqlstate_varno (core s') = None | _ => True end.
Proof.
  destruct o as [rc s'|e s'| |]; [|done..]. intros (k' & _ & _ & Hd). case_decide; [apply Hd|].
  apply Hd.
Qed.

Lemma leave_block_eq label (m : exec (xstate world) exec_rc) ls c cont k s :
  post f F ls c cont k (m s) -> (rc <~ m; leave_block label rc) s = (rc <~ m; block_rc label rc) s.
Proof.
  intros Hp%post_sqlstate. unfold xbind. destruct (m s) as [rc s'|e s'| |]; [|done..].
  unfold leave_block, xbind, lift, xmodify. rewrite with_sqlstate_none by done. by destruct s'.
Qed.

Lemma post_unlabelled ls c cont k m s :
  post f F ls c cont k (m s) -> post f F ls c cont k ((rc <~ m; block_rc None rc) s).
Proof. unfold block_rc, xbind, xget. destruct (m s) as [rc s'|e s'| |]; [|done..]. by destruct rc. Qed.

Lemma post_labelled ls l xb d c cont k m s :
  cont = block f xb ->
  post f F (mk_loop_info (Some l) false None xb d :: ls) c cont k (m s) ->
  post f F ls c cont k ((rc <~ m; block_rc (Some l) rc) s).
Proof.
  intros ->. unfold block_rc, xbind, xget. destruct (m s) as [rc s'|e s'| |]; [|done..].
  intros (k' & Hk & Hg & Hd). destruct rc; simpl in *; [by exists k'| |by exists k'|].
  - destruct Hg as (li & Hf & Ht). destruct (exitlabel s') as [l'|] eqn:El; cbn [label_eqb].
    + rewrite find_loop_label in Hf. destruct (String.eqb l l').
      * injection Hf as <-. by exists k'.
      * exists k'. split; [done|]. split; [|done]. exists li. by rewrite ?El.
    + exists k'. split; [done|]. split; [|done]. exists li. by rewrite ?El.
  - destruct Hg as (li & b & Hf & Hb & Ht). exists k'. split; [done|]. split; [|done].
    exists li, b. split; [|done]. destruct (exitlabel s') as [l'|]; [|done].
    rewrite find_loop_label in Hf. destruct (String.eqb l l'); [|done].
    by injection Hf as <-.
Qed.
Lemma exec_block_eq b s :
  exceptions b = None -> blk_sqlstate_varno b = None -> sqlstate_varno (core s) = None ->
  exec_stmt_block run b s =
  (lift (init_vars (initvarnos b)) ;~ rc <~ run (blk_body b); leave_block (blk_label b) rc) s.
Proof.
  intros He Hv Hs. unfold exec_stmt_block, block_body, activate_sqlstate, leave_block. rewrite He, Hv.
  unfold xbind, lift, xget. rewrite Hs. by destruct (init_vars (initvarnos b) (core s)).
Qed.

(** What the body of a block may assume: its label is in scope. *)
Definition body_sim ls (b : UPLpgSQL_stmt_block UPLpgSQL_stmt) : Prop :=
  match blk_label b with
  | None => sim f F ls (cm (blk_body b)) (run (blk_body b))
  | Some l => forall li, li_label li = Some l -> li_is_loop li = false ->
                sim f F (li :: ls) (cm (blk_body b)) (run (blk_body b))
  end.

Lemma sim_block ls b handlers :
  exceptions b = None -> blk_sqlstate_varno b = None -> body_sim ls b ->
  sim f F ls (compile_block b (cm (blk_body b)) handlers) (exec_stmt_block run b).
Proof.
  intros Hexc Hvar Hbody c u c' P k st Hrun HI Hok Hext Hpre Hat Hst.
  rewrite exec_block_eq by (done || apply Hst). unfold compile_block, upl_emit_block in Hrun.
  rewrite Hexc in Hrun. unbind.
  match goal with Hx : emit_init_vars _ c = Success (_, ?d) |- _ =>
    hide Hx; rename Hx into Hinit; destruct (emits_init_vars _ _ _ _ _ Hinit HI) as ((I0 & E0 & N0) & _);
    pose proof (grows_init_vars _ _ _ _ Hinit) as Hg0;
    assert (Hok0 : ctx_ok d) by (by eapply ctx_ok_le) end.
  assert (Hext0 : ext c0 f).
  { eapply ext_le; [|exact Hext]. destruct (blk_label b); revert Hrun;
      match goal with |- ?m c0 = _ -> _ => assert (Hgm : grows m) by
        grows_auto; apply Hgm end. }
  pose proof (run_init_vars _ _ _ _ k (core st) Hinit Hok Hext0 Hat Hst) as Hi.
  apply post_lift. destruct (init_vars (initvarnos b) (core st)) as [[] s1|e s1| |]; [|done..].
  destruct Hi as (k1 & Hs1 & Hat1 & Hag1 & Hst1). resume c0.
  set (st1 := mk_xstate (exitlabel st) s1).
  change (s1) with (core st1) in Hat1, Hst1. clearbody st1. clear Hinit HI Hat Hst Hs1 Hag1 Hok st s1 Hg0.
  unfold body_sim in Hbody. destruct (blk_label b) as [l|].
  - unbind.
    match goal with Hx : for_each _ [] _ = Success _ |- _ => injection Hx as <- <- end.
    walk.
    match goal with Hx : build_br_if_open ?t ?d = _, I : inv ?d _ |- _ =>
      rewrite (br_if_open_eq _ _ _ I) in Hx end.
    walk. ext_back. ctx_forward. rest_here. at_skip.
    set (li := mk_loop_info (Some l) false None v0 (cleanup_depth (env c1))).
    lazymatch goal with Hp : ran (upl_push_block_label _ _) c1 _ ?d, Hb : ran (cm _) ?d _ ?d2,
                    Hq : ran upl_pop_loop ?d2 _ ?d3, Hbr : ran (build (IBr _)) ?d3 _ _ |- _ =>
      assert (Hpost : post f F (li :: ls) c0 (block f v0) k1 (run (blk_body b) st1));
      [ eapply post_br; [exact Hbr|eassumption|];
        rewrite (rest_quiet d2 d3 f) by (apply (quiet_set_env _ _ _ _ Hq));
        resume_at d; eapply (Hbody li); [done|done|exact Hb|eassumption..| | |eassumption];
        destruct (quiet_set_env _ _ _ _ Hp) as [Hq1 He1];
        [rewrite He1; simpl; apply prefix_cons; same_loops c
        |apply (at_quiet f c1 d); [done|by rewrite He1|eassumption]]
      | ] end.
    erewrite leave_block_eq by exact Hpost. by eapply post_labelled.
  - unbind. match goal with Hx : for_each _ [] _ = Success _ |- _ => injection Hx as <- <- end.
    assert (Hpost : post f F ls c0 (rest f c') k1 (run (blk_body b) st1)).
    { eapply Hbody; [eassumption..|same_loops c|eassumption|eassumption]. }
    erewrite leave_block_eq by exact Hpost. by apply post_unlabelled.
Qed.
(** ** FOR over integers *)

(** A bound: the interpreter casts it to the loop variable's type, compiled code
    to [int4]. *)
Lemma fori_bound_rt t e what st :
  typoid t = INT4OID -> atttypmod t = (-1)%Z ->
  match fori_bound t e what st with
  | Ok z st' => uplpgsql_rt_eval_int e (core st) = Ok z (core st') /\ in_int32 z
                /\ exitlabel st' = exitlabel st
  | Err ed _ => exists ed' s', uplpgsql_rt_eval_int e (core st) = Err ed' s' /\ same_error ed ed'
  | Stuck | OutOfFuel => True
  end.
Proof.
  intros Ht Hm. unfold fori_bound, uplpgsql_rt_eval_int, exec_eval_integer, xbind, lift.
  destruct (exec_eval_expr e (core st)) as [tv s1|ed s1| |]; [|by eauto using same_error_refl|done|done].
  simpl. rewrite Ht, Hm.
  destruct (cast_tv tv INT4OID (-1) s1) as [[v n] s2|ed s2| |];
    [|by eauto using same_error_refl|done|done].
  simpl. destruct n; simpl.
  - do 2 eexists. split; [done|]. split; [done|]. right. left. simpl. split; [|done]. by exists what.
  - split; [done|]. split; [|done]. apply wrap32_range.
Qed.

Lemma keeps_rt_eval_int e : keeps F (uplpgsql_rt_eval_int e).
Proof.
  unfold uplpgsql_rt_eval_int. apply keeps_bind; [apply keeps_eval_integer|]. intros r.
  destruct r.2; [apply keeps_throw|apply keeps_ret].
Qed.

Lemma run_bound t what e c o c1 k st :
  typoid t = INT4OID -> atttypmod t = (-1)%Z ->
  ran (upl_eval_int callbacks e) c o c1 -> ctx_ok c -> ext c1 f -> at_point f c k (core st) ->
  steady F (core st) ->
  match fori_bound t e what st with
  | Ok z st' => in_int32 z /\ (covers_step e = true -> (0 < z)%Z)
                /\ exists k', steps f k k' /\ at_point f c1 k' (core st') /\ agree c k k'
                  /\ operand_value (regs k') o = Some (VInt z) /\ steady F (core st')
  | Err ed _ => raises f k ed
  | Stuck | OutOfFuel => True
  end.
Proof.
  intros Ht Hm Hr Hok He Hat Hst. pose proof (fori_bound_rt t e what st Ht Hm) as Hb.
  pose proof (run_call f F VInt (RT RT_EVAL_INT) _ [VEstate; VExpr e] (uplpgsql_rt_eval_int e)
    _ _ _ k (core st) Hr Hok He ltac:(done) (keeps_rt_eval_int e) ltac:(done) Hat Hst) as Hc.
  destruct (fori_bound t e what st) as [z st'|ed st'| |]; [| |done|done].
  - destruct Hb as (Hb & Hz & _). rewrite Hb in Hc. split; [done|].
    split; [intros Hcov; by eapply step_positive|]. destruct Hc as (k' & ? & ? & ? & ? & ?). exists k'. done.
  - destruct Hb as (ed' & s' & Hb & Hsame). rewrite Hb in Hc.
    destruct Hc as (k' & e' & s2 & Hk & Hs & He').
    exists k', e', s2. split; [done|]. split; [done|]. by eapply same_error_trans.
Qed.
(** An operand that was computed before [c]. *)
Definition below (c : UPL_compile_ctx) (o : operand) : Prop :=
  match o with OReg r => r < next_reg (bld c) | OConst _ => True end.

Lemma agree_operand c (k k' : mstate world) o :
  agree c k k' -> below c o -> operand_value (regs k') o = operand_value (regs k) o.
Proof. intros [Hr _]. destruct o as [r|v]; [|done]. apply Hr. Qed.

Lemma below_le c c' o : le_ctx c c' -> below c o -> below c' o.
Proof. intros [_ Hr _]. destruct o; simpl; [lia|done]. Qed.

Lemma below_value mk c o c1 : ran (build_value mk) c o c1 -> below c1 o.
Proof. intros Hb. destruct (build_value_reg _ _ _ _ Hb) as (-> & Hn & _ & _). simpl. lia. Qed.

(** A BY value that is known to be positive. *)
Definition step_covered (step : option UPLpgSQL_expr) : bool :=
  match step with Some e => covers_step e | None => true end.

(** The three bounds. *)
Lemma post_fori_bounds t lo up step ls cont c v c1 k st K :
  typoid t = INT4OID -> atttypmod t = (-1)%Z -> step_covered step = true ->
  ran (emit_fori_bounds callbacks lo up step) c v c1 -> ctx_ok c -> ext c1 f ->
  at_point f c k (core st) -> steady F (core st) ->
  (below c1 v.1.2 -> below c1 v.2 ->
   forall zlo zup zstep st' k',
     in_int32 zlo -> (0 < zstep <= PG_INT32_MAX)%Z ->
     at_point f c1 k' (core st') -> agree c k k' -> steady F (core st') ->
     operand_value (regs k') v.1.1 = Some (VInt zlo) ->
     operand_value (regs k') v.1.2 = Some (VInt zup) ->
     operand_value (regs k') v.2 = Some (VInt zstep) ->
     post f F ls c cont k' (K zlo zup zstep st')) ->
  post f F ls c cont k
    ((zlo <~ fori_bound t lo "lower bound"; zup <~ fori_bound t up "upper bound";
      zstep <~ fori_step_value t step; K zlo zup zstep) st).
Proof.
  intros Ht Hm Hcov Hr Hok Hext Hat Hst HK. unfold ran, emit_fori_bounds in Hr.
  apply bind_Success in Hr as (lower & d1 & R1 & Hr). apply bind_Success in Hr as (upper & d2 & R2 & Hr).
  apply bind_Success in Hr as (stp & d3 & R3 & Hr). injection Hr as <- <-. simpl in HK.
  destruct (build_value_reg _ _ _ _ R1) as (_ & _ & _ & E1).
  destruct (build_value_reg _ _ _ _ R2) as (_ & _ & _ & E2).
  pose proof (grows_eval_int _ _ _ _ R1) as G1. pose proof (grows_eval_int _ _ _ _ R2) as G2.
  assert (G3 : le_ctx d2 d3) by (destruct step; [by eapply grows_eval_int|by injection R3 as <- <-]).
  assert (Hok1 : ctx_ok d1) by (by eapply ctx_ok_le). assert (Hok2 : ctx_ok d2) by (by eapply ctx_ok_le).
  pose proof (below_value _ _ _ _ R1) as B1. pose proof (below_value _ _ _ _ R2) as B2.
  assert (B3 : below d3 stp) by (destruct step; [by eapply below_value|by injection R3 as <- <-]).
  specialize (HK (below_le _ _ _ G3 B2) B3). ext_back.
  pose proof (run_bound t "lower bound" lo c lower d1 k st Ht Hm R1 Hok ltac:(eassumption) Hat Hst) as Hb1.
  unfold xbind at 1. destruct (fori_bound t lo "lower bound" st) as [zlo st1|e st1| |]; [|done..].
  destruct Hb1 as (Hz1 & _ & k1 & Hs1 & Hat1 & Ha1 & Hv1 & Hst1).
  eapply post_again; [exact Hs1|exact Ha1|].
  pose proof (run_bound t "upper bound" up d1 upper d2 k1 st1 Ht Hm R2 Hok1 ltac:(eassumption) Hat1 Hst1) as Hb2.
  unfold xbind at 1. destruct (fori_bound t up "upper bound" st1) as [zup st2|e st2| |]; [|done..].
  destruct Hb2 as (Hz2 & _ & k2 & Hs2 & Hat2 & Ha2 & Hv2 & Hst2).
  eapply post_again; [exact Hs2|by eapply agree_le|].
  assert (Ha12 : agree c k k2) by (by eapply agree_trans).
  assert (Hv1' : operand_value (regs k2) lower = Some (VInt zlo)) by (by rewrite (agree_operand d1 k1 k2)).
  unfold fori_step_value. destruct step as [e|].
  - pose proof (run_bound t "BY value" e d2 stp d3 k2 st2 Ht Hm R3 Hok2 Hext Hat2 Hst2) as Hb3.
    unfold xbind. destruct (fori_bound t e "BY value" st2) as [z st3|ed st3| |]; [|done..].
    destruct Hb3 as (Hz3 & Hpos & k3 & Hs3 & Hat3 & Ha3 & Hv3 & Hst3).
    specialize (Hpos Hcov). destruct (Z.leb_spec z 0) as [Hle|Hgt]; [lia|].
    eapply post_again; [exact Hs3|exact (agree_le c d2 _ _ (transitivity G1 G2) Ha3)|].
    apply HK; try done.
    + destruct Hz3. lia.
    + exact (agree_trans c d2 _ _ _ Ha12 Ha3 (transitivity G1 G2)).
    + rewrite (agree_operand d2 k2 k3); [done|done|]. by eapply below_le.
    + by rewrite (agree_operand d2 k2 k3).
  - injection R3 as <- <-. by apply HK.
Qed.
(** The condition block: compare the counter with the upper bound. *)
Lemma run_fori_cond (reverse : bool) lp upper xb bb c v c1 k s zv zup :
  ran (emit_fori_cond reverse lp upper xb bb) c v c1 -> ctx_ok c -> ext c1 f -> at_point f c k s ->
  below c upper -> slots k !! lp = Some (VInt zv) -> operand_value (regs k) upper = Some (VInt zup) ->
  exists k0, steps f k (goto f (if (if reverse then zv <? zup else zv >? zup)%Z then xb else bb) k0)
    /\ mcore k0 = s /\ agree c k k0 /\ slots k0 = slots k
    /\ operand_value (regs k0) v = Some (VInt zv) /\ env c1 = env c /\ below c1 v.
Proof.
  intros Hr Hok Hext Hat Hup Hlp Hzup. unfold ran, emit_fori_cond in Hr. unbind. save_ran. ext_back.
  lazymatch goal with Ha : ran (build_value _) c _ ?d, Hb : ran (build_value _) ?d _ ?d1,
                  Hc : ran (build (ICondBr _ _ _)) ?d1 _ ?d2 |- _ =>
    destruct (build_value_reg _ _ _ _ Ha) as (_ & _ & _ & Ed);
    destruct (build_value_reg _ _ _ _ Hb) as (_ & _ & _ & Ed1);
    assert (Ed2 : env d2 = env d1) by (by injection Hc as _ <-);
    assert (Hokd : ctx_ok d) by (by eapply ctx_ok_le);
    pose proof (below_value _ _ _ _ Ha) as Bv;
    destruct (run_load f _ _ _ _ _ _ _ Ha Hok ltac:(eassumption) Hat Hlp) as (k1 & Hs1 & Hat1 & Ha1 & Hsl1 & Hv1);
    destruct (run_binop f _ (fun x y => z_of_bool (icmp (if reverse then SLT else SGT) x y)) _ _ zv zup
                _ _ _ _ _ Hb Hokd ltac:(eassumption) Hat1 Hv1
                ltac:(by rewrite (agree_operand c k k1)) ltac:(intros m more r Hm; unfold step; by rewrite Hm))
      as (k2 & Hs2 & Hat2 & Ha2 & Hsl2 & Hv2);
    pose proof (run_condbr f _ _ _ _ _ _ _ _ _ Hc ltac:(eassumption) Hat2 Hv2) as Hs3;
    exists k2; split; [eapply steps_trans; [exact Hs1|eapply steps_trans; [exact Hs2|]]|]
  end.
  - by destruct reverse.
  - split; [apply Hat2|]. split; [by eapply agree_trans|]. split; [congruence|].
    split; [by erewrite agree_operand|]. split; [congruence|]. eapply below_le; [|exact Bv]. le_chain.
Qed.

(** The overflow test of the generated code against the interpreter's. *)
Lemma fori_next_wrap (reverse : bool) zv zstep :
  in_int32 zv -> (0 < zstep <= PG_INT32_MAX)%Z ->
  let next := wrap32 (if reverse then zv - zstep else zv + zstep)%Z in
  fori_next reverse zv zstep = if icmp (if reverse then SGT else SLT) next zv then None else Some next.
Proof.
  intros Hv Hs. unfold fori_next. destruct reverse; simpl.
  - pose proof (wrap32_sub_gt zv zstep Hv ltac:(lia)) as Hw.
    destruct (Z.ltb_spec zv (PG_INT32_MIN + zstep)) as [Hlt|Hge].
    + by replace (wrap32 (zv - zstep) >? zv)%Z with true by (symmetry; apply Z.gtb_lt; lia).
    + replace (wrap32 (zv - zstep) >? zv)%Z with false by (symmetry; rewrite Z.gtb_ltb; apply Z.ltb_ge; lia).
      rewrite wrap32_id; [done|]. unfold_int32. lia.
  - pose proof (wrap32_add_lt zv zstep Hv ltac:(lia)) as Hw.
    destruct (Z.gtb_spec zv (PG_INT32_MAX - zstep)) as [Hlt|Hge].
    + by replace (wrap32 (zv + zstep) <? zv)%Z with true by (symmetry; apply Z.ltb_lt; lia).
    + replace (wrap32 (zv + zstep) <? zv)%Z with false by (symmetry; apply Z.ltb_ge; lia).
      rewrite wrap32_id; [done|]. unfold_int32. lia.
Qed.

(** The step block and the store block. *)
Lemma run_fori_step (reverse : bool) lp stp xb cb c u c1 P k s zv zstep :
  ran (emit_fori_step reverse lp stp xb cb) c u c1 -> inv c P -> xb < nb c -> cb < nb c ->
  ctx_ok c -> ext c1 f -> at_point f c k s -> below c stp ->
  slots k !! lp = Some (VInt zv) -> operand_value (regs k) stp = Some (VInt zstep) ->
  in_int32 zv -> (0 < zstep <= PG_INT32_MAX)%Z ->
  exists k0, (forall r, r < next_reg (bld c) -> regs k0 !! r = regs k !! r) /\ mcore k0 = s /\
  match fori_next reverse zv zstep with
  | None => steps f k (goto f xb k0) /\ slots k0 = slots k
  | Some next => steps f k (goto f cb k0) /\ slots k0 = <[lp := VInt next]> (slots k)
  end.
Proof.
  intros Hr HI Hx Hc Hok Hext Hat Hb Hlp Hzs Hzv Hz. unfold ran, emit_fori_step in Hr. unbind.
  match goal with Hx : build_value (fun r => if reverse then ISub r ?v ?w else _) _ = _ |- _ =>
    assert (Hv : emits is_reg (build_value (fun r => if reverse then ISub r v w else IAdd r v w)))
      by (destruct reverse; emits_auto) end.
  walk. ext_back. ctx_forward.
  match goal with Hx : ran (build_value (fun r => ILoad r _)) c _ _ |- _ =>
    pose proof (below_value _ _ _ _ Hx) as Bv;
    destruct (run_load f _ _ _ _ _ _ _ Hx Hok ltac:(eassumption) Hat Hlp) as (k1 & Hs1 & Hat1 & Ha1 & Hsl1 & Hv1) end.
  at_skip.
  match goal with Hx : ran (build_value _) c2 v1 _, Hat1' : at_point f c2 k1 _ |- _ =>
    pose proof (below_value _ _ _ _ Hx) as Bv1;
    destruct (run_binop f _ (fun x y => wrap32 (if reverse then x - y else x + y)%Z) v stp zv zstep
      _ _ _ _ _ Hx ltac:(eassumption) ltac:(eassumption) Hat1' Hv1 ltac:(by rewrite (agree_operand c k k1))
      ltac:(intros m more r Hm; unfold step; rewrite Hm; by destruct reverse)) as (k2 & Hs2 & Hat2 & Ha2 & Hsl2 & Hv2) end.
  assert (Hv1' : operand_value (regs k2) v = Some (VInt zv)).
  { rewrite (agree_operand c2 k1 k2); [done|done|]. eapply below_le; [|exact Bv]. le_chain. }
  match goal with Hx : ran (build_value _) c3 v2 _ |- _ =>
    destruct (run_binop f _ (fun x y => z_of_bool (icmp (if reverse then SGT else SLT) x y)) v1 v _ _
      _ _ _ _ _ Hx ltac:(eassumption) ltac:(eassumption) Hat2 Hv2 Hv1'
      ltac:(intros m more r Hm; unfold step; by rewrite Hm)) as (k3 & Hs3 & Hat3 & Ha3 & Hsl3 & Hv3) end.
  match goal with Hx : ran (build (ICondBr _ _ _)) c4 _ _ |- _ =>
    pose proof (run_condbr f _ _ _ _ _ _ _ _ _ Hx ltac:(eassumption) Hat3 Hv3) as Hs4 end.
  assert (Hs : steps f k k3) by (eapply steps_trans; [exact Hs1|by eapply steps_trans]).
  assert (Ha : agree c k k3).
  { eapply (agree_trans c c3); [eapply (agree_trans c c2); [exact Ha1|exact Ha2|le_chain]|exact Ha3|le_chain]. }
  rewrite fori_next_wrap by done.
  destruct (icmp _ (wrap32 _) zv).
  - exists k3. split; [apply Ha|]. split; [apply Hat3|]. split; [by eapply steps_trans|congruence].
  - assert (Hat6 : at_point f c6 (goto f v0 k3) s) by enter.
    match goal with Hx : ran (build (IStore _ _)) c6 _ _, Hy : ran (build (IBr _)) c7 _ _ |- _ =>
      destruct (run_store f _ _ _ _ _ _ _ _ Hx ltac:(eassumption) Hat6
        ltac:(simpl; by rewrite (agree_operand c3 k2 k3))) as [Hs6 Hat7];
      pose proof (run_br f _ _ _ _ _ _ Hy ltac:(eassumption) Hat7) as Hs7 end.
    exists (stored f c7 lp (VInt (wrap32 (if reverse then zv - zstep else zv + zstep))) (goto f v0 k3)).
    split; [apply Ha|]. split; [apply Hat3|]. split; [|simpl; congruence].
    eapply steps_trans; [exact Hs|]. eapply steps_trans; [exact Hs4|]. by eapply steps_trans.
Qed.
(** The code of a FOR loop, from its condition block on.  [c0] is the point where
    the statement starts. *)
Record fori_code (s : UPLpgSQL_stmt_fori UPLpgSQL_stmt) (lp fp : nat) (upper stp cur : operand)
    (xb cb bb sb : nat) (c0 c9 c10 c11 c12 c13 c14 c15 c16 c17 c18 c19 c20 : UPL_compile_ctx)
    (P15 P19 : gset nat) : Prop := {
  fc_cond_pos : ran (position cb) c9 tt c10;
  fc_cond : ran (emit_fori_cond (fori_reverse s) lp upper xb bb) c10 cur c11;
  fc_body_pos : ran (position bb) c11 tt c12;
  fc_found : ran (build (IStore const_true fp)) c12 tt c13;
  fc_assign : ran (upl_emit_rt_call_void RT_ASSIGN_INT
                     [estate_ref; const_int32 (Z.of_nat (fori_var s)); cur]) c13 tt c14;
  fc_push : ran (upl_push_loop (fori_label s) sb xb) c14 tt c15;
  fc_body : ran (cm (fori_body s)) c15 tt c16;
  fc_pop : ran upl_pop_loop c16 tt c17;
  fc_back : ran (build (IBr sb)) c17 tt c18;
  fc_step_pos : ran (position sb) c18 tt c19;
  fc_step : ran (emit_fori_step (fori_reverse s) lp stp xb cb) c19 tt c20;
  fc_empty : codeb c9 cb = [] /\ codeb c11 bb = [] /\ codeb c18 sb = [];
  fc_ext : ext c11 f /\ ext c13 f /\ ext c14 f /\ ext c18 f /\ ext c20 f;
  fc_ok : ctx_ok c10 /\ ctx_ok c13 /\ ctx_ok c14 /\ ctx_ok c19;
  fc_inv : inv c15 P15 /\ inv c19 P19 /\ xb < nb c19 /\ cb < nb c19;
  fc_env : env c10 = env c0 /\ env c11 = env c0 /\ env c13 = env c0 /\ env c14 = env c0
           /\ env c18 = env c0;
  fc_le : le_ctx c0 c10 /\ le_ctx c10 c13 /\ le_ctx c10 c14 /\ le_ctx c13 c14 /\ le_ctx c10 c19
          /\ le_ctx c14 c19 /\ le_ctx c11 c13;
  fc_slots : next_slot (bld c0) <= lp /\ next_slot (bld c0) <= fp /\ lp < fp
             /\ fp < next_slot (bld c10);
  fc_operands : below c10 upper /\ below c10 stp
}.

(** The machine at the condition block. *)
Record at_cond (e : cenv) (lp fp : nat) (upper stp : operand) (cb : nat) (k : mstate world)
    (st : xstate world) (zv zup zstep : Z) (found : bool) : Prop := {
  ac_todo : todo k = block f cb;
  ac_plstate : regs k !! plstate e = Some VPlstate;
  ac_core : mcore k = core st;
  ac_steady : steady F (core st);
  ac_value : slots k !! lp = Some (VInt zv);
  ac_found : slots k !! fp = Some (VInt (z_of_bool found));
  ac_upper : operand_value (regs k) upper = Some (VInt zup);
  ac_step : operand_value (regs k) stp = Some (VInt zstep)
}.

(** Where the loop ends. *)
Definition fori_result (c0 : UPL_compile_ctx) (fp xb : nat) (k : mstate world)
    (o : outcome (xstate world) (exec_rc * bool)) : Prop :=
  match o with
  | Ok (RC_OK, fnd) st' =>
      exists k', steps f k k' /\ todo k' = block f xb /\ mcore k' = core st' /\ agree c0 k k'
                 /\ steady F (core st') /\ slots k' !! fp = Some (VInt (z_of_bool fnd))
  | Ok (RC_RETURN, _) st' =>
      exists k', steps f k k' /\ todo k' = block f (return_bb (env c0))
                 /\ slots k' !! rc_ptr (env c0) = Some (VInt UPLPGSQL_RC_RETURN)
                 /\ after_found (mcore k') (core st') /\ sqlstate_varno (core st') = None
  | Ok _ _ => False
  | Err e _ => raises f k e
  | Stuck | OutOfFuel => True
  end.

Lemma fori_result_steps c0 fp xb k k1 o :
  steps f k k1 -> agree c0 k k1 -> fori_result c0 fp xb k1 o -> fori_result c0 fp xb k o.
Proof.
  intros Hs Ha. destruct o as [[[| | |] fnd] st'|e st'| |]; simpl; try done.
  - intros (k' & Hk & Ht & Hm & Hag & Hr). exists k'. split; [by eapply steps_trans|].
    split; [done|]. split; [done|]. split; [by eapply agree_trans|done].
  - intros (k' & Hk & Hr). exists k'. split; [by eapply steps_trans|done].
  - by apply raises_steps.
Qed.

Lemma fori_next_range reverse zv zstep next :
  in_int32 zv -> (0 < zstep <= PG_INT32_MAX)%Z -> fori_next reverse zv zstep = Some next -> in_int32 next.
Proof.
  intros Hv Hz. rewrite fori_next_wrap by done. destruct (icmp _ _ _); [done|].
  intros [= <-]. apply wrap32_range.
Qed.

(** The body of one iteration: FOUND's slot is set, the counter is assigned, the
    statements run; the machine is back at the step block, or where the loop is
    left to. *)
Lemma fori_body_runs s lp fp upper stp cur xb cb bb sb c0 c9 c10 c11 c12 c13 c14 c15 c16 c17 c18 c19 c20
    P15 P19 k st zv :
  fori_code s lp fp upper stp cur xb cb bb sb c0 c9 c10 c11 c12 c13 c14 c15 c16 c17 c18 c19 c20 P15 P19 ->
  (forall li, li_label li = fori_label s -> li_is_loop li = true ->
     sim f F [li] (cm (fori_body s)) (run (fori_body s))) ->
  at_point f c12 k (core st) -> steady F (core st) -> operand_value (regs k) cur = Some (VInt zv) ->
  let k1 := stored f c13 fp (VInt 1) k in
  match assign_simple_var (fori_var s) (Int32GetDatum zv) false false (core st) with
  | Ok _ s' => exists k2, steps f k k2 /\ agree c13 k1 k2
                /\ iteration_to [] c14 xb sb k2 (iteration (fori_label s) (fori_body s) (mk_xstate (exitlabel st) s'))
  | Err e _ => raises f k e
  | Stuck | OutOfFuel => True
  end.
Proof.
  intros C Hb Hat Hst Hcur k1. destruct C. destruct fc_ext0 as (? & ? & ? & ? & ?).
  destruct fc_ok0 as (? & ? & ? & ?). destruct fc_inv0 as (? & ? & _).
  destruct (run_store f _ _ _ _ _ _ _ _ fc_found0 ltac:(eassumption) Hat eq_refl) as [Hs1 Hat1].
  fold k1 in Hs1, Hat1.
  pose proof (run_call_void f F (RT RT_ASSIGN_INT) _ [VEstate; VInt (Z.of_nat (fori_var s)); VInt zv]
    (uplpgsql_rt_assign_int (fori_var s) zv) _ _ _ k1 (core st) fc_assign0 ltac:(eassumption) ltac:(eassumption)
    ltac:(intros _; unfold arg_values; simpl; by rewrite Hcur) ltac:(apply keeps_assign_simple_var)
    ltac:(intros s'; exists (fun _ => None); simpl; by rewrite Nat2Z.id) Hat1 Hst) as Hr.
  unfold uplpgsql_rt_assign_int in Hr.
  destruct (assign_simple_var _ _ _ _ (core st)) as [[] s1|e s1| |]; [|by eapply raises_steps|done|done].
  destruct Hr as (k2 & Hs2 & Hat2 & Hag2 & Hst2). exists k2. split; [by eapply steps_trans|].
  split; [done|]. eapply (sim_loop_body [] (fori_label s) sb xb); try eassumption. apply prefix_nil.
Qed.

(** Operands are read from registers. *)
Lemma operand_regs c (r r' : gmap nat value) o :
  (forall n, n < next_reg (bld c) -> r' !! n = r !! n) -> below c o -> operand_value r' o = operand_value r o.
Proof. intros Hr. destruct o as [n|v]; [|done]. apply Hr. Qed.

(** What an iteration leaves alone. *)
Lemma fori_frame c0 c10 c13 c14 lp fp b x (k k0 k2 k3 : mstate world) :
  le_ctx c0 c10 -> le_ctx c10 c13 -> le_ctx c13 c14 -> next_slot (bld c0) <= fp -> lp < fp ->
  fp < next_slot (bld c10) -> agree c10 k k0 -> slots k0 = slots k ->
  agree c13 (stored f c13 fp x (goto f b k0)) k2 -> agree c14 k2 k3 ->
  agree c0 k k3 /\ slots k3 !! fp = Some x /\ slots k3 !! lp = slots k !! lp
  /\ (forall r, r < next_reg (bld c10) -> regs k3 !! r = regs k !! r).
Proof.
  intros [_ L1 L2] [_ L3 L4] [_ L5 L6] Hf Hl Hs [A1 A2] Hsl [A3 A4] [A5 A6]. simpl in *.
  assert (Hregs : forall r, r < next_reg (bld c10) -> regs k3 !! r = regs k !! r).
  { intros r Hr. rewrite A5, A3, A1 by lia. done. }
  split; [split; [intros r Hr; apply Hregs; lia|]|].
  - intros m Hm. rewrite A6, A4, lookup_insert_ne by lia. by rewrite Hsl.
  - split; [|split; [|done]].
    + rewrite A6, A4 by lia. by rewrite lookup_insert_eq.
    + rewrite A6, A4, lookup_insert_ne by lia. by rewrite Hsl.
Qed.

Lemma fori_loop s lp fp upper stp cur xb cb bb sb c0 c9 c10 c11 c12 c13 c14 c15 c16 c17 c18 c19 c20
    P15 P19 zup zstep n :
  fori_code s lp fp upper stp cur xb cb bb sb c0 c9 c10 c11 c12 c13 c14 c15 c16 c17 c18 c19 c20 P15 P19 ->
  (forall li, li_label li = fori_label s -> li_is_loop li = true ->
     sim f F [li] (cm (fori_body s)) (run (fori_body s))) ->
  (0 < zstep <= PG_INT32_MAX)%Z ->
  forall k st zv found,
  at_cond (env c0) lp fp upper stp cb k st zv zup zstep found -> in_int32 zv ->
  fori_result c0 fp xb k (loop_fori run n s zup zstep zv found st).
Proof.
  intros C Hb Hz. induction n as [|n IH]; intros k st zv found A Hv; [done|]. simpl.
  pose proof C as C'. destruct C'. destruct fc_ext0 as (? & ? & ? & ? & ?).
  destruct fc_ok0 as (Ok10 & ? & ? & ?). destruct fc_inv0 as (? & ? & ? & ?).
  destruct fc_env0 as (E10 & E11 & E13 & E14 & E18). destruct fc_le0 as (L0 & ? & ? & ? & L19 & ? & ?).
  destruct fc_slots0 as (? & ? & ? & ?). destruct fc_operands0 as [Bup Bstp]. destruct fc_empty0 as (? & ? & ?).
  destruct A.
  assert (Hat : at_point f c10 k (core st)).
  { eapply at_position; try eassumption. assert (env c9 = env c0) as -> by (injection fc_cond_pos0 as <-; done).
    done. }
  destruct (run_fori_cond _ _ _ _ _ _ _ _ k (core st) zv zup fc_cond0 ltac:(eassumption) ltac:(eassumption)
    Hat ltac:(eassumption) ltac:(eassumption) ltac:(eassumption)) as (k0 & Hs0 & Hm0 & Ha0 & Hsl0 & Hc0 & _ & Bc).
  destruct (if fori_reverse s then (zv <? zup)%Z else (zv >? zup)%Z).
  { exists (goto f xb k0). split; [done|]. split; [done|]. split; [done|].
    split; [by apply agree_goto; agree_back|]. split; [done|]. simpl. congruence. }
  assert (Hat12 : at_point f c12 (goto f bb k0) (core st)).
  { eapply at_position; try eassumption; [done|]. simpl. replace (env c11) with (env c10) by congruence.
    eapply agree_plstate; [eassumption|exact Ha0|apply Hat]. }
  pose proof (fori_body_runs _ _ _ _ _ _ _ _ _ _ _ _ _ _ _ _ _ _ _ _ _ _ _ _ _ _ st zv C Hb Hat12 ltac:(eassumption) Hc0) as Hbody.
  unfold xbind at 1, lift at 1.
  destruct (assign_simple_var _ _ _ _ (core st)) as [[] s1|e s1| |]; [|by eapply raises_steps|done|done].
  destruct Hbody as (k2 & Hs2 & Ha2 & Hit). rewrite iteration_eq. unfold xbind.
  assert (Hframe : forall k3, agree c14 k2 k3 ->
    agree c0 k k3 /\ slots k3 !! fp = Some (VInt 1) /\ slots k3 !! lp = slots k !! lp
    /\ (forall r, r < next_reg (bld c10) -> regs k3 !! r = regs k !! r)).
  { intros k3 Ha3. eapply (fori_frame c0 c10 c13 c14 lp fp bb); eassumption. }
  destruct (iteration _ _ _) as [[rc [|]] s2|e s2| |]; simpl in Hit; [| | |done|done].
  - destruct Hit as (k3 & Hs3 & Hg & Hd). simpl.
    assert (Hs : steps f k k3) by (eapply steps_trans; [exact Hs0|by eapply steps_trans]).
    destruct rc; simpl in *.
    + destruct Hd as (Hm3 & Ha3 & Hst3). destruct (Hframe k3 Ha3) as (Hag & Hfp & _ & _). by exists k3.
    + destruct Hg as (li & Hl & _). discriminate.
    + exists k3. split; [done|]. by rewrite <- E14.
    + destruct Hg as (li & b & Hl & _). discriminate.
  - destruct Hit as (-> & k3 & Hs3 & Ht3 & Hm3 & Ha3 & Hst3).
    assert (Hs : steps f k k3) by (eapply steps_trans; [exact Hs0|by eapply steps_trans]).
    destruct (Hframe k3 Ha3) as (Hag & Hfp & Hlp & Hregs). rewrite ac_value0 in Hlp.
    assert (Hat19 : at_point f c19 k3 (core s2)).
    { eapply at_position; try eassumption. rewrite E18. rewrite Hregs; [done|]. rewrite <- E10. apply Ok10. }
    destruct (run_fori_step _ _ _ _ _ _ _ _ _ k3 (core s2) zv zstep fc_step0 ltac:(eassumption) ltac:(eassumption)
      ltac:(eassumption) ltac:(eassumption) ltac:(eassumption) Hat19 (below_le c10 c19 stp ltac:(eassumption) ltac:(eassumption)) Hlp
      ltac:(rewrite (operand_regs c10 (regs k)) by eassumption; eassumption) Hv Hz) as (k4 & Hr4 & Hm4 & Hnext).
    destruct (fori_next _ _ _) as [next|] eqn:En; destruct Hnext as [Hs4 Hsl4].
    + eapply (fori_result_steps c0 fp xb k (goto f cb k4)); [by eapply steps_trans| |].
      * split; [|intros m Hm; simpl; rewrite Hsl4, lookup_insert_ne by lia; by apply Hag].
        intros r Hr. simpl. destruct L0 as [_ L0 _], L19 as [_ L19 _].
        rewrite Hr4, Hregs by lia. done.
      * assert (Hregs4 : forall r, r < next_reg (bld c10) -> regs k4 !! r = regs k !! r).
        { intros r Hr. destruct L19 as [_ L19 _]. rewrite Hr4, Hregs by lia. done. }
        apply IH; [|by eapply fori_next_range].
        split; simpl; [done| |done|done| | | |].
        -- rewrite Hregs4; [done|]. rewrite <- E10. apply Ok10.
        -- rewrite Hsl4. by rewrite lookup_insert_eq.
        -- rewrite Hsl4, lookup_insert_ne by lia. done.
        -- by rewrite (operand_regs c10 (regs k)).
        -- by rewrite (operand_regs c10 (regs k)).
    + exists (goto f xb k4). split; [by eapply steps_trans|]. split; [done|]. split; [done|].
      split; [|split; [done|simpl; congruence]]. split; simpl.
      * intros r Hr. destruct L0 as [_ L0 _], L19 as [_ L19 _]. rewrite Hr4, Hregs by lia. done.
      * rewrite Hsl4. apply Hag.
  - eapply raises_steps; [exact Hs0|]. by eapply raises_steps.
Qed.

Lemma exec_set_found_ok b (s : execstate world) u s' :
  exec_set_found b s = Ok u s' -> s' = set_found b s.
Proof.
  unfold exec_set_found, xbind, xget, xmodify. destruct (get_var (found_varno s) s) as [v s1| | |] eqn:E; try discriminate.
  intros [= _ <-]. f_equal. revert E. unfold get_var, get_datum, xbind, xget, xret, undefined.
  destruct (es_datums s !! found_varno s) as [d|]; [|done]. by destruct d; intros; simplify_eq.
Qed.

(** From the exit block: FOUND is set from its slot. *)
Lemma fori_exit ls fp xb c c20 u1 c21 v c22 u3 c' k (m : exec (xstate world) (exec_rc * bool)) st :
  fori_result c fp xb k (m st) ->
  ran (position xb) c20 u1 c21 -> codeb c20 xb = [] ->
  ran (build_value (fun r => ILoad r fp)) c21 v c22 ->
  ran (upl_emit_rt_call_void RT_SET_FOUND [estate_ref; v]) c22 u3 c' ->
  ctx_ok c -> ctx_ok c21 -> ctx_ok c22 -> ext c22 f -> ext c' f -> env c20 = env c ->
  le_ctx c c21 -> le_ctx c21 c22 -> regs k !! plstate (env c) = Some VPlstate ->
  post f F ls c (rest f c') k ((r <~ m; lift (exec_set_found r.2) ;~ xret r.1) st).
Proof.
  intros Hr Hpos Hemp Hload Hset Hok Hok21 Hok22 He22 He' Een Hle Hle2 Hpl. unfold xbind at 1.
  destruct (m st) as [[rc b] st'|e st'| |]; [|done..]. simpl in Hr.
  destruct rc; [|done| |done].
  - destruct Hr as (k1 & Hs1 & Ht1 & Hm1 & Ha1 & Hst1 & Hf1).
    assert (Hat1 : at_point f c21 k1 (core st')).
    { eapply at_position; try eassumption. rewrite Een. by eapply agree_plstate. }
    destruct (run_load f _ _ _ _ _ _ _ Hload Hok21 He22 Hat1 Hf1) as (k2 & Hs2 & Hat2 & Ha2 & _ & Hv2).
    eapply post_again; [exact (steps_trans f _ _ _ Hs1 Hs2)|by eapply agree_trans|].
    eapply (post_call_void f F (RT RT_SET_FOUND) _ [VEstate; VInt (z_of_bool b)]); try eassumption;
      [intros _; unfold arg_values; simpl; by rewrite Hv2|apply keeps_set_found| |by etrans|].
    + intros s'. exists (fun _ => None). simpl. unfold uplpgsql_rt_set_found. by destruct b.
    + intros [] s' k3 Hat3 Ha3 Hst3. exists k3. split; [apply rtc_refl|]. split; [apply Hat3|].
      simpl. split; [apply Hat3|]. split; [apply agree_refl|done].
  - destruct Hr as (k1 & Hs1 & Ht1 & Hrc & [bs Hbs] & Hsq). apply post_lift.
    destruct (exec_set_found _ (core st')) as [[] s1|e s1| |] eqn:Es; [| |done|done].
    + apply exec_set_found_ok in Es as ->. exists k1. split; [done|]. split; [done|]. simpl.
      split; [done|]. split; [|done]. exists (bs ++ [b]). by rewrite foldl_app, <- Hbs.
    + revert Es. unfold exec_set_found, get_var, get_datum, xbind, xget, xret, xmodify, undefined.
      destruct (es_datums (core st') !! _) as [[]|]; discriminate.
Qed.

Lemma sim_fori ls (s : UPLpgSQL_stmt_fori UPLpgSQL_stmt) n i :
  F !! fori_var s = Some i -> vi_type i = INT4OID -> vi_typmod i = (-1)%Z ->
  step_covered (fori_step s) = true ->
  (forall li, li_label li = fori_label s -> li_is_loop li = true ->
     sim f F [li] (cm (fori_body s)) (run (fori_body s))) ->
  sim f F ls (upl_emit_fori callbacks (fori_label s) (fori_var s) (fori_lower s) (fori_upper s)
                (fori_step s) (fori_reverse s) (cm (fori_body s)))
    (exec_stmt_fori run n s).
Proof.
  intros Hvar Hty Htm Hcov Hb c u c' P k st Hrun HI Hok Hext Hpre Hat Hst.
  unfold exec_stmt_fori. apply post_lift.
  destruct (get_var (fori_var s) (core st)) as [var s0|e s0| |] eqn:Ev; [| |done|done].
  2:{ revert Ev. unfold get_var, get_datum, xbind, xget. destruct (es_datums (core st) !! fori_var s) as [[]|]; discriminate. }
  assert (s0 = core st) as ->.
  { revert Ev. unfold get_var, get_datum, xbind, xget, xret, undefined. destruct (es_datums (core st) !! fori_var s) as [[]|]; intros; by simplify_eq. }
  pose proof (watched_var_type F _ _ _ _ Hst Hvar Ev) as [Ht Hm _ _ _ _ _]. rewrite Hty in Ht. rewrite Htm in Hm. simpl.
  unfold upl_emit_fori in Hrun.
  pose proof grows_fori_bounds. pose proof grows_fori_cond. pose proof grows_fori_step.
  pose proof (emits_fori_bounds (fori_lower s) (fori_upper s) (fori_step s)) as Hbounds. unbind. walk.
  match goal with Hx : emit_fori_cond _ _ _ _ _ ?d = _, I : inv ?d _ |- _ =>
    destruct (fori_cond_done _ _ _ _ _ _ _ _ _ Hx I ltac:(lia) ltac:(lia)) as ((? & ? & ?) & ?); clear Hx end.
  walk.
  match goal with Hx : emit_fori_step _ _ _ _ _ ?d = _, I : inv ?d _ |- _ =>
    destruct (fori_step_done _ _ _ _ _ _ _ _ _ Hx I ltac:(lia) ltac:(lia)) as (? & ? & ?); clear Hx end.
  walk. ext_back. ctx_forward. pops. at_skip.
  assert (Ec0 : env c0 = env c) by assumption.
  repeat match goal with x : unit |- _ => destruct x end.
  destruct (quiet_entry_alloca c0 v0 c1) as (_ & Elp & Hlp1); [assumption|].
  destruct (quiet_entry_alloca c1 v1 c2) as (_ & Efp & Hfp1); [assumption|].
  eapply post_fori_bounds; [exact Ht|exact Hm|exact Hcov|eassumption..|]. intros Bup Bst zlo zup zstep st1 k1 Hzlo Hzs Hat1 Ha1 Hst1 Hlo Hup Hstp.
  at_skip.
  assert (L2 : le_ctx c c2) by le_chain. assert (L10 : le_ctx c2 c10) by le_chain.
  assert (Hcode : fori_code s v0 v1 v.1.2 v.2 v10 v7 v4 v5 v6 c c9 c10 c11 c12 c13 c14 c15 c16 c17 c18 c19 c20
    (({[v7]} ∪ ({[v6]} ∪ ({[v5]} ∪ ({[v4]} ∪ P)))) ∖ {[v4]} ∖ {[v5]})
    (({[v7]} ∪ ({[v6]} ∪ ({[v5]} ∪ ({[v4]} ∪ P)))) ∖ {[v4]} ∖ {[v5]} ∖ {[v6]})).
  { split; try assumption.
    - split; [empty_block|]. split; empty_block.
    - done.
    - done.
    - split; [assumption|]. split; [assumption|]. lia.
    - split_and!; congruence.
    - split_and!; le_chain.
    - destruct L2 as [_ _ ?], L10 as [_ _ ?]. match goal with G : le_ctx c c0 |- _ => destruct G as [_ _ ?] end. lia.
    - split; (eapply below_le; [|eassumption]); le_chain. }
  match goal with Hx : ran (build (IStore v.1.1 v0)) _ _ _, Hy : ran (build (IStore const_false v1)) _ _ _,
      Hz : ran (build (IBr v4)) _ _ _, Hat2 : at_point f c2 k1 (core st1) |- _ =>
    destruct (run_store f _ _ _ _ _ _ _ _ Hx ltac:(eassumption) Hat2 Hlo) as [Hs3 Hat3];
    destruct (run_store f _ _ _ _ _ _ _ _ Hy ltac:(eassumption) Hat3 eq_refl) as [Hs4 Hat4]; at_skip;
    match goal with Hat8 : at_point f c8 _ _ |- _ =>
      pose proof (run_br f _ _ _ _ _ _ Hz ltac:(eassumption) Hat8) as Hs9 end end.
  set (k4 := stored f c4 v1 _ _) in *.
  assert (Hag4 : agree c k1 (goto f v4 k4)).
  { apply agree_goto. destruct L2 as [_ _ ?].
    apply agree_stored; [|apply agree_stored; [|apply agree_refl]];
      match goal with G : le_ctx c c0 |- _ => destruct G as [_ _ ?] end; lia. }
  eapply post_again; [exact (steps_trans f _ _ _ (steps_trans f _ _ _ Hs3 Hs4) Hs9)|exact Hag4|].
  apply (fori_exit ls v1 v7 c c20 tt c21 v21 c22 tt c'); try assumption; [|empty_block|congruence|le_chain|].
  - eapply fori_loop; try eassumption. split; simpl; try done.
    + rewrite <- Ec0. apply Hat1.
    + apply Hat1.
    + rewrite lookup_insert_ne by lia. apply lookup_insert_eq.
    + apply lookup_insert_eq.
  - simpl. rewrite <- Ec0. apply Hat1.
Qed.
End control.
