(* ===== verification/Correct.v ===== *)
(** * Compiled functions do what the interpreter does

    The statement lemmas of file Simulation put together: statement lists by
    induction on the interpreter's fuel, and whole functions.  [supported]
    decides the functions the theorem speaks of. *)

From Stdlib Require Import ZArith Lia.
From S2P Require Import Prelude Ast Escape Exec Assign SqlStmts Interp IR CoreEmit StmtEmit Wellformed.
From S2P Require Import Machine Growth DeclTypes SimRel Simulation Demo.

#[local] Opaque bind.

(** ** The supported statements *)

(** What an EXIT may refer to: labels, and whether they are a loop's. *)
Abbreviation scope := (list (option string * bool)).
Definition scope_of (ls : list UPL_loop_info) : scope := map (fun li => (li_label li, li_is_loop li)) ls.

Fixpoint in_scope (sc : scope) (label : option string) : bool :=
  match sc with
  | [] => false
  | (l', is_loop) :: sc' =>
      match label with
      | None => is_loop || in_scope sc' label
      | Some l => match l' with
                  | Some l' => String.eqb l' l || in_scope sc' label
                  | None => in_scope sc' label
                  end
      end
  end.

Definition covers_exit `{ExprCover} (F : watch) (cond : option UPLpgSQL_expr) : bool :=
  match cond with Some e => covers_cond F e | None => true end.

(** The variable of an integer FOR loop. *)
Definition int4_watched (F : watch) (n : nat) : bool :=
  match F !! n with
  | Some i => bool_decide (vi_type i = INT4OID) && bool_decide (vi_typmod i = (-1)%Z)
  | None => false
  end.

(** [F] are the watched variables, among them those of integer FOR loops.  Left out:
    blocks with exception handlers, loops over rows and arrays, and ASSERT; an EXIT or
    CONTINUE out of an integer FOR loop to a loop around it, which sets FOUND only when
    interpreted; a BY value that is not known to be positive, since only the interpreter
    checks it; expressions that the expression compiler's guarantee does not cover. *)
Fixpoint supported `{ExprCover} (F : watch) (sc : scope) (stmt : UPLpgSQL_stmt) : bool :=
  match stmt with
  | STMT_BLOCK _ b =>
      match exceptions b, blk_sqlstate_varno b with
      | None, None =>
          let sc' := match blk_label b with Some l => (Some l, false) :: sc | None => sc end in
          forallb (supported F sc') (blk_body b)
      | _, _ => false
      end
  | STMT_IF _ s =>
      covers_cond F (if_cond s) && forallb (supported F sc) (then_body s)
      && forallb (fun e => covers_cond F (elsif_cond e) && forallb (supported F sc) (elsif_stmts e)) (elsif_list s)
      && forallb (supported F sc) (else_body s)
  | STMT_CASE _ s =>
      (if has_test s then bool_decide (F !! t_varno s = None) else true)
      && forallb (fun w => covers_cond F (when_expr w) && forallb (supported F sc) (when_stmts w)) (case_when_list s)
      && forallb (supported F sc) (else_stmts s)
  | STMT_LOOP _ s => forallb (supported F ((loop_label s, true) :: sc)) (loop_body s)
  | STMT_WHILE _ s =>
      covers_cond F (while_cond s) && forallb (supported F ((while_label s, true) :: sc)) (while_body s)
  | STMT_FORI _ s =>
      int4_watched F (fori_var s) && step_covered (fori_step s) && forallb (supported F [(fori_label s, true)]) (fori_body s)
  | STMT_EXIT _ s => in_scope sc (exit_label s) && covers_exit F (exit_cond s)
  | STMT_ASSIGN _ s => covers_assign F s
  | STMT_OPEN _ _ => opens_unwatched F stmt
  | STMT_FORS _ _ | STMT_FORC _ _ | STMT_DYNFORS _ _ | STMT_FOREACH_A _ _ | STMT_ASSERT _ _ => false
  | STMT_RETURN _ _ | STMT_RETURN_NEXT _ _ | STMT_RETURN_QUERY _ _
  | STMT_RAISE _ _ | STMT_EXECSQL _ _ | STMT_DYNEXECUTE _ _ | STMT_GETDIAG _ _
  | STMT_FETCH _ _ | STMT_CLOSE _ _ | STMT_PERFORM _ _ | STMT_CALL _ _ | STMT_COMMIT _ _
  | STMT_ROLLBACK _ _ => true
  end.

Lemma in_scope_find ls label : in_scope (scope_of ls) label = true -> exists li, find_loop ls label = Some li.
Proof.
  induction ls as [|li ls IH]; [done|]. simpl. destruct label as [l|].
  - destruct (li_label li) as [l'|]; [|done]. destruct (String.eqb l' l); [by eexists|done].
  - destruct (li_is_loop li); [by eexists|done].
Qed.

(** Without native arrays nothing is refreshed. *)
Lemma refresh_all_nil l c u c' :
  native_arrays (env c) = [] -> for_each refresh_dno l c = Success (u, c') -> c' = c.
Proof.
  intros Hn. induction l as [|x l IH]; simpl; [by injection 1|]. intros Hrun. unbind.
  rewrite refresh_nil in * by done. simplify_eq. by apply IH.
Qed.

Section statements.
Context {world : Type} `{PgEnvTypes world}.
Context `{EC : ExprCompiler, !ExprCompilerOk, !ExprCompilerGrows, EV : ExprCover, !ExprCompilerSim world}.
Context (f : ir_function) (F : watch) (datums : list UPLpgSQL_datum).
Open Scope exec_scope.
Open Scope emit_scope.

(** A statement after another. *)
Lemma sim_seq ls (m1 m2 : emit unit) (x1 x2 : exec (xstate world) exec_rc) :
  emits any m1 -> grows m1 -> grows m2 -> sim f F ls m1 x1 -> sim f F ls m2 x2 ->
  sim f F ls (m1 ;;; m2) (rc <~ x1; if decide (rc = RC_OK) then x2 else xret rc)%exec.
Proof.
  intros Hem Hg1 Hg2 S1 S2 c u c' P k st Hrun HI Hok Hext Hpre Hat Hst.
  apply bind_Success in Hrun as (u1 & c1 & R1 & R2).
  destruct (Hem _ _ _ _ R1 HI) as ((I1 & E1 & _) & _).
  pose proof (Hg1 _ _ _ R1) as L1. pose proof (Hg2 _ _ _ R2) as L2.
  assert (Hext1 : ext c1 f) by (by eapply ext_le).
  specialize (S1 c u1 c1 P k st R1 HI Hok Hext1 Hpre Hat Hst). unfold xbind.
  destruct (x1 st) as [rc st1|e st1| |]; [|done..].
  destruct (decide (rc = RC_OK)) as [->|Hne]; simpl.
  - destruct S1 as (k1 & Hs1 & Ht1 & Hm1 & Ha1 & Hst1).
    eapply (post_steps f F ls c c1); [exact Hs1|exact Ha1|exact L1|by rewrite E1..|].
    eapply S2; [exact R2|exact I1| |exact Hext|by rewrite E1| |exact Hst1].
    + by apply (ctx_ok_le c).
    + split; [exact Ht1|exact Hm1|]. rewrite E1. eapply agree_plstate; [done|exact Ha1|apply Hat].
  - destruct S1 as (k1 & Hs1 & Hg & Hd). exists k1. split; [done|]. split; [|done].
    by destruct rc.
Qed.

(** Recording the statement for error messages changes nothing else. *)
Lemma sim_err_stmt ls stmt (m : emit unit) (x : exec (xstate world) exec_rc) :
  sim f F ls m x -> compile_stmt datums stmt = (build (IStoreErrStmt stmt) ;;; m) ->
  sim f F ls (compile_stmt datums stmt) x.
Proof.
  intros S1 Hm c u c' P k st Hrun HI Hok Hext Hpre Hat Hst.
  pose proof Hrun as Hfull. rewrite Hm in Hrun. unbind.
  match goal with Hx : build _ _ = Success _ |- _ => hide Hx; rename Hx into R1 end.
  hide Hrun. rename Hrun into R2.
  match type of R1 with ran _ _ _ ?d => rename d into c1 end.
  pose proof (grows_after datums stmt c _ c1 _ c' R1 Hfull) as L2. assert (Hext1 : ext c1 f) by (by eapply ext_le).
  pose proof (grows_build _ _ _ _ R1) as L1.
  destruct (at_build f _ _ _ _ _ _ R1 Hext1 Hat) as [Ht E1].
  destruct (emits_build (IStoreErrStmt stmt) ltac:(by split) _ _ _ _ R1 HI) as ((I1 & _ & _) & _).
  eapply (post_steps f F ls c c1 _ k (mk_mstate (rest f c1) (mcore k) (regs k) (slots k)));
    [apply steps_one; unfold step; by rewrite Ht|done|exact L1|by rewrite E1..|].
  eapply S1; [exact R2|exact I1|by apply (ctx_ok_le c)|done|by rewrite E1| |done].
  destruct Hat. split; [done|done|]. simpl. by rewrite E1.
Qed.

Lemma sim_execsql ls h s :
  sim f F ls (compile_execsql datums (STMT_EXECSQL h s) s)
    (lift (exec_simple_stmt (STMT_EXECSQL h s)) ;~ xret RC_OK)%exec.
Proof.
  intros c u c' P k st Hrun HI Hok Hext Hpre Hat Hst. unfold compile_execsql in Hrun.
  apply bind_Success in Hrun as (u1 & c1 & R1 & R2).
  destruct (emits_compile_by_call FN_exec_stmt_execsql (STMT_EXECSQL h s) eq_refl _ _ _ _ R1 HI) as ((_ & E1 & _) & _).
  assert (c' = c1) as ->.
  { destruct (sql_into s); [|by injection R2]. destruct (sql_target s) as [t|]; [|by injection R2].
    eapply refresh_all_nil; [|exact R2]. rewrite E1. apply Hok. }
  eapply sim_by_call; try eassumption; done.
Qed.

Section dispatch.
Context (run : list UPLpgSQL_stmt -> exec (xstate world) exec_rc) (n : nat).
Context (Hrun : forall sc l, forallb (supported F sc) l = true ->
  forall ls, scope_of ls = sc -> sim f F ls (compile_stmts datums l) (run l)).

Lemma sim_stmt sc stmt ls :
  supported F sc stmt = true -> scope_of ls = sc ->
  sim f F ls (compile_stmt datums stmt) (exec_stmt run n stmt).
Proof.
  intros Hsup Hsc.
  destruct stmt; simpl in Hsup; try discriminate; cbn [exec_stmt];
    (eapply sim_err_stmt; [|reflexivity]);
    try (by apply sim_by_call); try (by apply sim_by_call_void).
  - destruct (exceptions s) eqn:Ee; [discriminate|]. destruct (blk_sqlstate_varno s) eqn:Ev; [discriminate|].
    apply sim_block; [done|done|]. unfold body_sim. destruct (blk_label s) as [l|].
    + intros li Hl Hi. apply (Hrun _ _ Hsup). simpl. congruence.
    + by apply (Hrun _ _ Hsup).
  - by apply sim_assign.
  - apply andb_true_iff in Hsup as [[[Hc Hs1]%andb_true_iff Hs2]%andb_true_iff Hs3].
    apply sim_if; [done|by apply (Hrun _ _ Hs1)| |by apply (Hrun _ _ Hs3)|by destruct (else_body s)].
    intros x Hx. apply (forallb_elem _ _ _ Hs2), andb_true_iff in Hx as [Hcx Hx]. split; [done|]. by apply (Hrun _ _ Hx).
  - apply andb_true_iff in Hsup as [[Hs1 Hs2]%andb_true_iff Hs3].
    apply sim_case; [| |intros _; by apply (Hrun _ _ Hs3)].
    + intros Ht. rewrite Ht in Hs1. by apply bool_decide_eq_true in Hs1.
    + intros x Hx. apply (forallb_elem _ _ _ Hs2), andb_true_iff in Hx as [Hcx Hx]. split; [done|]. by apply (Hrun _ _ Hx).
  - apply sim_loop. intros li Hl Hi. apply (Hrun _ _ Hsup). simpl. congruence.
  - apply andb_true_iff in Hsup as [Hc Hs]. unfold exec_stmt_while. destruct s as [label cond body []]; simpl in *.
    + apply sim_while_top; [done|]. intros li Hl Hi. apply (Hrun _ _ Hs). simpl. congruence.
    + apply sim_while_bottom; [done|]. intros li Hl Hi. apply (Hrun _ _ Hs). simpl. congruence.
  - apply andb_true_iff in Hsup as [[Hs1 Hstep]%andb_true_iff Hs2]. unfold int4_watched in Hs1.
    destruct (F !! fori_var s) as [i|] eqn:Ei; [|done].
    apply andb_true_iff in Hs1 as [Ht%bool_decide_eq_true Hm%bool_decide_eq_true].
    eapply sim_fori; [exact Ei|done|done|exact Hstep|]. intros li Hl Hi. apply (Hrun _ _ Hs2). simpl. congruence.
  - apply andb_true_iff in Hsup as [Hs1 Hs2]. rewrite <- Hsc in Hs1. destruct (in_scope_find _ _ Hs1) as [li Hf].
    eapply sim_exit; [exact Hf|]. intros e He. by rewrite He in Hs2.
  - apply sim_return.
  - apply sim_execsql.
Qed.

Lemma sim_list sc l ls :
  forallb (supported F sc) l = true -> scope_of ls = sc ->
  sim f F ls (compile_stmts datums l) (exec_list (exec_stmt run n) l).
Proof.
  intros Hsup Hsc. induction l as [|stmt l IH].
  - intros c u c' P k st [= <- <-] HI Hok Hext Hpre Hat Hst. exists k. split; [apply rtc_refl|].
    split; [apply Hat|]. simpl. split; [apply Hat|]. split; [apply agree_refl|done].
  - simpl in Hsup. apply andb_true_iff in Hsup as [Hs Hl].
    apply (sim_seq ls (compile_stmt datums stmt) (compile_stmts datums l));
      [apply emits_stmt|apply grows_stmt|apply grows_stmts|by eapply sim_stmt|by apply IH].
Qed.
End dispatch.

(** Statement lists, for any amount of fuel. *)
Lemma sim_stmts fuel sc l ls :
  forallb (supported F sc) l = true -> scope_of ls = sc ->
  sim f F ls (compile_stmts datums l) (exec_stmts fuel l).
Proof.
  revert sc l ls. induction fuel as [|n IH]; intros sc l ls Hsup Hsc; [by intros c u c' P k st|].
  eapply sim_list; [|exact Hsup|exact Hsc]. intros sc' l' Hs' ls' Hsc'. by eapply IH.
Qed.
End statements.

(** ** Whole functions *)

(** Setting FOUND touches the variables only. *)
Lemma after_found_keeps {world} (s s' : execstate world) :
  after_found s s' -> retval s = retval s' /\ es_world s = es_world s' /\ retisnull s = retisnull s'
                      /\ rettype s = rettype s'.
Proof.
  intros [bs ->]. revert s. induction bs as [|b bs IH]; intros s; [done|]. exact (IH (set_found b s)).
Qed.

(** The value the compiled function returns for a code of the interpreter. *)
Definition rc_value (rc : exec_rc) : Z :=
  match rc with
  | RC_OK => UPLPGSQL_RC_OK
  | RC_RETURN => UPLPGSQL_RC_RETURN
  | RC_EXIT => UPLPGSQL_RC_EXIT
  | RC_CONTINUE => UPLPGSQL_RC_CONTINUE
  end.

Section functions.
Context {world : Type} `{PgEnvTypes world}.
Context `{EC : ExprCompiler, !ExprCompilerOk, !ExprCompilerGrows, EV : ExprCover, !ExprCompilerSim world}.

(** The point where the body of a function starts. *)
Definition body_ctx : UPL_compile_ctx :=
  mk_ctx (mk_builder ["entry"; "return"]
            {[0 := [IAlloca 0; IStore (const_int32 UPLPGSQL_RC_OK) 0; ILoadPlstate 0]]} 0 1 1 [] [] false false)
         (mk_cenv 1 0 0 [] [] 0 [] []).

Lemma setup_entry_ctx : setup_entry [] (prologue_ctx UPLPGSQL_RC_OK) = Success (tt, body_ctx).
Proof. reflexivity. Qed.

Lemma grows_compile_body datums b : grows (compile_body datums b).
Proof.
  apply grows_block; [apply grows_stmts|]. destruct (exceptions b); [|constructor].
  apply list.Forall_forall. intros m (x & Hx & <-)%elem_of_map. apply grows_stmts.
Qed.

(** What the finished function consists of. *)
Lemma compile_function_parts g func f :
  compile_function g func = Success f -> analyze_native_arrays g func = [] ->
  exists u c2 c3 c4 o c5 c6,
    compile_body (datums func) (fn_action func) body_ctx = Success (u, c2)
    /\ ran (build (IBr 1)) c2 tt c3 /\ ran (position 1) c3 tt c4
    /\ ran (build_value (fun r => ILoad r 0)) c4 o c5 /\ ran (build (IRet o)) c5 tt c6 /\ ext c6 f
    /\ inv body_ctx {[1]} /\ codeb c3 1 = [].
Proof.
  intros Hcomp Hna. unfold compile_function, upl_compile_function in Hcomp.
  rewrite Hna, emit_function_eq in Hcomp.
  match type of Hcomp with context [match ?m with _ => _ end] => destruct m as [[u c]|] eqn:E end;
    [|discriminate].
  injection Hcomp as <-. pose proof (prologue_inv UPLPGSQL_RC_OK) as HI. unbind.
  match goal with
  | Hs : setup_entry _ _ = _ |- _ => 
     destruct (setup_entry_inv _ _ _ _ _ Hs HI) as [HI1 Hn1]; rewrite setup_entry_ctx in Hs; injection Hs as <- <-
  end.
  repeat match goal with x : unit |- _ => destruct x end.
  do 7 eexists. split; [eassumption|]. split; [eassumption|]. split; [eassumption|]. split; [eassumption|].
  split; [eassumption|]. split; [by intros b|]. split; [exact HI1|].
  match goal with Hb : compile_body _ _ _ = Success _, Hbr : build (IBr 1) _ = Success _ |- _ =>
    destruct (emits_body _ _ _ _ _ _ Hb HI1) as ((I2 & _ & N2) & _);
    pose proof (in_pending _ _ I2 1 ltac:(set_solver)) as [Hlt _];
    destruct (build_done _ _ _ _ _ Hbr I2 eq_refl ltac:(instr_side)) as (D3 & _ & _) end.
  eapply done_empty; [exact D3|set_solver].
Qed.

Section result.
Context (F : watch) (func : UPLpgSQL_function) (f : ir_function) (s0 : execstate world).

(** The machine at the start of the body. *)
Definition body_state : mstate world :=
  mk_mstate (rest f body_ctx) s0 {[0 := VPlstate]} {[0 := VInt UPLPGSQL_RC_OK]}.

Lemma run_prologue : ext body_ctx f -> steps f (start f s0) body_state.
Proof.
  intros He. destruct (He 0) as [tl Htl]. change (codeb body_ctx 0) with [IAlloca 0; IStore (const_int32 UPLPGSQL_RC_OK) 0; ILoadPlstate 0] in Htl.
  unfold start. rewrite Htl. eapply rtc_l; [reflexivity|]. eapply rtc_l; [reflexivity|].
  eapply rtc_l; [reflexivity|]. unfold body_state, rest. change (cur (bld body_ctx)) with 0. rewrite Htl. apply rtc_refl.
Qed.

(** The return block. *)
Lemma run_epilogue c3 c4 o c5 c6 (k : mstate world) v :
  ran (position 1) c3 tt c4 -> codeb c3 1 = [] -> ran (build_value (fun r => ILoad r 0)) c4 o c5 ->
  ran (build (IRet o)) c5 tt c6 -> ext c6 f -> todo k = block f 1 -> slots k !! 0 = Some v ->
  exists k', steps f k k' /\ step f k' = MReturn v (mcore k).
Proof.
  intros R1 He R2 R3 Hext Ht Hv.
  assert (Hext5 : ext c5 f) by (eapply ext_le; [by eapply grows_build|done]).
  rewrite <- (rest_position _ _ _ _ f R1 He) in Ht.
  destruct (build_value_reg _ _ _ _ R2) as (-> & _ & _ & _).
  rewrite (rest_build_value f _ _ _ _ R2 Hext5), (rest_build _ _ _ _ f R3 Hext) in Ht.
  eexists. split; [apply steps_one; unfold step; rewrite Ht, Hv; reflexivity|].
  unfold step. simpl. by rewrite lookup_insert_eq.
Qed.

Lemma body_ctx_ok : ctx_ok body_ctx.
Proof. split; simpl; [lia|lia|done|done]. Qed.

(** The run of a compiled function, in terms of [run]. *)
Lemma compiled_steps fuel label h :
  compile_function get_element_type func = Success f -> analyze_native_arrays get_element_type func = [] ->
  supported F [] (STMT_BLOCK h (fn_action func)) = true -> steady F s0 ->
  match exec_toplevel_block fuel (fn_action func) (mk_xstate label s0) with
  | Ok rc st => (rc = RC_OK \/ rc = RC_RETURN) /\
      exists k s', steps f (start f s0) k /\ step f k = MReturn (VInt (rc_value rc)) s'
                   /\ (if decide (rc = RC_OK) then s' = core st else after_found s' (core st))
  | Err e _ => raises f (start f s0) e
  | Stuck | OutOfFuel => True
  end.
Proof.
  intros Hc Hna Hsup Hst.
  destruct (compile_function_parts _ _ _ Hc Hna) as (u & c2 & c3 & c4 & o & c5 & c6 & Rb & R1 & R2 & R3 & R4 & Hext & HI & Hemp).
  pose proof (grows_build _ _ _ _ R1). pose proof (grows_position _ _ _ _ R2).
  pose proof (grows_build_value _ _ _ _ R3). pose proof (grows_build _ _ _ _ R4). ext_back.
  assert (Hgb : grows (compile_body (datums func) (fn_action func))) by apply grows_compile_body.
  pose proof (Hgb _ _ _ Rb). ext_back.
  pose proof (run_prologue ltac:(eassumption)) as Hs0.
  unfold exec_toplevel_block. simpl in Hsup.
  destruct (exceptions (fn_action func)) eqn:Ee; [discriminate|].
  destruct (blk_sqlstate_varno (fn_action func)) eqn:Ev; [discriminate|].
  assert (Hsim : sim f F [] (compile_body (datums func) (fn_action func))
                   (exec_stmt_block (exec_stmts fuel) (fn_action func))).
  { apply sim_block; [done|done|]. unfold body_sim. destruct (blk_label (fn_action func)) as [l|].
    - intros li Hl Hi. eapply sim_stmts; [exact Hsup|]. simpl. congruence.
    - by eapply sim_stmts. }
  assert (Hat : at_point f body_ctx body_state s0) by done.
  specialize (Hsim body_ctx u c2 {[1]} body_state (mk_xstate label s0) Rb HI body_ctx_ok ltac:(eassumption)
    ltac:(done) Hat Hst).
  destruct (exec_stmt_block _ _ _) as [rc st|e st| |]; [|by eapply raises_steps|done|done].
  destruct Hsim as (k1 & Hs1 & Hg & Hd).
  assert (Hend : forall k, steps f k1 k -> todo k = block f 1 -> slots k !! 0 = Some (VInt (rc_value rc)) ->
    exists k' s', steps f (start f s0) k' /\ step f k' = MReturn (VInt (rc_value rc)) s' /\ s' = mcore k).
  { intros k Hk Ht Hsl.
    destruct (run_epilogue _ _ _ _ _ _ _ R2 Hemp R3 R4 Hext Ht Hsl) as (k' & Hs' & Hret).
    exists k', (mcore k). split; [|done].
    exact (steps_trans f _ _ _ Hs0 (steps_trans f _ _ _ Hs1 (steps_trans f _ _ _ Hk Hs'))). }
  destruct rc; simpl in *.
  - destruct Hd as (Hm & Ha & _). split; [by left|].
    destruct (Hend (goto f 1 k1)) as (k' & s' & ? & ? & ->); [|done|by rewrite (ag_slots _ _ _ Ha) by (simpl; lia)|by eauto].
    apply steps_one. unfold step. by rewrite Hg, (rest_build _ _ _ _ f R1).
  - by destruct Hg as (li & Hf & _).
  - destruct Hd as (Hrc & Haf & _). split; [by right|].
    destruct (Hend k1) as (k' & s' & ? & ? & ->); [apply rtc_refl|done|done|by eauto].
  - by destruct Hg as (li & b & Hf & _).
Qed.

(** The number of steps made explicit. *)
Lemma compiled_runs fuel label h :
  compile_function get_element_type func = Success f -> analyze_native_arrays get_element_type func = [] ->
  supported F [] (STMT_BLOCK h (fn_action func)) = true -> steady F s0 ->
  match exec_toplevel_block fuel (fn_action func) (mk_xstate label s0) with
  | Ok rc st => (rc = RC_OK \/ rc = RC_RETURN) /\
      exists n s', run f n (start f s0) = Some (MReturn (VInt (rc_value rc)) s')
                   /\ (if decide (rc = RC_OK) then s' = core st else after_found s' (core st))
  | Err e _ => exists n e' s', run f n (start f s0) = Some (MRaise e' s') /\ same_error e e'
  | Stuck | OutOfFuel => True
  end.
Proof.
  intros Hc Hna Hsup Hst. pose proof (compiled_steps fuel label h Hc Hna Hsup Hst) as Hr.
  destruct (exec_toplevel_block _ _ _) as [rc st|e st| |]; [| |done|done].
  - destruct Hr as [Hrc (k & s' & Hs & Hret & Haf)]. split; [done|].
    destruct (steps_run f _ _ _ Hs Hret ltac:(done)) as [n Hn]. by exists n, s'.
  - destruct Hr as (k & e' & s' & Hs & Hra & Hse).
    destruct (steps_run f _ _ _ Hs Hra ltac:(done)) as [n Hn]. by exists n, e', s'.
Qed.

(** C2: The compiled code of a function in the fragment [supported] accepts does what
    the interpreter does, if it uses no native arrays and starts with its watched
    variables in place ([steady]).  The fragment leaves out exception blocks, row loops
    (FOR over a query, cursor or EXECUTE), FOREACH, ASSERT, EXIT and CONTINUE out of an
    integer FOR loop, BY values not known to be positive, and conditions and assignments
    that the expression compiler does not cover.  If the interpreter ends the function
    with a code, compiled code returns that code in the same state of variables, return
    value and database (up to FOUND when a RETURN leaves a FOR loop); if the interpreter
    raises an error, compiled code raises an error with the same SQLSTATE, and with the
    same message but for a NULL bound of an integer FOR loop and for an overflow of
    bigint, whose messages differ. *)
Theorem compiled_function_agrees fuel label h :
  compile_function get_element_type func = Success f -> analyze_native_arrays get_element_type func = [] ->
  supported F [] (STMT_BLOCK h (fn_action func)) = true -> steady F s0 ->
  match exec_toplevel_block fuel (fn_action func) (mk_xstate label s0) with
  | Ok rc st => (rc = RC_OK \/ rc = RC_RETURN) /\
      exists n s', run f n (start f s0) = Some (MReturn (VInt (rc_value rc)) s')
                   /\ (if decide (rc = RC_OK) then s' = core st else after_found s' (core st))
  | Err e _ => exists n e' s', run f n (start f s0) = Some (MRaise e' s') /\ same_error e e'
  | Stuck | OutOfFuel => True
  end.
Proof. apply compiled_runs. Qed.
End result.
End functions.

Module CorrectExamples.
Import Demo.

Lemma env_with_types simple : (forall e, kept (simple e)) -> @PgEnvTypes world (env_with simple).
Proof.
  intros Hsimple. assert (Hsel : forall e, kept (spi_select e)).
  { intros e st a st' Hs. unfold spi_select in Hs. by destruct (evaluate _ _); [injection Hs as <- <-|]. }
  split; intros; [apply Hsimple|apply Hsel|apply Hsel|by intros st a st' [= <- <-]..].
Qed.
#[export] Instance env_types : PgEnvTypes world.
Proof. apply env_with_types. by intros e st a st' [= <- <-]. Qed.

(** Without inlining, what is asked of the expression compiler is immediate. *)
#[export] Existing Instance no_inlining.
#[export] Instance no_inlining_ok : ExprCompilerOk.
Proof. split; intros; by apply emits_ret. Qed.
#[export] Instance no_inlining_grows : ExprCompilerGrows.
Proof. split; intros; apply grows_ret. Qed.
#[export] Instance no_inlining_cover : ExprCover :=
  {| covers_cond _ _ := true; covers_assign _ _ := true; covers_step e := String.eqb (query e) "1" |}.
#[export] Instance no_inlining_sim : ExprCompilerSim world.
Proof.
  split.
  1, 2: by intros f F e c r c' P k s _ [= <- <-] **; exists k; (split; [apply rtc_refl|split; [done|apply agree_refl]]).
  intros e s z s' Hq%String.eqb_eq. unfold uplpgsql_rt_eval_int, exec_eval_integer, xbind, exec_eval_expr.
  simpl. unfold xbind. simpl. rewrite Hq. by intros [= <- _].
Qed.

Lemma steady_start ds w (l : list (nat * var_info)) :
  watch_ok (list_to_map l) ds = true -> steady (list_to_map l) (state ds w).
Proof. intros Hw. by apply steady_initial. Qed.

(** The FOR loop's variable is watched. *)
Definition watch_list : list (nat * var_info) := [(2, mk_info INT4OID (-1)%Z false)].

(** The demonstration function returns 9 after one call into SPI. *)
Lemma compiled_function_agrees_witness :
  match compile_function get_element_type sum with
  | Success f =>
      exists n s', run f n (start f (state variables [])) = Some (MReturn (VInt 2) s')
                   /\ retval s' = 9%Z /\ es_world s' = ["x"]
  | Failure _ => False
  end.
Proof.
  destruct (compile_function get_element_type sum) as [f|msg] eqn:E; [|vm_compute in E; discriminate].
  pose proof (compiled_function_agrees (list_to_map watch_list) sum f (state variables []) 20 None h E
                eq_refl eq_refl (steady_start variables [] watch_list eq_refl)) as Ha.
  destruct (exec_toplevel_block 20 (fn_action sum) _) as [rc st| | |] eqn:Ex;
    [|vm_compute in Ex; discriminate..].
  vm_compute in Ex. injection Ex as <- <-.
  destruct Ha as (_ & n & s' & Hrun & Haf). destruct (after_found_keeps _ _ Haf) as (Hv & Hw & _).
  exists n, s'. split; [exact Hrun|]. split; [etrans; [exact Hv|reflexivity]|etrans; [exact Hw|reflexivity]].
Defined.
End CorrectExamples.
