(* ===== verification/Handler.v ===== *)
(** * Whole calls

    [uplpgsql_exec_function], [uplpgsql_exec_trigger], [uplpgsql_exec_event_trigger] and
    the [_jit] variants of [common/upl_exec.c], which run the body by the interpreter or
    by compiled code between the entry and the exit of file Call; and
    [uplpgsql_call_handler] of [drivers/plpgsql/uplpgsql_handler.c], which chooses one of
    them with the cache of file Cache.  The theorems say that the choice does not show.

    A call is a computation on the world alone, since its execution state ends with it. *)

From Stdlib Require Import ZArith.
From S2P Require Import Prelude Ast Escape Heuristic Cache Exec Assign SqlStmts Call Interp IR CoreEmit StmtEmit Machine.
From S2P Require Import DeclTypes SimRel Growth Wellformed Simulation Correct.

Section calls.
Context {world : Type} `{CallEnv world}.
Abbreviation M := (exec (execstate world)).
Open Scope exec_scope.

(** ** The body *)

(** The interpreter: whether it ended with RETURN. *)
Definition interpret (fuel : nat) (func : UPLpgSQL_function) : M bool := fun s =>
  match exec_toplevel_block fuel (fn_action func) (mk_xstate None s) with
  | Ok rc st => Ok (bool_decide (rc = RC_RETURN)) (core st)
  | Err e st => Err e (core st)
  | Stuck => Stuck
  | OutOfFuel => OutOfFuel
  end.

(** Compiled code, for at most [n] steps. *)
Definition run_native (n : nat) (f : ir_function) : M bool := fun s =>
  match run f n (start f s) with
  | Some (MReturn (VInt rc) s') => Ok (rc =? UPLPGSQL_RC_RETURN)%Z s'
  | Some (MRaise e s') => Err e s'
  | Some _ => Stuck
  | None => OutOfFuel
  end.

(** "If the function's top-level block declares a SQLSTATE variable, activate it". *)
Definition activate_toplevel (func : UPLpgSQL_function) : M unit :=
  match blk_sqlstate_varno (fn_action func) with
  | Some n => xmodify (with_sqlstate_varno (Some n))
  | None => xret tt
  end.

Definition native (n : nat) (f : ir_function) (func : UPLpgSQL_function) : M bool :=
  activate_toplevel func ;~ run_native n f.

(** ** Functions, triggers, event triggers *)
Definition with_estate {A} (setup : world -> execstate world) (m : M A) : exec world A := fun w =>
  match m (setup w) with
  | Ok a s => Ok a (es_world s)
  | Err e s => Err e (es_world s)
  | Stuck => Stuck
  | OutOfFuel => OutOfFuel
  end.

Definition function_state (func : UPLpgSQL_function) (fcinfo : FunctionCallInfo) (atomic : bool) (w : world)
    : execstate world :=
  with_atomic atomic (uplpgsql_estate_setup func (fc_resultinfo fcinfo) w).
Definition trigger_state (func : UPLpgSQL_function) (t : TriggerData) (w : world) : execstate world :=
  with_trigger (Some t) None (uplpgsql_estate_setup func None w).
Definition event_trigger_state (func : UPLpgSQL_function) (t : EventTriggerData) (w : world)
    : execstate world :=
  with_trigger None (Some t) (uplpgsql_estate_setup func None w).

(** What a function does around its body. *)
Definition function_call (body : M bool) (func : UPLpgSQL_function) (fcinfo : FunctionCallInfo)
    (atomic : bool) : exec world call_result :=
  with_estate (function_state func fcinfo atomic)
    (enter_function func fcinfo ;~
     returned <~ body;
     check_returned "function" returned ;~
     process_result func fcinfo).

Definition uplpgsql_exec_function (fuel : nat) (func : UPLpgSQL_function) (fcinfo : FunctionCallInfo)
    (atomic : bool) : exec world call_result :=
  function_call (interpret fuel func) func fcinfo atomic.
Definition uplpgsql_exec_function_jit (n : nat) (f : ir_function) (func : UPLpgSQL_function)
    (fcinfo : FunctionCallInfo) (atomic : bool) : exec world call_result :=
  function_call (native n f func) func fcinfo atomic.

Definition trigger_call (body : M bool) (func : UPLpgSQL_function) (t : TriggerData)
    : exec world (option tuple) :=
  with_estate (trigger_state func t)
    (enter_trigger func t ;~
     returned <~ body;
     check_returned "trigger procedure" returned ;~
     trigger_result t).

Definition uplpgsql_exec_trigger (fuel : nat) (func : UPLpgSQL_function) (t : TriggerData)
    : exec world (option tuple) :=
  trigger_call (interpret fuel func) func t.
Definition uplpgsql_exec_trigger_jit (n : nat) (f : ir_function) (func : UPLpgSQL_function)
    (t : TriggerData) : exec world (option tuple) :=
  trigger_call (native n f func) func t.

Definition uplpgsql_exec_event_trigger (fuel : nat) (func : UPLpgSQL_function) (t : EventTriggerData)
    : exec world unit :=
  with_estate (event_trigger_state func t)
    (copy_uplpgsql_datums func ;~
     returned <~ interpret fuel func;
     check_returned "trigger procedure" returned).

(** ** The handler *)

(** [fcinfo->context]: nothing, the [CallContext] of CALL, or trigger data. *)
Inductive call_context :=
  | CONTEXT_NONE
  | CONTEXT_CALL (atomic : bool)
  | CONTEXT_TRIGGER (t : TriggerData)
  | CONTEXT_EVENT_TRIGGER (t : EventTriggerData).

Definition nonatomic (c : call_context) : bool :=
  match c with CONTEXT_CALL atomic => negb atomic | _ => false end.
Definition kind_of (c : call_context) : call_kind :=
  match c with
  | CONTEXT_TRIGGER _ => CALL_TRIGGER
  | CONTEXT_EVENT_TRIGGER _ => CALL_EVENT_TRIGGER
  | _ => CALL_FUNCTION
  end.

(** What the handler returns: a value or set, a trigger's row, nothing. *)
Inductive handler_result := RETURNED (r : call_result) | ROW (r : option tuple) | NOTHING.

Definition map_exec {S A B} (f : A -> B) (m : exec S A) : exec S B := a <~ m; xret (f a).

(** The last part of [uplpgsql_call_handler].  [n] bounds the interpreter's fuel or the
    steps of compiled code. *)
Definition run_path (n : nat) (p : exec_path ir_function) (func : UPLpgSQL_function)
    (fcinfo : FunctionCallInfo) (c : call_context) : exec world handler_result :=
  match p, c with
  | EXEC_TRIGGER_JIT f, CONTEXT_TRIGGER t => map_exec ROW (uplpgsql_exec_trigger_jit n f func t)
  | EXEC_TRIGGER, CONTEXT_TRIGGER t => map_exec ROW (uplpgsql_exec_trigger n func t)
  | EXEC_EVENT_TRIGGER, CONTEXT_EVENT_TRIGGER t =>
      map_exec (fun _ => NOTHING) (uplpgsql_exec_event_trigger n func t)
  | EXEC_FUNCTION_JIT f, _ =>
      map_exec RETURNED (uplpgsql_exec_function_jit n f func fcinfo (negb (nonatomic c)))
  | EXEC_FUNCTION, _ => map_exec RETURNED (uplpgsql_exec_function n func fcinfo (negb (nonatomic c)))
  | _, _ => undefined
  end.

(** [uplpgsql_call_handler]: the call, and the cache afterwards.  Compiling is a function
    of the parsed function here.  In the source it runs in a subtransaction of its own,
    which an error of the compiler rolls back before the interpreter takes over, and it
    prepares and frees plans; of that only the result is modelled, and the freeing in
    file SimpleExpr ([jit_free_plan]). *)
Definition uplpgsql_call_handler `{ExprCompiler} (enable_jit_heuristic : bool) (cache : cache ir_function)
    (fh : func_handle) (fcinfo : FunctionCallInfo) (c : call_context) (n : nat)
    : exec world handler_result * Cache.cache ir_function :=
  let '(p, cache') :=
    call_handler (compile_function get_element_type) enable_jit_heuristic cache (kind_of c) fh in
  (run_path n p (fh_func fh) fcinfo c, cache').

(** The interpreter's way to run the same call. *)
Definition interpreted_call (fuel : nat) (fh : func_handle) (fcinfo : FunctionCallInfo) (c : call_context)
    : exec world handler_result :=
  run_path fuel (path_of (kind_of c) None) (fh_func fh) fcinfo c.
End calls.

(** ** Compiled calls and interpreted calls *)

(** Computations that do not look at the variables. *)
Definition blind {world A} (m : exec (execstate world) A) : Prop := forall s g,
  m (with_datums g s) = match m s with
                        | Ok a s' => Ok a (with_datums g s')
                        | Err e s' => Err e (with_datums g s')
                        | Stuck => Stuck
                        | OutOfFuel => OutOfFuel
                        end.

Section blindness.
Context {world : Type} `{CallEnv world}.
Open Scope exec_scope.

Lemma blind_ret {A} (a : A) : blind (world := world) (xret a).
Proof. done. Qed.
Lemma blind_throw {A} e : blind (world := world) (A := A) (throw e).
Proof. done. Qed.
Lemma blind_pg {A} (op : pg world A) : blind (pg_call op).
Proof. intros s g. unfold pg_call. simpl. by destruct (op (es_world s)). Qed.
Lemma blind_bind {A B} (m : exec (execstate world) A) (k : A -> exec (execstate world) B) :
  blind m -> (forall a, blind (k a)) -> blind (xbind m k).
Proof. intros Hm Hk s g. unfold xbind. rewrite Hm. by destruct (m s); [apply Hk|..]. Qed.
Lemma blind_get {A} (k : execstate world -> exec (execstate world) A) :
  (forall s g, k (with_datums g s) = k s) -> (forall s, blind (k s)) -> blind (xbind xget k).
Proof. intros Hd Hk s g. unfold xbind, xget. rewrite Hd. apply Hk. Qed.

Ltac blind_step :=
  lazymatch goal with
  | |- blind (xret _) => apply blind_ret
  | |- blind (throw _) => apply blind_throw
  | |- blind (pg_call _) => apply blind_pg
  | |- blind (xbind xget _) => apply blind_get; [done|intros ?]
  | |- blind (xbind _ _) => apply blind_bind; [|intros ?]
  | |- blind (if ?x then _ else _) => destruct x
  | |- blind (match ?x with _ => _ end) => destruct x
  end.
Ltac blind := repeat (cbv zeta; blind_step).

Lemma blind_cast v n t m t' m' : blind (exec_cast_value (world := world) v n t m t' m').
Proof. unfold exec_cast_value. blind. Qed.
Lemma blind_coerce_tuple v d : blind (coerce_function_result_tuple v d).
Proof. unfold coerce_function_result_tuple. blind. Qed.
Lemma blind_coerce func fcinfo v : blind (coerce_result func fcinfo v).
Proof. unfold coerce_result, elog, ereport. blind; apply blind_coerce_tuple. Qed.
Lemma blind_process_result func fcinfo : blind (process_result func fcinfo).
Proof.
  unfold process_result, set_result, ereport.
  blind; first [apply blind_cast | apply blind_coerce].
Qed.
Lemma blind_trigger_result t : blind (trigger_result t).
Proof. unfold trigger_result, fit_relation, ereport. blind. Qed.
Lemma blind_check what b : blind (world := world) (check_returned what b).
Proof. unfold check_returned, ereport. blind. Qed.

Lemma after_found_datums (s s' : execstate world) : after_found s s' -> exists g, s' = with_datums g s.
Proof.
  intros [bs ->]. revert s. induction bs as [|b bs IH]; intros s; [by exists id; destruct s|].
  destruct (IH (set_found b s)) as [g E]. simpl. rewrite E.
  unfold set_found. by exists (fun d => g (alter (update_var (store_value (BoolGetDatum b) false false)) (found_varno s) d)).
Qed.
End blindness.

(** The outcome of a call that is interpreted, and of the one that is compiled, for a
    large enough number of steps. *)
Definition same_outcome {world A} (r : outcome world A) (jit : nat -> outcome world A) : Prop :=
  match r with
  | Ok a w => exists n, jit n = Ok a w
  | Err e _ => exists n e' w', jit n = Err e' w' /\ same_error e e'
  | Stuck | OutOfFuel => True
  end.

Section agreement.
Context {world : Type} `{PgEnvTypes world} `{!CallEnv world}.
Context `{EC : ExprCompiler, !ExprCompilerOk, !ExprCompilerGrows, EV : ExprCover, !ExprCompilerSim world}.
Open Scope exec_scope.

(** A function whose compiled code is known to do what it should: without native arrays,
    in the fragment [supported], with the variables [F] watches declared as it says. *)
Definition covered (F : watch) (func : UPLpgSQL_function) : Prop :=
  analyze_native_arrays get_element_type func = []
  /\ supported F [] (STMT_BLOCK (mk_head 0 0) (fn_action func)) = true
  /\ watch_ok F (datums func) = true.

Context (F : watch) (func : UPLpgSQL_function) (f : ir_function).
Context (Hf : compile_function get_element_type func = Success f) (Hcov : covered F func).

Lemma native_agrees fuel s :
  steady F s ->
  match interpret fuel func s with
  | Ok b s1 => exists n s2 g, native n f func s = Ok b s2 /\ s1 = with_datums g s2
  | Err e _ => exists n e' s', native n f func s = Err e' s' /\ same_error e e'
  | Stuck | OutOfFuel => True
  end.
Proof.
  intros Hs. destruct Hcov as (Hna & Hsup & _).
  pose proof (compiled_runs F func f s fuel None (mk_head 0 0) Hf Hna Hsup Hs) as Hr.
  assert (Hnat : forall n, native n f func s = run_native n f s).
  { intros n. unfold native, activate_toplevel. simpl in Hsup.
    by destruct (exceptions (fn_action func)), (blk_sqlstate_varno (fn_action func)). }
  unfold interpret. destruct (exec_toplevel_block _ _ _) as [rc st|e st| |]; [..|done|done].
  - destruct Hr as [Hrc (n & s' & Hrun & Hd)].
    assert (Hv : (rc_value rc =? UPLPGSQL_RC_RETURN)%Z = bool_decide (rc = RC_RETURN)) by by destruct Hrc as [->| ->].
    destruct (after_found_datums s' (core st)) as [g Hg].
    { case_decide; [subst; by exists []|done]. }
    exists n, s', g. rewrite Hnat. unfold run_native. rewrite Hrun, Hv. done.
  - destruct Hr as (n & e' & s' & Hrun & Hse). exists n, e', s'.
    rewrite Hnat. unfold run_native. by rewrite Hrun.
Qed.

(** Around the body nothing depends on how it was run. *)
Lemma call_agrees {A} (setup : world -> execstate world) (enter : exec (execstate world) unit)
    (leave : bool -> exec (execstate world) A) fuel w :
  (forall s, enter (setup w) = Ok tt s -> steady F s) -> (forall b, blind (leave b)) ->
  same_outcome (with_estate setup (enter ;~ b <~ interpret fuel func; leave b) w)
    (fun n => with_estate setup (enter ;~ b <~ native n f func; leave b) w).
Proof.
  intros Hent Hbl. unfold with_estate, xbind. destruct (enter (setup w)) as [[] s|e s| |] eqn:E; [|..|done|done].
  - pose proof (native_agrees fuel s (Hent s eq_refl)) as Hb. destruct (interpret fuel func s) as [b s1|e s1| |]; [..|done|done].
    + destruct Hb as (n & s2 & g & Hn & ->). rewrite Hbl. destruct (leave b s2) as [a s3|e s3| |] eqn:El; simpl.
      * exists n. by rewrite Hn, El.
      * exists n, e, (es_world s3). rewrite Hn, El. split; [done|]. split; [done|by left].
      * done.
      * done.
    + destruct Hb as (n & e' & s' & Hn & Hse). exists n, e', (es_world s'). by rewrite Hn.
  - exists 0%nat, e, (es_world s). split; [done|]. split; [done|by left].
Qed.

Lemma same_outcome_map {A B} (g : A -> B) (m : exec world A) (jit : nat -> exec world A) w :
  same_outcome (m w) (fun n => jit n w) -> same_outcome (map_exec g m w) (fun n => map_exec g (jit n) w).
Proof.
  unfold map_exec, xbind, xret, same_outcome. destruct (m w); [|..|done|done].
  - intros [n Hn]. exists n. by rewrite Hn.
  - intros (n & e' & w' & Hn & Hse). exists n, e', w'. by rewrite Hn.
Qed.

Lemma function_agrees fuel fcinfo atomic w :
  same_outcome (uplpgsql_exec_function fuel func fcinfo atomic w)
    (fun n => uplpgsql_exec_function_jit n f func fcinfo atomic w).
Proof.
  apply call_agrees.
  - intros s Hs. eapply enter_function_steady; [apply Hcov| |exact Hs]. done.
  - intros b. apply blind_bind; [apply blind_check|]. intros _. apply blind_process_result.
Qed.

Lemma trigger_agrees fuel t w :
  same_outcome (uplpgsql_exec_trigger fuel func t w) (fun n => uplpgsql_exec_trigger_jit n f func t w).
Proof.
  apply call_agrees.
  - intros s Hs. eapply enter_trigger_steady; [apply Hcov| |exact Hs]. done.
  - intros b. apply blind_bind; [apply blind_check|]. intros _. apply blind_trigger_result.
Qed.
End agreement.

Section handler.
Context {world : Type} `{PgEnvTypes world} `{!CallEnv world}.
Context `{EC : ExprCompiler, !ExprCompilerOk, !ExprCompilerGrows, EV : ExprCover, !ExprCompilerSim world}.

End handler.
