(* ===== verification/InlinedCorrect.v ===== *)
(** * Functions with inlined expressions do what the interpreter does

    The composition of the whole development: the statement compiler (file StmtEmit)
    with the expression compiler (file ExprEmit) as its inliner, run by the machine
    (file Machine), against the interpreter (file Interp) with PostgreSQL's evaluation
    of expressions (file SqlEval). *)

From Stdlib Require Import ZArith.
From S2P Require Import Prelude Ast Escape Cache Expr Exec Assign SqlStmts Call Interp IR CoreEmit StmtEmit ExprEmit.
From S2P Require Import Wellformed Machine ExprWf DeclTypes SqlEval SimRel Correct Handler Inlining Demo ExprDemo.

Section inlined.
Context {world : Type} `{PgEnvTypes world} `{CompileEnv} `{!ExprInputOk} `{!NativeEval world}.

(** C3: The compiled code of a function in the fragment of [supported] (see file
    Correct) does what the interpreter does, with the native expressions of its
    conditions and assignments compiled to machine arithmetic: the same code, variables
    and return value where the interpreter ends, and where it raises an error
    (overflow, division by zero, ... included) one with the same SQLSTATE and, but for a
    NULL FOR bound and an overflow of bigint, the same message.  [native_cover] says
    which conditions and assignments are meant: those no tier inlines, and those whose
    expression is native and whose variables are watched, declared and not boolean, in
    which an operand that can fail shares its variables with its sibling ([null_safe]),
    and which are assigned to a nullable variable of their own type or have no
    variables.  BY values are positive constants. *)
Theorem inlined_function_agrees (F : watch) func f (s0 : execstate world) fuel label h :
  @compile_function expr_compiler get_element_type func = Success f ->
  analyze_native_arrays get_element_type func = [] ->
  supported F [] (STMT_BLOCK h (fn_action func)) = true -> steady F s0 ->
  match exec_toplevel_block fuel (fn_action func) (mk_xstate label s0) with
  | Ok rc st => (rc = RC_OK \/ rc = RC_RETURN) /\
      exists n s', run f n (start f s0) = Some (MReturn (VInt (rc_value rc)) s')
                   /\ (if decide (rc = RC_OK) then s' = core st else after_found s' (core st))
  | Err e _ => exists n e' s', run f n (start f s0) = Some (MRaise e' s') /\ same_error e e'
  | Stuck | OutOfFuel => True
  end.
Proof. by apply (compiled_runs F func f s0 fuel label h). Qed.
End inlined.

Module InlinedExamples.
Import Demo.
#[local] Existing Instance ExprDemo.env.

(** PostgreSQL on the demonstration's queries: the trees of file ExprDemo are evaluated
    as file SqlEval says, the rest as in file Demo. *)
Definition sql_simple (e : UPLpgSQL_expr) : exec (execstate world) (option typed_value) := fun s =>
  match ExprDemo.tree (query e) with
  | Some x =>
      let type := class_type (uplpgsql_classify_expr x) in
      match sql_eval (es_datums s) x with
      | RVal v => Ok (Some (mk_tv (datum_of_value v) false type (-1)%Z)) s
      | RNull => Ok (Some (mk_tv 0 true type (-1)%Z)) s
      | RError fn => Err (raise_error fn) s
      | RStuck => Ok (evaluate (query e) s) s
      end
  | None => Ok (evaluate (query e) s) s
  end.
#[local] Instance sql_env : PgEnv world := env_with sql_simple.

#[local] Instance sql_env_types : PgEnvTypes world.
Proof. apply CorrectExamples.env_with_types. intros e st a st'. unfold sql_simple. repeat case_match; by intros [= <- <-]. Qed.

Lemma prepared_tree e : prepared e = ExprDemo.tree (query e).
Proof. unfold prepared. simpl. by destruct (ExprDemo.tree (query e)). Qed.

#[local] Instance sql_native_eval : NativeEval world.
Proof.
  split; [done|]. intros e x s He Hn Hk Hp. rewrite prepared_tree in He. simpl. unfold sql_simple. rewrite He.
  destruct (sql_eval (es_datums s) x); try done. eexists _, _. split; [done|]. split; [done|by left].
Qed.

#[local] Instance demo_input_ok : ExprInputOk.
Proof.
  constructor. intros e x He. rewrite prepared_tree in He. unfold ExprDemo.tree in He. repeat case_match; by simplify_eq.
Qed.

#[local] Existing Instance expr_compiler.
Definition watch_list : list (nat * var_info) :=
  [(1, mk_info INT4OID (-1)%Z false); (2, mk_info INT4OID (-1)%Z false)].

(** [x := 2147483647; x := x + 1]. *)
Definition overflow : UPLpgSQL_function := func [set_x "2147483647"; set_x "x + 1"].

(** The demonstration function returns 9, and the overflow is raised by compiled code. *)
Lemma inlined_function_agrees_witness :
  match compile_function get_element_type sum, compile_function get_element_type overflow with
  | Success f, Success g =>
      (exists n s', run f n (start f (state variables [])) = Some (MReturn (VInt 2) s')
                    /\ retval s' = 9%Z /\ es_world s' = ["x"])
      /\ (exists n e s', run g n (start g (state variables [])) = Some (MRaise e s')
                         /\ same_error (raise_error ERR_rt_int_overflow) e)
  | _, _ => False
  end.
Proof.
  destruct (compile_function get_element_type sum) as [f|msg] eqn:E; [|vm_compute in E; discriminate].
  destruct (compile_function get_element_type overflow) as [g|msg] eqn:E'; [|vm_compute in E'; discriminate].
  pose proof (CorrectExamples.steady_start variables [] watch_list eq_refl) as Hs. split.
  - pose proof (inlined_function_agrees (list_to_map watch_list) sum f _ 20 None h E eq_refl eq_refl Hs) as Ha.
    destruct (exec_toplevel_block 20 (fn_action sum) _) as [rc st| | |] eqn:Ex;
      [|vm_compute in Ex; discriminate..].
    vm_compute in Ex. injection Ex as <- <-.
    destruct Ha as (_ & n & s' & Hrun & Haf). destruct (after_found_keeps _ _ Haf) as (Hv & Hw & _).
    exists n, s'. split; [exact Hrun|]. split; [etrans; [exact Hv|reflexivity]|etrans; [exact Hw|reflexivity]].
  - pose proof (inlined_function_agrees (list_to_map watch_list) overflow g _ 20 None h E' eq_refl eq_refl Hs) as Ha.
    destruct (exec_toplevel_block 20 (fn_action overflow) _) as [|err st| |] eqn:Ex;
      [vm_compute in Ex; discriminate| |vm_compute in Ex; discriminate..].
    vm_compute in Ex. injection Ex as <- <-.
    exact Ha.
Defined.

(** Two calls of the demonstration function: the first compiles it, the second runs the
    code in the cache. *)
Definition handle : func_handle := mk_handle sum 100%Z (mk_tid 0 1) 4096%Z.
Definition fcinfo : FunctionCallInfo := mk_fcinfo [] None.
Abbreviation compile := (compile_function (get_element_type (world := world))).
Definition warm_cache : cache ir_function := (call_handler compile false upl_cache_init CALL_FUNCTION handle).2.

Lemma warm_reached : reaches compile upl_cache_init [handle] warm_cache.
Proof.
  apply (reaches_call compile upl_cache_init false CALL_FUNCTION handle
           (call_handler compile false upl_cache_init CALL_FUNCTION handle).1 warm_cache [] warm_cache).
  - unfold warm_cache. by destruct (call_handler _ _ _ _ _).
  - constructor.
Qed.

Lemma sum_covered : covered (list_to_map watch_list) sum.
Proof. split; [|split]; by vm_compute. Qed.

End InlinedExamples.
