(* ===== verification/ParamProps.v ===== *)
(** * Reading variables from expressions: properties

    The callbacks that [uplpgsql_param_compile] installs read what [exec_eval_datum]
    reads, made read-only where the value could be an expanded object; and only one
    parameter of an expression ever hands out a read/write pointer. *)

From Stdlib Require Import ZArith Lia.
From stdpp Require Import gmap.
From S2P Require Import Prelude Ast Expr Exec Assign Call Params SimpleExpr.
#[local] Open Scope Z_scope.

(** The macro [MakeExpandedObjectReadOnly] of [utils/expandeddatum.h]. *)
Class ReadOnlyLaws (world : Type) `{PgEnv world} : Prop := {
  read_only_other w v null typlen :
    negb null && (typlen =? -1) && is_expanded_rw w v = false ->
    MakeExpandedObjectReadOnly w v null typlen = v;
  read_only_result w v : is_expanded_rw w (MakeExpandedObjectReadOnly w v false (-1)) = false
}.

Section props.
Context {world : Type} `{ParamEnv world} `{!ReadOnlyLaws world}.
Abbreviation M := (exec (execstate world)).
Open Scope exec_scope.

Lemma read_only_off_varlena w v null typlen :
  typlen <> -1 -> MakeExpandedObjectReadOnly w v null typlen = v.
Proof. intros Ht. apply read_only_other. apply Z.eqb_neq in Ht. by rewrite Ht, andb_false_r. Qed.

(** ** What a parameter should be *)

(** The value of [exec_eval_datum], read-only if it can be an expanded object. *)
Definition expanded_typlen (d : UPLpgSQL_datum) : option Z :=
  match d with
  | DTYPE_VAR v | DTYPE_PROMISE v => Some (typlen (var_datatype v))
  | DTYPE_REC _ => Some (-1)
  | DTYPE_ROW _ | DTYPE_RECFIELD _ => None
  end.
Definition param_reference (op : cparam) : M (Datum * bool) :=
  d <~ get_datum (dno_of op);
  tv <~ exec_eval_datum (dno_of op);
  check_param_type op (tv_type tv) ;~
  s <~ xget;
  xret (match expanded_typlen d with
        | Some l => MakeExpandedObjectReadOnly (es_world s) (tv_value tv) (tv_isnull tv) l
        | None => tv_value tv
        end, tv_isnull tv).

(** What parse analysis sees to: a [Param] for a simple variable has its type. *)
Definition typed_param (op : cparam) (d : UPLpgSQL_datum) : Prop :=
  match d with DTYPE_VAR v => typoid (var_datatype v) = cp_paramtype op | _ => True end.
(** The variable is not the assignment's target with a read/write value. *)
Definition not_rw_target (w : world) (op : cparam) (d : UPLpgSQL_datum) : Prop :=
  match d with
  | DTYPE_VAR v => cp_paramid op - 1 = target_param (paramarg op) -> is_rw w v = false
  | _ => True
  end.

Lemma xbind_ok {S A B} (m : exec S A) (k : A -> exec S B) s a s' : m s = Ok a s' -> xbind m k s = k a s'.
Proof. intros E. unfold xbind. by rewrite E. Qed.

Lemma compiled_step param s op s' :
  uplpgsql_param_compile param s = Ok op s' ->
  s' = s /\ exists e c d, parserSetupArg s = Some e /\ session_cell (session_of (es_world s)) e = Some c
    /\ es_datums s !! dno_of op = Some d
    /\ op = mk_cparam (select_func d (pn_id param - 1) e (bool_decide (is_Some (expr_simple_expr c))))
              e param (pn_id param) (pn_type param).
Proof.
  unfold uplpgsql_param_compile, get_cell, get_datum, xbind, xget, xret.
  destruct (parserSetupArg s) as [e|] eqn:Ee; [|done].
  destruct (session_cell _ e) as [c|] eqn:Ec; [|done].
  destruct (es_datums s !! Z.to_nat (pn_id param - 1)) as [d|] eqn:Ed; [|done].
  intros [= <- <-]. split; [done|]. by exists e, c, d.
Qed.

Lemma get_datum_ok n d (s : execstate world) : es_datums s !! n = Some d -> get_datum n s = Ok d s.
Proof. intros E. unfold get_datum, xbind, xget. by rewrite E. Qed.

Lemma param_var_ok op v (s : execstate world) :
  es_datums s !! dno_of op = Some (DTYPE_VAR v) -> param_var (dno_of op) s = Ok v s.
Proof. intros E. unfold param_var. by rewrite (xbind_ok _ _ _ _ _ (get_datum_ok _ _ _ E)). Qed.

Lemma eval_datum_var_ok op v (s : execstate world) :
  es_datums s !! dno_of op = Some (DTYPE_VAR v) ->
  exec_eval_datum (dno_of op) s =
    Ok (mk_tv (value v) (isnull v) (typoid (var_datatype v)) (atttypmod (var_datatype v))) s.
Proof.
  intros E. unfold exec_eval_datum, eval_field, eval_datum_var, get_var, get_datum, xbind, xget.
  by rewrite E; cbn; rewrite E; cbn; rewrite E.
Qed.

(** The reference on a simple variable. *)
Lemma reference_var op v (s : execstate world) :
  es_datums s !! dno_of op = Some (DTYPE_VAR v) -> typoid (var_datatype v) = cp_paramtype op ->
  param_reference op s =
    Ok (MakeExpandedObjectReadOnly (es_world s) (value v) (isnull v) (typlen (var_datatype v)), isnull v) s.
Proof.
  intros E Ht. unfold param_reference. rewrite (xbind_ok _ _ _ _ _ (get_datum_ok _ _ _ E)).
  rewrite (xbind_ok _ _ _ _ _ (eval_datum_var_ok _ _ _ E)). unfold check_param_type. cbn.
  rewrite Ht, Z.eqb_refl. done.
Qed.

(** A callback as it is when it is compiled. *)
Definition eval_step (tree i : nat) (op : cparam) : M (Datum * bool) :=
  match paramfunc op with
  | param_eval_var_check => uplpgsql_param_eval_var_check tree i op
  | f => eval_with f op
  end.

Lemma compiled_var tree i op v (s : execstate world) :
  es_datums s !! dno_of op = Some (DTYPE_VAR v) -> typed_param op (DTYPE_VAR v) ->
  not_rw_target (es_world s) op (DTYPE_VAR v) ->
  (exists simple, paramfunc op = select_func (DTYPE_VAR v) (cp_paramid op - 1) (paramarg op) simple) ->
  eval_step tree i op s = param_reference op s.
Proof.
  intros E Ht Hrw [simple Hf]. rewrite (reference_var _ _ _ E Ht). unfold eval_step. rewrite Hf. cbn.
  destruct (Z.eqb_spec (typlen (var_datatype v)) (-1)) as [Hl|Hl]; cbn.
  - destruct (_ =? target_param _) eqn:Et; cbn; [destruct simple; cbn|].
    + apply Z.eqb_eq in Et. specialize (Hrw Et). unfold uplpgsql_param_eval_var_check.
      rewrite (xbind_ok _ _ _ _ _ (param_var_ok _ _ _ E)). cbn. rewrite Hrw. cbn.
      rewrite read_only_other; [done|]. unfold is_rw in Hrw. by destruct (isnull v), (_ =? _).
    + unfold uplpgsql_param_eval_var_ro. by rewrite (xbind_ok _ _ _ _ _ (param_var_ok _ _ _ E)), Hl.
    + unfold uplpgsql_param_eval_var_ro. by rewrite (xbind_ok _ _ _ _ _ (param_var_ok _ _ _ E)), Hl.
  - unfold uplpgsql_param_eval_var. rewrite (xbind_ok _ _ _ _ _ (param_var_ok _ _ _ E)).
    by rewrite read_only_off_varlena.
Qed.

(** [exec_eval_datum], the type test and a final read of the value. *)
Lemma compiled_other tree i op d (s : execstate world) :
  es_datums s !! dno_of op = Some d -> (forall v, d <> DTYPE_VAR v) ->
  (exists simple, paramfunc op = select_func d (cp_paramid op - 1) (paramarg op) simple) ->
  eval_step tree i op s = param_reference op s.
Proof.
  intros E Hd [simple Hf]. unfold param_reference. rewrite (xbind_ok _ _ _ _ _ (get_datum_ok _ _ _ E)).
  unfold eval_step. rewrite Hf. destruct d as [v|r|r|f|v]; cbn; [by destruct (Hd v)|done|done| |].
  - unfold uplpgsql_param_eval_recfield, exec_eval_datum, eval_field, get_datum, xbind, xget.
    by repeat (rewrite E; cbn).
  - destruct (Z.eqb_spec (typlen (var_datatype v)) (-1)) as [->|Hl]; [done|]. cbn.
    unfold uplpgsql_param_eval_generic, xbind. destruct (exec_eval_datum _ s) as [tv s1| | |]; try done.
    destruct (check_param_type op (tv_type tv) s1); try done. cbn. by rewrite read_only_off_varlena.
Qed.

(** C32: The callback that [uplpgsql_param_compile] installs for a parameter behaves, on
    every kind of datum and on errors too, like the reference: it takes the value from
    [exec_eval_datum], fails if the value's type is not the one the plan was made for,
    and delivers a value that could be an expanded object read-only.  Excepted is the
    target of the assignment while it holds a read/write object ([not_rw_target]), about
    which the part on read/write pointers below says more.  A simple variable is taken to have the
    type that the parser gave its [Param] ([typed_param]): [uplpgsql_param_eval_var] and
    its kin do not test it. *)
Theorem param_callbacks_agree tree i param op d (s s' : execstate world) :
  uplpgsql_param_compile param s = Ok op s' ->
  es_datums s !! dno_of op = Some d -> typed_param op d -> not_rw_target (es_world s) op d ->
  eval_step tree i op s = param_reference op s.
Proof.
  intros Hc Hd Ht Hrw. destruct (compiled_step _ _ _ _ Hc) as [-> (e & c & d' & _ & _ & Hd' & Hop)].
  assert (d' = d) as -> by congruence.
  assert (exists simple, paramfunc op = select_func d (cp_paramid op - 1) (paramarg op) simple) as Hf
    by (rewrite Hop; by eexists).
  destruct d as [v|r|r|f|v]; [by apply (compiled_var _ _ _ v)|by eapply compiled_other..].
Qed.

(** ** The read/write optimisation *)

(** The references to a parameter. *)
Fixpoint references (paramid : Z) (nodes : list param_node) : list param_node :=
  match nodes with
  | [] => []
  | n :: rest =>
      if is_extern (pn_kind n) && (pn_id n =? paramid)
      then n :: references paramid rest else references paramid rest
  end.

Lemma count_from_one paramid nodes a :
  match references paramid nodes with
  | [] => count_param_references paramid nodes 1 a = (1%nat, a)
  | _ => (count_param_references paramid nodes 1 a).1 = 2%nat
  end.
Proof. induction nodes as [|n nodes IH]; cbn; [done|]. by destruct (is_extern _ && _). Qed.

Lemma count_references paramid nodes :
  match references paramid nodes with
  | [] => count_param_references paramid nodes 0 None = (0%nat, None)
  | [n] => count_param_references paramid nodes 0 None = (1%nat, Some (node_addr n))
  | _ => (count_param_references paramid nodes 0 None).1 = 2%nat
  end.
Proof.
  induction nodes as [|n nodes IH]; cbn; [done|]. destruct (is_extern _ && _); [|done].
  pose proof (count_from_one paramid nodes (Some (node_addr n))). by destruct (references paramid nodes).
Qed.

(** The cell of an expression after [put_cell]. *)
Lemma put_cell_ok e f (s : execstate world) :
  put_cell e f s = Ok tt (with_world (set_session
    (with_cells (alter f (expr_addr e)) (session_of (es_world s))) (es_world s)) s).
Proof. done. Qed.

Definition cell_of (e : UPLpgSQL_expr) (s : execstate world) : option simple_cell :=
  session_cell (session_of (es_world s)) e.

Lemma cell_of_put e f s s' c :
  put_cell e f s = Ok tt s' -> cell_of e s = Some c -> cell_of e s' = Some (f c).
Proof.
  rewrite put_cell_ok. intros [= <-] Hc. unfold cell_of, session_cell in *. destruct s. cbn in *.
  rewrite session_set. cbn. rewrite lookup_alter_eq. by rewrite Hc.
Qed.

(** What [exec_check_rw_parameter] may decide without asking a support function. *)
Definition transferable (e : UPLpgSQL_expr) (sexpr : Expr) : option nat :=
  if target_is_local e
  then match references (target_param e + 1) (expression_params sexpr) with
       | [n] => Some (node_addr n)
       | _ => None
       end
  else None.

(** The support function and the transfer do not run functions of the language. *)
Definition keeps_session {A} (op : pg world A) : Prop :=
  forall w a w', op w = PgOk a w' -> session_of w' = session_of w.
Context (support_quiet : forall f r, keeps_session (modify_in_place f r)).
Context (transfer_quiet : forall v, keeps_session (TransferExpandedObject v)).

Definition trees_of (s : execstate world) : gmap nat (list cparam) := trees (session_of (es_world s)).

Lemma put_cell_frame e f s s' :
  put_cell e f s = Ok tt s' -> trees_of s' = trees_of s /\ es_datums s' = es_datums s.
Proof. rewrite put_cell_ok. intros [= <-]. unfold trees_of. destruct s. cbn. by rewrite session_set. Qed.

Lemma pg_call_quiet {A} (op : pg world A) a (s s' : execstate world) :
  keeps_session op -> pg_call op s = Ok a s' ->
  session_of (es_world s') = session_of (es_world s) /\ es_datums s' = es_datums s.
Proof.
  intros Hq. unfold pg_call. destruct (op (es_world s)) as [a' w|] eqn:E; [|done].
  intros [= <- <-]. destruct s. cbn. split; [by eapply Hq|done].
Qed.

(** What the in-place rule may leave in a cell. *)
Definition in_place_result (c : simple_cell) (c' : simple_cell) : Prop :=
  c' = c \/ exists p, c' = with_rw UPLPGSQL_RWOPT_INPLACE (Some p) c.

Lemma check_in_place_ok e sexpr paramid c s s' :
  cell_of e s = Some c -> check_in_place e sexpr paramid s = Ok tt s' ->
  trees_of s' = trees_of s /\ es_datums s' = es_datums s /\
  exists c', cell_of e s' = Some c' /\ in_place_result c c'.
Proof.
  intros Hc. unfold check_in_place, xbind, xret. destruct (top_function sexpr) as [[f args]|].
  2: intros [= <-]; repeat split; exists c; by split; [|left].
  case_match eqn:Es; [intros [= <-]; repeat split; exists c; by split; [|left]|].
  destruct (pg_call _ s) as [r s1| | |] eqn:E; try done.
  destruct (pg_call_quiet _ _ _ _ (support_quiet _ _) E) as [Hs Hd].
  assert (cell_of e s1 = Some c) as Hc1 by (unfold cell_of; by rewrite Hs).
  destruct r as [p|]; intros Hp.
  - destruct (put_cell_frame _ _ _ _ Hp) as [Ht Hd']. rewrite Ht, Hd', Hd. unfold trees_of. rewrite Hs.
    repeat split. eexists. split; [by eapply cell_of_put|]. right. by exists p.
  - injection Hp as <-. unfold trees_of. rewrite Hs. repeat split; [done|]. exists c. by split; [|left].
Qed.

(** The decision, as the reference states it. *)
Definition rw_decision (e : UPLpgSQL_expr) (sexpr : Expr) (c c' : simple_cell) : Prop :=
  match transferable e sexpr with
  | Some a => c' = with_rw UPLPGSQL_RWOPT_TRANSFER (Some a) c
  | None => in_place_result (with_rw UPLPGSQL_RWOPT_NOPE None c) c'
  end.

Lemma check_rw_ok e sexpr c s s' :
  cell_of e s = Some c -> expr_simple_expr c = Some sexpr ->
  exec_check_rw_parameter e (target_param e + 1) s = Ok tt s' ->
  trees_of s' = trees_of s /\ es_datums s' = es_datums s /\
  exists c', cell_of e s' = Some c' /\ rw_decision e sexpr c c'.
Proof.
  intros Hc Hsexpr. unfold exec_check_rw_parameter, get_cell. unfold cell_of in Hc.
  unfold xbind, xget, xret. rewrite Hc, Hsexpr.
  destruct (put_cell e (with_rw UPLPGSQL_RWOPT_NOPE None) s) as [[] s1| | |] eqn:E; try done.
  pose proof (cell_of_put _ _ _ _ _ E Hc) as Hc1. destruct (put_cell_frame _ _ _ _ E) as [<- <-].
  unfold rw_decision, transferable.
  pose proof (count_references (target_param e + 1) (expression_params sexpr)) as Hn.
  assert (forall s', check_in_place e sexpr (target_param e + 1) s1 = Ok tt s' ->
    trees_of s' = trees_of s1 /\ es_datums s' = es_datums s1 /\ exists c', cell_of e s' = Some c' /\
    in_place_result (with_rw UPLPGSQL_RWOPT_NOPE None c) c') as Hin
    by (intros s2; by apply check_in_place_ok).
  destruct (target_is_local e); [|exact (Hin s')].
  destruct (references _ _) as [|n [|n' l]]; rewrite ?Hn; cbn; [exact (Hin s')| |exact (Hin s')].
  intros Hp. destruct (put_cell_frame _ _ _ _ Hp) as [Ht Hd]. repeat split; [done..|].
  eexists. split; [by eapply cell_of_put|]. done.
Qed.

(** C34: The decision of [exec_check_rw_parameter] about an assignment's target: the
    object is transferred if and only if the target is local and the expression's tree
    refers to it by exactly one parameter, which is then the parameter recorded;
    otherwise the expression is left without optimisation, or with the parameter a
    support function named. *)
Theorem transfer_needs_sole_reference e sexpr c s s' :
  cell_of e s = Some c -> expr_simple_expr c = Some sexpr ->
  exec_check_rw_parameter e (target_param e + 1) s = Ok tt s' ->
  exists c', cell_of e s' = Some c' /\
    match transferable e sexpr with
    | Some a => c' = with_rw UPLPGSQL_RWOPT_TRANSFER (Some a) c
    | None => in_place_result (with_rw UPLPGSQL_RWOPT_NOPE None c) c'
    end.
Proof. intros Hc Hs He. by destruct (check_rw_ok e sexpr c s s' Hc Hs He) as (_ & _ & ?). Qed.

(** ** Reading a datum *)

(** The kind of a datum, with the length of a variable's type. *)
Inductive datum_kind := KIND_VAR (len : Z) | KIND_PROMISE (len : Z) | KIND_ROW | KIND_REC | KIND_RECFIELD.
Definition kind (d : UPLpgSQL_datum) : datum_kind :=
  match d with
  | DTYPE_VAR v => KIND_VAR (typlen (var_datatype v))
  | DTYPE_PROMISE v => KIND_PROMISE (typlen (var_datatype v))
  | DTYPE_ROW _ => KIND_ROW
  | DTYPE_REC _ => KIND_REC
  | DTYPE_RECFIELD _ => KIND_RECFIELD
  end.
Lemma kind_alter g n (l : list UPLpgSQL_datum) :
  (forall d, kind (g d) = kind d) -> map kind (alter g n l) = map kind l.
Proof.
  intros Hg. apply list_eq. intros i. rewrite !list_lookup_fmap. destruct (decide (i = n)) as [->|Hne].
  - rewrite list_lookup_alter_eq. destruct (l !! n); cbn; [by rewrite Hg|done].
  - by rewrite list_lookup_alter_ne.
Qed.

(** An operation that leaves the session and the kinds of the datums alone. *)
Record undisturbed (s s' : execstate world) : Prop := {
  und_session : session_of (es_world s') = session_of (es_world s);
  und_kinds : map kind (es_datums s') = map kind (es_datums s)
}.
#[local] Instance undisturbed_preorder : PreOrder undisturbed.
Proof. split; [by split|]. intros s1 s2 s3 [] []. split; congruence. Qed.

(** The functions that fulfil promises and read records and rows run no functions of the
    language. *)
Class QuietReads : Prop := {
  quiet_text t : keeps_session (CStringGetTextDatum t);
  quiet_name n : keeps_session (namein n);
  quiet_namespace n : keeps_session (get_namespace_name n);
  quiet_array ds lb : keeps_session (construct_text_array ds lb);
  quiet_detoast v : keeps_session (detoast_external_attr v);
  quiet_copy v b l : keeps_session (datumCopy v b l);
  quiet_rectypeid r : keeps_session (current_rectypeid r);
  quiet_empty_record t m : keeps_session (make_expanded_record_from_typeid t m);
  quiet_delete v : keeps_session (DeleteExpandedObject v);
  quiet_row_datum d t : keeps_session (HeapTupleGetDatum d t)
}.
Context `{!QuietReads}.

Definition reads {A} (m : M A) : Prop := forall s a s', m s = Ok a s' -> undisturbed s s'.

Lemma reads_ret {A} (a : A) : reads (xret a).
Proof. by intros s b s' [= _ <-]. Qed.
Lemma reads_get : reads xget.
Proof. by intros s b s' [= _ <-]. Qed.
Lemma reads_bind {A B} (m : M A) (k : A -> M B) : reads m -> (forall a, reads (k a)) -> reads (xbind m k).
Proof.
  intros Hm Hk s b s'. unfold xbind. destruct (m s) as [a s1| | |] eqn:E; try done. intros Eb.
  etrans; [by eapply Hm|by eapply Hk].
Qed.
Lemma reads_stop {A} (m : M A) : (forall s a s', m s <> Ok a s') -> reads m.
Proof. intros Hm s a s' E. by destruct (Hm s a s'). Qed.
Lemma reads_pg {A} (op : pg world A) : keeps_session op -> reads (pg_call op).
Proof. intros Hop s a s' E. destruct (pg_call_quiet _ _ _ _ Hop E) as [Hs Hd]. split; [done|by rewrite Hd]. Qed.
Lemma reads_datum n : reads (get_datum n).
Proof. intros s a s'. unfold get_datum, xbind, xget. destruct (_ !! n); [by intros [= _ <-]|done]. Qed.
Lemma reads_store g n : (forall d, kind (g d) = kind d) -> reads (xmodify (with_datums (alter g n))).
Proof. intros Hg s a s' [= _ <-]. by split; [|apply kind_alter]. Qed.

Ltac reads_leaf :=
  first [ apply reads_ret | apply reads_get | apply reads_datum | by apply reads_stop
        | apply reads_pg; first [ apply quiet_text | apply quiet_name | apply quiet_namespace | apply quiet_array
            | apply quiet_detoast | apply quiet_copy | apply quiet_rectypeid | apply quiet_empty_record
            | apply quiet_delete | apply quiet_row_datum ]
        | apply reads_store; by intros [] ].
Ltac reads_step :=
  lazymatch goal with
  | |- forall _, _ => intro
  | |- reads (xbind _ _) => apply reads_bind
  | |- reads (if ?b then _ else _) => destruct b
  | |- reads (match ?x with _ => _ end) => destruct x
  | |- _ => first [reads_leaf | solve [auto with reads]]
  end.
Ltac reading := repeat (cbv zeta; reads_step).

Lemma reads_assign_simple n v b f : reads (assign_simple_var n v b f).
Proof. unfold assign_simple_var, get_var, put_var. reading. Qed.
Create HintDb reads discriminated.
#[local] Hint Resolve reads_assign_simple : reads.
Lemma reads_text_datums l : reads (text_datums l).
Proof. induction l; cbn; reading. Qed.
#[local] Hint Resolve reads_text_datums : reads.
Lemma reads_fulfill n : reads (uplpgsql_fulfill_promise n).
Proof.
  unfold uplpgsql_fulfill_promise, fulfill_trigger, text_or_error, assign_name, assign_text_var, get_var.
  reading.
Qed.
Lemma reads_erh n : reads (get_erh n).
Proof.
  unfold get_erh, instantiate_empty_record_variable, revalidate_rectypeid, get_rec, put_rec. reading.
Qed.
Lemma reads_field n e f : reads (lookup_field n e f).
Proof. unfold lookup_field, get_rec. reading. Qed.
#[local] Hint Resolve reads_fulfill reads_erh reads_field : reads.
Lemma reads_eval_field n : reads (eval_field n).
Proof. unfold eval_field, eval_datum_var, eval_datum_rec, eval_datum_recfield, get_var. reading. Qed.
#[local] Hint Resolve reads_eval_field : reads.
Lemma reads_row_values ats : forall vs, reads (row_values ats vs).
Proof. induction ats; intros [|n vs]; cbn; reading. Qed.
#[local] Hint Resolve reads_row_values : reads.
(** Reading a datum changes values only. *)
Lemma reads_eval_datum n : reads (exec_eval_datum n).
Proof. unfold exec_eval_datum, eval_datum_row, make_tuple_from_row. reading. Qed.

(** ** Read/write pointers *)

Definition is_varlena_var (d : UPLpgSQL_datum) : bool :=
  match d with DTYPE_VAR v => typlen (var_datatype v) =? -1 | _ => false end.

(** The step of a varlena variable fits what has been decided for its expression. *)
Definition varlena_step_ok (e : UPLpgSQL_expr) (sexpr : Expr) (c : simple_cell) (op : cparam) : Prop :=
  match paramfunc op with
  | param_eval_var_check =>
      cp_paramid op = target_param e + 1
      /\ paramarg2 op ∈ references (target_param e + 1) (expression_params sexpr)
  | param_eval_var_ro => True
  | param_eval_var_transfer =>
      expr_rwopt c = UPLPGSQL_RWOPT_TRANSFER /\ expr_rw_param c = Some (node_addr (paramarg2 op))
  | param_eval_var =>
      expr_rwopt c = UPLPGSQL_RWOPT_INPLACE /\ expr_rw_param c = Some (node_addr (paramarg2 op))
  | _ => False
  end.
(** Any other step is the one [uplpgsql_param_compile] chose. *)
Definition step_ok (e : UPLpgSQL_expr) (sexpr : Expr) (c : simple_cell) (ds : list UPLpgSQL_datum) (op : cparam)
    : Prop :=
  paramarg op = e /\ exists d, ds !! dno_of op = Some d /\
  if is_varlena_var d then varlena_step_ok e sexpr c op
  else paramfunc op = select_func d (cp_paramid op - 1) e true.
Definition cell_ok (e : UPLpgSQL_expr) (sexpr : Expr) (c : simple_cell) : Prop :=
  expr_rwopt c = UPLPGSQL_RWOPT_TRANSFER ->
  exists a, transferable e sexpr = Some a /\ expr_rw_param c = Some a.

(** The steps of a tree all do. *)
Definition tree_ok (e : UPLpgSQL_expr) (sexpr : Expr) (t : nat) (s : execstate world) : Prop :=
  exists c ops, cell_of e s = Some c /\ expr_simple_expr c = Some sexpr /\ cell_ok e sexpr c
    /\ trees_of s !! t = Some ops /\ Forall (step_ok e sexpr c (es_datums s)) ops.

(** Parameter [a] may deliver a read/write pointer. *)
Definition may_deliver_rw (e : UPLpgSQL_expr) (a : nat) (s : execstate world) : Prop :=
  exists c, cell_of e s = Some c /\ expr_rw_param c = Some a
    /\ (expr_rwopt c = UPLPGSQL_RWOPT_TRANSFER \/ expr_rwopt c = UPLPGSQL_RWOPT_INPLACE).

(** What has been decided for an expression. *)
Definition decision (c : simple_cell) : option Expr * rwopt * option nat :=
  (expr_simple_expr c, expr_rwopt c, expr_rw_param c).
Definition decided (c : simple_cell) : Prop := expr_rwopt c <> UPLPGSQL_RWOPT_UNKNOWN.

(** *** A tree stays in order *)

Lemma kind_lookup (ds ds' : list UPLpgSQL_datum) n d :
  map kind ds' = map kind ds -> ds !! n = Some d -> exists d', ds' !! n = Some d' /\ kind d' = kind d.
Proof.
  intros Hs Hd. assert (map kind ds' !! n = Some (kind d)) as E
    by (by rewrite Hs, list_lookup_fmap, Hd).
  rewrite list_lookup_fmap in E. destruct (ds' !! n) as [d'|]; [|done]. injection E as E. by exists d'.
Qed.
Lemma kind_select d d' dno e b : kind d' = kind d -> select_func d' dno e b = select_func d dno e b.
Proof. destruct d, d'; try done; cbn; intros [= Hl]; by rewrite Hl. Qed.
Lemma kind_varlena d d' : kind d' = kind d -> is_varlena_var d' = is_varlena_var d.
Proof. destruct d, d'; try done; cbn; intros [= Hl]; by rewrite Hl. Qed.
Lemma step_ok_kinds e sexpr c c' ds ds' op :
  map kind ds' = map kind ds -> decision c' = decision c -> step_ok e sexpr c ds op -> step_ok e sexpr c' ds' op.
Proof.
  intros Hs [= _ Ho Hp] [He (d & Hd & Hok)]. split; [done|]. destruct (kind_lookup _ _ _ _ Hs Hd) as (d' & Hd' & Hsh).
  exists d'. split; [done|]. rewrite (kind_varlena _ _ Hsh), (kind_select _ _ _ _ _ Hsh).
  destruct (is_varlena_var d); [|done]. unfold varlena_step_ok in *. by rewrite Ho, Hp.
Qed.

Lemma tree_ok_kept e sexpr t s s' :
  map kind (es_datums s') = map kind (es_datums s) ->
  decision <$> cell_of e s' = decision <$> cell_of e s -> trees_of s' !! t = trees_of s !! t ->
  tree_ok e sexpr t s -> tree_ok e sexpr t s'.
Proof.
  intros Hs Hdec Ht (c & ops & Hc & Hsx & Hco & Hops & Hok). rewrite Hc in Hdec.
  destruct (cell_of e s') as [c'|] eqn:Hc'; [|done]. injection Hdec as Hx Ho Hp.
  exists c', ops. rewrite Ht. split; [done|]. split; [congruence|]. split; [|split; [done|]].
  - unfold cell_ok in *. by rewrite Ho, Hp.
  - eapply Forall_impl; [|exact Hok]. intros op. apply step_ok_kinds; [done|]. unfold decision. congruence.
Qed.
Lemma tree_ok_undisturbed e sexpr t s s' : undisturbed s s' -> tree_ok e sexpr t s -> tree_ok e sexpr t s'.
Proof. intros [Hs Hd]. apply tree_ok_kept; [done|unfold cell_of|unfold trees_of]; by rewrite Hs. Qed.

Lemma step_ok_decided e sexpr c c' ds op :
  step_ok e sexpr c ds op -> expr_rwopt c = UPLPGSQL_RWOPT_UNKNOWN -> step_ok e sexpr c' ds op.
Proof.
  intros [He (d & Hd & Hf)] Hu. split; [done|]. exists d. split; [done|]. destruct (is_varlena_var d); [|done].
  unfold varlena_step_ok in *. destruct (paramfunc op); try done; destruct Hf; congruence.
Qed.

(** The function chosen fits the decision: the assertion of the transfer case. *)
Lemma chosen_ok e sexpr c op f :
  varlena_step_ok e sexpr c op -> paramfunc op = param_eval_var_check -> cell_ok e sexpr c ->
  chosen_func c (paramarg2 op) = Some f -> varlena_step_ok e sexpr c (with_paramfunc f op).
Proof.
  unfold varlena_step_ok. intros Hop Hf Hc. rewrite Hf in Hop. destruct Hop as [Hid Hin].
  unfold chosen_func, cell_ok in *. cbn.
  destruct (expr_rwopt c) eqn:Eo; [done|intros [= <-]; done| |case_bool_decide; intros [= <-]; by split].
  destruct (Hc eq_refl) as (a & Ha & Hp). intros [= <-]. split; [done|]. rewrite Hp.
  unfold transferable in Ha. destruct (target_is_local e); [|done].
  destruct (references _ _) as [|n [|]]; [done| |done]. apply list_elem_of_singleton in Hin. congruence.
Qed.

(** After the decision the cell is in order, and is not undecided any more. *)
Lemma rw_decision_ok e sexpr c c' :
  rw_decision e sexpr c c' -> expr_simple_expr c' = expr_simple_expr c /\ cell_ok e sexpr c' /\ decided c'.
Proof.
  unfold rw_decision, cell_ok, decided. destruct (transferable e sexpr) as [a|].
  - intros ->. split; [done|]. split; [|done]. intros _. by exists a.
  - intros [->|[p ->]]; done.
Qed.

(** *** The callbacks that do not choose another one *)

Lemma reads_with f op : reads (eval_with f op).
Proof.
  assert (reads (param_var (dno_of op))) as Hvar by (unfold param_var; reading).
  assert (forall ty, reads (check_param_type op ty)) as Hty by (intros ty; unfold check_param_type; reading).
  pose proof (reads_eval_datum (dno_of op)) as Hev. pose proof (fun v => reads_pg _ (transfer_quiet v)) as Htr.
  destruct f; cbn; unfold uplpgsql_param_eval_var, uplpgsql_param_eval_var_ro, uplpgsql_param_eval_var_transfer,
    uplpgsql_param_eval_recfield, uplpgsql_param_eval_generic, uplpgsql_param_eval_generic_ro,
    eval_datum_recfield, put_var; reading; auto.
Qed.

(** A value delivered read-only. *)
Lemma generic_ro_result op s val s' :
  uplpgsql_param_eval_generic_ro op s = Ok (val, false) s' -> is_expanded_rw (es_world s') val = false.
Proof.
  unfold uplpgsql_param_eval_generic_ro, xbind. destruct (exec_eval_datum _ s) as [tv s1| | |]; try done.
  destruct (check_param_type op (tv_type tv) s1) as [u s2| | |]; try done. cbn. intros [= <- Hn <-].
  rewrite Hn. apply read_only_result.
Qed.
Lemma var_ro_result op s val s' :
  uplpgsql_param_eval_var_ro op s = Ok (val, false) s' -> is_expanded_rw (es_world s') val = false.
Proof.
  unfold uplpgsql_param_eval_var_ro, xbind. destruct (param_var _ s) as [v s1| | |]; try done. cbn.
  intros [= <- Hn <-]. rewrite Hn. apply read_only_result.
Qed.

(** A function run on a step that fits it delivers a read/write pointer only as
    recorded. *)
Lemma fitting_step e sexpr c op d f s val s' :
  cell_of e s = Some c -> step_ok e sexpr c (es_datums s) (with_paramfunc f op) ->
  es_datums s !! dno_of op = Some d -> expanded_typlen d = Some (-1) ->
  eval_with f op s = Ok (val, false) s' -> is_expanded_rw (es_world s') val = true ->
  may_deliver_rw e (node_addr (paramarg2 op)) s.
Proof.
  intros Hc [_ (d' & Hd' & Hok)] Hd Hexp He Hrw. assert (d' = d) as -> by (change (dno_of (with_paramfunc f op)) with (dno_of op) in Hd'; congruence). clear Hd'.
  destruct (is_varlena_var d) eqn:Hv.
  - unfold varlena_step_ok in Hok. cbn in Hok.
    destruct f; try done; [exists c; destruct Hok; auto..|]. apply var_ro_result in He. congruence.
  - cbn in Hok. assert (f = param_eval_generic_ro) as ->.
    { rewrite Hok. destruct d; cbn in *; try done; injection Hexp as Hl; by rewrite Hl in *. }
    apply generic_ro_result in He. congruence.
Qed.

Lemma set_paramfunc_ok t i f (s s' : execstate world) :
  set_paramfunc t i f s = Ok tt s' ->
  trees_of s' = alter (alter (with_paramfunc f) i) t (trees_of s) /\ es_datums s' = es_datums s
  /\ forall e, cell_of e s' = cell_of e s.
Proof.
  intros [= <-]. unfold trees_of, cell_of, session_cell. destruct s. cbn. by rewrite session_set.
Qed.

(** *** The checking function *)

(** Its step is one of a varlena variable. *)
Lemma check_step e sexpr c ds op :
  step_ok e sexpr c ds op -> paramfunc op = param_eval_var_check ->
  paramarg op = e /\ varlena_step_ok e sexpr c op /\
  exists v, ds !! dno_of op = Some (DTYPE_VAR v) /\ is_varlena_var (DTYPE_VAR v) = true.
Proof.
  intros [He (d & Hd & Hok)] Hf. destruct (is_varlena_var d) eqn:Hv.
  - split; [done|]. split; [done|]. destruct d as [v| | | |]; try done. by exists v.
  - exfalso. rewrite Hf in Hok. destruct d; cbn in *; try done; [|by destruct (_ =? _)].
    rewrite Hv in Hok. done.
Qed.

(** Its decision, and the step that results. *)
Lemma check_decides e sexpr t c i ops op s s' :
  cell_of e s = Some c -> expr_simple_expr c = Some sexpr -> cell_ok e sexpr c ->
  trees_of s !! t = Some ops -> Forall (step_ok e sexpr c (es_datums s)) ops -> ops !! i = Some op ->
  paramfunc op = param_eval_var_check ->
  (if bool_decide (expr_rwopt c = UPLPGSQL_RWOPT_UNKNOWN)
   then exec_check_rw_parameter e (cp_paramid op) else xret tt) s = Ok tt s' ->
  exists c', cell_of e s' = Some c' /\ expr_simple_expr c' = Some sexpr /\ cell_ok e sexpr c'
    /\ trees_of s' !! t = Some ops /\ Forall (step_ok e sexpr c' (es_datums s)) ops
    /\ es_datums s' = es_datums s /\ (decided c -> c' = c).
Proof.
  intros Hc Hsx Hco Ht Hops Hi Hf. case_bool_decide as Hu; [|intros [= <-]; by exists c].
  destruct (check_step _ _ _ _ _ (Forall_lookup_1 _ _ _ _ Hops Hi) Hf) as (_ & Hop & _).
  unfold varlena_step_ok in Hop. rewrite Hf in Hop. destruct Hop as [-> _].
  intros He. destruct (check_rw_ok _ _ _ _ _ Hc Hsx He) as (Ht' & Hd' & c' & Hc' & Hdec).
  destruct (rw_decision_ok _ _ _ _ Hdec) as (Hsx' & Hco' & _). exists c'. rewrite Ht', Hsx', Hd'.
  repeat split; try done. eapply Forall_impl; [|exact Hops]. intros o Ho. by eapply step_ok_decided.
Qed.

(** What a callback does for the tree [t] of [e] that asks for datum [d] by [op]. *)
Definition callback_fine (e : UPLpgSQL_expr) (sexpr : Expr) (t : nat) (op : cparam) (d : UPLpgSQL_datum)
    (s : execstate world) (val : Datum) (null : bool) (s' : execstate world) : Prop :=
  tree_ok e sexpr t s' /\ (forall c, cell_of e s = Some c -> decided c -> cell_of e s' = Some c) /\
  (null = false -> expanded_typlen d = Some (-1) -> is_expanded_rw (es_world s') val = true ->
   may_deliver_rw e (node_addr (paramarg2 op)) s').

Lemma may_deliver_session e a s s' : undisturbed s s' -> may_deliver_rw e a s -> may_deliver_rw e a s'.
Proof. intros [Hs _] (c & Hok). exists c. unfold cell_of. by rewrite Hs. Qed.

(** The end of the checking function: it passes off to the one chosen. *)
Lemma passed_off e sexpr t i c ops op d f s s1 s2 val null s' :
  cell_of e s1 = Some c -> expr_simple_expr c = Some sexpr -> cell_ok e sexpr c ->
  trees_of s1 !! t = Some ops -> Forall (step_ok e sexpr c (es_datums s1)) ops -> ops !! i = Some op ->
  paramfunc op = param_eval_var_check -> es_datums s1 !! dno_of op = Some d ->
  chosen_func c (paramarg2 op) = Some f -> set_paramfunc t i f s1 = Ok tt s2 ->
  (forall c0, cell_of e s = Some c0 -> decided c0 -> c0 = c) ->
  eval_with f op s2 = Ok (val, null) s' -> callback_fine e sexpr t op d s val null s'.
Proof.
  intros Hc Hsx Hco Ht Hops Hi Hf Hd Ef Eset Hdec He.
  destruct (set_paramfunc_ok _ _ _ _ _ Eset) as (Ht2 & Hd2 & Hc2).
  pose proof (Forall_lookup_1 _ _ _ _ Hops Hi) as Hstep.
  destruct (check_step _ _ _ _ _ Hstep Hf) as (Harg & Hvl & v & Hv & Hvar).
  assert (step_ok e sexpr c (es_datums s2) (with_paramfunc f op)) as Hnew.
  { split; [done|]. exists (DTYPE_VAR v). rewrite Hd2. split; [done|]. rewrite Hvar. by apply chosen_ok. }
  pose proof (reads_with f op s2 _ s' He) as Hun.
  assert (tree_ok e sexpr t s2) as Htree.
  { exists c, (alter (with_paramfunc f) i ops). rewrite Hc2, Ht2, lookup_alter_eq, Ht, Hd2. repeat split; try done.
    cbn. apply Forall_alter; [done|]. intros o Ho _. assert (o = op) as -> by congruence. by rewrite Hd2 in Hnew. }
  split; [by eapply tree_ok_undisturbed|]. split.
  - intros c0 Hc0 Hd0. destruct Hun as [Hs _]. unfold cell_of in *. rewrite Hs, Hc2, Hc. f_equal. symmetry. by apply Hdec.
  - intros -> Hexp Hrw. eapply may_deliver_session; [exact Hun|].
    eapply fitting_step; try done; [by rewrite Hc2|by rewrite Hd2].
Qed.

Lemma check_callback e sexpr t i op d s val null s' :
  tree_ok e sexpr t s -> trees_of s !! t ≫= (.!! i) = Some op ->
  paramfunc op = param_eval_var_check -> es_datums s !! dno_of op = Some d ->
  uplpgsql_param_eval_var_check t i op s = Ok (val, null) s' -> callback_fine e sexpr t op d s val null s'.
Proof.
  intros Htree Hop Hf Hd. destruct Htree as (c & ops & Hc & Hsx & Hco & Ht & Hops). rewrite Ht in Hop. cbn in Hop.
  pose proof (Forall_lookup_1 _ _ _ _ Hops Hop) as Hstep.
  destruct (check_step _ _ _ _ _ Hstep Hf) as (Harg & _ & v & Hv & _).
  assert (d = DTYPE_VAR v) as -> by congruence.
  unfold uplpgsql_param_eval_var_check. rewrite (xbind_ok _ _ _ _ _ (param_var_ok _ _ _ Hv)).
  unfold xbind at 1, xget at 1. destruct (is_rw (es_world s) v) eqn:Erw.
  2: { intros [= <- Hn <-]. split; [by exists c, ops|]. split; [done|]. intros -> _ E.
       unfold is_rw in Erw. by rewrite Hn, E in Erw. }
  unfold get_cell, xbind, xget. rewrite Harg. unfold cell_of in Hc. rewrite Hc. cbn beta iota. unfold xret at 1.
  destruct ((if bool_decide (expr_rwopt c = UPLPGSQL_RWOPT_UNKNOWN)
             then exec_check_rw_parameter e (cp_paramid op) else xret tt) s) as [[] s1| | |] eqn:Edec; try done.
  destruct (check_decides e sexpr t c i ops op s s1) as (c1 & Hc1 & Hsx1 & Hco1 & Ht1 & Hops1 & Hd1 & Hdec); try done.
  unfold cell_of in Hc1. rewrite Hc1. unfold xret at 1.
  destruct (chosen_func c1 (paramarg2 op)) as [f|] eqn:Ef; [|done].
  destruct (set_paramfunc t i f s1) as [[] s2| | |] eqn:Eset; try done.
  apply (passed_off e sexpr t i c1 ops op (DTYPE_VAR v) f s s1 s2); try done; rewrite ?Hd1; try done.
  intros c0 Hc0 Hdec0. unfold cell_of in Hc0. assert (c0 = c) as -> by congruence. symmetry. by apply Hdec.
Qed.

(** *** Every callback *)
Lemma every_callback e sexpr t i op d s val null s' :
  tree_ok e sexpr t s -> trees_of s !! t ≫= (.!! i) = Some op -> es_datums s !! dno_of op = Some d ->
  param_callback t i s = Ok (val, null) s' -> callback_fine e sexpr t op d s val null s'.
Proof.
  intros Htree Hop Hd He. unfold param_callback, xbind, xget in He. fold (trees_of s) in He. rewrite Hop in He.
  assert (eval_with (paramfunc op) op s = Ok (val, null) s' -> callback_fine e sexpr t op d s val null s') as Hplain.
  { intros Hev. pose proof (reads_with _ _ _ _ _ Hev) as Hun. split; [by eapply tree_ok_undisturbed|]. split.
    - intros c Hc _. destruct Hun as [Hs _]. unfold cell_of in *. by rewrite Hs.
    - intros -> Hexp Hrw. eapply may_deliver_session; [exact Hun|].
      destruct Htree as (c & ops & Hc & _ & _ & Ht & Hops). rewrite Ht in Hop. cbn in Hop.
      eapply fitting_step; try done. replace (with_paramfunc (paramfunc op) op) with op by (by destruct op).
      by eapply Forall_lookup_1. }
  destruct (paramfunc op) eqn:Hf; try by apply Hplain. by eapply check_callback.
Qed.

(** *** A new tree *)

Lemma in_references p nodes :
  p ∈ nodes -> is_extern (pn_kind p) = true -> p ∈ references (pn_id p) nodes.
Proof.
  intros Hp Hx. induction Hp as [p nodes|p q nodes _ IH]; cbn.
  - rewrite Hx, Z.eqb_refl. left.
  - destruct (is_extern (pn_kind q) && _); [right|]; by apply IH.
Qed.

Lemma compiled_ok e sexpr c p op s s' :
  parserSetupArg s = Some e -> cell_of e s = Some c -> expr_simple_expr c = Some sexpr ->
  p ∈ expression_params sexpr -> is_extern (pn_kind p) = true ->
  uplpgsql_param_compile p s = Ok op s' -> s' = s /\ step_ok e sexpr c (es_datums s) op.
Proof.
  intros He Hc Hsx Hp Hx Hop. destruct (compiled_step _ _ _ _ Hop) as (-> & e' & c' & d & He' & Hc' & Hd & ->).
  assert (e' = e) as -> by congruence. unfold cell_of in Hc. assert (c' = c) as -> by congruence.
  split; [done|]. split; [done|]. exists d. split; [done|]. rewrite Hsx. cbn.
  destruct (is_varlena_var d) eqn:Hv; [|done]. destruct d as [v| | | |]; try done. unfold varlena_step_ok. cbn in *.
  rewrite Hv. cbn. destruct (Z.eqb_spec (pn_id p - 1) (target_param e)) as [Ht|Ht]; cbn; [|done].
  rewrite <- Ht, Z.sub_add. split; [done|]. by apply in_references.
Qed.

Lemma compile_params_fit e sexpr c s ps :
  parserSetupArg s = Some e -> cell_of e s = Some c -> expr_simple_expr c = Some sexpr ->
  Forall (fun p => p ∈ expression_params sexpr /\ is_extern (pn_kind p) = true) ps ->
  forall ops s', compile_params ps s = Ok ops s' -> s' = s /\ Forall (step_ok e sexpr c (es_datums s)) ops.
Proof.
  intros He Hc Hsx. induction 1 as [|p ps [Hp Hx] _ IH]; cbn; intros ops s'; [by intros [= <- <-]|].
  unfold xbind. destruct (uplpgsql_param_compile p s) as [op s1| | |] eqn:E; try done.
  destruct (compiled_ok _ _ _ _ _ _ _ He Hc Hsx Hp Hx E) as [-> Hop].
  destruct (compile_params ps s) as [rest s2| | |]; try done. destruct (IH _ _ eq_refl) as [-> Hrest].
  intros [= <- <-]. split; [done|]. by constructor.
Qed.

Lemma new_tree_ok e sexpr c t s s' :
  parserSetupArg s = Some e -> cell_of e s = Some c -> expr_simple_expr c = Some sexpr -> cell_ok e sexpr c ->
  ExecInitExprWithParams sexpr s = Ok t s' -> tree_ok e sexpr t s'.
Proof.
  intros He Hc Hsx Hco. unfold ExecInitExprWithParams, xbind. set (ps := List.filter _ _).
  assert (Forall (fun p => p ∈ expression_params sexpr /\ is_extern (pn_kind p) = true) ps) as Hps.
  { apply List.Forall_forall. intros p Hp%filter_In. by rewrite list_elem_of_In. }
  destruct (compile_params ps s) as [ops s1| | |] eqn:E; try done.
  destruct (compile_params_fit _ _ _ _ _ He Hc Hsx Hps _ _ E) as [-> Hops]. cbn. intros [= <- <-].
  exists c, ops. unfold cell_of, session_cell, trees_of in *. destruct s. cbn in *. rewrite session_set. cbn.
  by rewrite lookup_insert_eq.
Qed.

(** *** All evaluations of a tree *)

(** What may happen while a tree lives: its callbacks run, in any order, and between
    them anything that leaves the kinds of the datums, the tree's steps and what has been
    decided for the expression alone (the variables may be assigned). *)
Inductive evaluations (e : UPLpgSQL_expr) (t : nat) (s : execstate world) : execstate world -> Prop :=
  | ev_none : evaluations e t s s
  | ev_callback i v s1 s2 :
      evaluations e t s s1 -> param_callback t i s1 = Ok v s2 -> evaluations e t s s2
  | ev_between s1 s2 :
      evaluations e t s s1 -> map kind (es_datums s2) = map kind (es_datums s1) ->
      decision <$> cell_of e s2 = decision <$> cell_of e s1 -> trees_of s2 !! t = trees_of s1 !! t ->
      evaluations e t s s2.

(** Callback [i] of tree [t], step [op], delivers a read/write pointer to an expanded
    object for a datum that can hold one. *)
Definition delivers_rw (t i : nat) (op : cparam) (s s' : execstate world) : Prop := exists d val,
  trees_of s !! t ≫= (.!! i) = Some op /\ es_datums s !! dno_of op = Some d /\ expanded_typlen d = Some (-1)
  /\ param_callback t i s = Ok (val, false) s' /\ is_expanded_rw (es_world s') val = true.

Lemma may_deliver_decided e a s s' :
  (forall c, cell_of e s = Some c -> decided c -> cell_of e s' = Some c) ->
  may_deliver_rw e a s -> may_deliver_rw e a s'.
Proof.
  intros Hk (c & Hc & Hp & Ho). exists c. split; [|done]. apply Hk; [done|]. unfold decided. by destruct Ho as [->| ->].
Qed.

Lemma evaluations_ok e sexpr t s s' : evaluations e t s s' -> tree_ok e sexpr t s ->
  tree_ok e sexpr t s' /\ forall a, may_deliver_rw e a s -> may_deliver_rw e a s'.
Proof.
  intros He Htree. induction He as [|i [val null] s1 s2 _ [IH Hmay] Hcb|s1 s2 _ [IH Hmay] Hk Hdec Ht]; [done|..].
  - pose proof IH as (c & ops & Hc & Hsx & Hco & Hops & Hok).
    destruct (trees_of s1 !! t ≫= (.!! i)) as [op|] eqn:Hop.
    2: { unfold param_callback, xbind, xget in Hcb. fold (trees_of s1) in Hcb. by rewrite Hop in Hcb. }
    pose proof Hop as Hi. rewrite Hops in Hi. destruct (Forall_lookup_1 _ _ _ _ Hok Hi) as [_ (d & Hd & _)].
    destruct (every_callback e sexpr t i op d s1 val null s2) as (Htree' & Hkeep & _); try done.
    split; [done|]. intros a Ha. by eapply may_deliver_decided, Hmay.
  - split; [by eapply tree_ok_kept|]. intros a Ha. destruct (Hmay _ Ha) as (c & Hc & Hp & Ho). rewrite Hc in Hdec.
    destruct (cell_of e s2) as [c'|] eqn:Hc'; [|done]. injection Hdec as _ Eo Ep. exists c'. by rewrite Eo, Ep.
Qed.

Lemma delivered e sexpr t i op s s' :
  tree_ok e sexpr t s -> delivers_rw t i op s s' ->
  tree_ok e sexpr t s' /\ may_deliver_rw e (node_addr (paramarg2 op)) s'.
Proof.
  intros Htree (d & val & Hop & Hd & Hexp & Hcb & Hrw).
  destruct (every_callback e sexpr t i op d s val false s') as (? & _ & Hmay); try done. split; [done|by apply Hmay].
Qed.

(** C33: Of all the parameters of an expression's tree at most one ever delivers a
    read/write pointer to an expanded object.  From the moment [ExecInitExprWithParams]
    has made the tree, whatever callbacks run, in whatever order, and whatever values
    the variables are given between them: a parameter that delivers a read/write pointer
    is the one [exec_check_rw_parameter] recorded, and every later one that does is the
    same.  (Planning the expression anew ends the tree's life.  The values meant are those
    of varlena variables and of records.) *)
Theorem one_read_write_parameter e sexpr c t i j op op' s0 s1 s s' s2 s3 :
  parserSetupArg s0 = Some e -> cell_of e s0 = Some c -> expr_simple_expr c = Some sexpr -> cell_ok e sexpr c ->
  ExecInitExprWithParams sexpr s0 = Ok t s1 ->
  evaluations e t s1 s -> delivers_rw t i op s s' ->
  evaluations e t s' s2 -> delivers_rw t j op' s2 s3 ->
  may_deliver_rw e (node_addr (paramarg2 op)) s' /\ node_addr (paramarg2 op') = node_addr (paramarg2 op).
Proof.
  intros He Hc Hsx Hco Hinit Hev Hdel Hev' Hdel'.
  pose proof (new_tree_ok _ _ _ _ _ _ He Hc Hsx Hco Hinit) as Htree.
  destruct (evaluations_ok _ _ _ _ _ Hev Htree) as [Htree1 _].
  destruct (delivered _ _ _ _ _ _ _ Htree1 Hdel) as [Htree2 Hmay]. split; [done|].
  destruct (evaluations_ok _ _ _ _ _ Hev' Htree2) as [Htree3 Hlater].
  destruct (delivered _ _ _ _ _ _ _ Htree3 Hdel') as [Htree4 Hmay'].
  assert (may_deliver_rw e (node_addr (paramarg2 op)) s3) as (c1 & Hc1 & Hp1 & _).
  { destruct Hdel' as (d & val & _ & _ & _ & Hcb & _).
    apply (evaluations_ok e sexpr t s2 s3); [by eapply ev_callback, Hcb; constructor|done|by apply Hlater]. }
  destruct Hmay' as (c2 & Hc2 & Hp2 & _). congruence.
Qed.
End props.
