(* ===== verification/SimpleSteps.v ===== *)
(** * The life of expression trees

    "If expression is in use in current xact, don't touch it": an expression tree must
    not be entered while it is being evaluated, and not after an evaluation of it was
    left by an error; and the trees of a transaction are gone when it ends.  The parts
    of [exec_eval_simple_expr], [exec_prepare_plan] and [exec_simple_check_plan] between
    the points where other functions of the language may run (planning, evaluation) are
    the steps of a transition system over the session and a stack of unfinished
    evaluations; the condition of every tree is a ghost component.

    The JIT compiler takes part: it frees the plans of expressions it leaves to the
    interpreter.  It does not look whether they are in use.  [step] has the case that
    they are not; what happens if they are is shown in file SimpleDemo. *)

From Stdlib Require Import ZArith Lia.
From stdpp Require Import gmap.
From S2P Require Import Prelude Ast Expr Exec Assign Call Params SimpleExpr.
#[local] Open Scope Z_scope.

(** The condition of a tree: it can be entered; it is being evaluated; its evaluation
    was left by an error. *)
Inductive tree_status := Idle | Running | Broken.

(** What is on the stack: SPI prepares an expression, plans a new or an outdated one,
    or the executor evaluates its tree. *)
Inductive frame :=
  | Preparing (x : UPLpgSQL_expr)
  | Checking (x : UPLpgSQL_expr)
  | Replanning (x : UPLpgSQL_expr)
  | Evaluating (x : UPLpgSQL_expr) (r : running).

Record config (world : Type) := mk_config {
  c_world : world;
  c_stack : list frame;
  c_status : gmap nat tree_status;
  c_lxids : list Z
}.
Arguments mk_config {world}. Arguments c_world {world}. Arguments c_stack {world}.
Arguments c_status {world}. Arguments c_lxids {world}.

Section steps.
Context {world : Type} `{SimpleEnv world}.
Open Scope exec_scope.

Definition sess (s : execstate world) : session := session_of (es_world s).
Definition lxid_of (s : execstate world) : Z := curlxid (es_world s).

(** Operations of PostgreSQL that run no functions: they leave the session's data and
    the transaction alone. *)
Definition quiet {A} (op : pg world A) : Prop := forall w,
  match op w with
  | PgOk _ w' | PgErr _ w' => session_of w' = session_of w /\ curlxid w' = curlxid w
  end.
Class QuietEnv : Prop := {
  lxid_set_session ss w : curlxid (set_session ss w) = curlxid w;
  quiet_snapshot_exists : quiet EnsurePortalSnapshotExists;
  quiet_is_valid s p b : quiet (CachedPlanIsSimplyValid s p b);
  quiet_allows s p : quiet (CachedPlanAllowsSimpleValidityCheck s p);
  quiet_release p b : quiet (ReleaseCachedPlan p b);
  quiet_counter : quiet CommandCounterIncrement;
  quiet_push : quiet PushActiveSnapshot;
  quiet_freeplan p : quiet (SPI_freeplan p);
  quiet_pop : quiet PopActiveSnapshot
}.

(** ** Steps *)

(** A change of the session that keeps what this file is about: the callbacks' own
    data ([expr_rwopt], [expr_rw_param], the steps of the trees), the stack of contexts. *)
Definition same_life (c c' : simple_cell) : Prop :=
  expr_simple_expr c' = expr_simple_expr c /\ expr_plan c' = expr_plan c
  /\ expr_simple_state c' = expr_simple_state c /\ expr_simple_in_use c' = expr_simple_in_use c
  /\ expr_simple_lxid c' = expr_simple_lxid c.
Definition neutral (ss ss' : session) : Prop :=
  next_tree ss' = next_tree ss /\
  forall a, match cells ss !! a, cells ss' !! a with
            | Some c, Some c' => same_life c c'
            | None, None => True
            | _, _ => False
            end.

Definition with_c_world (w : world) (c : config world) : config world :=
  mk_config w (c_stack c) (c_status c) (c_lxids c).
Definition push_eval (x : UPLpgSQL_expr) (r : running) (w : world) (rest : list frame) (c : config world)
    : config world :=
  mk_config w (Evaluating x r :: rest) (<[run_tree r := Running]> (c_status c)) (c_lxids c).
Definition with_stack_of (w : world) (rest : list frame) (c : config world) : config world :=
  mk_config w rest (c_status c) (c_lxids c).

(** A tree that was made, but not entered because an error came between. *)
Definition unused_tree (s s' : execstate world) (st : gmap nat tree_status) : gmap nat tree_status :=
  if Nat.eqb (next_tree (sess s')) (next_tree (sess s)) then st else <[next_tree (sess s) := Idle]> st.

(** What an error does to the trees of the frames it leaves. *)
Definition abandon (f : frame) (st : gmap nat tree_status) : gmap nat tree_status :=
  match f with Evaluating _ r => <[run_tree r := Broken]> st | _ => st end.

(** "If first time through, create a plan for this expression": [exec_eval_expr] has
    seen to that before it calls [exec_eval_simple_expr]. *)
Definition planned (ss : session) (x : UPLpgSQL_expr) : Prop :=
  exists c, session_cell ss x = Some c /\ expr_plan c <> None.

(** Where an evaluation begins: on a valid plan, or on the one just made. *)
Definition begins (c : config world) (x : UPLpgSQL_expr) (rest : list frame) (s s1 : execstate world) : Prop :=
  es_world s = c_world c /\
  (c_stack c = rest /\ planned (session_of (c_world c)) x /\ eval_enter x s = Ok StillValid s1
   \/ c_stack c = Replanning x :: rest /\ exists cplan, replan_after x cplan s = Ok true s1).

(** What is on the stack is about an expression. *)
Definition frame_expr (f : frame) : UPLpgSQL_expr :=
  match f with Preparing x | Checking x | Replanning x | Evaluating x _ => x end.
Definition in_use (x : UPLpgSQL_expr) (stack : list frame) : Prop :=
  exists f, f ∈ stack /\ expr_addr (frame_expr f) = expr_addr x.

Inductive step (c : config world) : config world -> Prop :=
  (** [exec_eval_simple_expr] *)
  | step_not_simple x s s' : es_world s = c_world c ->
      eval_enter x s = Ok NotSimple s' -> step c (with_c_world (es_world s') c)
  | step_enter_error x s e s' : es_world s = c_world c ->
      eval_enter x s = Err e s' -> step c (with_c_world (es_world s') c)
  | step_evaluate x rest s s1 r s2 : begins c x rest s s1 -> eval_start x s1 = Ok r s2 ->
      step c (push_eval x r (es_world s2) rest c)
  | step_start_error x rest s s1 e s2 : begins c x rest s s1 -> eval_start x s1 = Err e s2 ->
      step c (mk_config (es_world s2) rest (unused_tree s1 s2 (c_status c)) (c_lxids c))
  | step_replan x s s' : es_world s = c_world c -> planned (session_of (c_world c)) x ->
      eval_enter x s = Ok Replan s' -> step c (with_stack_of (es_world s') (Replanning x :: c_stack c) c)
  | step_not_replanned x rest cplan s s' : es_world s = c_world c -> c_stack c = Replanning x :: rest ->
      replan_after x cplan s = Ok false s' -> step c (with_stack_of (es_world s') rest c)
  | step_replan_error x rest cplan s e s' : es_world s = c_world c -> c_stack c = Replanning x :: rest ->
      replan_after x cplan s = Err e s' -> step c (with_stack_of (es_world s') rest c)
  | step_end x r rest s s' : es_world s = c_world c -> c_stack c = Evaluating x r :: rest ->
      (eval_end x r s = Ok tt s' \/ exists e, eval_end x r s = Err e s') ->
      step c (mk_config (es_world s') rest (<[run_tree r := Idle]> (c_status c)) (c_lxids c))
  (** [exec_prepare_plan], called for an expression without a plan *)
  | step_prepare x cell : session_cell (session_of (c_world c)) x = Some cell -> expr_plan cell = None ->
      step c (with_stack_of (c_world c) (Preparing x :: c_stack c) c)
  | step_prepared x p rest b s s' : es_world s = c_world c -> c_stack c = Preparing x :: rest ->
      (put_cell x (cell_set_plan p) ;~ check_before x) s = Ok b s' ->
      step c (with_stack_of (es_world s') ((if b : bool then [Checking x] else []) ++ rest) c)
  | step_checked x cplan rest s s' : es_world s = c_world c -> c_stack c = Checking x :: rest ->
      (check_after x cplan s = Ok tt s' \/ exists e, check_after x cplan s = Err e s') ->
      step c (with_stack_of (es_world s') rest c)
  (** the compiler frees the plan of an expression that is not in use *)
  | step_free x s s' : es_world s = c_world c -> ~ in_use x (c_stack c) ->
      (jit_free_plan x s = Ok tt s' \/ exists e, jit_free_plan x s = Err e s') ->
      step c (with_c_world (es_world s') c)
  (** an error leaves the innermost of the unfinished operations *)
  | step_unwind f rest : c_stack c = f :: rest ->
      step c (mk_config (c_world c) rest (abandon f (c_status c)) (c_lxids c))
  (** the callbacks, and everything that does not concern expressions *)
  | step_neutral w : neutral (session_of (c_world c)) (session_of w) -> curlxid w = curlxid (c_world c) ->
      step c (with_c_world w c)
  (** the transaction ends, and the executor's memory with it; the next one has a
      number of its own *)
  | step_transaction w : c_stack c = [] -> neutral (session_of (c_world c)) (session_of w) ->
      curlxid w ∉ c_lxids c -> curlxid w <> InvalidLocalTransactionId ->
      step c (mk_config w [] ∅ (curlxid w :: c_lxids c)).

(** ** The invariant *)
Definition frame_evaluates (a : nat) (f : frame) : Prop :=
  match f with Evaluating x _ => expr_addr x = a | _ => False end.
Definition evaluated_in (a : nat) (l : list frame) : Prop := exists f, f ∈ l /\ frame_evaluates a f.

(** Nothing below a frame evaluates the frame's own expression. *)
Fixpoint stack_ok (l : list frame) : Prop :=
  match l with
  | [] => True
  | f :: rest => ~ evaluated_in (expr_addr (frame_expr f)) rest /\ stack_ok rest
  end.

(** A frame's tree is its cell's, which is marked busy in this transaction; an
    expression that is planned has been prepared. *)
Definition frame_ok (ss : session) (st : gmap nat tree_status) (lxid : Z) (f : frame) : Prop :=
  match f with
  | Evaluating x r => exists c, cells ss !! expr_addr x = Some c /\ expr_simple_in_use c = true
      /\ expr_simple_lxid c = lxid /\ expr_simple_state c = Some (run_tree r)
      /\ expr_simple_expr c <> None /\ expr_plan c <> None /\ st !! run_tree r = Some Running
  | Checking x | Replanning x => exists c, cells ss !! expr_addr x = Some c /\ expr_plan c <> None
  | Preparing _ => True
  end.

(** The tree a cell has in this transaction, which is its own. *)
Definition live (lxid : Z) (c : simple_cell) : Prop :=
  expr_simple_lxid c = lxid /\ expr_simple_expr c <> None.
Record cell_inv (st : gmap nat tree_status) (lxid : Z) (used : list Z) (c : simple_cell) : Prop := {
  cell_live : live lxid c -> exists t k, expr_simple_state c = Some t /\ st !! t = Some k
    /\ (expr_simple_in_use c = false -> k = Idle);
  cell_lxid : expr_simple_lxid c = InvalidLocalTransactionId \/ expr_simple_lxid c ∈ used
}.
Definition own_trees (ss : session) (lxid : Z) : Prop := forall a b ca cb t,
  cells ss !! a = Some ca -> cells ss !! b = Some cb -> live lxid ca -> live lxid cb ->
  expr_simple_state ca = Some t -> expr_simple_state cb = Some t -> a = b.

Record Inv (ss : session) (lxid : Z) (stack : list frame) (st : gmap nat tree_status) (used : list Z) : Prop := {
  inv_stack : stack_ok stack;
  inv_frames : Forall (frame_ok ss st lxid) stack;
  inv_cells a c : cells ss !! a = Some c -> cell_inv st lxid used c;
  inv_own : own_trees ss lxid;
  inv_status t k : st !! t = Some k -> (t < next_tree ss)%nat;
  inv_lxid : lxid ∈ used /\ lxid <> InvalidLocalTransactionId
}.
Definition inv (c : config world) : Prop :=
  Inv (session_of (c_world c)) (curlxid (c_world c)) (c_stack c) (c_status c) (c_lxids c).

(** ** Changes of one cell *)
Definition changes (a : nat) (P : simple_cell -> simple_cell -> Prop) (ss ss' : session) : Prop :=
  next_tree ss' = next_tree ss /\ (forall b, b <> a -> cells ss' !! b = cells ss !! b) /\
  match cells ss !! a, cells ss' !! a with
  | Some c, Some c' => P c c'
  | None, None => True
  | _, _ => False
  end.

(** A cell is left as it is, made not simple, or has its tree forgotten. *)
Record resets (c c' : simple_cell) : Prop := {
  resets_plan : expr_plan c <> None -> expr_plan c' <> None;
  resets_lxid : expr_simple_lxid c' = expr_simple_lxid c \/ expr_simple_lxid c' = InvalidLocalTransactionId;
  resets_tree : expr_simple_expr c' = None \/ expr_simple_lxid c' = InvalidLocalTransactionId
    \/ same_life c c'
}.

Lemma same_life_refl c : same_life c c. Proof. done. Qed.
Lemma same_life_resets c c' : same_life c c' -> resets c c'.
Proof. intros Hs. pose proof Hs as (He & Hp & Ht & Hu & Hl). split; [by rewrite Hp|by left|by right; right]. Qed.
Lemma resets_trans c1 c2 c3 : resets c1 c2 -> resets c2 c3 -> resets c1 c3.
Proof.
  intros [Hp1 Hl1 Ht1] [Hp2 Hl2 Ht2]. split; [by auto| |].
  - destruct Hl2 as [E|E]; rewrite E; auto.
  - destruct Ht2 as [?|[?|(He & Hp & Ht & Hu & Hl)]]; [by left|by right; left|].
    destruct Ht1 as [E|[E|(?&?&?&?&?)]]; [left; congruence|right; left; congruence|right; right].
    repeat split; congruence.
Qed.

Lemma changes_refl a (P : simple_cell -> simple_cell -> Prop) ss : (forall c, P c c) -> changes a P ss ss.
Proof. intros HP. repeat split. by destruct (cells ss !! a). Qed.
Lemma changes_trans a (P Q R : simple_cell -> simple_cell -> Prop) ss1 ss2 ss3 :
  (forall c1 c2 c3, P c1 c2 -> Q c2 c3 -> R c1 c3) ->
  changes a P ss1 ss2 -> changes a Q ss2 ss3 -> changes a R ss1 ss3.
Proof.
  intros HR (Hn & Hb & Hc) (Hn' & Hb' & Hc'). split; [congruence|]. split; [intros b Hne; by rewrite Hb', Hb|].
  destruct (cells ss1 !! a), (cells ss2 !! a), (cells ss3 !! a); try done. by eapply HR.
Qed.
Lemma changes_impl a (P Q : simple_cell -> simple_cell -> Prop) ss ss' :
  (forall c c', P c c' -> Q c c') -> changes a P ss ss' -> changes a Q ss ss'.
Proof. intros HPQ (? & ? & Hc). repeat split; [done..|]. destruct (cells ss !! a), (cells ss' !! a); auto. Qed.

Lemma changes_alter a f ss : changes a (fun c c' => c' = f c) ss (with_cells (alter f a) ss).
Proof.
  split; [done|]. split; [intros b Hb; cbn; by rewrite lookup_alter_ne|]. cbn. rewrite lookup_alter_eq.
  by destruct (cells ss !! a).
Qed.

(** ** Programs that change one cell *)
Context `{!QuietEnv}.

Definition runs_changing {A} (a : nat) (P : simple_cell -> simple_cell -> Prop)
    (m : exec (execstate world) A) : Prop := forall s,
  match m s with
  | Ok _ s' | Err _ s' => changes a P (sess s) (sess s') /\ lxid_of s' = lxid_of s
  | _ => True
  end.

Lemma changing_ret {A} a (v : A) : runs_changing a resets (xret v).
Proof. intros s. split; [|done]. apply changes_refl. intros c. by apply same_life_resets. Qed.
Lemma changing_get a : runs_changing a resets xget.
Proof. intros s. split; [|done]. apply changes_refl. intros c. by apply same_life_resets. Qed.
Lemma changing_undefined {A} a : runs_changing (A := A) a resets undefined.
Proof. by intros s. Qed.
Lemma changing_elog {A} a msg : runs_changing (A := A) a resets (elog msg).
Proof. intros s. split; [|done]. apply changes_refl. intros c. by apply same_life_resets. Qed.
Lemma changing_bind {A B} a (m : exec _ A) (k : A -> exec _ B) :
  runs_changing a resets m -> (forall v, runs_changing a resets (k v)) -> runs_changing a resets (xbind m k).
Proof.
  intros Hm Hk s. unfold xbind. specialize (Hm s). destruct (m s) as [v s1| | |]; try done.
  specialize (Hk v s1). destruct (k v s1) as [v' s2|e s2| |]; try done; destruct Hm, Hk;
    (split; [by eapply changes_trans; [apply resets_trans|..]|congruence]).
Qed.
Lemma changing_quiet {A} a (op : pg world A) : quiet op -> runs_changing a resets (pg_call op).
Proof.
  intros Hq s. unfold pg_call, sess, lxid_of. specialize (Hq (es_world s)).
  destruct (op (es_world s)) as [v w|e w]; destruct Hq as [Hs Hl]; destruct s; cbn in *; rewrite Hs;
    (split; [apply changes_refl; intros c; by apply same_life_resets|done]).
Qed.
Lemma changing_put x f : (forall c, resets c (f c)) -> runs_changing (expr_addr x) resets (put_cell x f).
Proof.
  intros Hf s. cbn. unfold sess, lxid_of. destruct s; cbn. rewrite session_set, lxid_set_session.
  split; [|done]. eapply changes_impl; [|apply changes_alter]. by intros c c' ->.
Qed.
Lemma changing_get_cell a x : runs_changing a resets (get_cell x).
Proof.
  intros s. unfold get_cell, xbind, xget. destruct (session_cell _ x); [|done]. cbn. split; [|done].
  apply changes_refl. intros c. by apply same_life_resets.
Qed.

(** The changes the program makes, one by one. *)
Lemma resets_not_simple c : resets c (cell_not_simple c).
Proof. by split; [|left|left]. Qed.
Lemma resets_cached_plan s p l c : resets c (cell_cached_plan s p l c).
Proof. by apply same_life_resets. Qed.
Lemma resets_save e c : resets c (cell_save e c).
Proof. by split; [|right|right; left]. Qed.

Ltac changing :=
  repeat first
    [ apply changing_ret | apply changing_get | apply changing_undefined | apply changing_elog
    | apply changing_get_cell
    | apply changing_put; intros ?; first [apply resets_not_simple | apply resets_cached_plan | apply resets_save | by split; [|left|left]]
    | apply changing_quiet; first [apply quiet_snapshot_exists | apply quiet_is_valid | apply quiet_allows
        | apply quiet_release | apply quiet_counter | apply quiet_push | apply quiet_pop]
    | apply changing_bind; [|intros ?]
    | progress cbn beta iota
    | match goal with |- runs_changing _ _ (match ?x with _ => _ end) => destruct x end ].

Lemma save_changing x cplan : runs_changing (expr_addr x) resets (exec_save_simple_expr x cplan).
Proof. unfold exec_save_simple_expr. changing. Qed.
Lemma is_simple_changing a x : runs_changing a resets (is_simple x).
Proof. unfold is_simple, the_plan. changing. Qed.
Lemma check_after_changing x cplan : runs_changing (expr_addr x) resets (check_after x cplan).
Proof.
  unfold check_after, the_plan, release_current. changing.
Qed.
Lemma check_before_changing x : runs_changing (expr_addr x) resets (check_before x).
Proof. unfold check_before. changing. Qed.
Lemma replan_after_changing x cplan : runs_changing (expr_addr x) resets (replan_after x cplan).
Proof. unfold replan_after, release_current, is_simple, the_plan. changing. Qed.
Lemma eval_enter_changing x : runs_changing (expr_addr x) resets (eval_enter x).
Proof. unfold eval_enter. changing. Qed.

(** The outcome of a quiet operation. *)
Lemma quiet_call {A} (op : pg world A) s :
  quiet op -> match pg_call op s with
              | Ok _ s' | Err _ s' => sess s' = sess s /\ lxid_of s' = lxid_of s
              | _ => False
              end.
Proof.
  intros Hq. unfold pg_call, sess, lxid_of. specialize (Hq (es_world s)).
  destruct (op (es_world s)) as [v w|e w]; destruct s; cbn in *; by destruct Hq.
Qed.

Lemma put_cell_sess x f s s' :
  put_cell x f s = Ok tt s' ->
  sess s' = with_cells (alter f (expr_addr x)) (sess s) /\ lxid_of s' = lxid_of s.
Proof.
  intros [= <-]. unfold sess, lxid_of. destruct s; cbn. by rewrite session_set, lxid_set_session.
Qed.

(** Not busy in this transaction. *)
Definition free_cell (lxid : Z) (c : simple_cell) : Prop :=
  expr_simple_in_use c = true -> expr_simple_lxid c <> lxid.

Lemma eval_enter_error x e s s' : eval_enter x s = Err e s' -> sess s' = sess s /\ lxid_of s' = lxid_of s.
Proof.
  unfold eval_enter, get_cell, xbind, xget, xret. fold (sess s).
  destruct (session_cell (sess s) x) as [c|]; [|done].
  destruct (expr_simple_expr c); [|done]. destruct (expr_simple_in_use c && _); [done|].
  pose proof (quiet_call EnsurePortalSnapshotExists s quiet_snapshot_exists) as Q1.
  destruct (pg_call _ s) as [[] s1|e1 s1| |]; try done; [|by intros [= <- <-]].
  destruct Q1 as [Q1 Q1']. fold (sess s1). rewrite Q1. destruct (session_cell _ x) as [c'|]; [|done].
  fold (lxid_of s1). pose proof (quiet_call _ s1 (quiet_is_valid (expr_simple_plansource c')
    (expr_simple_plan c') (negb (expr_simple_plan_lxid c' =? lxid_of s1)))) as Q2.
  destruct (pg_call _ s1) as [b s2|e1 s2| |]; try done; [|intros [= <- <-]; destruct Q2; split; congruence].
  destruct b; [done|]. destruct (expr_simple_plan c') as [p|]; [|done].
  destruct (_ =? lxid_of s1); [|done].
  pose proof (quiet_call _ s2 (quiet_release p true)) as Q3.
  destruct (pg_call _ s2) as [[] s3|e1 s3| |]; try done. intros [= <- <-]. destruct Q2, Q3. split; congruence.
Qed.

(** What entering finds and leaves, by its answer. *)
Definition entered (a : nat) (lxid : Z) (v : entry) (ss ss' : session) : Prop :=
  match v with
  | NotSimple => ss' = ss
  | StillValid => exists c, cells ss !! a = Some c /\ expr_simple_expr c <> None /\ free_cell lxid c
      /\ changes a same_life ss ss'
  | Replan => exists c, cells ss !! a = Some c /\ expr_simple_expr c <> None /\ free_cell lxid c
      /\ changes a resets ss ss'
  end.

Lemma enter_put x f s (v v0 : entry) s' :
  (put_cell x f ;~ xret v0) s = Ok v s' ->
  changes (expr_addr x) (fun c c' => c' = f c) (sess s) (sess s') /\ lxid_of s' = lxid_of s.
Proof.
  unfold xbind. destruct (put_cell x f s) as [[] s1| | |] eqn:E; try done. intros E1.
  injection E1 as _ <-. destruct (put_cell_sess _ _ _ _ E) as [-> ->]. split; [apply changes_alter|done].
Qed.

Lemma eval_enter_ok x v s s' :
  eval_enter x s = Ok v s' -> entered (expr_addr x) (lxid_of s) v (sess s) (sess s') /\ lxid_of s' = lxid_of s.
Proof.
  unfold eval_enter, get_cell. unfold xbind at 1 2 3, xget at 1 2, xret at 1. fold (sess s).
  destruct (session_cell (sess s) x) as [c|] eqn:Ec; [|done].
  destruct (expr_simple_expr c) as [e|] eqn:Ee; [|by intros [= <- <-]].
  destruct (expr_simple_in_use c && _) eqn:Eb; [by intros [= <- <-]|].
  assert (free_cell (lxid_of s) c) as Hfree.
  { intros Hu. rewrite Hu in Eb. cbn in Eb. by apply Z.eqb_neq in Eb. }
  unfold xbind at 1. pose proof (quiet_call EnsurePortalSnapshotExists s quiet_snapshot_exists) as Q1.
  destruct (pg_call _ s) as [[] s1|e1 s1| |]; try done. destruct Q1 as [Q1 Q1'].
  unfold xbind at 1 2 3, xget at 1 2. fold (sess s1). rewrite Q1, Ec. cbn beta iota. unfold xret at 1.
  fold (lxid_of s1). unfold xbind at 1.
  pose proof (quiet_call _ s1 (quiet_is_valid (expr_simple_plansource c)
    (expr_simple_plan c) (negb (expr_simple_plan_lxid c =? lxid_of s1)))) as Q2.
  destruct (pg_call _ s1) as [b s2|e1 s2| |]; try done. destruct Q2 as [Q2 Q2']. destruct b.
  - intros Hp. assert (v = StillValid) as -> by by injection Hp. destruct (enter_put _ _ _ _ _ _ Hp) as [Hc Hl].
    rewrite Q2, Q1 in Hc. split; [|congruence]. exists c.
    split; [done|]. split; [congruence|]. split; [done|]. eapply changes_impl; [|exact Hc]. by intros ? ? ->.
  - unfold xbind at 1.
    match goal with |- match ?m s2 with _ => _ end = _ -> _ => destruct (m s2) as [[] s3| | |] eqn:E3 end; try done.
    assert (sess s3 = sess s2 /\ lxid_of s3 = lxid_of s2) as [Q3 Q3'].
    { destruct (expr_simple_plan c) as [p|]; [|by injection E3 as <-].
      destruct (_ =? lxid_of s1); [|by injection E3 as <-].
      pose proof (quiet_call _ s2 (quiet_release p true)) as Q. by rewrite E3 in Q. }
    intros Hp. assert (v = Replan) as -> by by injection Hp. destruct (enter_put _ _ _ _ _ _ Hp) as [Hc Hl].
    rewrite Q3, Q2, Q1 in Hc. split; [|congruence]. exists c.
    split; [done|]. split; [congruence|]. split; [done|].
    eapply changes_impl; [|exact Hc]. intros ? ? ->. by split; [|left|left].
Qed.

Lemma xbind_inv {A B} (m : exec (execstate world) A) (k : A -> exec (execstate world) B) s v s' :
  xbind m k s = Ok v s' -> exists a s1, m s = Ok a s1 /\ k a s1 = Ok v s'.
Proof. unfold xbind. destruct (m s) as [a s1| | |]; try done. by exists a, s1. Qed.

Lemma changing_ok {A} a P (m : exec (execstate world) A) s v s' :
  runs_changing a P m -> m s = Ok v s' -> changes a P (sess s) (sess s') /\ lxid_of s' = lxid_of s.
Proof. intros Hm E. specialize (Hm s). by rewrite E in Hm. Qed.
Lemma changing_err {A} a P (m : exec (execstate world) A) s e s' :
  runs_changing a P m -> m s = Err e s' -> changes a P (sess s) (sess s') /\ lxid_of s' = lxid_of s.
Proof. intros Hm E. specialize (Hm s). by rewrite E in Hm. Qed.

Lemma get_cell_ok x s c s' : get_cell x s = Ok c s' -> s' = s /\ cells (sess s) !! expr_addr x = Some c.
Proof.
  unfold get_cell, xbind, xget, session_cell. fold (sess s).
  destruct (cells _ !! _) as [c'|]; [|done]. by intros [= <- <-].
Qed.
Lemma is_simple_ok x s b s' : is_simple x s = Ok b s' -> s' = s.
Proof.
  unfold is_simple, the_plan. intros E. destruct (xbind_inv _ _ _ _ _ E) as (p & s1 & E1 & E2).
  destruct (xbind_inv _ _ _ _ _ E1) as (c & s2 & E3 & E4). destruct (get_cell_ok _ _ _ _ E3) as [-> _].
  destruct (expr_plan c); [|done]. injection E4 as <- <-. by injection E2 as _ <-.
Qed.
Lemma quiet_ok {A} (op : pg world A) s v s' :
  quiet op -> pg_call op s = Ok v s' -> sess s' = sess s /\ lxid_of s' = lxid_of s.
Proof. intros Hq E. pose proof (quiet_call op s Hq) as Q. by rewrite E in Q. Qed.

(** A cell with a new expression, whose tree is still to be made. *)
Definition renewed (c c' : simple_cell) : Prop :=
  resets c c' /\ expr_simple_expr c' <> None /\ expr_simple_lxid c' = InvalidLocalTransactionId.

Lemma save_ok x cplan s s' :
  exec_save_simple_expr x cplan s = Ok tt s' ->
  changes (expr_addr x) renewed (sess s) (sess s') /\ lxid_of s' = lxid_of s.
Proof.
  unfold exec_save_simple_expr, xbind, xget. destruct (extract_tlist _) as [[e|tag]|]; try done.
  intros E. destruct (put_cell_sess _ _ _ _ E) as [-> ->]. split; [|done].
  eapply changes_impl; [|apply changes_alter]. intros c c' ->. by split; [apply resets_save|].
Qed.

Lemma replan_after_ok x cplan s b s' :
  replan_after x cplan s = Ok b s' ->
  (if b then changes (expr_addr x) renewed (sess s) (sess s') else sess s' = sess s) /\ lxid_of s' = lxid_of s.
Proof.
  unfold replan_after. intros E.
  destruct (xbind_inv _ _ _ _ _ E) as (simple & s1 & E1 & E2). rewrite (is_simple_ok _ _ _ _ E1) in E2. clear E E1 s1.
  destruct (xbind_inv _ _ _ _ _ E2) as (c & s1 & E1 & E3). destruct (get_cell_ok _ _ _ _ E1) as [-> _]. clear E1 E2.
  destruct (xbind_inv _ _ _ _ _ E3) as (ok & s1 & E1 & E2).
  assert (sess s1 = sess s /\ lxid_of s1 = lxid_of s) as [Q Q'].
  { destruct simple; [|by injection E1 as _ <-]. by eapply quiet_ok; [apply quiet_allows|]. }
  destruct ok.
  - destruct (xbind_inv _ _ _ _ _ E2) as (s2 & s3 & E4 & E5). injection E4 as <- <-.
    destruct (xbind_inv _ _ _ _ _ E5) as ([] & s3 & E6 & E7).
    edestruct (fun Hf => changing_ok _ _ _ _ _ _ (changing_put x _ Hf) E6) as [C1 L1];
      [intros ?; apply resets_cached_plan|].
    destruct (xbind_inv _ _ _ _ _ E7) as ([] & s4 & E8 & E9). destruct (quiet_ok _ _ _ _ (quiet_release _ _) E8) as [Q2 L2].
    destruct (xbind_inv _ _ _ _ _ E9) as ([] & s5 & E10 & E11). destruct (save_ok _ _ _ _ E10) as [C2 L3].
    injection E11 as <- <-. rewrite Q in C1. rewrite Q2 in C2. split; [|congruence].
    eapply changes_trans; [|exact C1|exact C2]. intros c1 c2 c3 R1 (R2 & ? & ?). split; [|done].
    by eapply resets_trans.
  - destruct (xbind_inv _ _ _ _ _ E2) as ([] & s2 & E3' & E4). injection E4 as <- <-.
    destruct (quiet_ok _ _ _ _ (quiet_release _ _) E3') as [Q2 L2]. split; congruence.
Qed.

Lemma compile_params_ok ps s ops s' : compile_params ps s = Ok ops s' -> s' = s.
Proof.
  revert ops s'. induction ps as [|p ps IH]; intros ops s' E; [by injection E as _ <-|].
  destruct (xbind_inv _ _ _ _ _ E) as (op & s1 & E1 & E2).
  assert (s1 = s) as ->.
  { unfold uplpgsql_param_compile in E1. destruct (xbind_inv _ _ _ _ _ E1) as (s0 & s2 & E3 & E4).
    injection E3 as <- <-. destruct (parserSetupArg s); [|done].
    destruct (xbind_inv _ _ _ _ _ E4) as (c & s2 & E5 & E6). destruct (get_cell_ok _ _ _ _ E5) as [-> _].
    destruct (xbind_inv _ _ _ _ _ E6) as (d & s2 & E7 & E8). unfold get_datum, xbind, xget in E7.
    destruct (es_datums s !! _); [|done]. injection E7 as <- <-. by injection E8 as _ <-. }
  destruct (xbind_inv _ _ _ _ _ E2) as (rest & s2 & E3 & E4). rewrite (IH _ _ E3) in E4. by injection E4 as _ <-.
Qed.

(** A session where only the cell at [a] changed, and a tree was possibly added. *)
Definition only_cell (a : nat) (c' : simple_cell) (ss ss' : session) : Prop :=
  cells ss' !! a = Some c' /\ forall b, b <> a -> cells ss' !! b = cells ss !! b.

Lemma only_cell_put x f s s' c :
  put_cell x f s = Ok tt s' -> cells (sess s) !! expr_addr x = Some c ->
  only_cell (expr_addr x) (f c) (sess s) (sess s') /\ next_tree (sess s') = next_tree (sess s)
  /\ lxid_of s' = lxid_of s.
Proof.
  intros E Hc. destruct (put_cell_sess _ _ _ _ E) as [-> ->]. split; [|done].
  split; cbn; [by rewrite lookup_alter_eq, Hc|]. intros b Hb. by rewrite lookup_alter_ne.
Qed.

(** The tree [current_tree] settles on: the one at hand, or a new one. *)
Definition tree_chosen (lxid : Z) (c : simple_cell) (t : nat) (ss ss' : session) : Prop :=
  (expr_simple_lxid c = lxid /\ expr_simple_state c = Some t /\ next_tree ss' = next_tree ss)
  \/ (expr_simple_lxid c <> lxid /\ t = next_tree ss /\ next_tree ss' = S (next_tree ss)).

Lemma current_tree_ok x e s t s' c :
  cells (sess s) !! expr_addr x = Some c -> current_tree x e s = Ok t s' ->
  lxid_of s' = lxid_of s /\ tree_chosen (lxid_of s) c t (sess s) (sess s') /\
  exists c', only_cell (expr_addr x) c' (sess s) (sess s') /\ expr_simple_expr c' = expr_simple_expr c
    /\ expr_plan c' = expr_plan c /\ expr_simple_lxid c' = lxid_of s /\ expr_simple_state c' = Some t
    /\ (s' = s \/ expr_simple_in_use c' = false /\ t = next_tree (sess s)).
Proof.
  intros Hc E. unfold current_tree in E. destruct (xbind_inv _ _ _ _ _ E) as (c0 & s1 & E1 & E2).
  destruct (get_cell_ok _ _ _ _ E1) as [-> Hc0]. assert (c0 = c) as -> by congruence. clear E E1 Hc0.
  destruct (xbind_inv _ _ _ _ _ E2) as (s0 & s1 & E1 & E3). injection E1 as <- <-. fold (lxid_of s) in E3.
  destruct (Z.eqb_spec (expr_simple_lxid c) (lxid_of s)) as [Hl|Hl]; cbn in E3.
  - destruct (expr_simple_state c) as [t'|] eqn:Et; [|done]. injection E3 as <- <-. split; [done|].
    split; [by left|]. exists c. repeat (split; [done|]). by left.
  - destruct (xbind_inv _ _ _ _ _ E3) as (t' & s1 & E4 & E5). clear E2 E3. unfold ExecInitExprWithParams in E4.
    destruct (xbind_inv _ _ _ _ _ E4) as (ops & s2 & E6 & E7). rewrite (compile_params_ok _ _ _ _ E6) in E7.
    injection E7 as <- <-. set (s1 := with_world _ s) in E5.
    assert (sess s1 = add_tree ops (sess s) /\ lxid_of s1 = lxid_of s) as [Q1 L1].
    { unfold s1, sess, lxid_of. destruct s; cbn. by rewrite session_set, lxid_set_session. }
    destruct (xbind_inv _ _ _ _ _ E5) as ([] & s3 & E8 & E9). injection E9 as <- <-.
    destruct (only_cell_put _ _ _ _ c E8) as ([Ha Hb] & Hn & L2); [by rewrite Q1|].
    rewrite Q1 in Hb, Hn. split; [congruence|]. split; [by right|]. eexists. split; [by split; [exact Ha|]|]. repeat (split; [done|]). by right.
Qed.

(** Starting an evaluation: the cell has the tree, and is busy or (so far) not. *)
Definition started (a : nat) (lxid : Z) (t : nat) (busy : bool) (ss ss' : session) : Prop :=
  exists c c', cells ss !! a = Some c /\ expr_simple_expr c <> None /\ only_cell a c' ss ss'
    /\ expr_simple_expr c' = expr_simple_expr c /\ expr_plan c' = expr_plan c
    /\ expr_simple_lxid c' = lxid /\ expr_simple_state c' = Some t /\ expr_simple_in_use c' = busy
    /\ tree_chosen lxid c t ss ss'.

Lemma eval_start_ok x s r s' :
  eval_start x s = Ok r s' ->
  started (expr_addr x) (lxid_of s) (run_tree r) true (sess s) (sess s') /\ lxid_of s' = lxid_of s.
Proof.
  unfold eval_start. intros E. destruct (xbind_inv _ _ _ _ _ E) as (c & s1 & E1 & E2). clear E.
  destruct (get_cell_ok _ _ _ _ E1) as [-> Hc]. clear E1. destruct (expr_simple_expr c) as [e|] eqn:Ee; [|done].
  destruct (xbind_inv _ _ _ _ _ E2) as (s0 & s1 & E1 & E3). injection E1 as <- <-. clear E2.
  destruct (xbind_inv _ _ _ _ _ E3) as ([] & s1 & E1 & E2). clear E3.
  assert (sess s1 = sess s /\ lxid_of s1 = lxid_of s) as [Q1 L1] by (injection E1 as <-; by destruct s). clear E1.
  destruct (xbind_inv _ _ _ _ _ E2) as (t & s2 & E3 & E4). clear E2. rewrite <- Q1 in Hc.
  destruct (current_tree_ok _ _ _ _ _ c Hc E3) as (L2 & Ht & c' & Hcell & He' & Hp' & Hl' & Hs' & _). clear E3.
  destruct (xbind_inv _ _ _ _ _ E4) as ([] & s3 & E5 & E6). clear E4.
  assert (sess s3 = sess s2 /\ lxid_of s3 = lxid_of s2) as [Q3 L3].
  { destruct (expr_simple_mutable c && _); [|by injection E5 as <-].
    destruct (xbind_inv _ _ _ _ _ E5) as ([] & s4 & E7 & E8).
    destruct (quiet_ok _ _ _ _ quiet_counter E7), (quiet_ok _ _ _ _ quiet_push E8). split; congruence. }
  destruct (xbind_inv _ _ _ _ _ E6) as ([] & s4 & E7 & E8). injection E8 as <- <-. destruct Hcell as [Ha Hb].
  destruct (only_cell_put _ _ _ _ c' E7) as ([Ha' Hb'] & Hn & L4); [by rewrite Q3|].
  split; [|congruence]. rewrite Q1 in *. rewrite L1 in *. exists c, (cell_in_use true c'). cbn.
  split; [done|]. split; [congruence|]. split; [split; [done|]; intros b Hne; rewrite Hb', Q3 by done; by apply Hb|].
  repeat (split; [done|]). unfold tree_chosen in *. by rewrite Hn, Q3.
Qed.

Lemma xbind_err {A B} (m : exec (execstate world) A) (k : A -> exec (execstate world) B) s e s' :
  xbind m k s = Err e s' -> m s = Err e s' \/ exists a s1, m s = Ok a s1 /\ k a s1 = Err e s'.
Proof. unfold xbind. destruct (m s) as [a s1|e1 s1| |]; [intros E; right; by exists a, s1|intros [= <- <-]; by left|done..]. Qed.
Lemma compile_params_err ps s e s' : compile_params ps s <> Err e s'.
Proof.
  induction ps as [|p ps IH]; [done|]. intros E. destruct (xbind_err _ _ _ _ _ E) as [E1|(op & s1 & E1 & E2)].
  - unfold uplpgsql_param_compile, get_cell, get_datum, xbind, xget in E1.
    destruct (parserSetupArg s); [|done]. destruct (session_cell _ _); [|done]. cbn in E1.
    by destruct (es_datums s !! Z.to_nat (pn_id p - 1)).
  - assert (s1 = s) as ->.
    { assert (compile_params [p] s = Ok [op] s1) as E3 by (cbn; unfold xbind; by rewrite E1).
      by apply compile_params_ok in E3. }
    destruct (xbind_err _ _ _ _ _ E2) as [E3|(rest & s2 & E3 & E4)]; [by apply IH|done].
Qed.
Lemma current_tree_err x e s err s' : current_tree x e s <> Err err s'.
Proof.
  intros E. unfold current_tree in E. destruct (xbind_err _ _ _ _ _ E) as [E1|(c & s1 & E1 & E2)].
  { unfold get_cell, xbind, xget in E1. by destruct (session_cell _ _). }
  destruct (xbind_err _ _ _ _ _ E2) as [|(s0 & s2 & E3 & E4)]; [done|]. destruct (negb _); [|by destruct (expr_simple_state c)].
  destruct (xbind_err _ _ _ _ _ E4) as [E5|(t & s3 & E5 & E6)]; [|done]. unfold ExecInitExprWithParams in E5.
  destruct (xbind_err _ _ _ _ _ E5) as [E6|(ops & s3 & _ & E6)]; [by apply compile_params_err in E6|done].
Qed.

(** An error while starting leaves a tree that has not been entered. *)
Lemma eval_start_error x s e s' :
  eval_start x s = Err e s' ->
  lxid_of s' = lxid_of s /\
  (sess s' = sess s \/ started (expr_addr x) (lxid_of s) (next_tree (sess s)) false (sess s) (sess s')).
Proof.
  unfold eval_start. intros E. destruct (xbind_err _ _ _ _ _ E) as [E1|(c & s1 & E1 & E2)].
  { unfold get_cell, xbind, xget in E1. by destruct (session_cell _ _). }
  clear E. destruct (get_cell_ok _ _ _ _ E1) as [-> Hc]. clear E1.
  destruct (expr_simple_expr c) as [ex|] eqn:Ee; [|done].
  destruct (xbind_err _ _ _ _ _ E2) as [|(s0 & s1 & E1 & E3)]; [done|]. injection E1 as <- <-. clear E2.
  destruct (xbind_err _ _ _ _ _ E3) as [|([] & s1 & E1 & E2)]; [done|]. clear E3.
  assert (sess s1 = sess s /\ lxid_of s1 = lxid_of s) as [Q1 L1] by (injection E1 as <-; by destruct s). clear E1.
  destruct (xbind_err _ _ _ _ _ E2) as [E1|(t & s2 & E3 & E4)]; [by apply current_tree_err in E1|]. clear E2.
  rewrite <- Q1 in Hc.
  destruct (current_tree_ok _ _ _ _ _ c Hc E3) as (L2 & Ht & c' & Hcell & He' & Hp' & Hl' & Hs' & Hnew). clear E3.
  assert (sess s' = sess s2 /\ lxid_of s' = lxid_of s2) as [Q3 L3].
  { destruct (xbind_err _ _ _ _ _ E4) as [E5|([] & s3 & E5 & E6)]; [|done].
    destruct (expr_simple_mutable c && _); [|done].
    destruct (xbind_err _ _ _ _ _ E5) as [E7|([] & s4 & E7 & E8)].
    - pose proof (quiet_call _ s2 quiet_counter) as Q. by rewrite E7 in Q.
    - destruct (quiet_ok _ _ _ _ quiet_counter E7). pose proof (quiet_call _ s4 quiet_push) as Q. rewrite E8 in Q.
      destruct Q. split; congruence. }
  split; [congruence|]. rewrite Q3. destruct Hnew as [->|[Hu ->]]; [by left|right]. rewrite Q1, L1 in *.
  exists c, c'. split; [done|]. split; [congruence|]. split; [exact Hcell|]. repeat (split; [done|]). done.
Qed.

Lemma eval_end_ok x r s s' :
  (eval_end x r s = Ok tt s' \/ exists e, eval_end x r s = Err e s') ->
  changes (expr_addr x) (fun c c' => c' = cell_in_use false c) (sess s) (sess s') /\ lxid_of s' = lxid_of s.
Proof.
  unfold eval_end, xbind.
  destruct (put_cell x (cell_in_use false) s) as [[] s1| | |] eqn:E1; [|by intros [|[]]..].
  destruct (put_cell_sess _ _ _ _ E1) as [Q1 L1]. unfold xmodify. set (s2 := with_setup_arg (run_saved r) s1).
  assert (sess s2 = sess s1 /\ lxid_of s2 = lxid_of s1) as [Q2 L2] by by destruct s1. intros E.
  assert (sess s' = sess s2 /\ lxid_of s' = lxid_of s2) as [-> ->].
  { destruct (run_snapshot r); [|by destruct E as [E|[e E]]; [injection E as <-|]].
    pose proof (quiet_call _ s2 quiet_pop) as Q. destruct E as [E|[e E]]; by rewrite E in Q. }
  rewrite Q2, L2, Q1. split; [apply changes_alter|congruence].
Qed.

(** ** The invariant under these changes *)
Lemma evaluated_frame ss st lxid stack a :
  Forall (frame_ok ss st lxid) stack -> evaluated_in a stack ->
  exists c, cells ss !! a = Some c /\ expr_simple_in_use c = true /\ expr_simple_lxid c = lxid
    /\ expr_plan c <> None.
Proof.
  intros Hf (f & Hin & Ha). rewrite list.Forall_forall in Hf. specialize (Hf f Hin).
  destruct f as [| | |x r]; try done. destruct Hf as (c & Hc & Hu & Hl & _ & _ & Hp & _). cbn in Ha.
  exists c. by rewrite <- Ha.
Qed.
Lemma free_not_evaluated ss lxid stack st used a c :
  Inv ss lxid stack st used -> cells ss !! a = Some c -> free_cell lxid c -> ~ evaluated_in a stack.
Proof.
  intros Hinv Hc Hfree Hev. destruct (evaluated_frame _ _ _ _ _ (inv_frames _ _ _ _ _ Hinv) Hev)
    as (c' & Hc' & Hu & Hl & _). assert (c' = c) as -> by congruence. by apply Hfree.
Qed.
Lemma unplanned_not_evaluated ss lxid stack st used a c :
  Inv ss lxid stack st used -> cells ss !! a = Some c -> expr_plan c = None -> ~ evaluated_in a stack.
Proof.
  intros Hinv Hc Hp Hev. destruct (evaluated_frame _ _ _ _ _ (inv_frames _ _ _ _ _ Hinv) Hev)
    as (c' & Hc' & _ & _ & Hn). assert (c' = c) as -> by congruence. done.
Qed.

Lemma inv_neutral ss ss' lxid stack st used :
  neutral ss ss' -> Inv ss lxid stack st used -> Inv ss' lxid stack st used.
Proof.
  intros [Hn Hcells] [Hstack Hframes Hc Hown Hst Hlx].
  assert (forall a c', cells ss' !! a = Some c' -> exists c, cells ss !! a = Some c /\ same_life c c') as Hback.
  { intros a c' E. specialize (Hcells a). rewrite E in Hcells. destruct (cells ss !! a) as [c|]; [|done]. by exists c. }
  split; [done| | | | |done].
  - eapply Forall_impl; [|exact Hframes]. intros [x|x|x|x r]; [done|..];
      intros (c & Ha & Hok); specialize (Hcells (expr_addr x)); rewrite Ha in Hcells;
      destruct (cells ss' !! expr_addr x) as [c'|] eqn:E'; try done; destruct Hcells as (He & Hp & Ht & Hu & Hl);
      exists c'; rewrite ?He, ?Hp, ?Ht, ?Hu, ?Hl; (split; [exact E'|exact Hok]).
  - intros a c' E. destruct (Hback a c' E) as (c & Ha & He & Hp & Ht & Hu & Hl).
    destruct (Hc a c Ha) as [H5 H7]. unfold live in H5. split; unfold live; rewrite ?He, ?Hp, ?Ht, ?Hu, ?Hl; done.
  - intros a b ca cb t Ea Eb. destruct (Hback a ca Ea) as (ca' & Ea' & He & Hp & Ht & Hu & Hl).
    destruct (Hback b cb Eb) as (cb' & Eb' & He' & Hp' & Ht' & Hu' & Hl').
    unfold live. rewrite He, Hl, Ht, He', Hl', Ht'. by apply Hown.
  - intros t k E. rewrite Hn. by eapply Hst.
Qed.

(** A change of a cell that no frame evaluates. *)
Lemma frame_ok_change ss ss' st lxid a stack :
  (forall b, b <> a -> cells ss' !! b = cells ss !! b) ->
  (forall c, cells ss !! a = Some c -> expr_plan c <> None ->
     exists c', cells ss' !! a = Some c' /\ expr_plan c' <> None) ->
  ~ evaluated_in a stack ->
  Forall (frame_ok ss st lxid) stack -> Forall (frame_ok ss' st lxid) stack.
Proof.
  intros Hb Ha Hev Hf. rewrite list.Forall_forall in *. intros f Hin. specialize (Hf f Hin).
  destruct f as [x|x|x|x r]; [done|..]; destruct (decide (expr_addr x = a)) as [<-|Hne];
    try (unfold frame_ok in *; by rewrite Hb).
  3: by destruct Hev; exists (Evaluating x r).
  all: destruct Hf as (c & Hc & Hp); by eapply Ha.
Qed.
Lemma resets_keeps_plan ss ss' a c :
  changes a resets ss ss' -> cells ss !! a = Some c -> expr_plan c <> None ->
  exists c', cells ss' !! a = Some c' /\ expr_plan c' <> None.
Proof.
  intros (_ & _ & Ha) Hc Hp. rewrite Hc in Ha. destruct (cells ss' !! a) as [c'|]; [|done].
  exists c'. split; [done|by apply (resets_plan _ _ Ha)].
Qed.

Lemma live_change lxid c c' :
  lxid <> InvalidLocalTransactionId -> resets c c' -> live lxid c' -> live lxid c /\ same_life c c'.
Proof.
  intros Hlx Hr [Hl He]. destruct (resets_tree _ _ Hr) as [?|[?|Hs]]; [done|congruence|].
  split; [|done]. destruct Hs as (E & _ & _ & _ & El). split; congruence.
Qed.

Lemma inv_change ss ss' lxid stack st used a :
  Inv ss lxid stack st used -> ~ evaluated_in a stack -> changes a resets ss ss' ->
  Inv ss' lxid stack st used.
Proof.
  intros [Hstack Hframes Hc Hown Hst Hlx] Hev Hch. pose proof Hch as (Hn & Hb & Ha).
  assert (forall b cb', cells ss' !! b = Some cb' ->
    exists cb, cells ss !! b = Some cb /\ (live lxid cb' -> live lxid cb /\ same_life cb cb')) as Hback.
  { intros b cb' E. destruct (decide (b = a)) as [->|Hne]; [|exists cb'; rewrite <- Hb; done].
    rewrite E in Ha. destruct (cells ss !! a) as [c|]; [|done]. exists c. split; [done|].
    apply live_change; [apply Hlx|done]. }
  split; [done|eapply frame_ok_change; [done|intros c Hc'; by eapply resets_keeps_plan|done..]| | |intros t k E; rewrite Hn; by eapply Hst|done].
  - intros b cb' E. destruct (Hback b cb' E) as (cb & Eb & Hlive). destruct (Hc b cb Eb) as [H5 H7]. split.
    + intros Hl. destruct (Hlive Hl) as [Hl' (_ & _ & Ht & Hu & _)]. rewrite Ht, Hu. by apply H5.
    + destruct (decide (b = a)) as [->|Hne]; [|rewrite Hb in E by done; by assert (cb' = cb) as -> by congruence].
      rewrite E, Eb in Ha. destruct (resets_lxid _ _ Ha) as [Hl|Hl]; rewrite Hl; [done|by left].
  - intros b1 b2 c1 c2 t E1 E2 L1 L2 T1 T2. destruct (Hback b1 c1 E1) as (c1' & E1' & H1').
    destruct (Hback b2 c2 E2) as (c2' & E2' & H2').
    destruct (H1' L1) as [L1' (_ & _ & T1' & _)], (H2' L2) as [L2' (_ & _ & T2' & _)].
    apply (Hown b1 b2 c1' c2' t); congruence.
Qed.

Lemma inv_pop ss lxid f stack st used : Inv ss lxid (f :: stack) st used -> Inv ss lxid stack st used.
Proof. intros [[_ Hstack] Hf Hc Hown Hst Hlx]. split; try done. by inversion Hf. Qed.
Lemma inv_push ss lxid f stack st used :
  Inv ss lxid stack st used -> ~ evaluated_in (expr_addr (frame_expr f)) stack -> frame_ok ss st lxid f ->
  Inv ss lxid (f :: stack) st used.
Proof. intros [Hstack Hf Hc Hown Hst Hlx] Hev Hok. split; try done. by constructor. Qed.

(** No frame of a stack runs tree [t]. *)
Definition not_running (t : nat) (stack : list frame) : Prop :=
  forall x r, Evaluating x r ∈ stack -> run_tree r <> t.
Lemma frames_status ss st lxid stack t k :
  not_running t stack -> Forall (frame_ok ss st lxid) stack -> Forall (frame_ok ss (<[t := k]> st) lxid) stack.
Proof.
  intros Hn. rewrite !list.Forall_forall. intros Hf f Hin. specialize (Hf f Hin).
  destruct f as [x|x|x|x r]; try done. destruct Hf as (c & ? & ? & ? & ? & ? & ? & Hs). exists c.
  rewrite lookup_insert_ne by (intros E; by apply (Hn x r Hin)). done.
Qed.

(** The tree of a cell that no frame evaluates runs in no frame. *)
Lemma own_not_running ss lxid stack st used a c t :
  Inv ss lxid stack st used -> cells ss !! a = Some c -> ~ evaluated_in a stack ->
  live lxid c -> expr_simple_state c = Some t -> not_running t stack.
Proof.
  intros Hinv Hc Hev Hl Ht x r Hin <-. pose proof (inv_frames _ _ _ _ _ Hinv) as Hf.
  rewrite list.Forall_forall in Hf. destruct (Hf _ Hin) as (c' & Hc' & _ & Hl' & Ht' & He' & _).
  assert (expr_addr x = a) as E by by eapply (inv_own _ _ _ _ _ Hinv).
  apply Hev. by exists (Evaluating x r).
Qed.
Lemma fresh_not_running ss lxid stack st used :
  Inv ss lxid stack st used -> not_running (next_tree ss) stack.
Proof.
  intros Hinv x r Hin E. pose proof (inv_frames _ _ _ _ _ Hinv) as Hf.
  rewrite list.Forall_forall in Hf. destruct (Hf _ Hin) as (c' & _ & _ & _ & _ & _ & _ & Hs).
  apply (inv_status _ _ _ _ _ Hinv) in Hs. lia.
Qed.

(** A tree may be entered: it is new, or at rest; and no frame runs it. *)
Definition enterable (ss : session) (stack : list frame) (st : gmap nat tree_status) (t : nat) : Prop :=
  (t = next_tree ss /\ st !! t = None \/ st !! t = Some Idle) /\ not_running t stack.

Lemma started_enterable ss ss' lxid stack st used a t busy c :
  Inv ss lxid stack st used -> cells ss !! a = Some c -> free_cell lxid c -> ~ evaluated_in a stack ->
  started a lxid t busy ss ss' -> enterable ss stack st t.
Proof.
  intros Hinv Hc Hfree Hev (c0 & c' & Hc0 & He & _ & _ & _ & _ & _ & _ & Ht).
  assert (c0 = c) as -> by congruence. destruct Ht as [(Hl & Hs & _)|(_ & -> & _)].
  - split; [right|by eapply own_not_running].
    destruct (cell_live _ _ _ _ (inv_cells _ _ _ _ _ Hinv a c Hc)) as (t' & k & Ht' & Hk & Hidle); [done|].
    assert (t' = t) as -> by congruence. rewrite Hk, Hidle; [done|].
    destruct (expr_simple_in_use c) eqn:E; [|done]. by destruct (Hfree E).
  - split; [left; split; [done|]|by eapply fresh_not_running].
    destruct (st !! next_tree ss) eqn:E; [|done]. apply (inv_status _ _ _ _ _ Hinv) in E. lia.
Qed.

(** Cells other than [a] keep their trees when [t], which is [a]'s or new, changes its
    condition. *)
Lemma cell_inv_status st lxid used t k c :
  (live lxid c -> expr_simple_state c <> Some t) -> cell_inv st lxid used c ->
  cell_inv (<[t := k]> st) lxid used c.
Proof.
  intros Hne [Hl Hx]. split; try done. intros Hlive. destruct (Hl Hlive) as (t' & k' & Ht & Hk & Hi).
  exists t', k'. split; [done|]. split; [|done]. rewrite lookup_insert_ne; [done|].
  intros ->. by apply Hne.
Qed.

(** The tree that is started is no other live cell's. *)
Lemma started_tree_unshared ss ss' lxid stack st used a t busy b cb :
  Inv ss lxid stack st used -> started a lxid t busy ss ss' ->
  cells ss !! b = Some cb -> live lxid cb -> expr_simple_state cb = Some t -> b = a.
Proof.
  intros Hinv (c & c' & Hc & He & _ & _ & _ & _ & _ & _ & Ht) Hb Hl Hs. destruct Ht as [(Hlc & Hsc & _)|(_ & -> & _)].
  - by apply (inv_own _ _ _ _ _ Hinv b a cb c t).
  - destruct (cell_live _ _ _ _ (inv_cells _ _ _ _ _ Hinv b cb Hb) Hl) as (t' & k & Ht' & Hk & _).
    apply (inv_status _ _ _ _ _ Hinv) in Hk. assert (t' = next_tree ss) as -> by congruence. lia.
Qed.

(** The cell has its tree, in condition [k]. *)
Lemma inv_retree ss ss' lxid stack st used a t busy k c :
  Inv ss lxid stack st used -> cells ss !! a = Some c -> free_cell lxid c ->
  ~ evaluated_in a stack -> started a lxid t busy ss ss' -> (busy = false -> k = Idle) ->
  Inv ss' lxid stack (<[t := k]> st) used.
Proof.
  intros Hinv Hc Hfree Hev Hstart Hk. pose proof (started_enterable _ _ _ _ _ _ _ _ _ _ Hinv Hc Hfree Hev Hstart)
    as [Hent Hnr].
  pose proof Hstart as (c0 & c' & Hc0 & He & [Ha Hb] & He' & Hp' & Hl' & Hs' & Hu' & Ht).
  assert (c0 = c) as -> by congruence. pose proof Hinv as [Hstack Hframes Hcells Hown Hst [Hused Hvalid]].
  assert (next_tree ss <= next_tree ss')%nat as Hnext by (destruct Ht as [(_ & _ & E)|(_ & _ & E)]; lia).
  assert (forall b cb, b <> a -> cells ss' !! b = Some cb -> live lxid cb ->
    expr_simple_state cb <> Some t) as Hother.
  { intros b cb Hne Hcb Hlive Hs. rewrite Hb in Hcb by done.
    by apply Hne, (started_tree_unshared _ _ _ _ _ _ _ _ _ _ _ Hinv Hstart Hcb). }
  split; [done| | | | |done].
  - apply frames_status; [done|]. eapply frame_ok_change; [exact Hb| |done|done].
    intros c1 Hc1 Hpc. exists c'. split; [done|]. congruence.
  - intros b cb Hcb. destruct (decide (b = a)) as [->|Hne].
    + assert (cb = c') as -> by congruence. split.
      * intros _. exists t, k. rewrite lookup_insert_eq, Hu'. done.
      * right. by rewrite Hl'.
    + apply cell_inv_status; [by eapply Hother|]. rewrite Hb in Hcb by done. by eapply Hcells.
  - intros b1 b2 c1 c2 t' E1 E2 L1 L2 T1 T2.
    destruct (decide (b1 = a)) as [->|N1], (decide (b2 = a)) as [->|N2]; [done|..].
    + destruct (Hother b2 c2); try done. congruence.
    + destruct (Hother b1 c1); try done. congruence.
    + rewrite Hb in E1, E2 by done. by eapply Hown.
  - intros t' k'. destruct (decide (t' = t)) as [->|Hne].
    + intros _. destruct Ht as [(Hlc & Hsc & E)|(_ & E & E')]; [|lia]. rewrite E.
      destruct Hent as [[E1 _]|E1]; [|by eapply Hst].
      destruct (cell_live _ _ _ _ (Hcells _ _ Hc)) as (t' & k2 & Ht' & Hk2 & _); [done|].
      apply Hst in Hk2. assert (t' = t) as -> by congruence. done.
    + rewrite lookup_insert_ne by done. intros E. apply Hst in E. lia.
Qed.

Lemma inv_started ss ss' lxid stack st used x r c :
  Inv ss lxid stack st used -> cells ss !! expr_addr x = Some c -> free_cell lxid c -> expr_plan c <> None ->
  ~ evaluated_in (expr_addr x) stack -> started (expr_addr x) lxid (run_tree r) true ss ss' ->
  Inv ss' lxid (Evaluating x r :: stack) (<[run_tree r := Running]> st) used.
Proof.
  intros Hinv Hc Hfree Hplan Hev Hstart. apply inv_push; [by eapply inv_retree|done|].
  destruct Hstart as (c0 & c' & Hc0 & He & [Ha Hb] & He' & Hp' & Hl' & Hs' & Hu' & Ht).
  assert (c0 = c) as -> by congruence. exists c'. rewrite lookup_insert_eq, He', Hp'. repeat split; auto.
Qed.

(** Leaving an evaluation: only an orderly end marks the cell as free. *)
Definition leaves (k : tree_status) (c c' : simple_cell) : Prop :=
  expr_simple_expr c' = expr_simple_expr c /\ expr_plan c' = expr_plan c
  /\ expr_simple_state c' = expr_simple_state c /\ expr_simple_lxid c' = expr_simple_lxid c
  /\ (expr_simple_in_use c' = false -> expr_simple_in_use c = true -> k = Idle).

Lemma inv_leave ss ss' lxid stack st used x r k :
  Inv ss lxid (Evaluating x r :: stack) st used -> changes (expr_addr x) (leaves k) ss ss' ->
  Inv ss' lxid stack (<[run_tree r := k]> st) used.
Proof.
  intros Hinv (Hn & Hb & Ha). pose proof (inv_pop _ _ _ _ _ _ Hinv) as [Hstack Hframes Hcells Hown Hst Hlx].
  pose proof (inv_frames _ _ _ _ _ Hinv) as Hf. destruct (Forall_cons_1 _ _ _ Hf) as [(c & Hc & Hu & Hl & Ht & He & Hp & Hk) _]. clear Hf.
  destruct (inv_stack _ _ _ _ _ Hinv) as [Hev _]. cbn in Hev.
  assert (not_running (run_tree r) stack) as Hnr by (eapply own_not_running; [by eapply inv_pop|done..]).
  rewrite Hc in Ha. destruct (cells ss' !! expr_addr x) as [c'|] eqn:Hc'; [|done].
  destruct Ha as (He' & Hp' & Ht' & Hl' & Hu').
  assert (forall b cb', cells ss' !! b = Some cb' -> b <> expr_addr x -> cells ss !! b = Some cb') as Hother
    by (intros b cb' E Hne; by rewrite <- Hb).
  split; [done| | | | |done].
  - apply frames_status; [done|]. eapply frame_ok_change; [exact Hb| |done|done]. intros c1 Hc1 _.
    exists c'. split; [done|]. by rewrite Hp'.
  - intros b cb Hcb. destruct (decide (b = expr_addr x)) as [->|Hne].
    + assert (cb = c') as -> by congruence. destruct (Hcells _ _ Hc) as [_ Hlxid].
      split; [|by rewrite Hl'].
      intros _. exists (run_tree r), k. rewrite lookup_insert_eq, Ht'. repeat split; auto.
    + pose proof (Hother _ _ Hcb Hne) as Hcb'. apply cell_inv_status; [|by eapply Hcells]. intros Hlive Hs.
      by apply Hne, (Hown b (expr_addr x) cb c (run_tree r)).
  - intros b1 b2 c1 c2 t E1 E2 L1 L2 T1 T2.
    assert (forall b cb, cells ss' !! b = Some cb -> live lxid cb -> expr_simple_state cb = Some t ->
      exists cb0, cells ss !! b = Some cb0 /\ live lxid cb0 /\ expr_simple_state cb0 = Some t) as Hback.
    { intros b cb E Hlive Hs. destruct (decide (b = expr_addr x)) as [->|Hne].
      - assert (cb = c') as -> by congruence. exists c. unfold live in *. rewrite <- He', <- Hl', <- Ht'. done.
      - exists cb. split; [by apply Hother|done]. }
    destruct (Hback _ _ E1 L1 T1) as (c1' & ? & ? & ?), (Hback _ _ E2 L2 T2) as (c2' & ? & ? & ?).
    by apply (Hown b1 b2 c1' c2' t).
  - intros t k' E. rewrite Hn. destruct (decide (t = run_tree r)) as [->|Hne].
    + by eapply Hst.
    + rewrite lookup_insert_ne in E by done. by eapply Hst.
Qed.

Lemma inv_abandon ss lxid f stack st used :
  Inv ss lxid (f :: stack) st used -> Inv ss lxid stack (abandon f st) used.
Proof.
  intros Hinv. destruct f as [x|x|x|x r]; try by apply inv_pop in Hinv.
  eapply inv_leave; [done|]. pose proof (inv_frames _ _ _ _ _ Hinv) as Hf.
  apply changes_refl. intros c. repeat split; auto. intros E1 E2. congruence.
Qed.

Lemma inv_transaction ss ss' lxid lxid' st used :
  Inv ss lxid [] st used -> neutral ss ss' -> lxid' ∉ used -> lxid' <> InvalidLocalTransactionId ->
  Inv ss' lxid' [] ∅ (lxid' :: used).
Proof.
  intros [_ _ Hcells _ _ _] [Hn Hc] Hnew Hvalid.
  assert (forall a c', cells ss' !! a = Some c' -> ~ live lxid' c' /\ cell_inv ∅ lxid' (lxid' :: used) c') as Hall.
  { intros a c' E. specialize (Hc a). rewrite E in Hc. destruct (cells ss !! a) as [c|] eqn:Ea; [|done].
    destruct Hc as (He & Hp & _ & _ & Hl). destruct (Hcells a c Ea) as [_ Hx].
    assert (~ live lxid' c') as Hdead.
    { intros [E1 _]. rewrite Hl in E1. destruct Hx as [E2|E2]; congruence. }
    split; [done|]. split; [done|rewrite Hl]. destruct Hx; [by left|by right; apply list_elem_of_further]. }
  split; [done|constructor| | |intros t k E; by rewrite lookup_empty in E|split; [left|done]].
  - intros a c' E. by destruct (Hall a c' E).
  - intros a b ca cb t Ea Eb La. by destruct (proj1 (Hall a ca Ea)).
Qed.

(** ** Every step keeps the invariant *)
Lemma prepared_ok x p b s s' :
  (put_cell x (cell_set_plan p) ;~ check_before x) s = Ok b s' ->
  changes (expr_addr x) (fun c c' => resets c c' /\ expr_plan c' <> None) (sess s) (sess s')
  /\ lxid_of s' = lxid_of s.
Proof.
  intros E. destruct (xbind_inv _ _ _ _ _ E) as ([] & s1 & E1 & E2). destruct (put_cell_sess _ _ _ _ E1) as [Q1 L1].
  unfold check_before in E2. destruct (xbind_inv _ _ _ _ _ E2) as ([] & s2 & E3 & E4).
  destruct (put_cell_sess _ _ _ _ E3) as [Q2 L2]. rewrite (is_simple_ok _ _ _ _ E4), Q2, Q1.
  split; [|congruence]. eapply changes_trans; [|apply changes_alter..].
  intros c1 c2 c3 -> ->. split; [|done]. by split; [|left|left].
Qed.

Lemma renewed_cell ss ss' a c :
  changes a renewed ss ss' -> cells ss !! a = Some c -> exists c', cells ss' !! a = Some c' /\ renewed c c'.
Proof. intros (_ & _ & Ha) Hc. rewrite Hc in Ha. destruct (cells ss' !! a) as [c'|]; [|done]. by exists c'. Qed.

Lemma changes_weaken a (P Q : simple_cell -> simple_cell -> Prop) ss ss' :
  changes a P ss ss' -> (forall c c', P c c' -> Q c c') -> changes a Q ss ss'.
Proof. intros Hc HPQ. by eapply changes_impl. Qed.

(** The top frame of an expression that is planned. *)
Lemma planning_top ss lxid f stack st used :
  Inv ss lxid (f :: stack) st used -> (f = Checking (frame_expr f) \/ f = Replanning (frame_expr f)) ->
  ~ evaluated_in (expr_addr (frame_expr f)) stack /\
  exists c, cells ss !! expr_addr (frame_expr f) = Some c /\ expr_plan c <> None.
Proof.
  intros Hinv Hf. destruct (inv_stack _ _ _ _ _ Hinv) as [Hev _]. split; [done|].
  destruct (Forall_cons_1 _ _ _ (inv_frames _ _ _ _ _ Hinv)) as [Hok _]. destruct Hf as [E|E]; rewrite E in Hok; exact Hok.
Qed.

Lemma begins_inv c x rest s s1 :
  inv c -> begins c x rest s s1 ->
  Inv (sess s1) (lxid_of s1) rest (c_status c) (c_lxids c) /\ ~ evaluated_in (expr_addr x) rest
  /\ lxid_of s1 = curlxid (c_world c) /\ next_tree (sess s1) = next_tree (session_of (c_world c))
  /\ exists cell, cells (sess s1) !! expr_addr x = Some cell /\ free_cell (lxid_of s1) cell
                  /\ expr_plan cell <> None.
Proof.
  unfold inv. intros Hinv [Hw Hb]. rewrite <- Hw in *. fold (sess s) (lxid_of s) in *.
  destruct Hb as [(<- & (cell0 & Hc0 & Hp0) & E)|[Hstk [cplan E]]].
  - destruct (eval_enter_ok _ _ _ _ E) as [(cell & Hc & He & Hfree & Hch) ->].
    pose proof (free_not_evaluated _ _ _ _ _ _ _ Hinv Hc Hfree) as Hev.
    split; [|split; [done|split; [done|split; [apply Hch|]]]].
    + eapply inv_change; [done..|]. eapply changes_weaken; [done|apply same_life_resets].
    + unfold session_cell in Hc0. assert (cell0 = cell) as -> by congruence.
      destruct Hch as (_ & _ & Ha). rewrite Hc in Ha. destruct (cells (sess s1) !! _) as [c'|]; [|done].
      exists c'. split; [done|]. destruct Ha as (_ & Hp & _ & Hu & Hl). unfold free_cell. by rewrite Hu, Hl, Hp.
  - destruct (replan_after_ok _ _ _ _ _ E) as [Hch ->]. rewrite Hstk in Hinv.
    destruct (planning_top _ _ _ _ _ _ Hinv) as (Hev & cell & Hc & Hp); [by right|]. cbn in Hev, Hc.
    destruct (renewed_cell _ _ _ _ Hch Hc) as (c' & Hc' & Hr & _ & Hl).
    split; [|split; [done|split; [done|split; [apply Hch|]]]].
    + eapply inv_change; [by eapply inv_pop|done..|]. eapply changes_weaken; [done|by intros ? ? []].
    + exists c'. split; [done|]. split; [|by apply (resets_plan _ _ Hr)]. intros _. rewrite Hl. intros E'.
      by apply (proj2 (inv_lxid _ _ _ _ _ Hinv)).
Qed.

Lemma begins_start_inv c x rest s s1 r s2 :
  inv c -> begins c x rest s s1 -> eval_start x s1 = Ok r s2 ->
  inv (push_eval x r (es_world s2) rest c) /\
  enterable (session_of (c_world c)) rest (c_status c) (run_tree r).
Proof.
  intros Hinv Hb E. destruct (begins_inv _ _ _ _ _ Hinv Hb) as (Hinv1 & Hev & Hlx & Hn & cell & Hc & Hfree & Hp).
  destruct (eval_start_ok _ _ _ _ E) as [Hstart Hl]. split.
  - unfold inv. cbn. fold (sess s2) (lxid_of s2). rewrite Hl. by eapply inv_started.
  - pose proof (started_enterable _ _ _ _ _ _ _ _ _ _ Hinv1 Hc Hfree Hev Hstart) as Hent.
    unfold enterable in *. by rewrite <- Hn.
Qed.

Lemma replan_inv x s s' lxid stack st used :
  Inv (sess s) lxid stack st used -> lxid = lxid_of s -> planned (sess s) x -> eval_enter x s = Ok Replan s' ->
  Inv (sess s') (lxid_of s') (Replanning x :: stack) st used.
Proof.
  intros Hinv -> (cell0 & Hc0 & Hp) E. destruct (eval_enter_ok _ _ _ _ E) as [(cell & Hc & He & Hfree & Hch) ->].
  pose proof (free_not_evaluated _ _ _ _ _ _ _ Hinv Hc Hfree) as Hev.
  unfold session_cell in Hc0. assert (cell0 = cell) as -> by congruence.
  apply inv_push; [by eapply inv_change|done|]. by apply (resets_keeps_plan _ _ _ _ Hch Hc Hp).
Qed.

(** The completion, good or bad, of planning. *)
Lemma planned_inv x s s' lxid stack st used f :
  Inv (sess s) lxid (f :: stack) st used -> f = Checking x \/ f = Replanning x ->
  changes (expr_addr x) resets (sess s) (sess s') -> Inv (sess s') lxid stack st used.
Proof.
  intros Hinv Hf Hch. assert (frame_expr f = x) as Hx by by destruct Hf as [-> | ->].
  destruct (planning_top _ _ _ _ _ _ Hinv) as (Hev & cell & Hc & Hp); [by rewrite Hx|]. rewrite Hx in *.
  eapply inv_change; [by eapply inv_pop|done..].
Qed.

(** Freeing the plan of an expression that is not in use. *)
Lemma jit_free_ok x s s' :
  (jit_free_plan x s = Ok tt s' \/ exists e, jit_free_plan x s = Err e s') ->
  (sess s' = sess s \/ changes (expr_addr x) (fun c c' => c' = cell_no_plan c) (sess s) (sess s'))
  /\ lxid_of s' = lxid_of s.
Proof.
  unfold jit_free_plan, xbind. intros E.
  destruct (get_cell x s) as [c s1|e s1| |] eqn:E1; [| |by destruct E as [E|[e E]]..].
  - destruct (get_cell_ok _ _ _ _ E1) as [-> _]. destruct (expr_plan c) as [p|].
    + unfold xbind in E. pose proof (quiet_call _ s (quiet_freeplan p)) as Q.
      destruct (pg_call (SPI_freeplan p) s) as [[] s2|e s2| |]; try done; destruct Q as [Q L].
      * destruct E as [E|[e E]]; [|done]. destruct (put_cell_sess _ _ _ _ E) as [-> ->]. rewrite Q.
        split; [right; apply changes_alter|done].
      * destruct E as [E|[e' [= _ <-]]]; [done|]. split; [by left|done].
    + destruct E as [[= <-]|[e E]]; [|done]. split; [by left|done].
  - unfold get_cell, xbind, xget in E1. by destruct (session_cell _ _).
Qed.

Lemma inv_free ss ss' lxid stack st used x :
  Inv ss lxid stack st used -> ~ in_use x stack ->
  changes (expr_addr x) (fun c c' => c' = cell_no_plan c) ss ss' -> Inv ss' lxid stack st used.
Proof.
  intros [Hstack Hframes Hc Hown Hst Hlx] Hfree (Hn & Hb & Ha).
  assert (Hback : forall b cb', cells ss' !! b = Some cb' -> exists cb, cells ss !! b = Some cb
    /\ expr_simple_expr cb' = expr_simple_expr cb /\ expr_simple_state cb' = expr_simple_state cb
    /\ expr_simple_in_use cb' = expr_simple_in_use cb /\ expr_simple_lxid cb' = expr_simple_lxid cb).
  { intros b cb' E. destruct (decide (b = expr_addr x)) as [->|Hne]; [|exists cb'; by rewrite <- Hb].
    rewrite E in Ha. destruct (cells ss !! expr_addr x) as [c|]; [|done]. subst cb'. by exists c. }
  split; [done| | | |intros t k E; rewrite Hn; by eapply Hst|done].
  - rewrite list.Forall_forall in *. intros f Hin. specialize (Hframes f Hin).
    assert (Hne : expr_addr (frame_expr f) <> expr_addr x) by (intros E; apply Hfree; by exists f).
    destruct f as [y|y|y|y r]; cbn in *; [done|..]; by rewrite Hb.
  - intros b cb' E. destruct (Hback b cb' E) as (cb & Eb & He & Ht & Hu & Hl). destruct (Hc b cb Eb) as [H5 H7].
    unfold live in H5. split; unfold live; rewrite ?He, ?Ht, ?Hu, ?Hl; done.
  - intros b1 b2 c1 c2 t E1 E2 L1 L2 T1 T2.
    destruct (Hback b1 c1 E1) as (c1' & E1' & He1 & Ht1 & _ & Hl1), (Hback b2 c2 E2) as (c2' & E2' & He2 & Ht2 & _ & Hl2).
    unfold live in *. apply (Hown b1 b2 c1' c2' t); try done; try congruence; split; destruct L1, L2; congruence.
Qed.

Lemma prepared_inv x p b s s' lxid stack st used :
  Inv (sess s) lxid (Preparing x :: stack) st used ->
  (put_cell x (cell_set_plan p) ;~ check_before x) s = Ok b s' ->
  Inv (sess s') lxid ((if b : bool then [Checking x] else []) ++ stack) st used.
Proof.
  intros Hinv E. destruct (prepared_ok _ _ _ _ _ E) as [Hch _].
  destruct (inv_stack _ _ _ _ _ Hinv) as [Hev _]. cbn in Hev.
  assert (Inv (sess s') lxid stack st used) as Hinv'.
  { eapply inv_change; [by eapply inv_pop|done|eapply changes_weaken; [done|by intros ? ? []]]. }
  destruct b; [|done]. apply inv_push; [done|done|]. cbn.
  assert (exists c, cells (sess s) !! expr_addr x = Some c) as [c Hc].
  { destruct (xbind_inv _ _ _ _ _ E) as ([] & s1 & E1 & E2). destruct (put_cell_sess _ _ _ _ E1) as [Q1 _].
    unfold check_before in E2. destruct (xbind_inv _ _ _ _ _ E2) as ([] & s2 & E3 & E4).
    destruct (put_cell_sess _ _ _ _ E3) as [Q2 _]. unfold is_simple, the_plan in E4.
    destruct (xbind_inv _ _ _ _ _ E4) as (? & s3 & E5 & _). destruct (xbind_inv _ _ _ _ _ E5) as (c2 & s4 & E6 & _).
    destruct (get_cell_ok _ _ _ _ E6) as [_ Hc2]. rewrite Q2, Q1 in Hc2. cbn in Hc2.
    rewrite !lookup_alter_eq in Hc2. destruct (cells (sess s) !! _) as [c|]; [by exists c|done]. }
  destruct Hch as (_ & _ & Ha). rewrite Hc in Ha. destruct (cells (sess s') !! _) as [c'|]; [|done].
  exists c'. by destruct Ha.
Qed.

Lemma begins_error_inv c x rest s s1 e s2 :
  inv c -> begins c x rest s s1 -> eval_start x s1 = Err e s2 ->
  inv (mk_config (es_world s2) rest (unused_tree s1 s2 (c_status c)) (c_lxids c)).
Proof.
  intros Hinv Hb E. destruct (begins_inv _ _ _ _ _ Hinv Hb) as (Hinv1 & Hev & _ & _ & cell & Hc & Hfree & _).
  destruct (eval_start_error _ _ _ _ E) as [Hl Hs]. unfold inv, unused_tree. cbn. fold (sess s2) (lxid_of s2).
  rewrite Hl. destruct Hs as [->|Hstart]; [by rewrite Nat.eqb_refl|].
  pose proof Hstart as (c0 & c' & Hc0 & He0 & _ & _ & _ & _ & _ & _ & Ht).
  destruct (next_tree (sess s2) =? next_tree (sess s1))%nat eqn:En; [|by apply (inv_retree _ _ _ _ _ _ _ _ _ _ _ Hinv1 Hc Hfree Hev Hstart)].
  apply Nat.eqb_eq in En. destruct Ht as [(Hlc & Hsc & _)|(_ & _ & E')]; [|lia].
  destruct (cell_live _ _ _ _ (inv_cells _ _ _ _ _ Hinv1 _ _ Hc0)) as (t & k & Et & Ek & _); [done|].
  apply (inv_status _ _ _ _ _ Hinv1) in Ek. assert (t = next_tree (sess s1)) as -> by congruence. lia.
Qed.

Lemma step_inv c c' : inv c -> step c c' -> inv c'.
Proof.
  intros Hinv Hstep. destruct Hstep as
    [x s s' Hw E|x s e s' Hw E|x rest s s1 r s2 Hb E|x rest s s1 e s2 Hb E|x s s' Hw Hpl E
    |x rest cplan s s' Hw Hk E|x rest cplan s e s' Hw Hk E|x r rest s s' Hw Hk E|x cell Hc Hp
    |x p rest b s s' Hw Hk E|x cplan rest s s' Hw Hk E|x s s' Hw Hfree E|f rest Hk|w Hn Hl|w Hk Hn Hl Hv].
  3: by eapply begins_start_inv.
  3: by eapply begins_error_inv.
  all: unfold inv in *; cbn; try (rewrite <- Hw in Hinv; fold (sess s) (lxid_of s) in Hinv;
    fold (sess s') (lxid_of s')); try rewrite Hk in Hinv.
  - destruct (eval_enter_ok _ _ _ _ E) as [Hs Hl]. cbn in Hs. by rewrite Hs, Hl.
  - destruct (eval_enter_error _ _ _ _ E) as [Hs Hl]. by rewrite Hs, Hl.
  - eapply replan_inv; [done|done|by rewrite <- Hw in Hpl|done].
  - destruct (replan_after_ok _ _ _ _ _ E) as [Hs Hl]. rewrite Hs, Hl. by eapply inv_pop.
  - destruct (changing_err _ _ _ _ _ _ (replan_after_changing x cplan) E) as [Hch ->].
    eapply planned_inv; [done|by right|done].
  - destruct (eval_end_ok _ _ _ _ E) as [Hch ->]. eapply inv_leave; [done|].
    eapply changes_weaken; [done|]. by intros c1 c2 ->.
  - apply inv_push; [done|by eapply unplanned_not_evaluated|done].
  - destruct (prepared_ok _ _ _ _ _ E) as [_ ->]. by eapply prepared_inv.
  - assert (changes (expr_addr x) resets (sess s) (sess s') /\ lxid_of s' = lxid_of s) as [Hch ->].
    { destruct E as [E|[e E]]; [by eapply changing_ok; [apply check_after_changing|]
        |by eapply changing_err; [apply check_after_changing|]]. }
    eapply planned_inv; [done|by left|done].
  - destruct (jit_free_ok _ _ _ E) as [[Hs|Hch] ->]; [by rewrite Hs|by eapply inv_free].
  - by apply inv_abandon.
  - rewrite Hl. by eapply inv_neutral.
  - by eapply inv_transaction.
Qed.

(** ** Reachable configurations *)

(** A session in which no expression has been evaluated yet. *)
Definition unused_cell (c : simple_cell) : bool :=
  match expr_simple_expr c with None => expr_simple_lxid c =? InvalidLocalTransactionId | Some _ => false end.
Record initial (c : config world) : Prop := {
  init_stack : c_stack c = [];
  init_status : c_status c = ∅;
  init_lxids : c_lxids c = [curlxid (c_world c)];
  init_lxid : curlxid (c_world c) <> InvalidLocalTransactionId;
  init_cells a cell : cells (session_of (c_world c)) !! a = Some cell -> unused_cell cell = true
}.
Inductive reachable : config world -> Prop :=
  | reachable_initial c : initial c -> reachable c
  | reachable_step c c' : reachable c -> step c c' -> reachable c'.

Lemma initial_inv c : initial c -> inv c.
Proof.
  intros [Hk Hs Hx Hl Hc]. unfold inv. rewrite Hk, Hs, Hx.
  assert (forall a cell, cells (session_of (c_world c)) !! a = Some cell ->
    expr_simple_expr cell = None /\ expr_simple_lxid cell = InvalidLocalTransactionId) as Hunused.
  { intros a cell E. specialize (Hc a cell E). unfold unused_cell in Hc. destruct (expr_simple_expr cell); [done|].
    split; [done|by apply Z.eqb_eq]. }
  split; [done|constructor| | |by intros|split; [apply list_elem_of_here|done]].
  - intros a cell E. destruct (Hunused a cell E) as [He E']. split; [intros []; congruence|by left].
  - intros a b ca cb t E _ [_ L]. by destruct (Hunused a ca E).
Qed.
Lemma reachable_inv c : reachable c -> inv c.
Proof. induction 1 as [c Hc|c c' _ IH Hstep]; [by apply initial_inv|by eapply step_inv]. Qed.

(** C31: In every reachable state of a session, however functions recurse through
    planning and evaluation, raise errors, have plans freed by the compiler and end
    transactions: the tree that [exec_eval_simple_expr] is about to enter is one it has
    just built, or one that came to a regular end last time; it is neither being
    evaluated nor was it left by an error, and it does not belong to a past transaction.
    The condition is that the compiler frees the plan of an expression only while the
    expression is not in use ([step_free]).  It does not check that, and if it is not so
    the conclusion fails ([freeing_in_use] in file SimpleDemo). *)
Theorem simple_tree_never_reentered c x rest s s1 r s2 :
  reachable c -> begins c x rest s s1 -> eval_start x s1 = Ok r s2 ->
  enterable (session_of (c_world c)) rest (c_status c) (run_tree r).
Proof. intros Hr Hb E. by apply (begins_start_inv c x rest s s1 r s2 (reachable_inv c Hr) Hb E). Qed.

(** ** The function is a path of the system

    What an operation of PostgreSQL may do that runs functions: any steps, coming back
    to the stack it was called on; on an error, after what was unfinished was left. *)
Definition path (c c' : config world) : Prop := rtc step c c' /\ c_stack c' = c_stack c.
Definition runs_paths {A} (op : pg world A) : Prop := forall c,
  match op (c_world c) with
  | PgOk _ w | PgErr _ w => exists c', path c c' /\ c_world c' = w
  end.
(** What the callbacks' changes are: neutral. *)
Definition neutral_run {A} (m : exec (execstate world) A) : Prop := forall s,
  match m s with
  | Ok _ s' | Err _ s' => neutral (sess s) (sess s') /\ lxid_of s' = lxid_of s
  | _ => True
  end.
Inductive prog_paths : eval_prog world -> Prop :=
  | paths_done v : prog_paths (EvDone v)
  | paths_raise e : prog_paths (EvRaise e)
  | paths_param i k : (forall t, neutral_run (param_callback t i)) -> (forall v, prog_paths (k v)) ->
      prog_paths (EvParam i k)
  | paths_call op k : runs_paths op -> (forall v, prog_paths (k v)) -> prog_paths (EvCall op k).
Class RunsPaths : Prop := {
  plan_paths p : runs_paths (SPI_plan_get_cached_plan p);
  program_paths e : prog_paths (program e)
}.
Context `{!RunsPaths}.

Lemma path_refl c : path c c. Proof. split; [apply rtc_refl|done]. Qed.
Lemma path_trans c1 c2 c3 : path c1 c2 -> path c2 c3 -> path c1 c3.
Proof. intros [P1 S1] [P2 S2]. split; [by etrans|congruence]. Qed.

(** A computation that follows the system: from any configuration with its world. *)
Definition follows {A} (m : exec (execstate world) A) : Prop := forall s c, es_world s = c_world c ->
  match m s with
  | Ok _ s' | Err _ s' => exists c', path c c' /\ c_world c' = es_world s'
  | _ => True
  end.

Lemma follows_run t p : prog_paths p -> follows (run_program t p).
Proof.
  induction 1 as [v|e|i k Hcb _ IH|op k Hop _ IH]; intros s c Hw; cbn.
  - exists c. by split; [apply path_refl|].
  - exists c. by split; [apply path_refl|].
  - unfold xbind. pose proof (Hcb t s) as Hn. destruct (param_callback t i s) as [v s1|e s1| |]; try done.
    + destruct Hn as [Hn Hl]. assert (step c (with_c_world (es_world s1) c)) as Hstep
        by (apply step_neutral; [by rewrite <- Hw|by rewrite <- Hw]).
      specialize (IH v s1 (with_c_world (es_world s1) c) eq_refl). destruct (run_program t (k v) s1); try done;
        destruct IH as (c' & Hp & Hc'); exists c'; (split; [|done]);
        (eapply path_trans; [|exact Hp]); (split; [by apply rtc_once|done]).
    + destruct Hn as [Hn Hl]. exists (with_c_world (es_world s1) c). split; [|done]. split; [|done].
      apply rtc_once, step_neutral; by rewrite <- Hw.
  - unfold xbind, pg_call. specialize (Hop c). rewrite <- Hw in Hop.
    destruct (op (es_world s)) as [v w|e w]; destruct Hop as (c1 & Hp1 & Hw1).
    + specialize (IH v (with_world w s) c1). rewrite Hw1 in IH. specialize (IH ltac:(by destruct s)).
      destruct (run_program t (k v) _); try done; destruct IH as (c' & Hp & Hc'); exists c';
        (split; [by eapply path_trans|done]).
    + exists c1. split; [done|]. rewrite Hw1. by destruct s.
Qed.

(** The evaluation proper, from its beginning to its end or to an error. *)
Lemma eval_tree_follows c x rest s s1 :
  begins c x rest s s1 ->
  match eval_tree x s1 with
  | Ok _ s' | Err _ s' => exists c', rtc step c c' /\ c_stack c' = rest /\ c_world c' = es_world s'
  | _ => True
  end.
Proof.
  intros Hb. unfold eval_tree, xbind.
  destruct (eval_start x s1) as [r s2|e s2| |] eqn:Es; try done.
  2:{ eexists. split; [apply rtc_once; by eapply step_start_error|done]. }
  pose proof (step_evaluate c x rest s s1 r s2 Hb Es) as Hstep.
  pose proof (follows_run (run_tree r) (program (run_expr r)) (program_paths _) s2 (push_eval x r (es_world s2) rest c)
    eq_refl) as Hrun. unfold ExecEvalExpr.
  destruct (run_program _ _ s2) as [v s3|e s3| |] eqn:Er; try done.
  - destruct Hrun as (c2 & [Hp Hst] & Hw). cbn in Hst.
    destruct (eval_end x r s3) as [[] s4|e s4| |] eqn:Ee; try done; cbn;
      (eexists; split; [eapply rtc_l; [exact Hstep|]; eapply rtc_r; [exact Hp|]|]).
    + eapply (step_end c2 x r rest s3 s4); [by rewrite Hw|done|by left].
    + done.
    + eapply (step_end c2 x r rest s3 s4); [by rewrite Hw|done|right; by exists e].
    + done.
  - destruct Hrun as (c2 & [Hp Hst] & Hw). cbn in Hst.
    eexists. split; [eapply rtc_l; [exact Hstep|]; eapply rtc_r; [exact Hp|by eapply step_unwind]|].
    by split.
Qed.

(** A run of [exec_eval_simple_expr] on a planned expression is a path of the transition
    system, provided that what the planner and the executor run meanwhile follows the
    system too: the steps are the parts of the function, in its order. *)
Lemma eval_simple_expr_follows x s c :
  es_world s = c_world c -> planned (session_of (c_world c)) x ->
  match eval_simple_expr x s with
  | Ok _ s' | Err _ s' => exists c', path c c' /\ c_world c' = es_world s'
  | _ => True
  end.
Proof.
  intros Hw Hpl. unfold eval_simple_expr, xbind.
  destruct (eval_enter x s) as [v s1|e s1| |] eqn:E; try done.
  2:{ eexists. split; [split; [apply rtc_once; by eapply step_enter_error|done]|done]. }
  destruct v.
  - eexists. split; [split; [apply rtc_once; by eapply step_not_simple|done]|done].
  - assert (begins c x (c_stack c) s s1) as Hb by (split; [done|by left]).
    pose proof (eval_tree_follows c x _ s s1 Hb) as Ht.
    destruct (eval_tree x s1); try done; destruct Ht as (c' & ? & ? & ?); by exists c'.
  - set (c1 := with_stack_of (es_world s1) (Replanning x :: c_stack c) c).
    assert (step c c1) as Hstep by by eapply step_replan.
    assert (forall c2 s2 cplan, rtc step c1 c2 -> c_stack c2 = c_stack c1 -> es_world s2 = c_world c2 ->
      match (ok <~ replan_after x cplan; if ok : bool then eval_tree x else xret None) s2 with
      | Ok _ s' | Err _ s' => exists c', path c c' /\ c_world c' = es_world s'
      | _ => True
      end) as Hafter.
    { intros c2 s2 cplan Hp Hst Hw2. unfold xbind.
      assert (rtc step c c2) as Hp' by by eapply rtc_l.
      destruct (replan_after x cplan s2) as [b s3|e s3| |] eqn:Er; try done.
      - destruct b.
        + assert (begins c2 x (c_stack c) s2 s3) as Hb by (split; [done|right; split; [done|by exists cplan]]).
          pose proof (eval_tree_follows c2 x _ s2 s3 Hb) as Ht.
          destruct (eval_tree x s3); try done; destruct Ht as (c' & ? & ? & ?); exists c';
            (split; [split; [by etrans|done]|done]).
        + eexists. split; [split; [eapply rtc_r; [exact Hp'|by apply (step_not_replanned c2 x (c_stack c) cplan s2 s3)]|done]|done].
      - eexists. split; [split; [eapply rtc_r; [exact Hp'|by apply (step_replan_error c2 x (c_stack c) cplan s2 e s3)]|done]|done]. }
    unfold replan, xbind. destruct (the_plan x s1) as [p s2|e s2| |] eqn:Ep; try done.
    + assert (s2 = s1) as ->.
      { unfold the_plan in Ep. destruct (xbind_inv _ _ _ _ _ Ep) as (cell & s3 & E1 & E2).
        destruct (get_cell_ok _ _ _ _ E1) as [-> _]. destruct (expr_plan cell); [|done]. by injection E2 as _ <-. }
      unfold pg_call. pose proof (plan_paths p c1) as Hplan. cbn in Hplan.
      destruct (SPI_plan_get_cached_plan p (es_world s1)) as [cplan w|e w]; destruct Hplan as (c2 & [Hp Hst] & Hw2).
      * specialize (Hafter c2 (with_world w s1) cplan Hp Hst). unfold xbind in Hafter. apply Hafter.
        rewrite Hw2. by destruct s1.
      * exists (with_stack_of (c_world c2) (c_stack c) c2).
        assert (step c2 (with_stack_of (c_world c2) (c_stack c) c2)) as Hpop by by apply (step_unwind c2 (Replanning x)).
        split; [split; [eapply rtc_l; [exact Hstep|]; by eapply rtc_r|done]|]. cbn. rewrite Hw2. by destruct s1.
    + exfalso. unfold the_plan in Ep. destruct (xbind_err _ _ _ _ _ Ep) as [E1|(cell & s3 & _ & E2)];
        [|by destruct (expr_plan cell)].
      unfold get_cell, xbind, xget in E1. by destruct (session_cell _ _).
Qed.
End steps.
