(* ===== verification/SimpleDemo.v ===== *)
(** * Simple expressions: an example session

    A session with one expression, [f(x)], over one varlena variable [x]; the executor
    asks for [x] and passes it on to a function.  The theorems about parameters and
    simple expressions are exercised on it. *)

From Stdlib Require Import ZArith Lia Ascii.
From stdpp Require Import gmap.
From S2P Require Import Prelude Ast Expr Exec Assign Call Params SimpleExpr Demo ParamProps SimpleSteps.
#[local] Open Scope Z_scope.

Module SimpleDemo.

Record world := mk_world { w_session : session; w_lxid : Z; w_valid : bool }.

(** Words from 1000 are read/write pointers, and 1000 more makes them read-only. *)
Definition rw (v : Datum) : bool := (1000 <=? v) && (v <? 2000).
Definition read_only (v : Datum) : Datum := if rw v then v + 1000 else v.

Definition value_of (s : execstate world) : Datum :=
  match es_datums s !! 1%nat with Some (DTYPE_VAR v) => Ast.value v | _ => 0 end.
#[export] Instance env : PgEnv world :=
  Demo.env_for (fun _ => xret None)
    (fun _ => fun s => Err (mk_error ERRCODE_FEATURE_NOT_SUPPORTED "no queries") s)
    (fun _ w => w) rw read_only.
#[export] Instance calls : CallEnv world := Demo.call_env_for env.

Definition text : UPLpgSQL_type := mk_type "text" 25 TTYPE_SCALAR (-1) false "b"%char false (-1).
Definition datums (x : Datum) : list UPLpgSQL_datum :=
  [Demo.local 0 "found" Demo.boolean 0; Demo.local 1 "x" text x].
Definition state (x : Datum) (arg : option UPLpgSQL_expr) (w : world) : execstate world :=
  mk_execstate (datums x) 0 0 true INT4OID false false INT4OID false true None None 0 0 None None 1 false None None
    false arg w.

(** The assignment [x := f(x)], whose target is local. *)
Definition fx : UPLpgSQL_expr := mk_expr "f(x)" 1 true false [1%nat].
Definition tree : Expr := FuncExpr (F_OTHER 20000) 25 0 [Param PARAM_EXTERN 2 25].
Definition node : param_node := mk_pnode 0 PARAM_EXTERN 2 25.
Definition done {A} (a : A) : pg world A := fun w => PgOk a w.

#[export] Instance params : ParamEnv world := {|
  session_of := w_session;
  set_session ss w := mk_world ss (w_lxid w) (w_valid w);
  session_set _ _ := eq_refl;
  expr_addr e := String.length (query e);
  expression_params e := match e with FuncExpr _ _ _ [Param k i t] => [mk_pnode 0 k i t] | _ => [] end;
  oid_of f := match f with F_OTHER oid => oid | _ => 1 end;
  refcontainertype _ := InvalidOid;
  get_typsubscript _ := InvalidOid;
  get_func_support _ := InvalidOid;
  modify_in_place _ _ := done None
|}.

Definition query_tree : Query :=
  mk_query true false false false false false false false false false false false
    false false false false false false [tree].

(** One plan, number 1, of the one expression; transactions have one subtransaction. *)
Definition simple_with (run : Expr -> eval_prog world) : SimpleEnv world := {|
  curlxid := w_lxid;
  SPI_prepare_keep _ _ := done (Some 1%nat);
  SPI_plan_get_plan_sources _ _ := [(1%nat, [query_tree])];
  SPI_plan_get_cached_plan _ := done 1%nat;
  CachedPlanIsSimplyValid _ _ _ := fun w => PgOk (w_valid w) w;
  CachedPlanAllowsSimpleValidityCheck _ _ := done true;
  ReleaseCachedPlan _ _ := done tt;
  planTree _ _ := Result [tree];
  exprType _ := 25;
  exprTypmod _ := -1;
  contain_mutable_functions _ := true;
  EnsurePortalSnapshotExists := done tt;
  CommandCounterIncrement := done tt;
  PushActiveSnapshot := done tt;
  PopActiveSnapshot := done tt;
  program := run;
  CreateExecutorState := done 1%nat;
  ResourceOwnerCreate := done 1%nat;
  CreateExprContext _ := done 1%nat;
  FreeExprContext _ _ := done tt;
  FreeExecutorState _ := done tt;
  ReleaseAllPlanCacheRefsInOwner _ := done tt;
  SPI_freeplan _ := done tt;
  GetCurrentSubTransactionId _ := 1
|}.

#[export] Instance simple : SimpleEnv world :=
  simple_with (fun e => match e with FuncExpr _ _ _ _ => EvParam 0 EvDone | _ => EvDone (0, true) end).
(** A tree that calls a function without looking at a parameter. *)
Definition calling : SimpleEnv world := simple_with (fun _ => EvCall (done (5, false)) EvDone).

#[export] Instance read_only_laws : ReadOnlyLaws world.
Proof.
  split.
  - intros w v null typlen. cbn. unfold read_only. destruct (negb null); [|done]. destruct (typlen =? -1); [|done].
    cbn. intros E. by rewrite E.
  - intros w v. cbn. unfold read_only. destruct (rw v) eqn:E; [|done]. unfold rw in *.
    apply andb_prop in E as [E1 E2]. apply andb_false_intro2. lia.
Qed.
#[export] Instance quiet_env run : @QuietEnv _ _ _ _ (simple_with run).
Proof. split; intros; done. Qed.
Lemma calling_paths : @RunsPaths _ _ _ _ calling.
Proof.
  assert (forall A (v : A) c, exists c', @path _ _ _ _ calling c c' /\ c_world c' = c_world c) as Hstay
    by (intros A v c; exists c; split; [apply path_refl|done]).
  split; [by intros p c; apply (Hstay _ tt)|]. intros e. apply paths_call; [by intros c; apply (Hstay _ tt)|constructor].
Qed.

(** The cell of the expression before it is prepared. *)
Definition new_cell : simple_cell :=
  mk_cell None UPLPGSQL_RWOPT_UNKNOWN None None None None 0 None false 0 0 (-1) false.
Definition fresh_session : session := mk_session {[4%nat := new_cell]} ∅ 0 [] None None.
Definition start : world := mk_world fresh_session 1 true.

Definition final {A} (o : outcome (execstate world) A) : execstate world :=
  match o with Ok _ s | Err _ s => s | _ => state 0 None start end.

(** Prepared; evaluated once, [x] being a read/write object; and once more. *)
Definition prepared : execstate world := final (prepare_plan fx 0 (state 1005 None start)).
Definition once : outcome (execstate world) (option typed_value) := eval_simple_expr fx prepared.
Definition twice : outcome (execstate world) (option typed_value) :=
  eval_simple_expr fx (state 7 None (es_world (final once))).

(** The object is handed over, and [x] is NULL until the assignment. *)
Example transferred : exists s, once = Ok (Some (mk_tv 1005 false 25 (-1))) s
  /\ es_datums s !! 1%nat = Some (DTYPE_VAR (set_value 0 true false
       (mk_var (mk_variable 1 "x" false false None) text None (-1) 0 1005 false false PROMISE_NONE))).
Proof. eexists. split; vm_compute; reflexivity. Qed.
Example same_tree : exists s, twice = Ok (Some (mk_tv 7 false 25 (-1))) s
  /\ next_tree (session_of (es_world s)) = 1%nat.
Proof. eexists. split; vm_compute; reflexivity. Qed.

(** ** The theorems on the example *)
Definition op_check : cparam := mk_cparam param_eval_var_check fx node 2 25.
Lemma param_callbacks_agree_witness :
  eval_step 0 0 op_check (state 7 (Some fx) (es_world prepared))
  = param_reference op_check (state 7 (Some fx) (es_world prepared))
  /\ param_reference op_check (state 7 (Some fx) (es_world prepared))
     = Ok (7, false) (state 7 (Some fx) (es_world prepared)).
Proof.
  split; [|vm_compute; reflexivity].
  apply (param_callbacks_agree 0 0 node op_check (Demo.local 1 "x" text 7) _ (state 7 (Some fx) (es_world prepared)));
    [vm_compute; reflexivity|reflexivity|reflexivity|intros _; reflexivity].
Defined.

Lemma quiet_done f r : keeps_session (modify_in_place f r).
Proof. by intros w a w' [= _ <-]. Qed.
Lemma quiet_transfer v : keeps_session (TransferExpandedObject v).
Proof. by intros w a w' [= _ <-]. Qed.

(** The cell once [f(x)] has been found simple. *)
Definition simple_now : simple_cell := default new_cell (session_cell (session_of (es_world prepared)) fx).
Lemma transfer_needs_sole_reference_witness : exists c',
  cell_of fx (final (exec_check_rw_parameter fx 2 prepared)) = Some c'
  /\ c' = with_rw UPLPGSQL_RWOPT_TRANSFER (Some 0%nat) simple_now.
Proof.
  destruct (transfer_needs_sole_reference quiet_done fx tree simple_now prepared
    (final (exec_check_rw_parameter fx 2 prepared))) as (c' & Hc & Hd);
    [vm_compute; reflexivity|vm_compute; reflexivity|vm_compute; reflexivity|].
  exists c'. split; [exact Hc|exact Hd].
Defined.
(** Evaluating: before the tree is made, and after. *)
Definition entered_state : execstate world := final (eval_enter fx prepared).
Definition before_tree : execstate world := with_setup_arg (Some fx) entered_state.
Definition made_state : execstate world := final (ExecInitExprWithParams tree before_tree).
Definition started_state : execstate world := final (eval_start fx entered_state).
(** The parameter is read; the variable is assigned again; the parameter is read. *)
Definition read_state : execstate world := final (param_callback 0 0 made_state).
Definition assigned_state : execstate world := state 1006 (Some fx) (es_world read_state).
Definition read_again : execstate world := final (param_callback 0 0 assigned_state).
#[export] Instance quiet_reads : @QuietReads world _ _ _.
Proof. split; intros; by intros w a w' [= _ <-]. Qed.
Definition op_transfer : cparam := mk_cparam param_eval_var_transfer fx node 2 25.
Lemma one_read_write_parameter_witness :
  param_callback 0 0 made_state = Ok (1005, false) read_state
  /\ param_callback 0 0 assigned_state = Ok (1006, false) read_again
  /\ may_deliver_rw fx 0 read_state.
Proof.
  split; [vm_compute; reflexivity|]. split; [vm_compute; reflexivity|].
  apply (one_read_write_parameter quiet_done quiet_transfer fx tree simple_now 0 0 0 op_check op_transfer
    before_tree made_state made_state read_state assigned_state read_again);
    [vm_compute; reflexivity|vm_compute; reflexivity|vm_compute; reflexivity|discriminate|vm_compute; reflexivity
    |apply ev_none| |apply (ev_between _ _ _ read_state); [apply ev_none|vm_compute; reflexivity..]|].
  - exists (Demo.local 1 "x" text 1005), 1005. do 4 (split; [vm_compute; reflexivity|]). vm_compute. reflexivity.
  - exists (Demo.local 1 "x" text 1006), 1006. do 4 (split; [vm_compute; reflexivity|]). vm_compute. reflexivity.
Defined.

(** The example's first steps as configurations: prepared, checked. *)
Definition c_start : config world := mk_config start [] ∅ [1].
Definition c_preparing : config world := with_stack_of start [Preparing fx] c_start.
Definition checking_state : execstate world :=
  final ((put_cell fx (cell_set_plan 1) ;~ check_before fx) (state 1005 None start)).
Definition c_checking : config world := with_stack_of (es_world checking_state) [Checking fx] c_preparing.
Definition c_prepared : config world := with_stack_of (es_world (final (check_after fx 1 checking_state))) [] c_checking.
Lemma prepared_reachable : reachable c_prepared.
Proof.
  eapply reachable_step; [eapply reachable_step; [eapply reachable_step;
    [apply (reachable_initial c_start)|apply (step_prepare c_start fx new_cell); vm_compute; reflexivity]
    |apply (step_prepared c_preparing fx 1 [] true (state 1005 None start) checking_state); vm_compute; reflexivity]
    |apply (step_checked c_checking fx 1 [] checking_state (final (check_after fx 1 checking_state)));
     [reflexivity|reflexivity|left; vm_compute; reflexivity]].
  split; try reflexivity; [discriminate|]. intros a cell E.
  change (({[4%nat := new_cell]} : gmap nat simple_cell) !! a = Some cell) in E.
  apply lookup_singleton_Some in E as [_ <-]. reflexivity.
Qed.
Lemma simple_tree_never_reentered_witness :
  enterable (session_of (c_world c_prepared)) [] (c_status c_prepared) 0.
Proof.
  apply (simple_tree_never_reentered c_prepared fx [] prepared entered_state
    (mk_running 0 tree true None 25 (-1)) started_state prepared_reachable).
  - split; [vm_compute; reflexivity|]. left. split; [reflexivity|]. split; [|vm_compute; reflexivity].
    exists simple_now. split; [vm_compute; reflexivity|vm_compute; discriminate].
  - vm_compute. reflexivity.
Defined.

(** *** Freeing a plan that is in use

    The compiler does not look whether the expression whose plan it frees is in use. *)
Inductive unchecked_step (c : config world) : config world -> Prop :=
  | unchecked c' : step c c' -> unchecked_step c c'
  | unchecked_free x s s' : es_world s = c_world c -> jit_free_plan x s = Ok tt s' ->
      unchecked_step c (with_c_world (es_world s') c).

(** [f] evaluates [f(x)], which calls [f] again; compiling that call frees the plan.  The
    inner [f] prepares the expression anew, which makes it look free, and evaluates it
    in a second tree, which an error leaves broken; the error is caught.  The end of the
    outer evaluation then marks the expression as free, and the broken tree, now the
    expression's, is entered. *)
Definition outer : running := mk_running 0 tree true None 25 (-1).
Definition inner : running := mk_running 1 tree true None 25 (-1).
Definition in_session (w : world) : execstate world := state 1005 None w.
Definition c_outer : config world := push_eval fx outer (es_world started_state) [] c_prepared.
Definition freed_state : execstate world := final (jit_free_plan fx (in_session (c_world c_outer))).
Definition c_freed : config world := with_c_world (es_world freed_state) c_outer.
Definition c_again : config world := with_stack_of (c_world c_freed) (Preparing fx :: c_stack c_freed) c_freed.
Definition again_state : execstate world :=
  final ((put_cell fx (cell_set_plan 1) ;~ check_before fx) (in_session (c_world c_again))).
Definition c_rechecking : config world :=
  with_stack_of (es_world again_state) (Checking fx :: c_stack c_freed) c_again.
Definition c_reprepared : config world :=
  with_stack_of (es_world (final (check_after fx 1 again_state))) (c_stack c_freed) c_rechecking.
Definition reentered_state : execstate world := final (eval_enter fx (in_session (c_world c_reprepared))).
Definition restarted_state : execstate world := final (eval_start fx reentered_state).
Definition c_inner : config world :=
  push_eval fx inner (es_world restarted_state) (c_stack c_freed) c_reprepared.
Definition c_caught : config world :=
  mk_config (c_world c_inner) (c_stack c_freed) (abandon (Evaluating fx inner) (c_status c_inner)) (c_lxids c_inner).
Definition ended_state : execstate world := final (eval_end fx outer (in_session (c_world c_caught))).
Definition c_ended : config world :=
  mk_config (es_world ended_state) [] (<[0%nat := Idle]> (c_status c_caught)) (c_lxids c_caught).
Definition last_state : execstate world := final (eval_enter fx (in_session (c_world c_ended))).

Lemma ended_reached : rtc unchecked_step c_prepared c_ended.
Proof.
  eapply rtc_l; [apply unchecked, (step_evaluate c_prepared fx [] prepared entered_state outer started_state)|].
  { split; [vm_compute; reflexivity|]. left. split; [reflexivity|]. split; [|vm_compute; reflexivity].
    exists simple_now. split; [vm_compute; reflexivity|vm_compute; discriminate]. }
  { vm_compute; reflexivity. }
  eapply rtc_l; [apply (unchecked_free c_outer fx (in_session (c_world c_outer)) freed_state); vm_compute; reflexivity|].
  eapply rtc_l; [apply unchecked; eapply (step_prepare c_freed fx); vm_compute; reflexivity|].
  eapply rtc_l; [apply unchecked, (step_prepared c_again fx 1 (c_stack c_freed) true (in_session (c_world c_again)) again_state);
    vm_compute; reflexivity|].
  eapply rtc_l; [apply unchecked, (step_checked c_rechecking fx 1 (c_stack c_freed) again_state (final (check_after fx 1 again_state)));
    [vm_compute; reflexivity|reflexivity|left; vm_compute; reflexivity]|].
  eapply rtc_l; [apply unchecked, (step_evaluate c_reprepared fx (c_stack c_freed) (in_session (c_world c_reprepared))
    reentered_state inner restarted_state)|].
  { split; [vm_compute; reflexivity|]. left. split; [reflexivity|]. split; [|vm_compute; reflexivity].
    eexists. split; [vm_compute; reflexivity|vm_compute; discriminate]. }
  { vm_compute; reflexivity. }
  eapply rtc_l; [apply unchecked, (step_unwind c_inner (Evaluating fx inner) (c_stack c_freed)); reflexivity|].
  eapply rtc_l; [apply unchecked, (step_end c_caught fx outer [] (in_session (c_world c_caught)) ended_state);
    [vm_compute; reflexivity|reflexivity|left; vm_compute; reflexivity]|].
  apply rtc_refl.
Qed.

(** The tree that is entered was left by an error. *)
Example freeing_in_use :
  reachable c_prepared /\ rtc unchecked_step c_prepared c_ended
  /\ exists r s, begins c_ended fx [] (in_session (c_world c_ended)) last_state
       /\ eval_start fx last_state = Ok r s /\ c_status c_ended !! run_tree r = Some Broken.
Proof.
  split; [exact prepared_reachable|]. split; [exact ended_reached|].
  exists inner, (final (eval_start fx last_state)). split; [|split; vm_compute; reflexivity].
  split; [vm_compute; reflexivity|]. left. split; [reflexivity|]. split; [|vm_compute; reflexivity].
  eexists. split; [vm_compute; reflexivity|vm_compute; discriminate].
Qed.

Definition called : execstate world := final (@eval_simple_expr _ _ _ _ calling fx prepared).
Lemma eval_simple_expr_follows_witness :
  @eval_simple_expr _ _ _ _ calling fx prepared = Ok (Some (mk_tv 5 false 25 (-1))) called /\
  exists c', @path _ _ _ _ calling c_prepared c' /\ c_world c' = es_world called.
Proof.
  assert (@eval_simple_expr _ _ _ _ calling fx prepared = Ok (Some (mk_tv 5 false 25 (-1))) called) as Eo
    by (vm_compute; reflexivity).
  assert (es_world prepared = c_world c_prepared) as E by (vm_compute; reflexivity).
  assert (planned (session_of (c_world c_prepared)) fx) as Hpl
    by (exists simple_now; split; [vm_compute; reflexivity|vm_compute; discriminate]).
  pose proof (@eval_simple_expr_follows _ _ _ _ calling calling_paths fx prepared c_prepared E Hpl) as P.
  rewrite Eo in P. split; [exact Eo|exact P].
Defined.
End SimpleDemo.
